(** * equalify-viewer: violation parser, ignore-state store and dataset loader

    A shallow embedding of the TypeScript sources
      - [parseMessages]                         (violation message parser),
      - [getIgnoredIds], [toggleIgnoreId], [bulkIgnoreIds]   (ignore-state store),
      - [loadDataset]                           (dataset loader, both revisions),
      - [Dashboard], [Overview], [TableSection], [ChartSection]
                                                (derived state of the components),
    together with the parts of the JavaScript platform they call
    ([String.prototype] methods, [JSON], [URL], [localStorage], [fetch]).

    Conventions.  A JavaScript string is a sequence of code units; the model
    uses [string], whose characters are the code units 0..255.  Case mapping
    is the ASCII one in the parser and the loader; the components use
    [JsData.lowerCase], which maps the letters of U+00C0-U+00DE too.
    JSON numbers are integers ([Z]).  A promise that
    rejects, or a statement that throws, is an [outcome] built with
    [Throws]. *)

From Stdlib Require Import String Ascii List ZArith NArith Lia Bool Sorted.
From stdpp Require Import base option list strings pretty gmap.

Open Scope string_scope.
Open Scope list_scope.

(* ===================================================================== *)
(** * Part I: the model                                                   *)
(* ===================================================================== *)

(** ** [String.prototype] *)
Module JsString.

(** White space of [trim] and of the regular expression class [\s],
    restricted to the code units of the model. *)
Definition is_ws (c : ascii) : bool :=
  let n := N_of_ascii c in
  ((9 <=? n) && (n <=? 13) || (n =? 32) || (n =? 160))%N.

(** The regular expression class [\d]. *)
Definition is_digit (c : ascii) : bool :=
  let n := N_of_ascii c in ((48 <=? n) && (n <=? 57))%N.

Definition toUpperChar (c : ascii) : ascii :=
  let n := N_of_ascii c in
  if ((97 <=? n) && (n <=? 122))%N then ascii_of_N (n - 32) else c.

Definition toLowerChar (c : ascii) : ascii :=
  let n := N_of_ascii c in
  if ((65 <=? n) && (n <=? 90))%N then ascii_of_N (n + 32) else c.

Fixpoint map_chars (f : ascii -> ascii) (s : string) : string :=
  match s with
  | EmptyString => EmptyString
  | String c s' => String (f c) (map_chars f s')
  end.

Definition toUpperCase : string -> string := map_chars toUpperChar.
Definition toLowerCase : string -> string := map_chars toLowerChar.

(** [s.startsWith(p)] *)
Fixpoint startsWith (s p : string) : bool :=
  match p, s with
  | EmptyString, _ => true
  | String _ _, EmptyString => false
  | String a p', String b s' => if Ascii.eqb a b then startsWith s' p' else false
  end.

Fixpoint drop (n : nat) (s : string) : string :=
  match n, s with
  | O, _ => s
  | S _, EmptyString => EmptyString
  | S n', String _ s' => drop n' s'
  end.

Fixpoint take (n : nat) (s : string) : string :=
  match n, s with
  | O, _ => EmptyString
  | S _, EmptyString => EmptyString
  | S n', String c s' => String c (take n' s')
  end.

(** [s.substring(a, b)]: both indices are clamped to the length and swapped
    when [a > b]. *)
Definition substring (s : string) (a b : nat) : string :=
  let lo := Nat.min a b in
  let hi := Nat.max a b in
  take (hi - lo) (drop lo s).

(** [s.substring(a)] and [s.slice(a)] for [a >= 0]. *)
Definition substring_from (s : string) (a : nat) : string := drop a s.

(** [s.charAt(0)] *)
Definition charAt0 (s : string) : string := take 1 s.

(** [s.endsWith(p)] *)
Definition endsWith (s p : string) : bool :=
  (String.length p <=? String.length s)%nat &&
  String.eqb (drop (String.length s - String.length p) s) p.

(** [s.indexOf(p)]: [None] stands for [-1]. *)
Fixpoint indexOf (s p : string) : option nat :=
  if startsWith s p then Some O
  else match s with
       | EmptyString => None
       | String _ s' => option_map S (indexOf s' p)
       end.

(** [s.includes(p)] *)
Definition includes (s p : string) : bool :=
  match indexOf s p with Some _ => true | None => false end.

(** [s.replace(p, r)] with a string pattern: the first occurrence only.
    (The replacement strings used by the sources contain no [$].) *)
Definition replace (s p r : string) : string :=
  match indexOf s p with
  | Some i => take i s +:+ r +:+ drop (i + String.length p) s
  | None => s
  end.

Fixpoint trimStart (s : string) : string :=
  match s with
  | EmptyString => EmptyString
  | String c s' => if is_ws c then trimStart s' else s
  end.

Fixpoint trimEnd (s : string) : string :=
  match s with
  | EmptyString => EmptyString
  | String c s' =>
      match trimEnd s' with
      | EmptyString => if is_ws c then EmptyString else String c EmptyString
      | t => String c t
      end
  end.

(** [s.trim()] *)
Definition trim (s : string) : string := trimEnd (trimStart s).

(** [s.split(sep)] for a non-empty separator string: the separator is looked
    for from left to right, the search resuming after each occurrence.
    [skip] counts the characters of the current occurrence still to be
    passed over, [cur] is the part being read. *)
Fixpoint split_go (sep : string) (skip : nat) (cur : string) (s : string)
  : list string :=
  match s with
  | EmptyString => [cur]
  | String c s' =>
      match skip with
      | S k => split_go sep k cur s'
      | O =>
          if startsWith s sep
          then cur :: split_go sep (String.length sep - 1) EmptyString s'
          else split_go sep O (cur +:+ String c EmptyString) s'
      end
  end.

Definition split (s sep : string) : list string := split_go sep O EmptyString s.

(** [parts.join(sep)] *)
Fixpoint join (sep : string) (parts : list string) : string :=
  match parts with
  | [] => EmptyString
  | [p] => p
  | p :: rest => p +:+ sep +:+ join sep rest
  end.

(** [s.split(/[-_]/)]: split at every character satisfying [is_sep]. *)
Fixpoint split_chars (is_sep : ascii -> bool) (cur : string) (s : string)
  : list string :=
  match s with
  | EmptyString => [cur]
  | String c s' =>
      if is_sep c then cur :: split_chars is_sep EmptyString s'
      else split_chars is_sep (cur +:+ String c EmptyString) s'
  end.

(** Truthiness of a string: [Boolean(s)], [!s]. *)
Definition truthy (s : string) : bool :=
  match s with EmptyString => false | _ => true end.

(** Number to string, for the integers of the model. *)
Definition of_nat (n : nat) : string := pretty n.
Definition of_Z (z : Z) : string := pretty z.

End JsString.

(** ** The violation message parser *)
Module ViolationParser.
Import JsString.

Record ParsedViolation := {
  id : string;
  rule : string;
  description : string;
  helpUrl : option string;
  raw : string
}.

(** Friendly titles of common rules, in the order of the object literal
    (which is the order [Object.entries] enumerates). *)
Definition FRIENDLY_TITLES : list (string * string) :=
  [ ("aria-labelledby attribute does not exist, references elements that do not exist or references elements that are empty", "Missing Label");
    ("Element has insufficient color contrast", "Low Color Contrast");
    ("Link Name Rule", "Missing Link Text");
    ("Image Alt Rule", "Missing Image Alt Text");
    ("Form element does not have an implicit (wrapped) <label>", "Missing Form Label");
    ("Form element does not have an explicit <label>", "Missing Form Label");
    ("Element has no title attribute", "Missing Title Attribute");
    ("aria-label attribute does not exist or is empty", "Missing ARIA Label");
    ("Element does not have text that is visible to screen readers", "No Screen Reader Text");
    ("Frame Title Rule", "Missing Frame Title");
    ("Button Name Rule", "Missing Button Name");
    ("Link In Text Block Rule", "Poor Link Distinction");
    ("Select Name Rule", "Missing Select Name");
    ("Aria Roles Rule", "Invalid ARIA Role");
    ("Nested Interactive Rule", "Nested Interactive Controls");
    (String.concat EmptyString
       ["Element's default semantics were not overridden with role=";
        String (ascii_of_nat 34) "none"; String (ascii_of_nat 34) " or role=";
        String (ascii_of_nat 34) "presentation"; String (ascii_of_nat 34) EmptyString],
     "Redundant Image");
    ("Aria Hidden Focus Rule", "Focusable Hidden Element");
    ("Role Img Alt Rule", "Missing Role=Img Alt Text");
    ("Aria Required Children Rule", "Missing Required ARIA Children") ].

Definition dquote : string := String (ascii_of_nat 34) EmptyString.
Definition newline : string := String (ascii_of_nat 10) EmptyString.

(** The global replace of two consecutive double quotes by one:
    [clean.replace(/QQ/g, Q)] where Q is the double-quote character. *)
Fixpoint unescape_quotes (s : string) : string :=
  match s with
  | String c (String d s'' as s') =>
      if Ascii.eqb c (ascii_of_nat 34) && Ascii.eqb d (ascii_of_nat 34)
      then String c (unescape_quotes s'')
      else String c (unescape_quotes s')
  | _ => s
  end.

(** The longest prefix whose characters satisfy [f]: a greedy character
    class. *)
Fixpoint take_while (f : ascii -> bool) (s : string) : string :=
  match s with
  | EmptyString => EmptyString
  | String c s' => if f c then String c (take_while f s') else EmptyString
  end.

(** The regular expression [/More information: (https?:\/\/[^\s]+)/] tried at
    the very start of [s]: the whole match and the captured group. *)
Definition help_url_at (s : string) : option (string * string) :=
  let label := "More information: " in
  if startsWith s label then
    let r := drop (String.length label) s in
    let scheme :=
      if startsWith r "https://" then Some "https://"
      else if startsWith r "http://" then Some "http://"
      else None in
    match scheme with
    | Some sc =>
        match take_while (fun c => negb (is_ws c)) (drop (String.length sc) r) with
        | EmptyString => None
        | tok => Some (label +:+ sc +:+ tok, sc +:+ tok)
        end
    | None => None
    end
  else None.

(** [clean.match(/More information: (https?:\/\/[^\s]+)/)]: the leftmost
    position at which the expression matches. *)
Fixpoint match_help_url (s : string) : option (string * string) :=
  match help_url_at s with
  | Some m => Some m
  | None =>
      match s with
      | EmptyString => None
      | String _ s' => match_help_url s'
      end
  end.

(** [clean.match(/^\[([^\]]+)\]/)]: the whole match and the captured tag. *)
Definition match_bracket (s : string) : option (string * string) :=
  match s with
  | String c r =>
      if Ascii.eqb c "["%char then
        match take_while (fun c => negb (Ascii.eqb c "]"%char)) r with
        | EmptyString => None
        | tag =>
            if startsWith (drop (String.length tag) r) "]"
            then Some ("[" +:+ tag +:+ "]", tag)
            else None
        end
      else None
  | EmptyString => None
  end.

(** The loop over [Object.entries(FRIENDLY_TITLES)]: the title of the first
    key that [clean] includes, [rule] unchanged when there is none. *)
Fixpoint friendly_title (entries : list (string * string)) (clean rule : string)
  : string :=
  match entries with
  | [] => rule
  | (key, title) :: rest =>
      if includes clean key then title else friendly_title rest clean rule
  end.

(** The block that determines the rule title: the rule and the text left
    in [clean]. *)
Definition resolveRule (clean : string) : string * string :=
  let rule := "General Violation" in
  match match_bracket clean with
  | Some (m0, m1) => (m1, trim (replace clean m0 EmptyString))
  | None =>
      let rule := friendly_title FRIENDLY_TITLES clean rule in
      let rule :=
        if String.eqb rule "General Violation" then
          match indexOf clean ":" with
          | Some colonIndex =>
              if (0 <? colonIndex)%nat && (colonIndex <? 50)%nat then
                let distinctName := substring clean 0 colonIndex in
                if negb (includes distinctName newline)
                   && (3 <? String.length distinctName)%nat
                then trim distinctName
                else rule
              else rule
          | None => rule
          end
        else rule in
      (rule, clean)
  end.

(** The text of a part before the help link is looked for: trimmed, without the
    leading [violation: ] and without the wrapping quotes. *)
Definition cleanPart (part : string) : string :=
  let clean := trim part in
  let clean :=
    if startsWith clean "violation: " then trim (substring_from clean 11)
    else clean in
  if startsWith clean dquote && endsWith clean dquote
  then unescape_quotes (substring clean 1 (String.length clean - 1))
  else clean.

(** The help link and the text left once it is removed. *)
Definition extractHelpUrl (clean : string) : option string * string :=
  match match_help_url clean with
  | Some (m0, m1) => (Some m1, trim (replace clean m0 EmptyString))
  | None => (None, clean)
  end.

(** The callback of [parts.map]. *)
Definition parsePart (index : nat) (part : string) : ParsedViolation :=
  let clean := cleanPart part in
  let '(helpUrl, clean) := extractHelpUrl clean in
  let '(rule, clean) := resolveRule clean in
  let description := clean in
  let description :=
    if endsWith description "."
    then substring description 0 (String.length description - 1)
    else description in
  {| id := "viol-" +:+ of_nat index;
     rule := rule;
     description := description;
     helpUrl := helpUrl;
     raw := part |}.

Definition parseMessages (rawMessage : string) : list ParsedViolation :=
  if negb (truthy rawMessage) then []
  else imap parsePart (split rawMessage " | ").

(** [getGroupTitle]: the distinct rules in order of first appearance. *)
Fixpoint distinct (l : list string) : list string :=
  match l with
  | [] => []
  | x :: rest => x :: filter (fun y => y <> x) (distinct rest)
  end.

Definition getGroupTitle (messages : string) : string :=
  join ", " (distinct (map rule (parseMessages messages))).

End ViolationParser.

(** ** JavaScript values, [JSON.parse] and [JSON.stringify] *)
Module Json.

#[local] Set Warnings "-register-all".

(** A value that [JSON.parse] or [response.json()] can produce.  The fields of
    an object are kept in insertion order, each key once. *)
Inductive json : Type :=
| JNull
| JBool (b : bool)
| JNum (z : Z)
| JStr (s : string)
| JArr (items : list json)
| JObj (fields : list (string * json)).

(** What a statement can throw. *)
Inductive error : Type :=
| SyntaxError
| TypeError
| Error (message : string).

(** The result of running code that may throw (of awaiting a promise that may
    reject). *)
Inductive outcome (A : Type) : Type :=
| Returns (a : A)
| Throws (e : error).
Arguments Returns {A} a.
Arguments Throws {A} e.

Definition bind {A B} (m : outcome A) (k : A -> outcome B) : outcome B :=
  match m with
  | Returns a => k a
  | Throws e => Throws e
  end.

(** [ToBoolean] of a value; [None] is [undefined]. *)
Definition truthy (v : option json) : bool :=
  match v with
  | None | Some JNull => false
  | Some (JBool b) => b
  | Some (JNum z) => negb (z =? 0)%Z
  | Some (JStr s) => JsString.truthy s
  | Some (JArr _) | Some (JObj _) => true
  end.

(** [a || b] *)
Definition or_else (a : option json) (b : option json) : option json :=
  if truthy a then a else b.

Fixpoint lookup_field (key : string) (fields : list (string * json)) : option json :=
  match fields with
  | [] => None
  | (k, v) :: rest => if String.eqb k key then Some v else lookup_field key rest
  end.

(** Reading a property whose name is none of the built-in ones ([length],
    methods): [v.key].  It throws on [null], is [undefined] on the other
    values that are not objects. *)
Definition prop (v : json) (key : string) : outcome (option json) :=
  match v with
  | JNull => Throws TypeError
  | JObj fields => Returns (lookup_field key fields)
  | _ => Returns None
  end.

(** [Array.isArray(v)] *)
Definition isArray (v : option json) : bool :=
  match v with Some (JArr _) => true | _ => false end.

(** [String(v)], as template literals and [join] compute it.  An array is
    converted by [join], which converts its elements from left to right and
    takes [null] for the empty string.  An object is converted by the method
    found under [toString], then by the one found under [valueOf].  An object
    that [JSON.parse] built inherits both from [Object.prototype]: the first
    gives [[object Object]].  When the object has a member of its own named
    [toString], that member is no function, and neither its own [valueOf]
    nor the inherited one, which returns the object itself, gives a primitive
    value: the conversion throws a [TypeError]. *)
Fixpoint toString (v : json) : outcome string :=
  match v with
  | JNull => Returns "null"
  | JBool true => Returns "true"
  | JBool false => Returns "false"
  | JNum z => Returns (JsString.of_Z z)
  | JStr s => Returns s
  | JArr items =>
      bind
        (fold_right
           (fun x rest =>
              bind (match x with JNull => Returns EmptyString | _ => toString x end)
                   (fun s => bind rest (fun l => Returns (s :: l))))
           (Returns []) items)
        (fun parts => Returns (JsString.join "," parts))
  | JObj fields =>
      match lookup_field "toString" fields with
      | Some _ => Throws TypeError
      | None => Returns "[object Object]"
      end
  end.

(** *** [JSON.stringify] *)

Definition backslash : ascii := ascii_of_nat 92.
Definition dq : ascii := ascii_of_nat 34.

Definition hex_digit (n : N) : ascii :=
  if (n <? 10)%N then ascii_of_N (48 + n) else ascii_of_N (87 + n).

Definition escape (c : ascii) : string := String backslash (String c EmptyString).

(** [QuoteJSONString] on one code unit. *)
Definition quote_char (c : ascii) : string :=
  let n := N_of_ascii c in
  if (n =? 34)%N || (n =? 92)%N then escape c
  else if (n =? 8)%N then escape "b"
  else if (n =? 9)%N then escape "t"
  else if (n =? 10)%N then escape "n"
  else if (n =? 12)%N then escape "f"
  else if (n =? 13)%N then escape "r"
  else if (n <? 32)%N then
    String backslash
      ("u00" +:+ String (hex_digit (n / 16)) (String (hex_digit (n mod 16)) EmptyString))
  else String c EmptyString.

Fixpoint quote_body (s : string) : string :=
  match s with
  | EmptyString => EmptyString
  | String c s' => quote_char c +:+ quote_body s'
  end.

Definition quote (s : string) : string :=
  String dq (quote_body s +:+ String dq EmptyString).

Fixpoint stringify (v : json) : string :=
  match v with
  | JNull => "null"
  | JBool true => "true"
  | JBool false => "false"
  | JNum z => JsString.of_Z z
  | JStr s => quote s
  | JArr items => "[" +:+ JsString.join "," (map stringify items) +:+ "]"
  | JObj fields =>
      "{" +:+ JsString.join ","
                (map (fun kv => quote (fst kv) +:+ ":" +:+ stringify (snd kv)) fields)
          +:+ "}"
  end.

(** *** [JSON.parse] *)

(** White space of the JSON grammar. *)
Definition is_json_ws (c : ascii) : bool :=
  let n := N_of_ascii c in ((n =? 32) || (n =? 9) || (n =? 10) || (n =? 13))%N.

Fixpoint skip_ws (s : string) : string :=
  match s with
  | String c s' => if is_json_ws c then skip_ws s' else s
  | EmptyString => EmptyString
  end.

Definition hex_value (c : ascii) : option N :=
  let n := N_of_ascii c in
  if ((48 <=? n) && (n <=? 57))%N then Some (n - 48)%N
  else if ((97 <=? n) && (n <=? 102))%N then Some (n - 87)%N
  else if ((65 <=? n) && (n <=? 70))%N then Some (n - 55)%N
  else None.

(** The code unit of a [\uXXXX] escape; the model has the code units below
    256 only and rejects the others. *)
Definition unicode_escape (h1 h2 h3 h4 : ascii) : option ascii :=
  a ← hex_value h1; b ← hex_value h2; c ← hex_value h3; d ← hex_value h4;
  if ((a =? 0) && (b =? 0))%N then Some (ascii_of_N (16 * c + d)) else None.

Definition simple_escape (e : ascii) : option ascii :=
  let n := N_of_ascii e in
  if ((n =? 34) || (n =? 92) || (n =? 47))%N then Some e
  else if Ascii.eqb e "b" then Some (ascii_of_nat 8)
  else if Ascii.eqb e "f" then Some (ascii_of_nat 12)
  else if Ascii.eqb e "n" then Some (ascii_of_nat 10)
  else if Ascii.eqb e "r" then Some (ascii_of_nat 13)
  else if Ascii.eqb e "t" then Some (ascii_of_nat 9)
  else None.

(** The characters of a string literal after its opening quote, up to and
    including the closing quote: the string denoted and the rest of the
    input. *)
Fixpoint parse_string_body (s : string) : option (string * string) :=
  match s with
  | EmptyString => None
  | String c s' =>
      if Ascii.eqb c dq then Some (EmptyString, s')
      else if Ascii.eqb c backslash then
        match s' with
        | String e s'' =>
            if Ascii.eqb e "u" then
              match s'' with
              | String h1 (String h2 (String h3 (String h4 r))) =>
                  u ← unicode_escape h1 h2 h3 h4;
                  '(str, rest) ← parse_string_body r;
                  Some (String u str, rest)
              | _ => None
              end
            else
              u ← simple_escape e;
              '(str, rest) ← parse_string_body s'';
              Some (String u str, rest)
        | EmptyString => None
        end
      else if (N_of_ascii c <? 32)%N then None
      else
        '(str, rest) ← parse_string_body s';
        Some (String c str, rest)
  end.

(** A run of decimal digits and its value. *)
Fixpoint parse_digits (acc : N) (s : string) : N * string :=
  match s with
  | String c s' =>
      if JsString.is_digit c
      then parse_digits (10 * acc + (N_of_ascii c - 48)) s'
      else (acc, s)
  | EmptyString => (acc, s)
  end.

(** An integer literal [0] or [[1-9][0-9]*] (the sign is read by the caller).
    The numbers of the model are integers: a literal that goes on with a
    fraction or an exponent is rejected. *)
Definition parse_nat_literal (s : string) : option (N * string) :=
  match s with
  | String c s' =>
      if Ascii.eqb c "0" then Some (0%N, s')
      else if JsString.is_digit c then Some (parse_digits 0 s)
      else None
  | EmptyString => None
  end.

Definition no_fraction (s : string) : bool :=
  match s with
  | String c _ => negb (Ascii.eqb c "." || Ascii.eqb c "e" || Ascii.eqb c "E")
  | EmptyString => true
  end.

Definition parse_number (s : string) : option (json * string) :=
  match s with
  | String c s' =>
      if Ascii.eqb c "-" then
        '(n, rest) ← parse_nat_literal s';
        if no_fraction rest then Some (JNum (- Z.of_N n), rest) else None
      else
        '(n, rest) ← parse_nat_literal s;
        if no_fraction rest then Some (JNum (Z.of_N n), rest) else None
  | EmptyString => None
  end.

Definition parse_literal (word : string) (v : json) (s : string)
  : option (json * string) :=
  if JsString.startsWith s word
  then Some (v, JsString.drop (String.length word) s)
  else None.

(** A later member with the same key replaces the value of the earlier one. *)
Fixpoint set_field (key : string) (v : json) (fields : list (string * json))
  : list (string * json) :=
  match fields with
  | [] => [(key, v)]
  | (k, w) :: rest =>
      if String.eqb k key then (k, v) :: rest else (k, w) :: set_field key v rest
  end.

(** Recursive descent on the JSON grammar; [fuel] bounds the number of nested
    calls. *)
Fixpoint parse_value (fuel : nat) (s : string) : option (json * string) :=
  match fuel with
  | O => None
  | S fuel' =>
      match skip_ws s with
      | String c r =>
          if Ascii.eqb c "n" then parse_literal "null" JNull (String c r)
          else if Ascii.eqb c "t" then parse_literal "true" (JBool true) (String c r)
          else if Ascii.eqb c "f" then parse_literal "false" (JBool false) (String c r)
          else if Ascii.eqb c dq then
            '(str, rest) ← parse_string_body r; Some (JStr str, rest)
          else if Ascii.eqb c "[" then
            match skip_ws r with
            | String d r' =>
                if Ascii.eqb d "]" then Some (JArr [], r')
                else '(items, rest) ← parse_elements fuel' r; Some (JArr items, rest)
            | EmptyString => None
            end
          else if Ascii.eqb c "{" then
            match skip_ws r with
            | String d r' =>
                if Ascii.eqb d "}" then Some (JObj [], r')
                else '(fields, rest) ← parse_members fuel' [] r; Some (JObj fields, rest)
            | EmptyString => None
            end
          else parse_number (String c r)
      | EmptyString => None
      end
  end
with parse_elements (fuel : nat) (s : string) : option (list json * string) :=
  match fuel with
  | O => None
  | S fuel' =>
      '(v, rest) ← parse_value fuel' s;
      match skip_ws rest with
      | String c r =>
          if Ascii.eqb c "," then
            '(items, rest') ← parse_elements fuel' r; Some (v :: items, rest')
          else if Ascii.eqb c "]" then Some ([v], r)
          else None
      | EmptyString => None
      end
  end
with parse_members (fuel : nat) (acc : list (string * json)) (s : string)
  : option (list (string * json) * string) :=
  match fuel with
  | O => None
  | S fuel' =>
      match skip_ws s with
      | String q r =>
          if Ascii.eqb q dq then
            '(key, rest) ← parse_string_body r;
            match skip_ws rest with
            | String colon r1 =>
                if Ascii.eqb colon ":" then
                  '(v, rest1) ← parse_value fuel' r1;
                  let acc := set_field key v acc in
                  match skip_ws rest1 with
                  | String c r2 =>
                      if Ascii.eqb c "," then parse_members fuel' acc r2
                      else if Ascii.eqb c "}" then Some (acc, r2)
                      else None
                  | EmptyString => None
                  end
                else None
            | EmptyString => None
            end
          else None
      | EmptyString => None
      end
  end.

(** [JSON.parse(text)]: the whole text is one value between white space.
    Every nested call consumes a character first, so the length of the text
    is fuel enough.

    The values of the model are those written with integers and with code
    units below 256.  A JSON text with a fraction, an exponent or an escape
    [\uXXXX] above [ÿ] has a value that the model has not: there the
    function below rejects, where [JSON.parse] returns; and an integer
    beyond 2^53 is read exactly, where [JSON.parse] rounds it.  Outside these
    the function is [JSON.parse]: it accepts JSON texts only
    ([GrammarFacts.parse_json_text]), it throws a [SyntaxError] on every text
    that is no JSON text ([GrammarFacts.parse_not_json]), and it reads back
    what [stringify] writes for a sequence of strings
    ([JsonFacts.parse_stringify_ids]).  The properties of [getIgnoredIds]
    are stated on these texts only. *)
Definition parse (text : string) : outcome json :=
  match parse_value (S (String.length text)) text with
  | Some (v, rest) =>
      match skip_ws rest with
      | EmptyString => Returns v
      | _ => Throws SyntaxError
      end
  | None => Throws SyntaxError
  end.

End Json.

(** ** The [URL] class

    [new URL(s)], [url.hostname], [url.pathname], [url.searchParams] and
    [url.toString()] on the URLs [http(s)://host/path?query#fragment] that the
    WHATWG parser leaves as they are, up to the case of the scheme and of the
    host and the [/] that stands for an empty path.  A string is accepted
    only if it is written with the characters that the parser neither strips
    nor percent-encodes, its host is a domain name of letters, digits,
    hyphens and dots that is neither an IP address nor an internationalised
    name, with neither credentials nor a port, its path has no dot segment
    and its query decodes to ASCII.  Every other string is rejected, the
    invalid ones and the valid ones that the model does not cover alike. *)
Module Url.
Import JsString.

Record URL := {
  protocol : string;          (* [http:] or [https:] *)
  hostname : string;
  pathname : string;
  query : option string;      (* the text after [?], when there is one *)
  fragment : option string    (* the text after [#], when there is one *)
}.

Fixpoint forall_chars (f : ascii -> bool) (s : string) : bool :=
  match s with
  | EmptyString => true
  | String c s' => f c && forall_chars f s'
  end.

Fixpoint take_until (c : ascii) (s : string) : string :=
  match s with
  | EmptyString => EmptyString
  | String d s' => if Ascii.eqb d c then EmptyString else String d (take_until c s')
  end.

(** The text before the first [c], and the text after it if [c] occurs. *)
Fixpoint cut_at (c : ascii) (s : string) : string * option string :=
  match s with
  | EmptyString => (EmptyString, None)
  | String d s' =>
      if Ascii.eqb d c then (EmptyString, Some s')
      else let '(a, b) := cut_at c s' in (String d a, b)
  end.

Definition is_alpha (c : ascii) : bool :=
  let n := N_of_ascii c in
  ((65 <=? n) && (n <=? 90) || (97 <=? n) && (n <=? 122))%N.

Definition is_alnum (c : ascii) : bool := is_alpha c || is_digit c.

(** Printable ASCII that the parser keeps as it is in a path, a query and a
    fragment. *)
Definition is_url_char (c : ascii) : bool :=
  let n := N_of_ascii c in
  ((33 <=? n) && (n <=? 126))%N
  && negb (existsb (N.eqb n) [34; 39; 60; 62; 91; 92; 93; 94; 96; 123; 124; 125]%N).

(** *** [application/x-www-form-urlencoded] *)

Definition hex_upper (n : N) : ascii :=
  if (n <? 10)%N then ascii_of_N (48 + n) else ascii_of_N (55 + n).

Definition is_form_safe (c : ascii) : bool :=
  is_alnum c || existsb (Ascii.eqb c) ["*"; "-"; "."; "_"]%char.

Definition encode_char (c : ascii) : string :=
  if is_form_safe c then String c EmptyString
  else if Ascii.eqb c " " then "+"
  else
    let n := N_of_ascii c in
    String "%" (String (hex_upper (n / 16)) (String (hex_upper (n mod 16)) EmptyString)).

Fixpoint encode (s : string) : string :=
  match s with
  | EmptyString => EmptyString
  | String c s' => encode_char c +:+ encode s'
  end.

(** Percent-decoding with [+] for a space.  A [%] that two hexadecimal digits
    do not follow stands for itself.  A byte above 127 would need the UTF-8
    decoder: it is outside the model ([None]). *)
Fixpoint decode (s : string) : option string :=
  match s with
  | EmptyString => Some EmptyString
  | String c s' =>
      if (127 <? N_of_ascii c)%N then None
      else if Ascii.eqb c "+" then String " "%char <$> decode s'
      else if Ascii.eqb c "%" then
        match s' with
        | String h1 (String h2 r) =>
            match Json.hex_value h1, Json.hex_value h2 with
            | Some a, Some b =>
                if (a <? 8)%N then String (ascii_of_N (16 * a + b)) <$> decode r
                else None
            | _, _ => String c <$> decode s'
            end
        | _ => String c <$> decode s'
        end
      else String c <$> decode s'
  end.

Definition serialize_pair (kv : string * string) : string :=
  encode (fst kv) +:+ "=" +:+ encode (snd kv).

Definition serialize_query (l : list (string * string)) : string :=
  join "&" (map serialize_pair l).

Definition parse_pair (seq : string) : option (string * string) :=
  let '(name, value) := cut_at "=" seq in
  n ← decode name;
  v ← decode (default EmptyString value);
  Some (n, v).

Fixpoint parse_pairs (seqs : list string) : option (list (string * string)) :=
  match seqs with
  | [] => Some []
  | seq :: rest =>
      match seq with
      | EmptyString => parse_pairs rest
      | _ => kv ← parse_pair seq; l ← parse_pairs rest; Some (kv :: l)
      end
  end.

Definition parse_query (q : string) : option (list (string * string)) :=
  parse_pairs (split_chars (Ascii.eqb "&") EmptyString q).

(** *** The parser *)

Definition is_host_char (c : ascii) : bool :=
  let n := N_of_ascii c in
  ((97 <=? n) && (n <=? 122))%N || is_digit c || Ascii.eqb c "-".

Definition label_ok (l : string) : bool :=
  truthy l && forall_chars is_host_char l && negb (startsWith l "xn--").

Definition starts_with_letter (l : string) : bool :=
  match l with
  | String c _ => is_alpha c
  | EmptyString => false
  end.

Definition host_ok (h : string) : bool :=
  let labels := split_chars (Ascii.eqb ".") EmptyString h in
  forallb label_ok labels && starts_with_letter (List.last labels EmptyString).

Definition dot_segments : list string :=
  ["."; ".."; "%2e"; ".%2e"; "%2e."; "%2e%2e"].

Definition path_ok (p : string) : bool :=
  forallb (fun seg => negb (existsb (String.eqb (toLowerCase seg)) dot_segments))
          (split_chars (Ascii.eqb "/") EmptyString p).

Definition strip_scheme (s : string) : option (string * string) :=
  if startsWith (toLowerCase s) "https://" then Some ("https:", drop 8 s)
  else if startsWith (toLowerCase s) "http://" then Some ("http:", drop 7 s)
  else None.

Definition query_ok (q : option string) : bool :=
  match q with
  | Some text => bool_decide (is_Some (parse_query text))
  | None => true
  end.

(** [new URL(s)]; [None] when the constructor throws. *)
Definition parse (s : string) : option URL :=
  if forall_chars is_url_char s then
    let '(s1, frag) := cut_at "#" s in
    let '(s2, q) := cut_at "?" s1 in
    match strip_scheme s2 with
    | Some (proto, rest) =>
        let host := toLowerCase (take_until "/" rest) in
        let path := drop (String.length host) rest in
        if host_ok host && path_ok path && query_ok q then
          Some {| protocol := proto;
                  hostname := host;
                  pathname := if truthy path then path else "/";
                  query := q;
                  fragment := frag |}
        else None
    | None => None
    end
  else None.

(** [url.toString()], [url.href] *)
Definition href (u : URL) : string :=
  protocol u +:+ "//" +:+ hostname u +:+ pathname u
  +:+ match query u with Some q => "?" +:+ q | None => EmptyString end
  +:+ match fragment u with Some f => "#" +:+ f | None => EmptyString end.

(** The list of name-value pairs of [url.searchParams]. *)
Definition searchParams (u : URL) : list (string * string) :=
  match query u with
  | Some q => default [] (parse_query q)
  | None => []
  end.

(** [url.searchParams.get(name)]; [None] is [null]. *)
Fixpoint get (name : string) (l : list (string * string)) : option string :=
  match l with
  | [] => None
  | (k, v) :: rest => if String.eqb k name then Some v else get name rest
  end.

(** The list after [searchParams.set(name, value)]: the first pair called
    [name] gets the value, the others called [name] go, and the pair is
    appended when there is none. *)
Fixpoint set_pairs (name value : string) (l : list (string * string))
  : list (string * string) :=
  match l with
  | [] => [(name, value)]
  | (k, v) :: rest =>
      if String.eqb k name
      then (k, value) :: List.filter (fun kv => negb (String.eqb (fst kv) name)) rest
      else (k, v) :: set_pairs name value rest
  end.

(** [url.searchParams.set(name, value)]: the query of the URL becomes the
    serialization of the new list. *)
Definition searchParams_set (name value : string) (u : URL) : URL :=
  {| protocol := protocol u;
     hostname := hostname u;
     pathname := pathname u;
     query := Some (serialize_query (set_pairs name value (searchParams u)));
     fragment := fragment u |}.

End Url.

(** ** The browser around a load: [fetch], the console, the clock

    An asynchronous function is a computation on the state of the run, which
    either resolves, rejects, or is cut short by the bound put on the depth of
    its recursion. *)
Module Runtime.
Import JsString Json.

(** The data of the API, as the interfaces of the sources declare it; every
    member may be missing.  [members] holds the members of the object that
    the interface does not name, which the loader reads by key. *)
Record Pagination := {
  totalPages : Z;
  pageSize : Z;
  page : Z;
  totalCount : Z
}.

Record ApiResponse := {
  audit_name : option string;
  pagination : option Pagination;
  blockers : option (list json);
  scan_date : option string;
  members : list (string * json)
}.

(** A response of [fetch]; [body] is [None] when [response.json()] rejects. *)
Record Response := {
  status : Z;
  statusText : string;
  body : option ApiResponse
}.

(** [response.ok] *)
Definition ok (r : Response) : bool := (200 <=? status r)%Z && (status r <=? 299)%Z.

Inductive fetch_result :=
| NetworkError
| Responded (r : Response).

(** What is outside the program: the network answers the [n]-th request of
    the run by its URL; the clock ([Date.now()], [new Date().toISOString()])
    is read as constant over a run; [randomUUID] is [crypto.randomUUID()]
    where the browser has it, [random36] is [Math.random().toString(36)]. *)
Record World := {
  network : nat -> string -> fetch_result;
  now : Z;
  now_iso : string;
  randomUUID : option string;
  random36 : string
}.

Inductive level := log | warn | error.

(** The state of a run: the URLs requested and the lines written to the
    console (the first argument of each call), both in order. *)
Record State := {
  requests : list string;
  console : list (level * string)
}.

Definition initial : State := {| requests := []; console := [] |}.

(** A computation: [None] when the recursion bound is reached. *)
Definition M (A : Type) : Type := State -> option (outcome A * State).

Definition ret {A} (a : A) : M A := fun st => Some (Returns a, st).

Definition throw {A} (e : Json.error) : M A := fun st => Some (Throws e, st).

Definition bindM {A B} (m : M A) (k : A -> M B) : M B :=
  fun st =>
    match m st with
    | Some (Returns a, st') => k a st'
    | Some (Throws e, st') => Some (Throws e, st')
    | None => None
    end.

(** [try { m } catch (e) { handler e }] *)
Definition try_catch {A} (m : M A) (handler : Json.error -> M A) : M A :=
  fun st =>
    match m st with
    | Some (Throws e, st') => handler e st'
    | r => r
    end.

Definition lift {A} (o : outcome A) : M A := fun st => Some (o, st).

Definition console_write (l : level) (line : string) : M unit :=
  fun st =>
    Some (Returns tt, {| requests := requests st; console := console st ++ [(l, line)] |}).

(** [await fetch(url)]: a network failure rejects with a [TypeError]. *)
Definition fetch (w : World) (url : string) : M Response :=
  fun st =>
    let st' := {| requests := requests st ++ [url]; console := console st |} in
    match network w (List.length (requests st)) url with
    | NetworkError => Some (Throws TypeError, st')
    | Responded r => Some (Returns r, st')
    end.

(** [await response.json()] *)
Definition json_body (r : Response) : M ApiResponse :=
  match body r with
  | Some data => ret data
  | None => throw SyntaxError
  end.

End Runtime.

Declare Scope run_scope.
Delimit Scope run_scope with run.
Notation "x <~ m ;; k" := (Runtime.bindM m (fun x => k))
  (at level 100, m at next level, right associativity) : run_scope.
Notation "m ;; k" := (Runtime.bindM m (fun _ => k))
  (at level 100, right associativity) : run_scope.

(** ** The data manager: ignore-state store and dataset loader

    The revision of the data manager with the fallback keys, the automatic
    pagination and the page-size retry. *)
Module DataManager.
Import JsString Json Url Runtime.

(** *** The ignore-state store *)

Definition STORAGE_KEY : string := "equalify_ignored_ids".

(** [localStorage] is a finite map from keys to strings.  The value returned
    is what [JSON.parse] gives, whatever its shape. *)
Definition getIgnoredIds (localStorage : gmap string string) : outcome json :=
  let stored := localStorage !! STORAGE_KEY in
  match stored with
  | Some text => if JsString.truthy text then Json.parse text else Returns (JArr [])
  | None => Returns (JArr [])
  end.

(** [v === id] for a string [id]. *)
Definition is_id (id : string) (v : json) : bool :=
  match v with
  | JStr s => String.eqb s id
  | _ => false
  end.

(** [current.indexOf(id)] on an array; [None] stands for [-1]. *)
Fixpoint array_indexOf (id : string) (items : list json) : option nat :=
  match items with
  | [] => None
  | v :: rest => if is_id id v then Some O else option_map S (array_indexOf id rest)
  end.

Fixpoint chars (s : string) : list json :=
  match s with
  | EmptyString => []
  | String c s' => JStr (String c EmptyString) :: chars s'
  end.

(** The new array and the storage after the call.  On an array the function
    works as written.  A string has [indexOf] and can be spread, but has no
    [filter]; the other values have no [indexOf]. *)
Definition toggleIgnoreId (id : string) (localStorage : gmap string string)
  : outcome (list json * gmap string string) :=
  Json.bind (getIgnoredIds localStorage) (fun current =>
  Json.bind
    (match current with
     | JArr items =>
         match array_indexOf id items with
         | Some _ => Returns (List.filter (fun i => negb (is_id id i)) items)
         | None => Returns (items ++ [JStr id])
         end
     | JStr s =>
         match indexOf s id with
         | Some _ => Throws TypeError
         | None => Returns (chars s ++ [JStr id])
         end
     | _ => Throws TypeError
     end) (fun newIds =>
  Returns (newIds, <[STORAGE_KEY := stringify (JArr newIds)]> localStorage))).

(** Equality of the elements of a [Set] (SameValueZero): by value on the
    primitive values; two arrays or objects that [JSON.parse] built are
    always two different references. *)
Definition same_value (a b : json) : bool :=
  match a, b with
  | JNull, JNull => true
  | JBool x, JBool y => Bool.eqb x y
  | JNum x, JNum y => (x =? y)%Z
  | JStr x, JStr y => String.eqb x y
  | _, _ => false
  end.

(** A [Set] is the list of its elements in insertion order. *)
Definition set_add (x : json) (s : list json) : list json :=
  if existsb (same_value x) s then s else s ++ [x].

Definition set_delete (x : json) (s : list json) : list json :=
  List.filter (fun y => negb (same_value x y)) s.

(** [new Set(iterable)] *)
Definition set_from (items : list json) : list json :=
  fold_left (fun s x => set_add x s) items [].

Definition bulkIgnoreIds (ids : list string) (shouldIgnore : bool)
    (localStorage : gmap string string)
  : outcome (list json * gmap string string) :=
  Json.bind (getIgnoredIds localStorage) (fun stored =>
  Json.bind
    (match stored with
     | JArr items => Returns (set_from items)
     | JStr s => Returns (set_from (chars s))
     | JNull => Returns []
     | _ => Throws TypeError
     end) (fun current =>
  let current :=
    fold_left (fun current id =>
                 if shouldIgnore then set_add (JStr id) current
                 else set_delete (JStr id) current) ids current in
  let newIds := current in
  Returns (newIds, <[STORAGE_KEY := stringify (JArr newIds)]> localStorage))).

(** *** The dataset loader *)

Record Dataset := {
  id : string;
  url : string;
  name : string;
  dataset_blockers : list json;
  timestamp : Z
}.

Local Open Scope run_scope.

(** Every property read of [null] throws; the properties read below are
    [undefined] on a value that is not an object. *)
Definition field (item : json) (key : string) : option json :=
  match item with
  | JObj fields => lookup_field key fields
  | _ => None
  end.

(** The callback of [list.map] in [extractFromList].  The members of the
    record are computed in the order in which they are written; reading a
    property of [null] throws, and so does the template literal of [content]
    when [item.Type] cannot be converted to a string. *)
Definition extractItem (data : ApiResponse) (w : World) (index : nat) (item : json)
  : outcome json :=
  match item with
  | JNull => Throws TypeError
  | _ =>
      let item_id :=
        or_else (field item "id")
                (Some (JStr ("res_" +:+ of_nat index +:+ "_" +:+ of_Z (now w)))) in
      let item_url :=
        or_else (field item "URL") (or_else (field item "url") (Some (JStr EmptyString))) in
      let messages :=
        if isArray (field item "messages") then field item "messages"
        else Some (JArr [default JNull
                           (or_else (field item "messages")
                              (or_else (field item "Type") (Some (JStr "Resource"))))]) in
      let created_at :=
        or_else (JStr <$> scan_date data)
                (or_else (field item "created_at") (Some (JStr (now_iso w)))) in
      Json.bind
        (if truthy (field item "content") then Returns (field item "content")
         else if truthy (field item "Type")
              then Json.bind (toString (default JNull (field item "Type")))
                             (fun text => Returns (Some (JStr ("Type: " +:+ text))))
              else Returns (Some (JStr EmptyString)))
        (fun content =>
      let categories := or_else (field item "categories") (Some (JArr [])) in
      let tags := or_else (field item "tags") (Some (JArr [])) in
      Returns (JObj [("id", default JNull item_id);
                     ("url", default JNull item_url);
                     ("messages", default JNull messages);
                     ("created_at", default JNull created_at);
                     ("content", default JNull content);
                     ("categories", default JNull categories);
                     ("tags", default JNull tags)]))
  end.

Fixpoint extractFrom (data : ApiResponse) (w : World) (index : nat) (items : list json)
  : outcome (list json) :=
  match items with
  | [] => Returns []
  | item :: rest =>
      Json.bind (extractItem data w index item) (fun b =>
      Json.bind (extractFrom data w (S index) rest) (fun bs =>
      Returns (b :: bs)))
  end.

Definition extractFromList (data : ApiResponse) (w : World) (items : list json)
  : outcome (list json) :=
  extractFrom data w 0 items.

Definition fallbackKeys : list string :=
  ["auditTable"; "audit_table"; "results"; "data"; "items"; "records"].

(** The loop over the fallback keys, up to its [break]: the first key that
    holds a non-empty array, and that array. *)
Fixpoint first_list (keys : list string) (data : ApiResponse)
  : option (string * list json) :=
  match keys with
  | [] => None
  | key :: rest =>
      match lookup_field key (members data) with
      | Some (JArr (x :: l)) => Some (key, x :: l)
      | _ => first_list rest data
      end
  end.

(** The body of the loop over the pages [p], [p + 1], ... ([n] of them) of the
    automatic pagination. *)
Fixpoint fetchPages (data : ApiResponse) (w : World) (urlObj : URL)
    (n : nat) (p : Z) (blockers : list json) : M (list json) :=
  match n with
  | O => ret blockers
  | S n' =>
      let pageUrl := searchParams_set "page" (of_Z p) urlObj in
      blockers <~
        try_catch
          (pResponse <~ fetch w (href pageUrl) ;;
           if ok pResponse then
             pData <~ json_body pResponse ;;
             let pBlockers := default [] (Runtime.blockers pData) in
             if (0 <? List.length pBlockers)%nat then ret (blockers ++ pBlockers)
             else
               match first_list fallbackKeys pData with
               | Some (_, potentialList) =>
                   extracted <~ lift (extractFromList data w potentialList) ;;
                   ret (blockers ++ extracted)
               | None => ret blockers
               end
           else ret blockers)
          (fun err =>
             console_write error ("Failed to fetch page " +:+ of_Z p +:+ ":") ;;
             ret blockers) ;;
      fetchPages data w urlObj n' (p + 1)%Z blockers
  end.

(** The regular expression [/(\d{4}-\d{2}-\d{2})/]. *)
Definition datePattern : list (ascii -> bool) :=
  [is_digit; is_digit; is_digit; is_digit; Ascii.eqb "-";
   is_digit; is_digit; Ascii.eqb "-"; is_digit; is_digit].

Fixpoint matches_at (pattern : list (ascii -> bool)) (s : string) : bool :=
  match pattern, s with
  | [], _ => true
  | _ :: _, EmptyString => false
  | f :: pattern', String c s' => f c && matches_at pattern' s'
  end.

(** [url.match(datePattern)]: the text of the leftmost match. *)
Fixpoint match_date (s : string) : option string :=
  if matches_at datePattern s then Some (take (List.length datePattern) s)
  else match s with
       | EmptyString => None
       | String _ s' => match_date s'
       end.

(** [s.replace(/\.[^/.]+$/, EMPTY)]: a last dot and what follows it go, when
    what follows is not empty and has no slash. *)
Fixpoint strip_extension (s : string) : string :=
  match s with
  | EmptyString => EmptyString
  | String c s' =>
      if Ascii.eqb c "." && JsString.truthy s'
         && forall_chars (fun d => negb (Ascii.eqb d "/" || Ascii.eqb d ".")) s'
      then EmptyString
      else String c (strip_extension s')
  end.

(** [word.charAt(0).toUpperCase() + word.slice(1).toLowerCase()] *)
Definition titleCase (word : string) : string :=
  toUpperCase (charAt0 word) +:+ toLowerCase (substring_from word 1).

(** The display name, from the [audit_name] of the data and from the URL. *)
Definition deriveName (data : ApiResponse) (urlObj : URL) (extractedDate : option string)
  : string :=
  let datasetName := default EmptyString (audit_name data) in
  let isSlug :=
    includes datasetName "_"
    || includes datasetName "-" && negb (includes datasetName " ") in
  let datasetName :=
    if negb (JsString.truthy datasetName)
       || String.eqb datasetName "Untitled Audit" || isSlug
    then
      let baseForName := datasetName in
      let baseForName :=
        if negb (JsString.truthy baseForName) || isSlug then
          let pathParts := split_chars (Ascii.eqb "/") EmptyString (pathname urlObj) in
          strip_extension (List.last pathParts EmptyString)
        else baseForName in
      if JsString.truthy baseForName then
        let baseForName :=
          match extractedDate with
          | Some d => replace baseForName d EmptyString
          | None => baseForName
          end in
        join " "
          (map titleCase
             (List.filter JsString.truthy
                (split_chars (fun c => Ascii.eqb c "-" || Ascii.eqb c "_")
                             EmptyString baseForName)))
      else datasetName
    else datasetName in
  let datasetName :=
    if negb (JsString.truthy datasetName) then "Untitled Audit" else datasetName in
  match extractedDate with
  | Some d =>
      if negb (includes datasetName d) then datasetName +:+ " (" +:+ d +:+ ")"
      else datasetName
  | None => datasetName
  end.

(** [isPublicApi] *)
Definition isPublicApi (urlObj : URL) : bool :=
  includes (hostname urlObj) "equalifyapp.com"
  && includes (pathname urlObj) "/public/".

(** The condition of the page-size retry, on the records extracted so
    far. *)
Definition retry_condition (blockers : list json) (data : ApiResponse) (urlObj : URL)
  : bool :=
  (List.length blockers =? 0)%nat
  && match pagination data with
     | Some pg => (0 <? totalCount pg)%Z
     | None => false
     end
  && isPublicApi urlObj
  && negb (bool_decide (get "pageSize" (searchParams urlObj) = Some "100")).

(** The condition of the automatic pagination. *)
Definition pagination_condition (data : ApiResponse) (urlObj : URL) : bool :=
  match pagination data with
  | Some pg => isPublicApi urlObj && (1 <? totalPages pg)%Z && (page pg =? 1)%Z
  | None => false
  end.

(** The first part of [loadDataset], from the request to the end of the
    automatic pagination: the data of the first response and the records
    extracted. *)
Definition extractRecords (w : World) (url : string) (urlObj : URL)
  : M (ApiResponse * list json) :=
  let fetchUrl := url in
  response <~ fetch w fetchUrl ;;
  (if negb (ok response)
   then throw (Error ("Failed to fetch data: " +:+ statusText response
                        +:+ " (" +:+ of_Z (status response) +:+ ")"))
   else ret tt) ;;
  data <~ json_body response ;;
  let blockers := default [] (Runtime.blockers data) in
  blockers <~
    (if (List.length blockers =? 0)%nat then
       match first_list fallbackKeys data with
       | Some (key, potentialList) =>
           console_write log
             ("Mapping " +:+ of_nat (List.length potentialList)
                +:+ " items from '" +:+ key +:+ "' since blockers is empty.") ;;
           lift (extractFromList data w potentialList)
       | None => ret blockers
       end
     else ret blockers) ;;
  blockers <~
    (if pagination_condition data urlObj then
       let total := match pagination data with
                    | Some pg => totalPages pg
                    | None => 0%Z
                    end in
       console_write log
         ("Detected multi-page API response (" +:+ of_Z total
            +:+ " pages). Fetching all pages...") ;;
       fetchPages data w urlObj (Z.to_nat (total - 1)) 2 blockers
     else ret blockers) ;;
  ret (data, blockers).

(** One call of [loadDataset]; [loadDataset_rec] is the function itself, for
    the recursive call. *)
Definition loadDataset_body (loadDataset_rec : string -> M Dataset)
    (w : World) (url : string) : M Dataset :=
  try_catch
    (match Url.parse url with
     | None =>
         console_write error "Invalid URL provided:" ;;
         throw (Error "The provided URL is not valid.")
     | Some urlObj =>
         extracted <~ extractRecords w url urlObj ;;
         let '(data, blockers) := extracted in
         if retry_condition blockers data urlObj then
           console_write warn
             "Blockers empty despite positive totalCount. Attempting retry with pageSize=100..." ;;
           let retryUrl :=
             searchParams_set "page" "1" (searchParams_set "pageSize" "100" urlObj) in
           retryDataset <~ loadDataset_rec (href retryUrl) ;;
           ret retryDataset
         else
           let localId :=
             match randomUUID w with
             | Some uuid => uuid
             | None => "ds_" +:+ of_Z (now w) +:+ "_" +:+ substring (random36 w) 2 9
             end in
           let extractedDate := match_date url in
           let datasetName := deriveName data urlObj extractedDate in
           ret {| id := localId;
                  url := url;
                  name := datasetName;
                  dataset_blockers := blockers;
                  timestamp := now w |}
     end)
    (fun err =>
       console_write error "Error loading dataset:" ;;
       throw err).

(** [loadDataset], with a bound on the depth of its recursion. *)
Fixpoint loadDataset (depth : nat) (w : World) (url : string) : M Dataset :=
  match depth with
  | O => fun _ => None
  | S depth' => loadDataset_body (loadDataset depth' w) w url
  end.

End DataManager.

(** ** The data manager of [src/services/DataManager.ts]

    The revision of the loader without fallback keys, pagination or retry:
    it reports the page-size problem to its caller.  Its store functions are,
    word for word, those of [DataManager]. *)
Module ServicesDataManager.
Import JsString Json Url Runtime.

Local Open Scope run_scope.

Record Dataset := {
  id : string;
  url : string;
  name : string;
  dataset_blockers : list json;
  timestamp : Z
}.

(** [parseInt(s)] on a decimal or hexadecimal integer prefix; [None] is
    [NaN]. *)
Definition parseInt (s : string) : option Z :=
  let s := trimStart s in
  let '(negative, s) :=
    match s with
    | String c s' =>
        if Ascii.eqb c "-" then (true, s')
        else if Ascii.eqb c "+" then (false, s')
        else (false, s)
    | EmptyString => (false, s)
    end in
  let magnitude :=
    if startsWith (toLowerCase s) "0x" then
      let digits :=
        ViolationParser.take_while
          (fun c => bool_decide (is_Some (hex_value c))) (drop 2 s) in
      match digits with
      | EmptyString => None
      | _ =>
          Some ((fix value (acc : N) (d : string) : N :=
                   match d with
                   | EmptyString => acc
                   | String c d' => value (16 * acc + default 0 (hex_value c))%N d'
                   end) 0%N digits)
      end
    else
      match ViolationParser.take_while is_digit s with
      | EmptyString => None
      | digits => Some (fst (parse_digits 0 digits))
      end in
  (fun n => if negative then (- Z.of_N n)%Z else Z.of_N n) <$> magnitude.

Definition loadDataset (w : World) (url : string) : M Dataset :=
  try_catch
    (let fetchUrl := url in
     match Url.parse url with
     | None =>
         console_write error "Invalid URL provided:" ;;
         throw (Error "The provided URL is not valid.")
     | Some parsedUrl =>
         let pageSize := get "pageSize" (searchParams parsedUrl) in
         (match pageSize with
          | Some text =>
              if JsString.truthy text
                 && match parseInt text with Some n => (100 <? n)%Z | None => false end
              then console_write warn
                     ("Large pageSize (" +:+ text
                        +:+ ") detected. The API may return empty results. Consider reducing it to 100.")
              else ret tt
          | None => ret tt
          end) ;;
         response <~ fetch w fetchUrl ;;
         (if negb (ok response)
          then throw (Error ("Failed to fetch data: " +:+ statusText response
                               +:+ " (" +:+ of_Z (status response) +:+ ")"))
          else ret tt) ;;
         data <~ json_body response ;;
         if match Runtime.blockers data with
            | Some (_ :: _) => false
            | _ => true
            end
            && match pagination data with
               | Some pg => (0 <? totalCount pg)%Z
               | None => false
               end
         then
           console_write warn
             "API returned 0 blockers despite a positive totalCount. This often happens with pageSize > 100." ;;
           throw (Error "The API returned no data for this page size. Please try reducing the pageSize in the URL (e.g., to 100).")
         else
           let localId :=
             match randomUUID w with
             | Some uuid => uuid
             | None => "ds_" +:+ of_Z (now w) +:+ "_" +:+ substring (random36 w) 2 9
             end in
           ret {| id := localId;
                  url := url;
                  name := match audit_name data with
                          | Some n => if JsString.truthy n then n else "Untitled Audit"
                          | None => "Untitled Audit"
                          end;
                  dataset_blockers := default [] (Runtime.blockers data);
                  timestamp := now w |}
     end)
    (fun err =>
       console_write error "Error loading dataset:" ;;
       throw err).

End ServicesDataManager.

(** ** Arrays, [Set] and objects used as maps

    What the components use of the platform: [toLowerCase], [Array.prototype]
    methods, a [Set] of strings, and an object literal used as a map from
    strings. *)
Module JsData.
Import JsString Json.

(** [toLowerCase] on one code unit of the model: the letters [A]-[Z], and those
    of U+00C0-U+00DE but the sign U+00D7, go down by 32. *)
Definition toLowerUnit (c : ascii) : ascii :=
  let n := N_of_ascii c in
  if ((65 <=? n) && (n <=? 90) || (192 <=? n) && (n <=? 222) && negb (n =? 215))%N
  then ascii_of_N (n + 32)
  else c.

(** [s.toLowerCase()] *)
Definition lowerCase : string -> string := map_chars toLowerUnit.

(** [o || d] for a string that may be [undefined]. *)
Definition or_text (o : option string) (d : string) : string :=
  match o with
  | Some s => if JsString.truthy s then s else d
  | None => d
  end.

(** [name.length > n ? name.substring(0, n) + '...' : name] *)
Definition shorten (n : nat) (name : string) : string :=
  if (n <? String.length name)%nat then substring name 0 n +:+ "..." else name.

(** [array.sort(cmp)]: the sort is stable, and [cmp] gives the sign of the
    order. *)
Fixpoint insert {A} (cmp : A -> A -> Z) (x : A) (l : list A) : list A :=
  match l with
  | [] => [x]
  | y :: l' => if (cmp x y <=? 0)%Z then x :: y :: l' else y :: insert cmp x l'
  end.

Definition sort {A} (cmp : A -> A -> Z) (l : list A) : list A :=
  fold_right (insert cmp) [] l.

(** [array.slice(0, n)] *)
Definition slice0 {A} (n : nat) (l : list A) : list A := firstn n l.

(** *** A [Set] of strings: its elements in insertion order *)

Definition has (s : list string) (x : string) : bool := existsb (String.eqb x) s.

Definition add (x : string) (s : list string) : list string :=
  if has s x then s else s ++ [x].

Definition delete (x : string) (s : list string) : list string :=
  List.filter (fun y => negb (String.eqb y x)) s.

(** [new Set(iterable)] *)
Definition from (l : list string) : list string := fold_left (fun s x => add x s) l [].

(** *** An object created by the literal [{}]: its own properties in the
    order of their creation *)

(** The properties that every object inherits from [Object.prototype]; each
    holds a function, or for [__proto__] the prototype itself. *)
Definition inherited : list string :=
  ["constructor"; "__defineGetter__"; "__defineSetter__"; "hasOwnProperty";
   "__lookupGetter__"; "__lookupSetter__"; "isPrototypeOf"; "propertyIsEnumerable";
   "toString"; "valueOf"; "__proto__"; "toLocaleString"].

Definition is_inherited (key : string) : bool := existsb (String.eqb key) inherited.

Fixpoint own {V} (o : list (string * V)) (key : string) : option V :=
  match o with
  | [] => None
  | (k, v) :: rest => if String.eqb k key then Some v else own rest key
  end.

(** [o[key] = v] on an own property, or on a key that is no inherited one. *)
Fixpoint set {V} (key : string) (v : V) (o : list (string * V)) : list (string * V) :=
  match o with
  | [] => [(key, v)]
  | (k, w) :: rest => if String.eqb k key then (k, v) :: rest else (k, w) :: set key v rest
  end.

(** A key that is an array index: the canonical decimal text of an integer
    below [2^32 - 1]. *)
Definition array_index (key : string) : option N :=
  match key with
  | EmptyString => None
  | String c rest =>
      if Url.forall_chars is_digit key
         && (negb (Ascii.eqb c "0") || negb (JsString.truthy rest))
         && (fst (parse_digits 0 key) <? 4294967295)%N
      then Some (fst (parse_digits 0 key))
      else None
  end.

Definition is_index (key : string) : bool :=
  match array_index key with Some _ => true | None => false end.

(** [Object.keys(o)]: the array indices in ascending order, then the other
    keys in the order of their creation. *)
Definition keys {V} (o : list (string * V)) : list string :=
  let names := map fst o in
  sort (fun a b => Z.of_N (default 0%N (array_index a)) - Z.of_N (default 0%N (array_index b)))%Z
       (List.filter is_index names)
  ++ List.filter (fun k => negb (is_index k)) names.

(** [Object.entries(o)] *)
Definition entries {V} (o : list (string * V)) : list (string * V) :=
  omap (fun k => (fun v => (k, v)) <$> own o k) (keys o).

End JsData.

(** ** The data of the components *)
Module View.
Import JsString Json.

Record Tag := {
  tag_id : string;
  tag_content : string
}.

(** A record, as the interface [Blocker] declares it; the components take
    into account that [messages] may be missing. *)
Record Blocker := {
  id : string;
  created_at : string;
  messages : option (list string);
  url : string;
  content : string;
  categories : list string;
  tags : list Tag
}.

(** A dataset on the dashboard, as the interface [Dataset] declares it. *)
Record Dataset := {
  ds_id : string;
  ds_url : string;
  name : string;
  blockers : list Blocker;
  timestamp : Z;
  color : option string;
  index : option Z
}.

(** [item.messages?.[0]] *)
Definition first_message (item : Blocker) : option string :=
  match messages item with
  | Some (m :: _) => Some m
  | _ => None
  end.

(** [ignoredIds.includes(id)]: the ids come from [JSON.parse]. *)
Definition includes_id (ignoredIds : list json) (id : string) : bool :=
  existsb (DataManager.same_value (JStr id)) ignoredIds.

End View.

(** ** [Overview]: the statistics of a dataset *)
Module Overview.
Import JsString Json JsData View.

Record Stats := {
  activeCount : nat;
  uniqueUrlCount : nat
}.

Definition getDatasetStats (ignoredIds : list json) (ds : Dataset) : Stats :=
  let active := List.filter (fun b => negb (includes_id ignoredIds (id b))) (blockers ds) in
  let unique := List.length (from (map url (blockers ds))) in
  {| activeCount := List.length active; uniqueUrlCount := unique |}.

End Overview.

(** ** [Dashboard]: the derived state *)
Module Dashboard.
Import JsString Json JsData View.

(** What a click on the load button does. *)
Inductive click :=
| Nothing
| Load (url : string)
| ShowError (message : string).

Definition handleLoadClick (inputUrl : string) : click :=
  if JsString.truthy inputUrl then
    let trimmed := trim inputUrl in
    if startsWith trimmed "http" then Load trimmed
    else ShowError "Please enter a valid URL starting with http:// or https://"
  else Nothing.

Definition handleRemoveDataset (id : string) (datasets : list Dataset) : list Dataset :=
  List.filter (fun d => negb (String.eqb (ds_id d) id)) datasets.

Definition allBlockers (datasets : list Dataset) : list Blocker :=
  flat_map blockers datasets.

Definition activeData (allBlockers : list Blocker) (ignoredIds : list json) : list Blocker :=
  List.filter (fun d => negb (includes_id ignoredIds (id d))) allBlockers.

Definition datasetIgnoredCount (allBlockers : list Blocker) (ignoredIds : list json) : nat :=
  List.length (List.filter (fun d => includes_id ignoredIds (id d)) allBlockers).

Definition totalUniqueUrls (allBlockers : list Blocker) : nat :=
  List.length (from (map url allBlockers)).

(** [handleToggleIgnore] and [handleBulkIgnore]: the new [ignoredIds] and the
    storage after the call. *)
Definition handleToggleIgnore (id : string) (localStorage : gmap string string)
  : outcome (list json * gmap string string) :=
  DataManager.toggleIgnoreId id localStorage.

Definition handleBulkIgnore (ids : list string) (shouldIgnore : bool)
    (localStorage : gmap string string) : outcome (list json * gmap string string) :=
  DataManager.bulkIgnoreIds ids shouldIgnore localStorage.

End Dashboard.

(** ** [Dashboard], first revision: each record carries its dataset *)
Module DashboardTagged.
Import JsString Json JsData View.

(** [{...b, datasetName, datasetColor, datasetIndex}] *)
Record Tagged := {
  blocker : Blocker;
  datasetName : string;
  datasetColor : option string;
  datasetIndex : option Z
}.

Definition allBlockers (datasets : list Dataset) : list Tagged :=
  flat_map (fun d => map (fun b => {| blocker := b;
                                      datasetName := name d;
                                      datasetColor := color d;
                                      datasetIndex := index d |})
                         (blockers d))
           datasets.

Definition activeData (allBlockers : list Tagged) (ignoredIds : list json) : list Tagged :=
  List.filter (fun d => negb (includes_id ignoredIds (id (blocker d)))) allBlockers.

End DashboardTagged.

(** ** [TableSection]: filter, groups and selection *)
Module TableSection.
Import JsString Json JsData View.

Inductive GroupingMode := by_message | by_url | by_none.

Definition filteredData (data : list Blocker) (ignoredIds : list json)
    (showIgnored : bool) (search : string) : list Blocker :=
  List.filter
    (fun item =>
       let isIgnored := includes_id ignoredIds (id item) in
       if negb showIgnored && isIgnored then false
       else if showIgnored && negb isIgnored then false
       else
         let primaryMessage := or_text (first_message item) EmptyString in
         let matchSearch :=
           includes (lowerCase (url item)) (lowerCase search)
           || includes (lowerCase primaryMessage) (lowerCase search) in
         matchSearch)
    data.

(** The key of an item in the loop that groups. *)
Definition group_key (groupingMode : GroupingMode) (item : Blocker) : string :=
  match groupingMode with
  | by_message => or_text (first_message item) "Unknown Issue"
  | by_url => or_text (Some (url item)) "Unknown URL"
  | by_none => EmptyString
  end.

(** One turn of the loop: [if (!groups[key]) groups[key] = []] and
    [groups[key].push(item)].  What an object inherits under [key] is truthy
    and has no [push]. *)
Definition push_item (groups : list (string * list Blocker)) (key : string)
    (item : Blocker) : outcome (list (string * list Blocker)) :=
  match own groups key with
  | Some items => Returns (set key (items ++ [item]) groups)
  | None =>
      if is_inherited key then Throws TypeError
      else Returns (groups ++ [(key, [item])])
  end.

Definition groupedData (groupingMode : GroupingMode) (filteredData : list Blocker)
  : outcome (list (string * list Blocker)) :=
  match groupingMode with
  | by_none => Returns [("All Items", filteredData)]
  | _ =>
      fold_left
        (fun acc item =>
           Json.bind acc (fun groups => push_item groups (group_key groupingMode item) item))
        filteredData (Returns [])
  end.

(** [groupedData[key].length] for a key of the object. *)
Definition group_size (groupedData : list (string * list Blocker)) (key : string) : Z :=
  Z.of_nat (List.length (default [] (own groupedData key))).

Definition sortedGroupKeys (groupingMode : GroupingMode)
    (groupedData : list (string * list Blocker)) : list string :=
  let keys := keys groupedData in
  match groupingMode with
  | by_none => keys
  | _ => sort (fun a b => group_size groupedData b - group_size groupedData a)%Z keys
  end.

(** The selection after a click on the box of a group; the groups shown are
    those of the keys of [groupedData]. *)
Definition handleSelectGroup (groupedData : list (string * list Blocker)) (key : string)
    (selectedIds : list string) : outcome (list string) :=
  match own groupedData key with
  | None => Throws TypeError
  | Some items =>
      let itemIds := map id items in
      let allSelected := forallb (fun id => has selectedIds id) itemIds in
      let next := selectedIds in
      Returns (fold_left (fun next id => if allSelected then delete id next else add id next)
                         itemIds next)
  end.

Definition handleSelectRow (id : string) (selectedIds : list string) : list string :=
  let next := selectedIds in
  if has next id then delete id next else add id next.

Definition toggleExpand (key : string) (expandedGroups : list string) : list string :=
  let next := expandedGroups in
  if has next key then delete key next else add key next.

(** [handleBulkAction]: the new [ignoredIds], the storage and the selection
    after the call of [onBulkIgnore], which the dashboard binds to
    [handleBulkIgnore]. *)
Definition handleBulkAction (selectedIds : list string) (showIgnored : bool)
    (localStorage : gmap string string)
  : outcome (list json * gmap string string * list string) :=
  Json.bind (Dashboard.handleBulkIgnore selectedIds (negb showIgnored) localStorage)
    (fun r => Returns (r, [])).

End TableSection.

(** ** [ChartSection]: the data of the charts *)
Module ChartSection.
Import JsString Json JsData View.

Record TimePoint := {
  point_name : string;
  point_count : nat;
  label : string
}.

Definition timeChartData (datasets : list Dataset) : list TimePoint :=
  let sortedDatasets := sort (fun a b => timestamp a - timestamp b)%Z datasets in
  map (fun ds =>
         {| point_name := or_text (Some (name ds)) "Untitled";
            point_count := List.length (blockers ds);
            label := shorten 20 (name ds) |})
      sortedDatasets.

Record Bar := {
  bar_name : string;
  fullName : string;
  count : Z
}.

(** [grouped[key] = (grouped[key] || 0) + 1].  Under an inherited key the
    value read is a function or an object, and the sum is a text that depends
    on the engine: such keys are outside the model ([None]). *)
Definition count_key (grouped : option (list (string * Z))) (key : string)
  : option (list (string * Z)) :=
  g ← grouped;
  if is_inherited key then None
  else Some (set key (default 0%Z (own g key) + 1)%Z g).

(** The bars of a chart: sorted by count, the ten first. *)
Definition top10 (bars : list Bar) : list Bar :=
  slice0 10 (sort (fun a b => count b - count a)%Z bars).

(** The rule under which an item is counted. *)
Definition chart_rule (item : Blocker) : string :=
  let rawMsg := or_text (first_message item) "Unknown Issue" in
  let parsed := ViolationParser.parseMessages rawMsg in
  or_text (ViolationParser.rule <$> head parsed) "Unknown Issue".

Definition messageChartData (aggregatedData : list Blocker) : option (list Bar) :=
  grouped ← fold_left (fun grouped item => count_key grouped (chart_rule item))
                      aggregatedData (Some []);
  Some (top10 (map (fun e => {| bar_name := shorten 50 (fst e);
                                fullName := fst e;
                                count := snd e |})
                   (entries grouped))).

Definition urlChartData (aggregatedData : list Blocker) : option (list (string * Z)) :=
  grouped ← fold_left (fun grouped item =>
                         count_key grouped (or_text (Some (url item)) "Unknown URL"))
                      aggregatedData (Some []);
  Some (slice0 10 (sort (fun a b => snd b - snd a)%Z (entries grouped))).

End ChartSection.

(** ** [ChartSection], the revision that compares the datasets *)
Module ChartSectionCompared.
Import JsString Json JsData View.

(** A value of a row of the chart of the URLs: a text or a count. *)
Inductive cell :=
| Text (s : string)
| Count (n : Z).

(** [url.replace(/^https?:\/\//, '')] *)
Definition without_scheme (url : string) : string :=
  if startsWith url "https://" then drop 8 url
  else if startsWith url "http://" then drop 7 url
  else url.

Definition displayName (url : string) : string :=
  substring (without_scheme url) 0 30
  +:+ (if (30 <? String.length url)%nat then "..." else EmptyString).

(** [row[key] = v] on an object made by a literal; [__proto__] is a setter,
    which does nothing with a number. *)
Definition assign (key : string) (v : cell) (row : list (string * cell))
  : list (string * cell) :=
  if String.eqb key "__proto__" then row else set key v row.

Definition topUrls (aggregatedData : list Blocker) : option (list string) :=
  globalCounts ← fold_left (fun globalCounts item =>
                              ChartSection.count_key globalCounts
                                (or_text (Some (url item)) "Unknown URL"))
                           aggregatedData (Some []);
  Some (map fst (slice0 10 (sort (fun a b => snd b - snd a)%Z (entries globalCounts)))).

Definition urlChartData (aggregatedData : list Blocker) (datasets : list Dataset)
  : option (list (list (string * cell))) :=
  topUrls ← topUrls aggregatedData;
  Some (map (fun url =>
               let row := [("name", Text url); ("displayName", Text (displayName url))] in
               fold_left
                 (fun row ds =>
                    let count :=
                      List.length (List.filter (fun b => String.eqb (View.url b) url)
                                               (blockers ds)) in
                    assign (ds_id ds) (Count (Z.of_nat count)) row)
                 datasets row)
            topUrls).

End ChartSectionCompared.


(* ===================================================================== *)
(** * Part II: the notions in which the properties are stated             *)
(* ===================================================================== *)

(** ** Runs of the JSON parser *)
Module JsonNotions.
Import Json.

(** A run of the parser with fuel [n] that succeeds consumes at least one
    character, and succeeds, with the same result, with any fuel that is at
    least the number of characters consumed. *)
Definition adequate {A : Type} (run : nat -> string -> option (A * string))
    (n : nat) : Prop :=
  forall s r rest,
    run n s = Some (r, rest) ->
    String.length rest < String.length s
    /\ forall m, String.length s - String.length rest <= m -> run m s = Some (r, rest).

End JsonNotions.

(** ** The JSON grammar

    The texts that [JSON.parse] accepts (ECMA-404), written with code units
    below 256: a value between white space.  The grammar says which texts
    are JSON texts, not what their values are. *)
Module JsonGrammar.
Import JsString Json Url.

(** White space: the space, the tab, the line feed and the carriage
    return. *)
Definition white_char (c : ascii) : bool :=
  let n := N_of_ascii c in existsb (N.eqb n) [32; 9; 10; 13]%N.

Definition white (w : string) : Prop := forall_chars white_char w = true.

Definition is_hex (c : ascii) : bool :=
  let n := N_of_ascii c in
  ((48 <=? n) && (n <=? 57) || (65 <=? n) && (n <=? 70) || (97 <=? n) && (n <=? 102))%N.

(** The characters that may follow a backslash, [u] apart: the double quote,
    the backslash, the slash, and [b], [f], [n], [r], [t]. *)
Definition escape_letter (e : ascii) : bool :=
  let n := N_of_ascii e in existsb (N.eqb n) [34; 92; 47; 98; 102; 110; 114; 116]%N.

(** What stands between the quotes of a string: characters from the space
    on other than the double quote and the backslash, and escapes. *)
Inductive string_chars : string -> Prop :=
| chars_nil : string_chars EmptyString
| chars_plain (c : ascii) (s : string) :
    (32 <=? N_of_ascii c)%N = true -> N_of_ascii c <> 34%N -> N_of_ascii c <> 92%N ->
    string_chars s -> string_chars (String c s)
| chars_escape (e : ascii) (s : string) :
    escape_letter e = true -> string_chars s ->
    string_chars (String (ascii_of_nat 92) (String e s))
| chars_unicode (h1 h2 h3 h4 : ascii) (s : string) :
    is_hex h1 = true -> is_hex h2 = true -> is_hex h3 = true -> is_hex h4 = true ->
    string_chars s ->
    string_chars
      (String (ascii_of_nat 92)
         (String "u" (String h1 (String h2 (String h3 (String h4 s)))))).

Definition digits (s : string) : Prop :=
  s <> EmptyString /\ forall_chars is_digit s = true.

(** [0], or a digit other than [0] followed by digits. *)
Definition int_part (s : string) : Prop :=
  s = "0"
  \/ exists c r, s = String c r /\ is_digit c = true /\ c <> "0"%char
                 /\ forall_chars is_digit r = true.

Definition frac_part (s : string) : Prop :=
  s = EmptyString \/ exists d, s = "." +:+ d /\ digits d.

Definition exp_part (s : string) : Prop :=
  s = EmptyString
  \/ exists e sign d, s = e +:+ sign +:+ d
                      /\ (e = "e" \/ e = "E")
                      /\ (sign = EmptyString \/ sign = "+" \/ sign = "-")
                      /\ digits d.

Definition number_literal (s : string) : Prop :=
  exists sign i f e, s = sign +:+ i +:+ f +:+ e
                     /\ (sign = EmptyString \/ sign = "-")
                     /\ int_part i /\ frac_part f /\ exp_part e.

Definition quoted (s : string) : string :=
  String (ascii_of_nat 34) (s +:+ String (ascii_of_nat 34) EmptyString).

Inductive json_value : string -> Prop :=
| value_null : json_value "null"
| value_true : json_value "true"
| value_false : json_value "false"
| value_number (s : string) : number_literal s -> json_value s
| value_string (s : string) : string_chars s -> json_value (quoted s)
| value_empty_array (w : string) : white w -> json_value ("[" +:+ w +:+ "]")
| value_array (elements : string) :
    json_elements elements -> json_value ("[" +:+ elements +:+ "]")
| value_empty_object (w : string) : white w -> json_value ("{" +:+ w +:+ "}")
| value_object (members : string) :
    json_members members -> json_value ("{" +:+ members +:+ "}")
with json_elements : string -> Prop :=
| elements_last (w1 v w2 : string) :
    white w1 -> json_value v -> white w2 -> json_elements (w1 +:+ v +:+ w2)
| elements_more (w1 v w2 elements : string) :
    white w1 -> json_value v -> white w2 -> json_elements elements ->
    json_elements (w1 +:+ v +:+ w2 +:+ "," +:+ elements)
with json_members : string -> Prop :=
| members_last (w1 key w2 w3 v w4 : string) :
    white w1 -> string_chars key -> white w2 -> white w3 -> json_value v -> white w4 ->
    json_members (w1 +:+ quoted key +:+ w2 +:+ ":" +:+ w3 +:+ v +:+ w4)
| members_more (w1 key w2 w3 v w4 members : string) :
    white w1 -> string_chars key -> white w2 -> white w3 -> json_value v -> white w4 ->
    json_members members ->
    json_members (w1 +:+ quoted key +:+ w2 +:+ ":" +:+ w3 +:+ v +:+ w4 +:+ "," +:+ members).

(** A JSON text: a value between white space. *)
Definition json_text (text : string) : Prop :=
  exists w1 v w2, text = w1 +:+ v +:+ w2 /\ white w1 /\ json_value v /\ white w2.

(** The characters with which a value can begin. *)
Definition value_head (c : ascii) : bool :=
  is_digit c
  || (let n := N_of_ascii c in existsb (N.eqb n) [45; 34; 91; 123; 110; 116; 102]%N).

(** The first character of [text] that is no white space. *)
Fixpoint first_black (text : string) : option ascii :=
  match text with
  | EmptyString => None
  | String c rest => if white_char c then first_black rest else Some c
  end.

End JsonGrammar.

(** ** Occurrences of a text in a string *)
Module Notions.
Import JsString.

(** [p] occurs in [s]. *)
Definition occurs_in (p s : string) : Prop := exists a b, s = a +:+ p +:+ b.

Definition has_char (c : ascii) (s : string) : Prop :=
  occurs_in (String c EmptyString) s.

(** The number of offsets of [s] at which [sep] occurs, overlapping
    occurrences included. *)
Fixpoint occurrences (sep s : string) : nat :=
  (if startsWith s sep then 1 else 0)
  + match s with
    | EmptyString => 0
    | String _ s' => occurrences sep s'
    end.

(** The number of occurrences of [sep] met when [s] is read from left to
    right, the search resuming after the end of each occurrence ([skip]
    characters of the occurrence just met are still to be passed over).  This
    is the count of the string libraries: occurrences that do not overlap. *)
Fixpoint scan_occurrences (sep : string) (skip : nat) (s : string) : nat :=
  match s with
  | EmptyString => 0
  | String _ s' =>
      match skip with
      | S k => scan_occurrences sep k s'
      | O =>
          if startsWith s sep
          then S (scan_occurrences sep (String.length sep - 1) s')
          else scan_occurrences sep O s'
      end
  end.

Definition disjoint_occurrences (sep s : string) : nat := scan_occurrences sep 0 s.

End Notions.

(** ** The priority order of the rule of a message part *)
Module RuleNotions.
Import JsString ViolationParser Notions.

(** The text begins with a bracketed tag. *)
Definition bracketed_as (clean tag tail : string) : Prop :=
  clean = "[" +:+ tag +:+ "]" +:+ tail /\ tag <> EmptyString /\ ~ has_char "]" tag.

Definition bracketed (clean : string) : Prop :=
  exists tag tail, bracketed_as clean tag tail.

(** [key] is the first key of the dictionary that occurs in the text. *)
Definition first_key (clean key title : string) : Prop :=
  exists before after,
    FRIENDLY_TITLES = before ++ (key, title) :: after
    /\ occurs_in key clean
    /\ forall k t, In (k, t) before -> ~ occurs_in k clean.

Definition known_phrase (clean : string) : Prop :=
  exists key title, In (key, title) FRIENDLY_TITLES /\ occurs_in key clean.

(** [prefix] is the text before the first colon, the colon is within the
    first 50 characters, and the prefix is longer than 3 characters and has
    no line break. *)
Definition colon_prefix (clean prefix : string) : Prop :=
  (exists tail, clean = prefix +:+ String ":" tail)
  /\ ~ has_char ":" prefix
  /\ String.length prefix < 50
  /\ 3 < String.length prefix
  /\ ~ has_char (ascii_of_nat 10) prefix.

(** The rule of a text and the text kept for the description, in the
    priority order of the specification. *)
Inductive resolves (clean : string) : string -> string -> Prop :=
| by_bracket tag tail :
    bracketed_as clean tag tail ->
    resolves clean tag (trim tail)
| by_dictionary key title :
    ~ bracketed clean ->
    first_key clean key title ->
    resolves clean title clean
| by_colon prefix :
    ~ bracketed clean ->
    ~ known_phrase clean ->
    colon_prefix clean prefix ->
    resolves clean (trim prefix) clean
| by_default :
    ~ bracketed clean ->
    ~ known_phrase clean ->
    (forall prefix, ~ colon_prefix clean prefix) ->
    resolves clean "General Violation" clean.

(** One trailing period goes. *)
Definition without_period (text : string) : string :=
  if endsWith text "." then substring text 0 (String.length text - 1) else text.

End RuleNotions.

(** ** The ids of the store *)
Module StoreNotions.

(** The list of ids after [toggleIgnoreId]. *)
Definition toggled (id : string) (ids : list string) : list string :=
  if bool_decide (id ∈ ids)
  then List.filter (fun x => negb (String.eqb x id)) ids
  else ids ++ [id].

(** The elements of a [Set] of strings after [add]. *)
Definition added (x : string) (s : list string) : list string :=
  if bool_decide (x ∈ s) then s else s ++ [x].

End StoreNotions.

(** ** Well-formed URLs *)
Module UrlNotions.
Import JsString Url.

Definition no_char (c : ascii) (s : string) : bool :=
  forall_chars (fun d => negb (Ascii.eqb d c)) s.

Definition is_ascii (s : string) : bool :=
  forall_chars (fun c => (N_of_ascii c <? 128)%N) s.

Definition ascii_pairs (l : list (string * string)) : bool :=
  forallb (fun kv => is_ascii (fst kv) && is_ascii (snd kv)) l.

Definition is_host_or_dot (c : ascii) : bool := is_host_char c || Ascii.eqb c ".".

(** The characters that [encode] writes. *)
Definition is_encoded_char (c : ascii) : bool :=
  is_url_char c
  && negb (Ascii.eqb c "&") && negb (Ascii.eqb c "=") && negb (Ascii.eqb c "#")
  && negb (Ascii.eqb c "?") && (N_of_ascii c <? 128)%N.

(** The URLs that the parser builds. *)
Definition wf (u : URL) : bool :=
  (String.eqb (protocol u) "https:" || String.eqb (protocol u) "http:")
  && host_ok (hostname u)
  && (startsWith (pathname u) "/" && forall_chars is_url_char (pathname u)
      && no_char "?" (pathname u) && no_char "#" (pathname u) && path_ok (pathname u))
  && match query u with
     | Some q => forall_chars is_url_char q && no_char "#" q && query_ok (Some q)
     | None => true
     end
  && match fragment u with
     | Some f => forall_chars is_url_char f
     | None => true
     end.

End UrlNotions.

(** ** The runs of the loader *)
Module LoaderNotions.
Import JsString Json Url Runtime DataManager.

Definition retry_line : string :=
  "Blockers empty despite positive totalCount. Attempting retry with pageSize=100...".

(** The line that the page-size retry writes to the console. *)
Definition is_retry_warning (line : level * string) : bool :=
  match fst line with
  | warn => String.eqb (snd line) retry_line
  | _ => false
  end.

(** The number of page-size retries of a run. *)
Definition retries (st : State) : nat :=
  List.length (List.filter is_retry_warning (console st)).

(** The URL object and the URL of the page-size retry. *)
Definition retryUrlObj (urlObj : URL) : URL :=
  searchParams_set "page" "1" (searchParams_set "pageSize" "100" urlObj).

Definition retryUrl (urlObj : URL) : string := href (retryUrlObj urlObj).

(** The state after a line is written to the console. *)
Definition logged (l : level) (line : string) (st : State) : State :=
  {| requests := requests st; console := console st ++ [(l, line)] |}.

(** [st'] comes after [st] in a run that made no page-size retry. *)
Definition extends (st st' : State) : Prop :=
  retries st' = retries st /\ exists more, requests st' = requests st ++ more.

(** A computation that completes without the recursive call and without a
    page-size retry. *)
Definition quiet {A} (m : M A) : Prop :=
  forall st, exists r st', m st = Some (r, st') /\ extends st st'.

(** The dataset that a call returns when it does not retry. *)
Definition dataset_of (w : World) (url : string) (urlObj : URL)
    (data : ApiResponse) (blockers : list json) : Dataset :=
  {| id := match randomUUID w with
           | Some uuid => uuid
           | None => "ds_" +:+ of_Z (now w) +:+ "_" +:+ substring (random36 w) 2 9
           end;
     url := url;
     name := deriveName data urlObj (match_date url);
     dataset_blockers := blockers;
     timestamp := now w |}.

(** What the outer [catch] of [loadDataset] does to the result of the
    recursive call. *)
Definition rethrown (r : option (outcome Dataset * State))
  : option (outcome Dataset * State) :=
  match r with
  | Some (Throws e, st) => Some (Throws e, logged error "Error loading dataset:" st)
  | _ => r
  end.

(** A value that can be converted to a string: no object of [v], or of the
    arrays within [v], has a member of its own named [toString]. *)
Fixpoint printable (v : json) : bool :=
  match v with
  | JArr items => forallb printable items
  | JObj fields =>
      negb (existsb (fun member => String.eqb (fst member) "toString") fields)
  | _ => true
  end.

(** An item of which [extractFromList] makes a record: it is not [null], and
    when its [content] is falsy and its [Type] truthy, so that the record
    gets the content [Type: <Type>], its [Type] can be converted to a
    string. *)
Definition extractable (item : json) : bool :=
  match item with
  | JNull => false
  | _ =>
      truthy (field item "content")
      || negb (truthy (field item "Type"))
      || printable (default JNull (field item "Type"))
  end.

(** The message with which the loader of [src/services/DataManager.ts]
    rejects. *)
Definition page_size_message : string :=
  "The API returned no data for this page size. Please try reducing the pageSize in the URL (e.g., to 100).".

End LoaderNotions.

(** ** Browsers, servers and URLs of the examples *)
Module Examples.
Import JsString Json Url Runtime.

Definition answer (data : ApiResponse) : fetch_result :=
  Responded {| status := 200; statusText := "OK"; body := Some data |}.

Definition browser (net : nat -> string -> fetch_result) : World :=
  {| network := net;
     now := 1700000000000;
     now_iso := "2023-11-14T22:13:20.000Z";
     randomUUID := Some "0b0e7a4c-5a0f-4d53-9a63-5f1f0d8f4e11";
     random36 := "0.4fzyo82mvyr" |}.

Definition seven_records : Pagination :=
  {| totalPages := 1; pageSize := 500; page := 1; totalCount := 7 |}.

(** An API that reports seven records and delivers none, whatever the page
    size. *)
Definition empty_page : ApiResponse :=
  {| audit_name := Some "Site audit";
     pagination := Some seven_records;
     blockers := Some [];
     scan_date := None;
     members := [] |}.

Definition silent_api : World := browser (fun _ _ => answer empty_page).

Definition api_url : string := "https://api.equalifyapp.com/public/audits?pageSize=500".

Definition api_urlObj : URL :=
  {| protocol := "https:";
     hostname := "api.equalifyapp.com";
     pathname := "/public/audits";
     query := Some "pageSize=500";
     fragment := None |}.

(** A response whose records are under [auditTable], with another fallback
    key beside it. *)
Definition table_page (items : list json) : ApiResponse :=
  {| audit_name := None;
     pagination := None;
     blockers := Some [];
     scan_date := Some "2024-05-01";
     members := [("audit_table", JArr [JObj []]); ("auditTable", JArr items)] |}.

Definition sample_items : list json :=
  [JObj [("URL", JStr "https://example.com/"); ("Type", JStr "image")]; JStr "a"; JNum 3].

(** An item whose [Type] is an object with a member named [toString]. *)
Definition odd_item : json := JObj [("Type", JObj [("toString", JNum 1)])].

(** A response that carries no [audit_name]. *)
Definition unnamed_page : ApiResponse :=
  {| audit_name := None;
     pagination := None;
     blockers := Some [JObj [("id", JStr "b-1"); ("url", JStr "https://example.com/")]];
     scan_date := None;
     members := [] |}.

Definition report_url : string :=
  "https://example.com/reports/my_site_audit_2024-05-01.json".

Definition report_urlObj : URL :=
  {| protocol := "https:";
     hostname := "example.com";
     pathname := "/reports/my_site_audit_2024-05-01.json";
     query := None;
     fragment := None |}.

(** The state once the only request of a load is made. *)
Definition requested (url : string) : State :=
  {| requests := [url]; console := [] |}.

End Examples.

(** ** The text of a message part *)
Module ParserNotions.
Import JsString ViolationParser.

(** The text of a part once trimmed and without its leading [violation: ]. *)
Definition stripped (part : string) : string :=
  let clean := trim part in
  if startsWith clean "violation: " then trim (substring_from clean 11) else clean.

(** The part is wrapped in double quotes. *)
Definition quoted (part : string) : bool :=
  startsWith (stripped part) dquote && endsWith (stripped part) dquote.

(** No white space in the text. *)
Definition no_ws (s : string) : bool := Url.forall_chars (fun c => negb (is_ws c)) s.

(** The label of a help link. *)
Definition help_label : string := "More information: ".

(** A quoted part whose text begins with white space before a colon. *)
Definition blank_prefix_message : string :=
  String (ascii_of_nat 34) ("    : x" +:+ dquote).

End ParserNotions.

(** ** Sequences of ids *)
Module IdNotions.
Import StoreNotions.

(** The ids of [current] without those of [ids], in place. *)
Definition without (ids current : list string) : list string :=
  List.filter (fun x => negb (bool_decide (x ∈ ids))) current.

(** The elements of a [Set] of strings after [add] of each of [ids] in turn. *)
Definition added_all (ids current : list string) : list string :=
  fold_left (fun s x => added x s) ids current.

(** The elements of a [Set] of strings after [delete] of each of [ids] in
    turn. *)
Definition deleted_all (ids current : list string) : list string :=
  fold_left (fun s x => List.filter (fun y => negb (String.eqb x y)) s) ids current.

End IdNotions.

(** ** Requests, pages and names of a load *)
Module LoadNotions.
Import JsString Json Url Runtime DataManager LoaderNotions.

(** The state after the request of [url]. *)
Definition asked (url : string) (st : State) : State :=
  {| requests := requests st ++ [url]; console := console st |}.

(** The message of a response whose status is not one of success. *)
Definition fetch_error_message (resp : Response) : string :=
  "Failed to fetch data: " +:+ statusText resp +:+ " (" +:+ of_Z (status resp) +:+ ")".

(** The URL of the page [p] of the automatic pagination. *)
Definition pageUrl (urlObj : URL) (p : Z) : string :=
  href (searchParams_set "page" (of_Z p) urlObj).

(** The pages [p], [p + 1], ..., [n] of them. *)
Fixpoint pages_from (p : Z) (n : nat) : list Z :=
  match n with
  | O => []
  | S n' => p :: pages_from (p + 1) n'
  end.

(** The pages after the first one of a response that counts [total] pages. *)
Definition later_pages (total : Z) : list Z := pages_from 2 (Z.to_nat (total - 1)).

(** The request number [k] of the run, for the page [p], is answered with the
    records [records], which are not none. *)
Definition page_answered (w : World) (urlObj : URL) (k : nat) (p : Z)
    (records : list json) : Prop :=
  exists resp pData,
    network w k (pageUrl urlObj p) = Responded resp
    /\ ok resp = true
    /\ body resp = Some pData
    /\ Runtime.blockers pData = Some records
    /\ records <> [].

(** The requests [k], [k + 1], ... of the run, for the pages [p], [p + 1], ...,
    are answered with the records of [pages]. *)
Fixpoint pages_answered (w : World) (urlObj : URL) (k : nat) (p : Z)
    (pages : list (list json)) : Prop :=
  match pages with
  | [] => True
  | records :: rest =>
      page_answered w urlObj k p records /\ pages_answered w urlObj (S k) (p + 1) rest
  end.

(** The response without its [audit_name]. *)
Definition unnamed (data : ApiResponse) : ApiResponse :=
  {| audit_name := None;
     pagination := pagination data;
     blockers := Runtime.blockers data;
     scan_date := scan_date data;
     members := members data |}.

(** A name that looks like a file name: [isSlug]. *)
Definition is_slug (datasetName : string) : bool :=
  includes datasetName "_"
  || includes datasetName "-" && negb (includes datasetName " ").

(** The last segment of the path of a URL, without its extension. *)
Definition file_stem (urlObj : URL) : string :=
  strip_extension
    (List.last (split_chars (Ascii.eqb "/") EmptyString (pathname urlObj)) EmptyString).

(** The name with the date at its end, unless it has the date already. *)
Definition dated (datasetName : string) (extractedDate : option string) : string :=
  match extractedDate with
  | Some d => if includes datasetName d then datasetName
              else datasetName +:+ " (" +:+ d +:+ ")"
  | None => datasetName
  end.

(** The keys of the records that [extractFromList] builds. *)
Definition record_keys : list string :=
  ["id"; "url"; "messages"; "created_at"; "content"; "categories"; "tags"].

(** The id given to the item number [index] when it has none. *)
Definition fallback_id (w : World) (index : nat) : string :=
  "res_" +:+ of_nat index +:+ "_" +:+ of_Z (now w).

(** The state after a load of the older loader fails. *)
Definition services_name (data : ApiResponse) : string :=
  match audit_name data with
  | Some n => if JsString.truthy n then n else "Untitled Audit"
  | None => "Untitled Audit"
  end.

(** The older loader has nothing to report: the response has records, or
    counts none. *)
Definition has_records (data : ApiResponse) : bool :=
  match Runtime.blockers data with
  | Some (_ :: _) => true
  | _ => match pagination data with
         | Some pg => negb (0 <? totalCount pg)%Z
         | None => true
         end
  end.

End LoadNotions.

(** ** An API in three pages *)
Module PagedExample.
Import JsString Json Url Runtime Examples.

Definition record (name : string) : json :=
  JObj [("id", JStr name); ("url", JStr "https://example.com/")].

(** The answer to the request number [k]: one record, named after [k]. *)
Definition page_of (k : nat) : ApiResponse :=
  {| audit_name := Some "Site audit";
     pagination := Some {| totalPages := 3; pageSize := 1; page := 1; totalCount := 3 |};
     blockers := Some [record ("b" +:+ of_nat k)];
     scan_date := None;
     members := [] |}.

Definition paged_api : World := browser (fun k _ => answer (page_of k)).

Definition paged_url : string := "https://api.equalifyapp.com/public/audits".

Definition paged_urlObj : URL :=
  {| protocol := "https:";
     hostname := "api.equalifyapp.com";
     pathname := "/public/audits";
     query := None;
     fragment := None |}.

(** A response with a human name, and one with a file name. *)
Definition named_page (name : string) : ApiResponse :=
  {| audit_name := Some name;
     pagination := None;
     blockers := Some [record "b-1"];
     scan_date := None;
     members := [] |}.

Definition failing (resp : Response) : World := browser (fun _ _ => Responded resp).

Definition not_found : Response :=
  {| status := 404; statusText := "Not Found"; body := None |}.

Definition offline : World := browser (fun _ _ => NetworkError).

End PagedExample.

Module FailureNotions.
Import JsString Json Url Runtime DataManager LoaderNotions LoadNotions.

(** What the first request of a load fails with, if it fails: the network,
    the status of the response, or its body. *)
Definition first_failure (w : World) (url : string) (st : State) : option Json.error :=
  match network w (List.length (requests st)) url with
  | NetworkError => Some TypeError
  | Responded resp =>
      if ok resp then
        match body resp with
        | None => Some SyntaxError
        | Some _ => None
        end
      else Some (Error (fetch_error_message resp))
  end.

(** The id of a dataset. *)
Definition local_id (w : World) : string :=
  match randomUUID w with
  | Some uuid => uuid
  | None => "ds_" +:+ of_Z (now w) +:+ "_" +:+ substring (random36 w) 2 9
  end.

End FailureNotions.

(** ** Groups and counts *)
Module ViewNotions.
Import JsString Json JsData View TableSection ChartSection.

(** The items of [data] whose key is [key], in order. *)
Definition with_key {A} (key_of : A -> string) (key : string) (data : list A) : list A :=
  List.filter (fun item => String.eqb (key_of item) key) data.

(** The number of records of a group. *)
Definition size_of {A} (group : string * list A) : nat := List.length (snd group).

(** No key of the items is a property that objects inherit. *)
Definition plain_keys {A} (key_of : A -> string) (data : list A) : Prop :=
  Forall (fun item => is_inherited (key_of item) = false) data.

(** The key under which the chart of the URLs counts an item. *)
Definition url_key (item : Blocker) : string := or_text (Some (url item)) "Unknown URL".

(** The test of the search box on a row. *)
Definition matches (search : string) (item : Blocker) : bool :=
  includes (lowerCase (url item)) (lowerCase search)
  || includes (lowerCase (or_text (first_message item) EmptyString)) (lowerCase search).

(** The number of items of [data] under [key]. *)
Definition occurrences {A} (key_of : A -> string) (key : string) (data : list A) : Z :=
  Z.of_nat (List.length (with_key key_of key data)).

(** The loop of [groupedData], from the groups made so far. *)
Definition group_loop (key_of : Blocker -> string) (items : list Blocker)
    (acc : outcome (list (string * list Blocker))) : outcome (list (string * list Blocker)) :=
  fold_left (fun acc item => Json.bind acc (fun groups => push_item groups (key_of item) item))
            items acc.

(** The groups hold the items [done]: one group for each key, in the order
    in which the keys come first, each with its items in order. *)
Definition grouping (key_of : Blocker -> string) (groups : list (string * list Blocker))
    (done : list Blocker) : Prop :=
  map fst groups = from (map key_of done)
  /\ (forall key, key ∈ map fst groups -> own groups key = Some (with_key key_of key done))
  /\ list_sum (map size_of groups) = List.length done.

(** The loop of the charts that counts, from the counts made so far. *)
Definition count_loop (key_of : Blocker -> string) (items : list Blocker)
    (acc : option (list (string * Z))) : option (list (string * Z)) :=
  fold_left (fun grouped item => count_key grouped (key_of item)) items acc.

(** The sizes of the groups. *)
Definition tally (groups : list (string * list Blocker)) : list (string * Z) :=
  map (fun g => (fst g, Z.of_nat (size_of g))) groups.

End ViewNotions.

(** ** Rows and datasets of an example *)
Module ViewExample.
Import JsString Json JsData View.

Definition row (id url message : string) : Blocker :=
  {| id := id;
     created_at := "2024-05-01T00:00:00Z";
     messages := Some [message];
     url := url;
     content := EmptyString;
     categories := [];
     tags := [] |}.

Definition rows : list Blocker :=
  [row "1" "https://a.example/" "Images must have alternate text";
   row "2" "https://b.example/Page" "Links must have discernible text";
   row "3" "https://a.example/" "Images must have alternate text"].

(** Rows of which one has a URL that is the name of an inherited property. *)
Definition odd_rows : list Blocker := rows ++ [row "4" "constructor" "Frames need a title"].

Definition report (name : string) (timestamp : Z) (blockers : list Blocker) : Dataset :=
  {| ds_id := "local_" +:+ name;
     ds_url := "https://example.org/" +:+ name;
     name := name;
     blockers := blockers;
     timestamp := timestamp;
     color := None;
     index := None |}.

Definition reports : list Dataset :=
  [report "first" 1714521600000 rows;
   report "second" 1714608000000 [row "5" "https://a.example/" "Frames need a title"]].

End ViewExample.

(** ** The charts and the table *)
Module ChartNotions.
Import JsString Json JsData View ViewNotions.

(** The rule of the title of a group of the table by message: the first rule
    that [parseMessages] finds in it. *)
Definition header_rule (key : string) : string :=
  or_text (ViolationParser.rule <$> head (ViolationParser.parseMessages key))
          "Unknown Issue".

(** The number of rows of the groups whose title has the rule [rule]. *)
Definition rows_of_rule (rule : string) (groups : list (string * list Blocker)) : nat :=
  list_sum (map size_of
                (List.filter (fun group => String.eqb (header_rule (fst group)) rule)
                             groups)).

(** The number of records of the datasets at [url]. *)
Definition records_at (url : string) (datasets : list Dataset) : nat :=
  list_sum (map (fun ds => List.length (with_key View.url url (blockers ds))) datasets).

(** The keys of a row that are no ids of datasets. *)
Definition row_labels : list string := ["name"; "displayName"; "__proto__"].

End ChartNotions.


(* ===================================================================== *)
(** * Part III: proofs                                                    *)
(* ===================================================================== *)

(** ** Strings *)
Module StringFacts.
Import JsString.

Lemma sapp_cons (c : ascii) (s t : string) : String c s +:+ t = String c (s +:+ t).
Proof. reflexivity. Qed.

Lemma sapp_nil_l (s : string) : EmptyString +:+ s = s.
Proof. reflexivity. Qed.

Lemma sapp_nil_r (s : string) : s +:+ EmptyString = s.
Proof. induction s as [|c s IH]; [reflexivity | now rewrite sapp_cons, IH]. Qed.

Lemma sapp_assoc (a b c : string) : (a +:+ b) +:+ c = a +:+ (b +:+ c).
Proof. induction a as [|x a IH]; [reflexivity | now rewrite !sapp_cons, IH]. Qed.

Lemma slength_app (a b : string) :
  String.length (a +:+ b) = String.length a + String.length b.
Proof. induction a as [|x a IH]; [reflexivity | rewrite sapp_cons; simpl; now rewrite IH]. Qed.

Lemma join_cons2 (sep a b : string) (l : list string) :
  join sep (a :: b :: l) = a +:+ sep +:+ join sep (b :: l).
Proof. reflexivity. Qed.

End StringFacts.

(** ** [JSON.parse] after [JSON.stringify] *)
Module JsonFacts.
Import JsString Json StringFacts JsonNotions.

Lemma parse_quote_char (c : ascii) (t : string) :
  parse_string_body (quote_char c +:+ t)
  = '(str, rest) ← parse_string_body t; Some (String c str, rest).
Proof.
  destruct c as [[] [] [] [] [] [] [] []]; reflexivity.
Qed.

(** A quoted string is read back, whatever follows it. *)
Lemma parse_quote_body (s rest : string) :
  parse_string_body (quote_body s +:+ String dq rest) = Some (s, rest).
Proof.
  induction s as [|c s IH].
  - reflexivity.
  - cbn [quote_body]. rewrite sapp_assoc, parse_quote_char, IH. reflexivity.
Qed.

Lemma parse_value_quote (fuel : nat) (s rest : string) :
  parse_value (S fuel) (quote s +:+ rest) = Some (JStr s, rest).
Proof.
  unfold quote. rewrite sapp_cons, sapp_assoc, sapp_cons, sapp_nil_l.
  transitivity ('(str, r) ← parse_string_body (quote_body s +:+ String dq rest);
                Some (JStr str, r)); [reflexivity|].
  rewrite parse_quote_body. reflexivity.
Qed.

Lemma parse_elements_quoted (ids : list string) (id : string) (fuel : nat) (rest : string) :
  List.length ids < fuel ->
  parse_elements (S fuel)
    (join "," (map quote (id :: ids)) +:+ String "]" rest)
  = Some (map JStr (id :: ids), rest).
Proof.
  revert id fuel. induction ids as [|id' ids IH]; intros id fuel Hfuel.
  - destruct fuel as [|fuel]; [simpl in Hfuel; lia|].
    cbn [map join parse_elements].
    rewrite parse_value_quote. reflexivity.
  - destruct fuel as [|fuel]; [simpl in Hfuel; lia|].
    cbn [map]. rewrite join_cons2, !sapp_assoc.
    cbn [parse_elements]. rewrite parse_value_quote.
    rewrite sapp_cons, sapp_nil_l.
    specialize (IH id' fuel). cbn [map] in IH.
    transitivity ('(items, rest') ← parse_elements (S fuel)
                     (join "," (quote id' :: map quote ids) +:+ String "]" rest);
                  Some (JStr id :: items, rest')); [reflexivity|].
    rewrite IH by (simpl in Hfuel; lia). reflexivity.
Qed.

Lemma length_join_quote (ids : list string) :
  List.length ids <= String.length (join "," (map quote ids)).
Proof.
  induction ids as [|id [|id' ids] IH].
  - simpl. lia.
  - simpl. lia.
  - cbn [map] in *. rewrite join_cons2, !slength_app. simpl in *. lia.
Qed.

(** [JSON.parse(JSON.stringify(ids))] is [ids], for an array of strings. *)
Theorem parse_stringify_ids (ids : list string) :
  parse (stringify (JArr (map JStr ids))) = Returns (JArr (map JStr ids)).
Proof.
  unfold parse.
  destruct ids as [|id ids].
  - reflexivity.
  - cbn [stringify]. rewrite map_map.
    change (map (fun x => stringify (JStr x)) (id :: ids)) with (map quote (id :: ids)).
    set (body := join "," (map quote (id :: ids))).
    assert (Hlen : List.length (id :: ids) <= String.length body)
      by apply length_join_quote.
    rewrite sapp_cons, sapp_nil_l. cbn [String.length]. rewrite slength_app.
    cbn [String.length].
    replace (String.length body + 1) with (S (String.length body)) by lia.
    assert (Hq : exists r, body = String dq r).
    { unfold body. destruct ids; cbn [map]; [|rewrite join_cons2]; unfold quote;
        rewrite ?sapp_cons; eauto. }
    destruct Hq as [r Hq].
    remember (String.length body) as n eqn:Hn.
    transitivity (match ('(items, rest) ← parse_elements (S (S n)) (body +:+ "]");
                         Some (JArr items, rest)) with
                  | Some (v, rest) =>
                      match skip_ws rest with
                      | EmptyString => Returns v
                      | _ => Throws SyntaxError
                      end
                  | None => Throws SyntaxError
                  end).
    { rewrite Hq. reflexivity. }
    unfold body. rewrite parse_elements_quoted by (simpl in Hlen; lia).
    reflexivity.
Qed.

Lemma skip_ws_length (s : string) : String.length (skip_ws s) <= String.length s.
Proof.
  induction s as [|c s IH]; [reflexivity|]. cbn [skip_ws].
  destruct (is_json_ws c); cbn [String.length]; lia.
Qed.

Lemma skip_ws_cons (s r : string) (c : ascii) :
  skip_ws s = String c r -> String.length r < String.length s.
Proof.
  intros H. pose proof (skip_ws_length s) as Hl. rewrite H in Hl.
  cbn [String.length] in Hl. lia.
Qed.

Lemma parse_string_body_length (s str rest : string) :
  parse_string_body s = Some (str, rest) -> String.length rest < String.length s.
Proof.
  remember (String.length s) as n eqn:Hn. revert s str rest Hn.
  induction n as [n IH] using lt_wf_ind. intros s str rest -> H.
  destruct s as [|c s]; [discriminate|]. cbn [parse_string_body] in H.
  destruct (Ascii.eqb c dq).
  { injection H as _ <-. cbn [String.length]. lia. }
  destruct (Ascii.eqb c backslash).
  - destruct s as [|e s]; [discriminate|].
    destruct (Ascii.eqb e "u").
    + destruct s as [|h1 [|h2 [|h3 [|h4 r]]]]; try discriminate.
      destruct (unicode_escape h1 h2 h3 h4); [|discriminate]. cbn in H.
      destruct (parse_string_body r) as [[str' rest']|] eqn:E; [|discriminate].
      cbn in H. injection H as _ <-.
      apply (IH (String.length r)) in E; cbn [String.length] in *; lia.
    + destruct (simple_escape e); [|discriminate]. cbn in H.
      destruct (parse_string_body s) as [[str' rest']|] eqn:E; [|discriminate].
      cbn in H. injection H as _ <-.
      apply (IH (String.length s)) in E; cbn [String.length] in *; lia.
  - destruct (N_of_ascii c <? 32)%N; [discriminate|].
    destruct (parse_string_body s) as [[str' rest']|] eqn:E; [|discriminate].
    cbn in H. injection H as _ <-.
    apply (IH (String.length s)) in E; cbn [String.length] in *; lia.
Qed.

Lemma parse_digits_length (s : string) (acc : N) :
  String.length (snd (parse_digits acc s)) <= String.length s.
Proof.
  revert acc. induction s as [|c s IH]; intros acc; [reflexivity|].
  cbn [parse_digits]. destruct (is_digit c); cbn [String.length snd].
  - specialize (IH (10 * acc + (N_of_ascii c - 48))%N). lia.
  - lia.
Qed.

Lemma parse_nat_literal_length (s rest : string) (n : N) :
  parse_nat_literal s = Some (n, rest) -> String.length rest < String.length s.
Proof.
  destruct s as [|c s]; [discriminate|]. unfold parse_nat_literal.
  destruct (Ascii.eqb c "0").
  { intros [= _ <-]. cbn [String.length]. lia. }
  destruct (is_digit c) eqn:Hd; [|discriminate].
  cbn [parse_digits]. rewrite Hd. intros [= H].
  pose proof (parse_digits_length s (10 * 0 + (N_of_ascii c - 48))%N) as Hl.
  rewrite H in Hl. cbn [snd String.length] in *. lia.
Qed.

Lemma parse_number_length (s rest : string) (v : json) :
  parse_number s = Some (v, rest) -> String.length rest < String.length s.
Proof.
  destruct s as [|c s]; [discriminate|]. unfold parse_number.
  destruct (Ascii.eqb c "-").
  - destruct (parse_nat_literal s) as [[n r]|] eqn:E; [|discriminate]. cbn.
    destruct (no_fraction r); [|discriminate]. intros [= _ <-].
    apply parse_nat_literal_length in E. cbn [String.length]. lia.
  - destruct (parse_nat_literal (String c s)) as [[n r]|] eqn:E; [|discriminate]. cbn.
    destruct (no_fraction r); [|discriminate]. intros [= _ <-].
    now apply parse_nat_literal_length in E.
Qed.

Lemma startsWith_drop_length (s w : string) :
  startsWith s w = true ->
  String.length (drop (String.length w) s) + String.length w = String.length s.
Proof.
  revert s. induction w as [|a w IH]; intros s H.
  - cbn. lia.
  - destruct s as [|b s]; [discriminate|]. cbn [startsWith] in H.
    destruct (Ascii.eqb a b); [|discriminate].
    cbn [String.length drop]. specialize (IH s H). lia.
Qed.

Lemma parse_literal_length (w : string) (v v' : json) (s rest : string) :
  w <> EmptyString ->
  parse_literal w v s = Some (v', rest) -> String.length rest < String.length s.
Proof.
  intros Hw. unfold parse_literal. destruct (startsWith s w) eqn:E; [|discriminate].
  intros [= _ <-]. apply startsWith_drop_length in E.
  destruct w; [congruence|]. cbn [String.length] in *. lia.
Qed.

Lemma parse_adequate (n : nat) :
  adequate parse_value n
  /\ adequate parse_elements n
  /\ forall acc, adequate (fun fuel => parse_members fuel acc) n.
Proof.
  induction n as [|n (IHv & IHe & IHm)].
  { repeat split; discriminate. }
  split; [|split].
  - intros s v rest H. cbn [parse_value] in H.
    destruct (skip_ws s) as [|c r] eqn:Es; [discriminate|].
    pose proof (skip_ws_cons s r c Es) as Hs.
    assert (Hscalar : forall (p : option (json * string)),
               p = Some (v, rest) ->
               (forall m, parse_value (S m) s = p) ->
               String.length rest < String.length (String c r) ->
               String.length rest < String.length s
               /\ forall m, String.length s - String.length rest <= m ->
                            parse_value m s = Some (v, rest)).
    { intros p Hp Hrun Hlen. cbn [String.length] in Hlen. split; [lia|].
      intros [|m] Hm; [lia|]. now rewrite Hrun. }
    destruct (Ascii.eqb c "n") eqn:E1.
    { apply (Hscalar _ H).
      - intros m. cbn [parse_value]. now rewrite Es, E1.
      - eapply parse_literal_length; [|exact H]. discriminate. }
    destruct (Ascii.eqb c "t") eqn:E2.
    { apply (Hscalar _ H).
      - intros m. cbn [parse_value]. now rewrite Es, E1, E2.
      - eapply parse_literal_length; [|exact H]. discriminate. }
    destruct (Ascii.eqb c "f") eqn:E3.
    { apply (Hscalar _ H).
      - intros m. cbn [parse_value]. now rewrite Es, E1, E2, E3.
      - eapply parse_literal_length; [|exact H]. discriminate. }
    destruct (Ascii.eqb c dq) eqn:E4.
    { apply (Hscalar _ H).
      - intros m. cbn [parse_value]. now rewrite Es, E1, E2, E3, E4.
      - destruct (parse_string_body r) as [[str rest']|] eqn:E; [|discriminate].
        cbn in H. injection H as _ <-. apply parse_string_body_length in E.
        cbn [String.length]. lia. }
    destruct (Ascii.eqb c "[") eqn:E5.
    { destruct (skip_ws r) as [|d r'] eqn:Er; [discriminate|].
      pose proof (skip_ws_cons r r' d Er) as Hr.
      destruct (Ascii.eqb d "]") eqn:E6.
      - apply (Hscalar _ H).
        + intros m. cbn [parse_value]. now rewrite Es, E1, E2, E3, E4, E5, Er, E6.
        + injection H as _ <-. cbn [String.length]. lia.
      - destruct (parse_elements n r) as [[items rest']|] eqn:E; [|discriminate].
        cbn in H. injection H as <- <-.
        destruct (IHe r items rest' E) as (Hlen & Hrun).
        split; [lia|]. intros [|m] Hm; [lia|].
        cbn [parse_value]. rewrite Es, E1, E2, E3, E4, E5, Er, E6.
        rewrite Hrun by lia. reflexivity. }
    destruct (Ascii.eqb c "{") eqn:E7.
    { destruct (skip_ws r) as [|d r'] eqn:Er; [discriminate|].
      pose proof (skip_ws_cons r r' d Er) as Hr.
      destruct (Ascii.eqb d "}") eqn:E6.
      - apply (Hscalar _ H).
        + intros m. cbn [parse_value]. now rewrite Es, E1, E2, E3, E4, E5, E7, Er, E6.
        + injection H as _ <-. cbn [String.length]. lia.
      - destruct (parse_members n [] r) as [[fields rest']|] eqn:E; [|discriminate].
        cbn in H. injection H as <- <-.
        destruct (IHm [] r fields rest' E) as (Hlen & Hrun).
        split; [lia|]. intros [|m] Hm; [lia|].
        cbn [parse_value]. rewrite Es, E1, E2, E3, E4, E5, E7, Er, E6.
        rewrite Hrun by lia. reflexivity. }
    apply (Hscalar _ H).
    + intros m. cbn [parse_value]. now rewrite Es, E1, E2, E3, E4, E5, E7.
    + now apply parse_number_length in H.
  - intros s items rest H. cbn [parse_elements] in H.
    destruct (parse_value n s) as [[v rest0]|] eqn:Ev; [|discriminate]. cbn in H.
    destruct (IHv s v rest0 Ev) as (Hlen0 & Hrun0).
    destruct (skip_ws rest0) as [|c r] eqn:Es; [discriminate|].
    pose proof (skip_ws_cons rest0 r c Es) as Hs.
    destruct (Ascii.eqb c ",") eqn:E1.
    + destruct (parse_elements n r) as [[items' rest']|] eqn:E; [|discriminate].
      cbn in H. injection H as <- <-.
      destruct (IHe r items' rest' E) as (Hlen & Hrun).
      split; [lia|]. intros [|m] Hm; [lia|].
      cbn [parse_elements]. rewrite Hrun0 by lia. cbn. rewrite Es, E1.
      rewrite Hrun by lia. reflexivity.
    + destruct (Ascii.eqb c "]") eqn:E2; [|discriminate].
      injection H as <- <-. split; [lia|]. intros [|m] Hm; [lia|].
      cbn [parse_elements]. rewrite Hrun0 by lia. cbn. now rewrite Es, E1, E2.
  - intros acc s fields rest H. cbn [parse_members] in H.
    destruct (skip_ws s) as [|q r] eqn:Es; [discriminate|].
    pose proof (skip_ws_cons s r q Es) as Hs.
    destruct (Ascii.eqb q dq) eqn:E1; [|discriminate].
    destruct (parse_string_body r) as [[key rest0]|] eqn:Ek; [|discriminate]. cbn in H.
    pose proof (parse_string_body_length r key rest0 Ek) as Hk.
    destruct (skip_ws rest0) as [|colon r1] eqn:E0; [discriminate|].
    pose proof (skip_ws_cons rest0 r1 colon E0) as H0.
    destruct (Ascii.eqb colon ":") eqn:E2; [|discriminate].
    destruct (parse_value n r1) as [[v rest1]|] eqn:Ev; [|discriminate]. cbn in H.
    destruct (IHv r1 v rest1 Ev) as (Hlen1 & Hrun1).
    destruct (skip_ws rest1) as [|c r2] eqn:E3; [discriminate|].
    pose proof (skip_ws_cons rest1 r2 c E3) as H3.
    destruct (Ascii.eqb c ",") eqn:E4.
    + destruct (IHm (set_field key v acc) r2 fields rest H) as (Hlen & Hrun).
      split; [lia|]. intros [|m] Hm; [lia|].
      cbn [parse_members]. rewrite Es, E1, Ek. cbn. rewrite E0, E2.
      rewrite Hrun1 by lia. cbn. rewrite E3, E4. apply Hrun. lia.
    + destruct (Ascii.eqb c "}") eqn:E5; [|discriminate].
      injection H as <- <-. split; [lia|]. intros [|m] Hm; [lia|].
      cbn [parse_members]. rewrite Es, E1, Ek. cbn. rewrite E0, E2.
      rewrite Hrun1 by lia. cbn. now rewrite E3, E4, E5.
Qed.

(** The fuel that [parse] gives is enough: a text that the grammar accepts
    with some fuel is accepted by [parse]. *)
Lemma parse_value_fuel (fuel : nat) (text : string) (v : json) (rest : string) :
  parse_value fuel text = Some (v, rest) ->
  parse_value (S (String.length text)) text = Some (v, rest).
Proof.
  intros H. destruct (parse_adequate fuel) as (Hv & _).
  destruct (Hv text v rest H) as (_ & Hrun). apply Hrun. lia.
Qed.

End JsonFacts.

(** ** The ignore-state store *)
Module StoreFacts.
Import JsString Json DataManager StringFacts JsonFacts StoreNotions.

Lemma stringify_ids_truthy (ids : list string) :
  JsString.truthy (stringify (JArr (map JStr ids))) = true.
Proof. reflexivity. Qed.

(** What was written by the store is read back by [getIgnoredIds]. *)
Lemma getIgnoredIds_after_write (ls : gmap string string) (ids : list string) :
  getIgnoredIds (<[STORAGE_KEY := stringify (JArr (map JStr ids))]> ls)
  = Returns (JArr (map JStr ids)).
Proof.
  unfold getIgnoredIds. rewrite lookup_insert_eq.
  rewrite stringify_ids_truthy. apply parse_stringify_ids.
Qed.

Lemma array_indexOf_None (id : string) (ids : list string) :
  array_indexOf id (map JStr ids) = None <-> id ∉ ids.
Proof.
  induction ids as [|x ids IH]; cbn [map array_indexOf is_id].
  - split; [intros _; apply not_elem_of_nil | reflexivity].
  - rewrite not_elem_of_cons. destruct (String.eqb_spec x id) as [->|Hne].
    + split; [discriminate | intros [H _]; congruence].
    + destruct (array_indexOf id (map JStr ids)); cbn [option_map].
      * split; [discriminate | intros [_ H]; apply IH in H; discriminate].
      * split; [intros _; split; [congruence | now apply IH] | reflexivity].
Qed.

Lemma filter_is_id (id : string) (ids : list string) :
  List.filter (fun i => negb (is_id id i)) (map JStr ids)
  = map JStr (List.filter (fun x => negb (String.eqb x id)) ids).
Proof.
  induction ids as [|x ids IH]; [reflexivity|].
  cbn [map List.filter is_id].
  destruct (String.eqb x id); cbn [negb map]; [exact IH | f_equal; exact IH].
Qed.

Lemma NoDup_filter_bool {A} (f : A -> bool) (l : list A) :
  NoDup l -> NoDup (List.filter f l).
Proof.
  induction 1 as [|x l Hx Hl IH]; cbn [List.filter]; [constructor|].
  destruct (f x); [|assumption].
  constructor; [|assumption].
  rewrite list_elem_of_In, filter_In, <- list_elem_of_In. tauto.
Qed.

Lemma NoDup_snoc (x : string) (l : list string) :
  NoDup l -> x ∉ l -> NoDup (l ++ [x]).
Proof.
  intros Hl Hx. apply NoDup_app. repeat split; [assumption | | apply NoDup_singleton].
  intros y Hy Hy'. apply list_elem_of_singleton in Hy'. congruence.
Qed.

Lemma toggleIgnoreId_ids (id : string) (ls : gmap string string) (ids : list string) :
  getIgnoredIds ls = Returns (JArr (map JStr ids)) ->
  toggleIgnoreId id ls
  = Returns (map JStr (toggled id ids),
             <[STORAGE_KEY := stringify (JArr (map JStr (toggled id ids)))]> ls).
Proof.
  intros Hget. unfold toggleIgnoreId, toggled. rewrite Hget. cbn [Json.bind].
  destruct (array_indexOf id (map JStr ids)) as [i|] eqn:Hi.
  - rewrite bool_decide_eq_true_2.
    + cbn [Json.bind]. now rewrite filter_is_id.
    + destruct (decide (id ∈ ids)) as [|Hn]; [assumption|].
      apply array_indexOf_None in Hn. congruence.
  - rewrite bool_decide_eq_false_2 by now apply array_indexOf_None.
    cbn [Json.bind]. rewrite map_app. reflexivity.
Qed.

Lemma NoDup_toggled (id : string) (ids : list string) :
  NoDup ids -> NoDup (toggled id ids).
Proof.
  intros H. unfold toggled. case_bool_decide.
  - now apply NoDup_filter_bool.
  - now apply NoDup_snoc.
Qed.

Lemma existsb_same_value (x : string) (s : list string) :
  existsb (same_value (JStr x)) (map JStr s) = bool_decide (x ∈ s).
Proof.
  induction s as [|y s IH]; cbn [map existsb same_value]; [reflexivity|].
  rewrite IH. destruct (String.eqb_spec x y) as [->|Hne]; cbn [orb].
  - symmetry. apply bool_decide_eq_true_2. left.
  - apply bool_decide_ext. rewrite elem_of_cons. tauto.
Qed.

Lemma set_add_ids (x : string) (s : list string) :
  set_add (JStr x) (map JStr s) = map JStr (added x s).
Proof.
  unfold set_add, added. rewrite existsb_same_value.
  case_bool_decide; [reflexivity | now rewrite map_app].
Qed.

Lemma set_delete_ids (x : string) (s : list string) :
  set_delete (JStr x) (map JStr s)
  = map JStr (List.filter (fun y => negb (String.eqb x y)) s).
Proof.
  unfold set_delete. induction s as [|y s IH]; [reflexivity|].
  cbn [map List.filter same_value].
  destruct (String.eqb x y); cbn [negb map]; [exact IH | f_equal; exact IH].
Qed.

Lemma NoDup_added (x : string) (s : list string) : NoDup s -> NoDup (added x s).
Proof. intros H. unfold added. case_bool_decide; [assumption | now apply NoDup_snoc]. Qed.

Lemma fold_set_add_ids (items acc : list string) :
  NoDup acc ->
  exists s, fold_left (fun s x => set_add x s) (map JStr items) (map JStr acc) = map JStr s
            /\ NoDup s.
Proof.
  revert acc. induction items as [|x items IH]; intros acc Hacc; cbn [map fold_left].
  - eauto.
  - rewrite set_add_ids. apply IH. now apply NoDup_added.
Qed.

Lemma fold_bulk_ids (shouldIgnore : bool) (ids acc : list string) :
  NoDup acc ->
  exists s,
    fold_left (fun current id =>
                 if shouldIgnore then set_add (JStr id) current
                 else set_delete (JStr id) current) ids (map JStr acc) = map JStr s
    /\ NoDup s.
Proof.
  revert acc. induction ids as [|x ids IH]; intros acc Hacc; cbn [fold_left].
  - eauto.
  - destruct shouldIgnore.
    + rewrite set_add_ids. apply IH. now apply NoDup_added.
    + rewrite set_delete_ids. apply IH. now apply NoDup_filter_bool.
Qed.

Lemma bulkIgnoreIds_ids (ids : list string) (shouldIgnore : bool)
    (ls : gmap string string) (stored : list string) :
  getIgnoredIds ls = Returns (JArr (map JStr stored)) ->
  exists newIds,
    bulkIgnoreIds ids shouldIgnore ls
    = Returns (map JStr newIds, <[STORAGE_KEY := stringify (JArr (map JStr newIds))]> ls)
    /\ NoDup newIds.
Proof.
  intros Hget. unfold bulkIgnoreIds. rewrite Hget. cbn [Json.bind].
  unfold set_from.
  destruct (fold_set_add_ids stored [] (NoDup_nil_2)) as [s [Hs Hnd]].
  cbn [map] in Hs. rewrite Hs.
  destruct (fold_bulk_ids shouldIgnore ids s Hnd) as [s' [Hs' Hnd']].
  rewrite Hs'. eauto.
Qed.

End StoreFacts.

(** ** Searching a string *)
Module SearchFacts.
Import JsString StringFacts Notions.

Lemma take_app_length (a b : string) : take (String.length a) (a +:+ b) = a.
Proof.
  induction a as [|c a IH]; [reflexivity|].
  rewrite sapp_cons. cbn [String.length take]. now rewrite IH.
Qed.

Lemma drop_app_length (a b : string) : drop (String.length a) (a +:+ b) = b.
Proof. induction a as [|c a IH]; [reflexivity | exact IH]. Qed.

Lemma take_drop (n : nat) (s : string) : take n s +:+ drop n s = s.
Proof.
  revert s. induction n as [|n IH]; intros [|c s]; try reflexivity.
  cbn [take drop]. now rewrite sapp_cons, IH.
Qed.

Lemma length_take_le (n : nat) (s : string) :
  n <= String.length s -> String.length (take n s) = n.
Proof.
  revert s. induction n as [|n IH]; intros [|c s] H; cbn in *; try lia.
  rewrite IH; lia.
Qed.

Lemma startsWith_nil (s : string) : startsWith s EmptyString = true.
Proof. now destruct s. Qed.

Lemma startsWith_app (p r : string) : startsWith (p +:+ r) p = true.
Proof.
  induction p as [|c p IH]; [apply startsWith_nil|].
  rewrite sapp_cons. cbn [startsWith]. now rewrite Ascii.eqb_refl.
Qed.

Lemma startsWith_inv (s p : string) :
  startsWith s p = true -> s = p +:+ drop (String.length p) s.
Proof.
  revert s. induction p as [|c p IH]; intros s H; [reflexivity|].
  destruct s as [|d s]; [discriminate|]. cbn [startsWith] in H.
  destruct (Ascii.eqb_spec c d) as [->|]; [|discriminate].
  rewrite sapp_cons. cbn [String.length drop]. f_equal. now apply IH.
Qed.

Lemma startsWith_iff (s p : string) :
  startsWith s p = true <-> exists r, s = p +:+ r.
Proof.
  split.
  - intros H. eexists. now apply startsWith_inv.
  - intros [r ->]. apply startsWith_app.
Qed.

(** [indexOf] gives the first offset at which the pattern occurs. *)
Lemma indexOf_Some (s p : string) (i : nat) :
  indexOf s p = Some i ->
  exists a b, s = a +:+ p +:+ b /\ String.length a = i /\ a = take i s
              /\ b = drop (i + String.length p) s.
Proof.
  revert i. induction s as [|c s IH]; intros i H.
  - cbn [indexOf] in H. destruct (startsWith EmptyString p) eqn:Hp; [|discriminate].
    injection H as <-. exists EmptyString, (drop (String.length p) EmptyString).
    repeat split. rewrite sapp_nil_l. now apply startsWith_inv.
  - cbn [indexOf] in H. destruct (startsWith (String c s) p) eqn:Hp.
    + injection H as <-. exists EmptyString, (drop (String.length p) (String c s)).
      repeat split. rewrite sapp_nil_l. now apply startsWith_inv.
    + destruct (indexOf s p) as [j|] eqn:Hj; [|discriminate].
      injection H as <-. destruct (IH j eq_refl) as (a & b & Hs & Hlen & Ha & Hb).
      exists (String c a), b. rewrite sapp_cons. cbn [String.length take drop Nat.add].
      repeat split; congruence.
Qed.

Lemma indexOf_None (s p : string) : indexOf s p = None -> ~ occurs_in p s.
Proof.
  induction s as [|c s IH]; intros H (a & b & Hs).
  - cbn [indexOf] in H. destruct (startsWith EmptyString p) eqn:Hp; [discriminate|].
    destruct a; [|discriminate]. rewrite sapp_nil_l in Hs.
    rewrite Hs, startsWith_app in Hp. discriminate.
  - cbn [indexOf] in H. destruct (startsWith (String c s) p) eqn:Hp; [discriminate|].
    destruct (indexOf s p) eqn:Hj; [discriminate|].
    destruct a as [|d a].
    + rewrite sapp_nil_l in Hs. rewrite Hs, startsWith_app in Hp. discriminate.
    + rewrite sapp_cons in Hs. injection Hs as _ Hs. apply IH; [reflexivity|].
      now exists a, b.
Qed.

Lemma includes_iff (s p : string) : includes s p = true <-> occurs_in p s.
Proof.
  unfold includes. destruct (indexOf s p) as [i|] eqn:H.
  - split; [intros _ | reflexivity].
    destruct (indexOf_Some _ _ _ H) as (a & b & Hs & _). now exists a, b.
  - split; [discriminate | intros Ho]. now apply indexOf_None in Ho.
Qed.

Lemma includes_false_iff (s p : string) : includes s p = false <-> ~ occurs_in p s.
Proof. rewrite <- includes_iff. destruct (includes s p); split; congruence. Qed.

(** The first occurrence of a character. *)
Lemma indexOf_char (s : string) (c : ascii) (i : nat) :
  indexOf s (String c EmptyString) = Some i <->
  exists prefix tail, s = prefix +:+ String c tail /\ ~ has_char c prefix
                      /\ String.length prefix = i.
Proof.
  revert i. induction s as [|d s IH]; intros i.
  - cbn. split; [discriminate | intros ([|x p] & t & H & _); discriminate].
  - cbn [indexOf startsWith]. rewrite startsWith_nil.
    destruct (Ascii.eqb_spec c d) as [->|Hne].
    + split.
      * intros [= <-]. exists EmptyString, s. repeat split.
        intros ([|x a] & b & H); discriminate.
      * intros ([|x p] & t & H & Hno & Hlen); [now subst|].
        exfalso. apply Hno. rewrite sapp_cons in H. injection H as -> _.
        exists EmptyString, p. reflexivity.
    + split.
      * destruct (indexOf s (String c EmptyString)) as [j|] eqn:Hj; [|discriminate].
        intros [= <-]. destruct (proj1 (IH j) eq_refl) as (p & t & -> & Hno & Hlen).
        exists (String d p), t. rewrite sapp_cons. cbn [String.length].
        repeat split; [|congruence].
        intros ([|x a] & b & H).
        -- rewrite sapp_nil_l, sapp_cons in H. congruence.
        -- rewrite sapp_cons in H. injection H as _ H. apply Hno. now exists a, b.
      * intros ([|x p] & t & H & Hno & Hlen).
        -- rewrite sapp_nil_l in H. congruence.
        -- rewrite sapp_cons in H. injection H as -> ->. cbn [String.length] in Hlen.
           destruct i as [|i]; [discriminate|]. injection Hlen as Hlen.
           assert (Hi : indexOf (p +:+ String c t) (String c EmptyString) = Some i).
           { apply IH. exists p, t. repeat split; [|assumption].
             intros (a & b & Hab). apply Hno. exists (String x a), b.
             now rewrite sapp_cons, Hab. }
           now rewrite Hi.
Qed.

End SearchFacts.

(** ** [JSON.parse] and the JSON grammar *)
Module GrammarFacts.
Import JsString Json Url JsonGrammar.
Import StringFacts JsonFacts SearchFacts.

Lemma white_char_ws (c : ascii) : is_json_ws c = white_char c.
Proof. destruct c as [[] [] [] [] [] [] [] []]; reflexivity. Qed.

Lemma white_nil : white EmptyString.
Proof. reflexivity. Qed.

Lemma white_app (a b : string) : white a -> white b -> white (a +:+ b).
Proof.
  unfold white. induction a as [|c a IH]; [auto|]. rewrite sapp_cons.
  cbn [forall_chars]. intros H Hb. apply andb_true_iff in H as [Hc Ha].
  rewrite Hc. now apply IH.
Qed.

(** What [skip_ws] passes over is white space. *)
Lemma skip_ws_white (s : string) : exists w, s = w +:+ skip_ws s /\ white w.
Proof.
  induction s as [|c s (w & Hs & Hw)]; [now exists EmptyString|].
  cbn [skip_ws]. destruct (is_json_ws c) eqn:E.
  - exists (String c w). rewrite sapp_cons, <- Hs. split; [reflexivity|].
    unfold white. cbn [forall_chars]. now rewrite <- white_char_ws, E.
  - now exists EmptyString.
Qed.

Lemma skip_ws_nil (s : string) : skip_ws s = EmptyString -> white s.
Proof.
  intros H. destruct (skip_ws_white s) as (w & Hs & Hw). rewrite H, sapp_nil_r in Hs.
  now subst.
Qed.

Lemma hex_value_hex (c : ascii) (n : N) : hex_value c = Some n -> is_hex c = true.
Proof.
  unfold hex_value, is_hex. cbv zeta.
  destruct ((48 <=? N_of_ascii c) && (N_of_ascii c <=? 57))%N; [reflexivity|].
  destruct ((97 <=? N_of_ascii c) && (N_of_ascii c <=? 102))%N;
    [intros _; now rewrite orb_true_r|].
  destruct ((65 <=? N_of_ascii c) && (N_of_ascii c <=? 70))%N; [reflexivity | discriminate].
Qed.

Lemma simple_escape_letter (e u : ascii) :
  simple_escape e = Some u -> escape_letter e = true.
Proof. destruct e as [[] [] [] [] [] [] [] []]; vm_compute; congruence. Qed.

Lemma parse_string_body_sound (s str rest : string) :
  parse_string_body s = Some (str, rest) ->
  exists body, s = body +:+ String dq rest /\ string_chars body.
Proof.
  remember (String.length s) as n eqn:Hn. revert s str rest Hn.
  induction n as [n IH] using lt_wf_ind. intros s str rest -> H.
  destruct s as [|c s]; [discriminate|]. cbn [parse_string_body] in H.
  destruct (Ascii.eqb_spec c dq) as [->|Hq].
  { injection H as _ <-. exists EmptyString. split; [reflexivity | constructor]. }
  destruct (Ascii.eqb_spec c backslash) as [->|Hb].
  - destruct s as [|e s]; [discriminate|].
    destruct (Ascii.eqb_spec e "u") as [->|Hu].
    + destruct s as [|h1 [|h2 [|h3 [|h4 r]]]]; try discriminate.
      destruct (unicode_escape h1 h2 h3 h4) as [u|] eqn:Eu; [|discriminate].
      cbn in H. destruct (parse_string_body r) as [[str' rest']|] eqn:Er; [|discriminate].
      cbn in H. injection H as _ <-.
      destruct (IH (String.length r) ltac:(cbn [String.length]; lia) r str' rest' eq_refl Er)
        as (body & -> & Hbody).
      exists (String backslash (String "u" (String h1 (String h2 (String h3 (String h4 body)))))).
      split; [reflexivity|]. unfold unicode_escape in Eu.
      destruct (hex_value h1) eqn:E1; [|discriminate].
      destruct (hex_value h2) eqn:E2; [|discriminate].
      destruct (hex_value h3) eqn:E3; [|discriminate].
      destruct (hex_value h4) eqn:E4; [|discriminate].
      apply chars_unicode; eauto using hex_value_hex.
    + destruct (simple_escape e) as [u|] eqn:Ee; [|discriminate]. cbn in H.
      destruct (parse_string_body s) as [[str' rest']|] eqn:Er; [|discriminate].
      cbn in H. injection H as _ <-.
      destruct (IH (String.length s) ltac:(cbn [String.length]; lia) s str' rest' eq_refl Er)
        as (body & -> & Hbody).
      exists (String backslash (String e body)). split; [reflexivity|].
      apply chars_escape; eauto using simple_escape_letter.
  - destruct (N_of_ascii c <? 32)%N eqn:E32; [discriminate|].
    destruct (parse_string_body s) as [[str' rest']|] eqn:Er; [|discriminate].
    cbn in H. injection H as _ <-.
    destruct (IH (String.length s) ltac:(cbn [String.length]; lia) s str' rest' eq_refl Er)
      as (body & -> & Hbody).
    exists (String c body). split; [reflexivity|].
    apply chars_plain; [| | |exact Hbody].
    + apply N.ltb_ge in E32. now apply N.leb_le.
    + intros E. apply Hq. rewrite <- (ascii_N_embedding c), E. reflexivity.
    + intros E. apply Hb. rewrite <- (ascii_N_embedding c), E. reflexivity.
Qed.

Lemma parse_digits_sound (s : string) (acc : N) :
  exists d, s = d +:+ snd (parse_digits acc s) /\ forall_chars is_digit d = true.
Proof.
  revert acc. induction s as [|c s IH]; intros acc; [now exists EmptyString|].
  cbn [parse_digits]. destruct (is_digit c) eqn:E.
  - destruct (IH (10 * acc + (N_of_ascii c - 48))%N) as (d & Hs & Hd).
    exists (String c d). rewrite sapp_cons, <- Hs. split; [reflexivity|].
    cbn [forall_chars]. now rewrite E.
  - now exists EmptyString.
Qed.

Lemma parse_nat_literal_sound (s rest : string) (n : N) :
  parse_nat_literal s = Some (n, rest) -> exists i, s = i +:+ rest /\ int_part i.
Proof.
  destruct s as [|c s]; [discriminate|]. cbn [parse_nat_literal].
  destruct (Ascii.eqb_spec c "0") as [->|H0].
  - intros [= _ <-]. exists "0". split; [reflexivity | now left].
  - destruct (is_digit c) eqn:E; [|discriminate]. intros H.
    assert (Hrest : rest = snd (parse_digits 0 (String c s))) by (now destruct (parse_digits _ _); injection H as _ <-).
    destruct (parse_digits_sound (String c s) 0) as (d & Hs & Hd). rewrite <- Hrest in Hs.
    exists d. split; [exact Hs|]. right.
    destruct d as [|c' d].
    + rewrite sapp_nil_l in Hs. rewrite <- Hs in Hrest. cbn [parse_digits] in Hrest. rewrite E in Hrest.
      pose proof (parse_digits_length s (10 * 0 + (N_of_ascii c - 48))%N) as Hl.
      rewrite <- Hrest in Hl. cbn [String.length] in Hl. lia.
    + rewrite sapp_cons in Hs. injection Hs as <- _. cbn [forall_chars] in Hd.
      apply andb_true_iff in Hd as [_ Hd]. exists c, d. auto.
Qed.

Lemma parse_number_sound (s rest : string) (v : json) :
  parse_number s = Some (v, rest) -> exists n, s = n +:+ rest /\ number_literal n.
Proof.
  destruct s as [|c s]; [discriminate|]. unfold parse_number.
  destruct (Ascii.eqb_spec c "-") as [->|Hm].
  - destruct (parse_nat_literal s) as [[n r]|] eqn:E; [|discriminate]. cbn.
    destruct (no_fraction r); [|discriminate]. intros [= _ <-].
    destruct (parse_nat_literal_sound _ _ _ E) as (i & -> & Hi).
    exists ("-" +:+ i). split; [reflexivity|].
    exists "-", i, EmptyString, EmptyString. rewrite !sapp_nil_r.
    repeat split; auto; now left.
  - destruct (parse_nat_literal (String c s)) as [[n r]|] eqn:E; [|discriminate]. cbn.
    destruct (no_fraction r); [|discriminate]. intros [= _ <-].
    destruct (parse_nat_literal_sound _ _ _ E) as (i & Hs & Hi).
    exists i. split; [exact Hs|].
    exists EmptyString, i, EmptyString, EmptyString. rewrite !sapp_nil_r.
    repeat split; auto; now left.
Qed.

Lemma parse_literal_sound (word s rest : string) (v v' : json) :
  parse_literal word v s = Some (v', rest) -> s = word +:+ rest.
Proof.
  unfold parse_literal. destruct (startsWith s word) eqn:E; [|discriminate].
  intros [= _ <-]. now apply startsWith_inv.
Qed.

Ltac sapp_norm :=
  repeat first [rewrite sapp_assoc | rewrite sapp_cons | rewrite sapp_nil_l].

(** Whatever the parser accepts is written as the grammar says. *)
Lemma parse_value_sound (fuel : nat) :
  (forall s v rest,
      parse_value fuel s = Some (v, rest) ->
      exists w body, s = w +:+ body +:+ rest /\ white w /\ json_value body)
  /\ (forall s items rest,
         parse_elements fuel s = Some (items, rest) ->
         exists elements, s = elements +:+ "]" +:+ rest /\ json_elements elements)
  /\ (forall acc s fields rest,
         parse_members fuel acc s = Some (fields, rest) ->
         exists members, s = members +:+ "}" +:+ rest /\ json_members members).
Proof.
  induction fuel as [|n (IHv & IHe & IHm)].
  { repeat split; discriminate. }
  split; [|split].
  - intros s v rest H. cbn [parse_value] in H.
    destruct (skip_ws_white s) as (w & Hs & Hw).
    destruct (skip_ws s) as [|c r] eqn:Es; [discriminate|].
    exists w. rewrite Hs.
    assert (Hbody : exists body, String c r = body +:+ rest /\ json_value body);
      [|destruct Hbody as (body & -> & Hb); eauto].
    destruct (Ascii.eqb c "n") eqn:E1.
    { apply parse_literal_sound in H. eexists. split; [exact H | constructor]. }
    destruct (Ascii.eqb c "t") eqn:E2.
    { apply parse_literal_sound in H. eexists. split; [exact H | constructor]. }
    destruct (Ascii.eqb c "f") eqn:E3.
    { apply parse_literal_sound in H. eexists. split; [exact H | constructor]. }
    destruct (Ascii.eqb_spec c dq) as [->|E4].
    { destruct (parse_string_body r) as [[str rest']|] eqn:E; [|discriminate].
      cbn in H. injection H as _ <-.
      destruct (parse_string_body_sound _ _ _ E) as (body & -> & Hb).
      exists (quoted body). split; [|now constructor].
      unfold quoted, dq. rewrite !sapp_cons, sapp_assoc. reflexivity. }
    destruct (Ascii.eqb_spec c "[") as [->|E5].
    { destruct (skip_ws_white r) as (w' & Hr & Hw').
      destruct (skip_ws r) as [|d r'] eqn:Er; [discriminate|].
      destruct (Ascii.eqb_spec d "]") as [->|E6].
      - injection H as _ <-. exists ("[" +:+ w' +:+ "]"). split; [|now constructor].
        rewrite Hr, !sapp_assoc. reflexivity.
      - destruct (parse_elements n r) as [[items rest']|] eqn:E; [|discriminate].
        cbn in H. injection H as _ <-.
        destruct (IHe _ _ _ E) as (elements & -> & He).
        exists ("[" +:+ elements +:+ "]"). split; [|now constructor].
        rewrite !sapp_assoc. reflexivity. }
    destruct (Ascii.eqb_spec c "{") as [->|E7].
    { destruct (skip_ws_white r) as (w' & Hr & Hw').
      destruct (skip_ws r) as [|d r'] eqn:Er; [discriminate|].
      destruct (Ascii.eqb_spec d "}") as [->|E6].
      - injection H as _ <-. exists ("{" +:+ w' +:+ "}"). split; [|now constructor].
        rewrite Hr, !sapp_assoc. reflexivity.
      - destruct (parse_members n [] r) as [[fields rest']|] eqn:E; [|discriminate].
        cbn in H. injection H as _ <-.
        destruct (IHm _ _ _ _ E) as (members & -> & Hm).
        exists ("{" +:+ members +:+ "}"). split; [|now constructor].
        rewrite !sapp_assoc. reflexivity. }
    destruct (parse_number_sound _ _ _ H) as (lit & Hl & Hn).
    exists lit. split; [exact Hl | now constructor].
  - intros s items rest H. cbn [parse_elements] in H.
    destruct (parse_value n s) as [[v rest0]|] eqn:Ev; [|discriminate]. cbn in H.
    destruct (IHv _ _ _ Ev) as (w1 & body & -> & Hw1 & Hb).
    destruct (skip_ws_white rest0) as (w2 & Hr & Hw2).
    destruct (skip_ws rest0) as [|c r] eqn:Es; [discriminate|].
    destruct (Ascii.eqb_spec c ",") as [->|E1].
    + destruct (parse_elements n r) as [[items' rest']|] eqn:E; [|discriminate].
      cbn in H. injection H as _ <-.
      destruct (IHe _ _ _ E) as (elements & -> & He).
      exists (w1 +:+ body +:+ w2 +:+ "," +:+ elements).
      split; [|now constructor]. rewrite Hr, !sapp_assoc. reflexivity.
    + destruct (Ascii.eqb_spec c "]") as [->|E2]; [|discriminate].
      injection H as _ <-. exists (w1 +:+ body +:+ w2).
      split; [|now constructor]. rewrite Hr, !sapp_assoc. reflexivity.
  - intros acc s fields rest H. cbn [parse_members] in H.
    destruct (skip_ws_white s) as (w1 & Hs & Hw1).
    destruct (skip_ws s) as [|q r] eqn:Es; [discriminate|].
    destruct (Ascii.eqb_spec q dq) as [->|E1]; [|discriminate].
    destruct (parse_string_body r) as [[key rest0]|] eqn:Ek; [|discriminate]. cbn in H.
    destruct (parse_string_body_sound _ _ _ Ek) as (kb & -> & Hk).
    destruct (skip_ws_white rest0) as (w2 & H0 & Hw2).
    destruct (skip_ws rest0) as [|colon r1] eqn:E0; [discriminate|].
    destruct (Ascii.eqb_spec colon ":") as [->|E2]; [|discriminate].
    destruct (parse_value n r1) as [[v rest1]|] eqn:Ev; [|discriminate]. cbn in H.
    destruct (IHv _ _ _ Ev) as (w3 & body & -> & Hw3 & Hb).
    destruct (skip_ws_white rest1) as (w4 & H1 & Hw4).
    destruct (skip_ws rest1) as [|c r2] eqn:E3; [discriminate|].
    destruct (Ascii.eqb_spec c ",") as [->|E4].
    + destruct (IHm _ _ _ _ H) as (members & -> & Hm).
      exists (w1 +:+ quoted kb +:+ w2 +:+ ":" +:+ w3 +:+ body +:+ w4 +:+ "," +:+ members).
      split; [|now constructor].
      rewrite Hs, H0, H1. unfold quoted, dq. now sapp_norm.
    + destruct (Ascii.eqb_spec c "}") as [->|E5]; [|discriminate].
      injection H as _ <-.
      exists (w1 +:+ quoted kb +:+ w2 +:+ ":" +:+ w3 +:+ body +:+ w4).
      split; [|now constructor].
      rewrite Hs, H0, H1. unfold quoted, dq. now sapp_norm.
Qed.

(** [JSON.parse] returns on JSON texts only. *)
Lemma parse_json_text (text : string) (v : json) :
  Json.parse text = Returns v -> json_text text.
Proof.
  unfold Json.parse.
  destruct (parse_value (S (String.length text)) text) as [[v' rest]|] eqn:E;
    [|discriminate].
  destruct (skip_ws rest) eqn:Er; [|discriminate]. intros _.
  destruct (proj1 (parse_value_sound _) _ _ _ E) as (w & body & -> & Hw & Hb).
  exists w, body, rest. split; [reflexivity|]. split; [exact Hw|].
  split; [exact Hb | now apply skip_ws_nil].
Qed.

(** On a text that is no JSON text, [JSON.parse] throws a [SyntaxError]. *)
Lemma parse_not_json (text : string) :
  ~ json_text text -> Json.parse text = Throws SyntaxError.
Proof.
  intros H. destruct (Json.parse text) as [v|e] eqn:E.
  - destruct H. now apply parse_json_text in E.
  - unfold Json.parse in E.
    destruct (parse_value _ text) as [[v rest]|]; [destruct (skip_ws rest)|]; congruence.
Qed.

(** *** Texts that are no JSON texts *)

Lemma digit_head (c : ascii) : is_digit c = true -> value_head c = true.
Proof. intros H. unfold value_head. now rewrite H. Qed.

Lemma json_value_head (v : string) :
  json_value v -> exists c r, v = String c r /\ value_head c = true.
Proof.
  destruct 1 as [| | |s Hn|s _|w _|e _|w _|m _]; try (eexists _, _; split; reflexivity).
  destruct Hn as (sign & i & f & e & -> & Hsign & Hi & _).
  destruct Hsign as [-> | ->]; [|eexists _, _; split; reflexivity].
  destruct Hi as [-> | (c & r & -> & Hc & _)]; [eexists _, _; split; reflexivity|].
  exists c. eexists. split; [reflexivity | now apply digit_head].
Qed.

Lemma head_not_white (c : ascii) : value_head c = true -> white_char c = false.
Proof. destruct c as [[] [] [] [] [] [] [] []]; vm_compute; congruence. Qed.

Lemma first_black_app (w s : string) : white w -> first_black (w +:+ s) = first_black s.
Proof.
  unfold white. induction w as [|c w IH]; [reflexivity|]. rewrite sapp_cons.
  cbn [forall_chars first_black]. intros H. apply andb_true_iff in H as [-> H]. auto.
Qed.

(** A JSON text begins, after white space, as a value begins. *)
Lemma json_text_head (text : string) :
  json_text text -> exists c, first_black text = Some c /\ value_head c = true.
Proof.
  intros (w1 & v & w2 & -> & Hw1 & Hv & _).
  destruct (json_value_head v Hv) as (c & r & -> & Hc).
  exists c. rewrite (first_black_app _ _ Hw1), sapp_cons. cbn [first_black].
  now rewrite (head_not_white c Hc).
Qed.

Lemma not_json_text (text : string) :
  match first_black text with
  | Some c => value_head c = false
  | None => True
  end ->
  ~ json_text text.
Proof.
  intros H Ht. destruct (json_text_head text Ht) as (c & E & Hc). rewrite E in H.
  congruence.
Qed.

End GrammarFacts.

(** ** [split] and [join] *)
Module SplitFacts.
Import JsString StringFacts Notions SearchFacts.

Lemma split_go_not_nil (sep : string) (skip : nat) (cur s : string) :
  split_go sep skip cur s <> [].
Proof.
  revert skip cur. induction s as [|c s IH]; intros skip cur; cbn [split_go].
  - discriminate.
  - destruct skip; [destruct (startsWith (String c s) sep)|]; auto; discriminate.
Qed.

Lemma join_cons (sep p : string) (l : list string) :
  l <> [] -> join sep (p :: l) = p +:+ sep +:+ join sep l.
Proof. destruct l; [congruence | reflexivity]. Qed.

(** Joining the parts with the separator gives the string back. *)
Lemma join_split_go (sep : string) (s : string) (skip : nat) (cur : string) :
  sep <> EmptyString ->
  join sep (split_go sep skip cur s) = cur +:+ drop skip s.
Proof.
  intros Hsep. revert skip cur. induction s as [|c s IH]; intros skip cur; cbn [split_go].
  - cbn [join]. destruct skip; cbn [drop]; now rewrite sapp_nil_r.
  - destruct skip as [|k]; [|now rewrite IH].
    destruct (startsWith (String c s) sep) eqn:Hs.
    + rewrite join_cons by apply split_go_not_nil. rewrite IH, sapp_nil_l.
      cbn [drop]. f_equal.
      destruct sep as [|d sep]; [congruence|].
      apply startsWith_inv in Hs. cbn [String.length drop] in Hs.
      rewrite sapp_cons in Hs. injection Hs as <- Hs.
      cbn [String.length]. rewrite sapp_cons. f_equal.
      replace (S (String.length sep) - 1) with (String.length sep) by lia.
      exact (eq_sym Hs).
    + rewrite IH, sapp_assoc. reflexivity.
Qed.

Theorem join_split (s sep : string) :
  sep <> EmptyString -> join sep (split s sep) = s.
Proof. intros H. unfold split. now rewrite join_split_go. Qed.

Lemma length_split_go (sep : string) (s : string) (skip : nat) (cur : string) :
  List.length (split_go sep skip cur s) = scan_occurrences sep skip s + 1.
Proof.
  revert skip cur. induction s as [|c s IH]; intros skip cur;
    cbn [split_go scan_occurrences]; [reflexivity|].
  destruct skip as [|k]; [|apply IH].
  destruct (startsWith (String c s) sep); cbn [List.length]; now rewrite IH.
Qed.

Lemma scan_skip (sep : string) (s : string) (k : nat) :
  scan_occurrences sep k s = scan_occurrences sep 0 (drop k s).
Proof.
  revert k. induction s as [|c s IH]; intros [|k]; try reflexivity.
  cbn [scan_occurrences drop]. apply IH.
Qed.

Lemma includes_cons_false (c : ascii) (s p : string) :
  includes (String c s) p = false -> includes s p = false.
Proof.
  unfold includes. cbn [indexOf].
  destruct (startsWith (String c s) p); [discriminate|].
  now destruct (indexOf s p).
Qed.

Lemma includes_drop_false (k : nat) (s p : string) :
  includes s p = false -> includes (drop k s) p = false.
Proof.
  revert s. induction k as [|k IH]; intros [|c s] H; cbn [drop]; try assumption.
  apply IH. now apply includes_cons_false in H.
Qed.

Lemma includes_starts_false (s p : string) :
  includes s p = false -> startsWith s p = false.
Proof.
  unfold includes. destruct s; cbn [indexOf]; now destruct (startsWith _ p).
Qed.

(** When no two occurrences of the separator of messages overlap, every
    occurrence is met by the scan. *)
Lemma scan_occurrences_all (n : nat) (s : string) :
  String.length s <= n ->
  includes s " | | " = false ->
  scan_occurrences " | " 0 s = occurrences " | " s.
Proof.
  revert s. induction n as [|n IH]; intros s Hlen Hno.
  - destruct s; [reflexivity | cbn in Hlen; lia].
  - destruct s as [|c s]; [reflexivity|].
    cbn [scan_occurrences occurrences].
    destruct (startsWith (String c s) " | ") eqn:Hs.
    + apply startsWith_inv in Hs. cbn [String.length drop] in Hs.
      destruct s as [|c1 [|c2 t]]; try discriminate.
      rewrite !sapp_cons, sapp_nil_l in Hs. cbn [drop] in Hs.
      injection Hs as -> -> ->.
      cbn [String.length Nat.sub]. rewrite scan_skip. cbn [drop].
      cbn [occurrences startsWith]. cbn [Ascii.eqb Bool.eqb]. cbn [Nat.add].
      pose proof (includes_starts_false _ _ Hno) as H0.
      cbn [startsWith] in H0. cbn [Ascii.eqb Bool.eqb] in H0.
      rewrite H0. cbn [Nat.add]. f_equal.
      apply IH; [cbn in Hlen; lia|].
      apply (includes_drop_false 3) in Hno. exact Hno.
    + cbn [Nat.add]. apply IH; [cbn in Hlen; lia|].
      now apply includes_cons_false in Hno.
Qed.

End SplitFacts.

(** ** The rule of a message part *)
Module ParserFacts.
Import JsString ViolationParser StringFacts Notions SearchFacts SplitFacts RuleNotions.

Lemma has_char_nil (c : ascii) : ~ has_char c EmptyString.
Proof. intros ([|x a] & b & H); discriminate. Qed.

Lemma has_char_cons (c d : ascii) (s : string) :
  has_char c (String d s) <-> c = d \/ has_char c s.
Proof.
  split.
  - intros ([|x a] & b & H).
    + rewrite sapp_nil_l, sapp_cons in H. left. congruence.
    + rewrite sapp_cons in H. injection H as _ H. right. now exists a, b.
  - intros [->|(a & b & ->)].
    + exists EmptyString, s. reflexivity.
    + exists (String d a), b. reflexivity.
Qed.

Lemma has_char_app (c : ascii) (a b : string) :
  has_char c (a +:+ b) <-> has_char c a \/ has_char c b.
Proof.
  induction a as [|x a IH].
  - rewrite sapp_nil_l. pose proof (has_char_nil c). tauto.
  - rewrite sapp_cons, !has_char_cons, IH. tauto.
Qed.

(** [take_while] stops at the first character that fails the test. *)
Lemma take_while_app (f : ascii -> bool) (a : string) (c : ascii) (b : string) :
  Url.forall_chars f a = true -> f c = false ->
  take_while f (a +:+ String c b) = a.
Proof.
  intros Ha Hc. induction a as [|x a IH].
  - rewrite sapp_nil_l. cbn [take_while]. now rewrite Hc.
  - cbn [Url.forall_chars] in Ha. apply andb_true_iff in Ha as [Hx Ha].
    rewrite sapp_cons. cbn [take_while]. rewrite Hx. f_equal. now apply IH.
Qed.

Lemma take_while_spec (f : ascii -> bool) (s : string) :
  s = take_while f s +:+ drop (String.length (take_while f s)) s
  /\ Url.forall_chars f (take_while f s) = true.
Proof.
  induction s as [|c s [IH1 IH2]]; [split; reflexivity|].
  cbn [take_while]. destruct (f c) eqn:Hc.
  - rewrite sapp_cons. cbn [String.length drop Url.forall_chars]. rewrite Hc.
    split; [now f_equal | exact IH2].
  - split; reflexivity.
Qed.

Lemma forall_not_char (c : ascii) (s : string) :
  Url.forall_chars (fun d => negb (Ascii.eqb d c)) s = true <-> ~ has_char c s.
Proof.
  induction s as [|d s IH]; cbn [Url.forall_chars].
  - split; [intros _; apply has_char_nil | reflexivity].
  - rewrite andb_true_iff, IH, has_char_cons, negb_true_iff.
    destruct (Ascii.eqb_spec d c) as [->|Hne]; split; try tauto; try intuition congruence.
Qed.

Lemma match_bracket_Some (clean m0 m1 : string) :
  match_bracket clean = Some (m0, m1) ->
  exists tail, bracketed_as clean m1 tail /\ m0 = "[" +:+ m1 +:+ "]".
Proof.
  unfold match_bracket. destruct clean as [|c r]; [discriminate|].
  destruct (Ascii.eqb_spec c "[") as [->|]; [|discriminate].
  destruct (take_while_spec (fun c => negb (Ascii.eqb c "]")) r) as [Hr Hall].
  destruct (take_while _ r) as [|t0 tag] eqn:Htag; [discriminate|].
  destruct (startsWith _ "]") eqn:Hs; [|discriminate].
  intros [= <- <-]. apply startsWith_inv in Hs.
  exists (drop 1 (drop (String.length (String t0 tag)) r)). split; [|reflexivity].
  split; [|split; [discriminate|]].
  - rewrite Hr at 1. rewrite Hs at 1. reflexivity.
  - now apply forall_not_char.
Qed.

Lemma match_bracket_bracketed (clean tag tail : string) :
  bracketed_as clean tag tail ->
  match_bracket clean = Some ("[" +:+ tag +:+ "]", tag).
Proof.
  intros (-> & Hne & Hno). unfold match_bracket.
  rewrite sapp_cons, sapp_nil_l. cbn [Ascii.eqb Bool.eqb].
  change (("[" =? "[")%char) with true. cbn iota.
  rewrite (sapp_cons "]"), sapp_nil_l.
  rewrite take_while_app; [|now apply forall_not_char | reflexivity].
  destruct tag as [|t0 tag]; [congruence|].
  rewrite drop_app_length.
  change (startsWith (String "]" tail) "]") with (startsWith tail EmptyString).
  rewrite startsWith_nil. reflexivity.
Qed.

Lemma match_bracket_None (clean : string) :
  match_bracket clean = None -> ~ bracketed clean.
Proof.
  intros H (tag & tail & Hb). apply match_bracket_bracketed in Hb. congruence.
Qed.

Lemma replace_prefix (m tail : string) : replace (m +:+ tail) m EmptyString = tail.
Proof.
  unfold replace.
  assert (H : indexOf (m +:+ tail) m = Some 0).
  { destruct (m +:+ tail) eqn:E; cbn [indexOf]; rewrite <- E, startsWith_app; reflexivity. }
  rewrite H. cbn [take Nat.add]. rewrite !sapp_nil_l. apply drop_app_length.
Qed.

(** The loop over the dictionary stops at the first key that occurs. *)
Lemma friendly_title_spec (entries : list (string * string)) (clean rule : string) :
  (exists before key title after,
      entries = before ++ (key, title) :: after
      /\ occurs_in key clean
      /\ (forall k t, In (k, t) before -> ~ occurs_in k clean)
      /\ friendly_title entries clean rule = title)
  \/ ((forall k t, In (k, t) entries -> ~ occurs_in k clean)
      /\ friendly_title entries clean rule = rule).
Proof.
  induction entries as [|[key title] entries IH]; cbn [friendly_title].
  - right. split; [intros k t [] | reflexivity].
  - destruct (includes clean key) eqn:Hk.
    + left. exists [], key, title, entries. repeat split.
      * now apply includes_iff.
      * intros k t [].
    + apply includes_false_iff in Hk.
      destruct IH as [(before & k' & t' & after & -> & Ho & Hb & Hr) | [Hall Hr]].
      * left. exists ((key, title) :: before), k', t', after. repeat split; try assumption.
        intros k t [[= <- <-]|Hin]; [assumption | now apply (Hb k t)].
      * right. split; [|assumption].
        intros k t [[= <- <-]|Hin]; [assumption | now apply (Hall k t)].
Qed.

Lemma titles_not_general (key title : string) :
  In (key, title) FRIENDLY_TITLES -> title <> "General Violation".
Proof.
  intros Hin.
  assert (H : forallb (fun kv => negb (String.eqb (snd kv) "General Violation"))
                FRIENDLY_TITLES = true) by reflexivity.
  rewrite forallb_forall in H. specialize (H _ Hin). cbn [snd] in H.
  apply negb_true_iff, String.eqb_neq in H. exact H.
Qed.

Lemma colon_prefix_index (clean prefix : string) :
  colon_prefix clean prefix ->
  indexOf clean ":" = Some (String.length prefix) /\ take (String.length prefix) clean = prefix.
Proof.
  intros ((tail & ->) & Hno & _). split.
  - apply indexOf_char. now exists prefix, tail.
  - apply take_app_length.
Qed.

Lemma includes_newline (s : string) :
  includes s newline = false <-> ~ has_char (ascii_of_nat 10) s.
Proof. apply includes_false_iff. Qed.

(** The block that determines the rule follows the priority order. *)
Lemma resolveRule_resolves (clean : string) :
  resolves clean (resolveRule clean).1 (resolveRule clean).2.
Proof.
  unfold resolveRule.
  destruct (match_bracket clean) as [[m0 m1]|] eqn:Hb.
  - apply match_bracket_Some in Hb as (tail & Hb & ->). cbn [fst snd].
    pose proof Hb as (Hc & _ & _).
    replace (replace clean ("[" +:+ m1 +:+ "]") EmptyString) with tail.
    + now apply by_bracket.
    + rewrite Hc at 1.
      replace ("[" +:+ m1 +:+ "]" +:+ tail) with (("[" +:+ m1 +:+ "]") +:+ tail)
        by now rewrite !sapp_assoc.
      now rewrite replace_prefix.
  - apply match_bracket_None in Hb. cbn [fst snd].
    destruct (friendly_title_spec FRIENDLY_TITLES clean "General Violation")
      as [(before & key & title & after & HF & Ho & Hbefore & ->) | [Hall ->]].
    + assert (Hne : title <> "General Violation").
      { apply (titles_not_general key). rewrite HF. apply in_elt. }
      apply String.eqb_neq in Hne. rewrite Hne.
      apply (by_dictionary clean key title Hb). now exists before, after.
    + assert (Hnk : ~ known_phrase clean).
      { intros (k & t & Hin & Ho). now apply (Hall k t). }
      change ("General Violation" =? "General Violation")%string with true. cbn iota.
      destruct (indexOf clean ":") as [i|] eqn:Hi.
      * apply indexOf_char in Hi as (prefix & tail & Hc & Hno & Hlen).
        assert (Htake : substring clean 0 i = prefix).
        { unfold substring. rewrite Nat.min_0_l, Nat.max_0_l, Nat.sub_0_r. cbn [drop].
          rewrite Hc, <- Hlen. apply take_app_length. }
        rewrite Htake.
        destruct ((0 <? i)%nat && (i <? 50)%nat) eqn:Hrange;
          [destruct (negb (includes prefix newline) && (3 <? String.length prefix)%nat) eqn:Hname|].
        -- apply andb_true_iff in Hrange as [_ H50]. apply Nat.ltb_lt in H50.
           apply andb_true_iff in Hname as [Hnl H3]. apply Nat.ltb_lt in H3.
           apply negb_true_iff, includes_newline in Hnl.
           apply (by_colon clean prefix Hb Hnk).
           repeat split; eauto; lia.
        -- apply (by_default clean Hb Hnk). intros p Hp.
           pose proof (colon_prefix_index _ _ Hp) as [Hip Htp].
           destruct Hp as (_ & _ & _ & H3 & Hnl).
           assert (Hidx : indexOf clean ":" = Some i).
           { apply indexOf_char. now exists prefix, tail. }
           rewrite Hip in Hidx. injection Hidx as Hidx.
           assert (p = prefix).
           { rewrite <- Htp, Hidx, Hc, <- Hlen. apply take_app_length. }
           subst p. apply andb_false_iff in Hname as [Hname|Hname].
           ++ apply negb_false_iff in Hname.
              apply includes_newline in Hnl. congruence.
           ++ apply Nat.ltb_ge in Hname. lia.
        -- apply (by_default clean Hb Hnk). intros p Hp.
           pose proof (colon_prefix_index _ _ Hp) as [Hip _].
           destruct Hp as (_ & _ & H50 & H3 & _).
           assert (Hidx : indexOf clean ":" = Some i).
           { apply indexOf_char. now exists prefix, tail. }
           rewrite Hip in Hidx. injection Hidx as Hidx.
           apply andb_false_iff in Hrange as [Hr|Hr];
             [apply Nat.ltb_ge in Hr | apply Nat.ltb_ge in Hr]; lia.
      * apply (by_default clean Hb Hnk). intros p Hp.
        apply colon_prefix_index in Hp as [Hp _]. congruence.
Qed.

(** The fields of a parsed part. *)
Lemma parsePart_fields (index : nat) (part : string) :
  let text := (extractHelpUrl (cleanPart part)).2 in
  id (parsePart index part) = "viol-" +:+ of_nat index
  /\ raw (parsePart index part) = part
  /\ helpUrl (parsePart index part) = (extractHelpUrl (cleanPart part)).1
  /\ rule (parsePart index part) = (resolveRule text).1
  /\ description (parsePart index part) = without_period (resolveRule text).2.
Proof.
  cbv zeta. unfold parsePart, without_period.
  destruct (extractHelpUrl (cleanPart part)) as [h text]. cbn [fst snd].
  destruct (resolveRule text) as [r rest].
  cbn [id raw helpUrl rule description fst snd]. repeat split; reflexivity.
Qed.

Lemma parseMessages_nonempty (rawMessage : string) :
  rawMessage <> EmptyString ->
  parseMessages rawMessage = imap parsePart (split rawMessage " | ").
Proof. destruct rawMessage; [congruence | reflexivity]. Qed.

Lemma raw_parseMessages (rawMessage : string) :
  rawMessage <> EmptyString ->
  map raw (parseMessages rawMessage) = split rawMessage " | ".
Proof.
  intros H. rewrite parseMessages_nonempty by assumption.
  change (map raw ?l) with (raw <$> l). rewrite fmap_imap.
  rewrite (imap_ext _ (const (fun x => x))).
  - rewrite imap_const. apply list_fmap_id.
  - intros i x _. cbn. apply parsePart_fields.
Qed.

Lemma id_parseMessages (rawMessage : string) :
  map id (parseMessages rawMessage)
  = map (fun i => "viol-" +:+ of_nat i) (seq 0 (List.length (parseMessages rawMessage))).
Proof.
  destruct rawMessage as [|c s]; [reflexivity|].
  rewrite parseMessages_nonempty by discriminate.
  rewrite length_imap. generalize (split (String c s) " | "). intros l.
  change (map id ?l) with (id <$> l). rewrite fmap_imap.
  rewrite (imap_ext _ (fun i _ => "viol-" +:+ of_nat i)).
  - rewrite imap_seq_0. reflexivity.
  - intros i x _. cbn. apply parsePart_fields.
Qed.

Lemma friendly_title_first (before after : list (string * string))
    (key title clean rule : string) :
  occurs_in key clean ->
  (forall k t, In (k, t) before -> ~ occurs_in k clean) ->
  friendly_title (before ++ (key, title) :: after) clean rule = title.
Proof.
  intros Ho Hb. induction before as [|[k t] before IH]; cbn [app friendly_title].
  - apply includes_iff in Ho. now rewrite Ho.
  - assert (Hk : includes clean k = false).
    { apply includes_false_iff. apply (Hb k t). now left. }
    rewrite Hk. apply IH. intros k' t' Hin. apply (Hb k' t'). now right.
Qed.

Lemma friendly_title_none (entries : list (string * string)) (clean rule : string) :
  (forall k t, In (k, t) entries -> ~ occurs_in k clean) ->
  friendly_title entries clean rule = rule.
Proof.
  intros H. induction entries as [|[k t] entries IH]; cbn [friendly_title]; [reflexivity|].
  assert (Hk : includes clean k = false).
  { apply includes_false_iff. apply (H k t). now left. }
  rewrite Hk. apply IH. intros k' t' Hin. apply (H k' t'). now right.
Qed.

Lemma not_bracketed_None (clean : string) :
  ~ bracketed clean -> match_bracket clean = None.
Proof.
  intros H. destruct (match_bracket clean) as [[m0 m1]|] eqn:Hb; [|reflexivity].
  apply match_bracket_Some in Hb as (tail & Hb & _). exfalso. apply H. now exists m1, tail.
Qed.

(** The priority order determines the rule and the text. *)
Lemma resolves_resolveRule (clean rule text : string) :
  resolves clean rule text -> resolveRule clean = (rule, text).
Proof.
  intros H. unfold resolveRule. destruct H as [tag tail Hb | key title Hb Hk | prefix Hb Hk Hc | Hb Hk Hc].
  - rewrite (match_bracket_bracketed _ _ _ Hb). destruct Hb as (-> & _).
    replace ("[" +:+ tag +:+ "]" +:+ tail) with (("[" +:+ tag +:+ "]") +:+ tail)
      by now rewrite !sapp_assoc.
    now rewrite replace_prefix.
  - rewrite (not_bracketed_None _ Hb).
    destruct Hk as (before & after & HF & Ho & Hbefore).
    rewrite HF, friendly_title_first by assumption.
    assert (Hne : title <> "General Violation").
    { apply (titles_not_general key). rewrite HF. apply in_elt. }
    apply String.eqb_neq in Hne. now rewrite Hne.
  - rewrite (not_bracketed_None _ Hb).
    rewrite friendly_title_none
      by (intros k t Hin Ho; apply Hk; now exists k, t).
    change ("General Violation" =? "General Violation")%string with true. cbn iota.
    destruct (colon_prefix_index _ _ Hc) as [Hi Ht]. rewrite Hi.
    destruct Hc as (_ & _ & H50 & H3 & Hnl).
    unfold substring. rewrite Nat.min_0_l, Nat.max_0_l, Nat.sub_0_r. cbn [drop].
    rewrite Ht.
    replace (0 <? String.length prefix)%nat with true by (symmetry; apply Nat.ltb_lt; lia).
    replace (String.length prefix <? 50)%nat with true by (symmetry; apply Nat.ltb_lt; lia).
    replace (3 <? String.length prefix)%nat with true by (symmetry; apply Nat.ltb_lt; lia).
    apply includes_newline in Hnl. rewrite Hnl. reflexivity.
  - pose proof (resolveRule_resolves clean) as Hr. unfold resolveRule in Hr.
    rewrite (not_bracketed_None _ Hb) in *.
    rewrite friendly_title_none in *
      by (intros k t Hin Ho; apply Hk; now exists k, t).
    cbn [fst snd] in Hr.
    match goal with |- (?r, _) = _ => remember r as rule eqn:Hrule end.
    clear Hrule.
    inversion Hr as [tag tail Hb' | key title Hb' Hk' | prefix Hb' Hk' Hc' | Hb' Hk' Hc'];
      subst.
    + exfalso. apply Hb. unfold bracketed. eauto.
    + exfalso. apply Hk. destruct Hk' as (before & after & HF & Ho & _).
      exists key, rule. split; [|assumption]. rewrite HF. apply in_elt.
    + exfalso. eapply Hc. eassumption.
    + reflexivity.
Qed.

Theorem resolveRule_iff (clean rule text : string) :
  resolveRule clean = (rule, text) <-> resolves clean rule text.
Proof.
  split; [|apply resolves_resolveRule].
  intros H. pose proof (resolveRule_resolves clean) as Hr. now rewrite H in Hr.
Qed.

End ParserFacts.

(** ** Characters and cuts of a URL *)
Module UrlFacts.
Import JsString Url StringFacts SearchFacts UrlNotions.

Lemma forall_chars_app (f : ascii -> bool) (a b : string) :
  forall_chars f (a +:+ b) = forall_chars f a && forall_chars f b.
Proof.
  induction a as [|c a IH]; [reflexivity|].
  rewrite sapp_cons. cbn [forall_chars]. now rewrite IH, andb_assoc.
Qed.

Lemma forall_chars_impl (f g : ascii -> bool) (s : string) :
  (forall c, f c = true -> g c = true) ->
  forall_chars f s = true -> forall_chars g s = true.
Proof.
  intros Hfg. induction s as [|c s IH]; [reflexivity|]. cbn [forall_chars].
  rewrite !andb_true_iff. intros [Hc Hs]. split; auto.
Qed.

Lemma forall_chars_drop (f : ascii -> bool) (n : nat) (s : string) :
  forall_chars f s = true -> forall_chars f (drop n s) = true.
Proof.
  revert s. induction n as [|n IH]; intros [|c s] H; try assumption; try reflexivity.
  cbn [drop]. apply IH. cbn [forall_chars] in H. now apply andb_true_iff in H as [_ H].
Qed.

Lemma length_map_chars (f : ascii -> ascii) (s : string) :
  String.length (map_chars f s) = String.length s.
Proof. induction s as [|c s IH]; [reflexivity | cbn; now rewrite IH]. Qed.

Lemma map_chars_id (f : ascii -> ascii) (s : string) :
  forall_chars (fun c => Ascii.eqb (f c) c) s = true -> map_chars f s = s.
Proof.
  induction s as [|c s IH]; [reflexivity|]. cbn [forall_chars map_chars].
  rewrite andb_true_iff. intros [Hc Hs]. apply Ascii.eqb_eq in Hc. now rewrite Hc, IH.
Qed.

(** *** Cutting at a character *)

Lemma cut_at_app (c : ascii) (a b : string) :
  no_char c a = true -> cut_at c (a +:+ String c b) = (a, Some b).
Proof.
  intros Ha. induction a as [|d a IH].
  - rewrite sapp_nil_l. cbn [cut_at]. now rewrite Ascii.eqb_refl.
  - cbn [no_char forall_chars] in Ha. apply andb_true_iff in Ha as [Hd Ha].
    rewrite sapp_cons. cbn [cut_at]. apply negb_true_iff in Hd. rewrite Hd.
    now rewrite (IH Ha).
Qed.

Lemma cut_at_none (c : ascii) (a : string) :
  no_char c a = true -> cut_at c a = (a, None).
Proof.
  intros Ha. induction a as [|d a IH]; [reflexivity|].
  cbn [no_char forall_chars] in Ha. apply andb_true_iff in Ha as [Hd Ha].
  cbn [cut_at]. apply negb_true_iff in Hd. rewrite Hd. now rewrite (IH Ha).
Qed.

Lemma cut_at_spec (c : ascii) (s a : string) (b : option string) :
  cut_at c s = (a, b) ->
  no_char c a = true
  /\ s = a +:+ match b with Some t => String c t | None => EmptyString end.
Proof.
  revert a b. induction s as [|d s IH]; intros a b H; cbn [cut_at] in H.
  - injection H as <- <-. split; reflexivity.
  - destruct (Ascii.eqb_spec d c) as [->|Hne].
    + injection H as <- <-. split; reflexivity.
    + destruct (cut_at c s) as [a' b'] eqn:Hcut. injection H as <- <-.
      destruct (IH a' b' eq_refl) as [Hno Hs]. split.
      * cbn [no_char forall_chars]. apply andb_true_iff. split; [|exact Hno].
        apply negb_true_iff. now apply Ascii.eqb_neq.
      * rewrite sapp_cons. now f_equal.
Qed.

Lemma take_until_app (c : ascii) (a b : string) :
  no_char c a = true -> startsWith b (String c EmptyString) = true \/ b = EmptyString ->
  take_until c (a +:+ b) = a.
Proof.
  intros Ha Hb. induction a as [|d a IH].
  - rewrite sapp_nil_l. destruct Hb as [Hb| ->]; [|reflexivity].
    destruct b as [|x b]; [reflexivity|]. cbn [startsWith] in Hb.
    cbn [take_until]. destruct (Ascii.eqb_spec c x) as [->|]; [|discriminate].
    now rewrite Ascii.eqb_refl.
  - cbn [no_char forall_chars] in Ha. apply andb_true_iff in Ha as [Hd Ha].
    rewrite sapp_cons. cbn [take_until]. apply negb_true_iff in Hd. rewrite Hd.
    now rewrite (IH Ha).
Qed.

Lemma take_until_spec (c : ascii) (s : string) :
  no_char c (take_until c s) = true
  /\ (drop (String.length (take_until c s)) s = EmptyString
      \/ startsWith (drop (String.length (take_until c s)) s) (String c EmptyString) = true).
Proof.
  induction s as [|d s [IH1 IH2]]; [split; [reflexivity | now left]|].
  cbn [take_until]. destruct (Ascii.eqb_spec d c) as [->|Hne].
  - split; [reflexivity|]. right. cbn [String.length drop startsWith].
    rewrite Ascii.eqb_refl. apply startsWith_nil.
  - cbn [no_char forall_chars String.length drop]. split; [|exact IH2].
    apply andb_true_iff. split; [|exact IH1]. apply negb_true_iff. now apply Ascii.eqb_neq.
Qed.

End UrlFacts.

(** ** The query of a URL *)
Module FormFacts.
Import JsString Url StringFacts SearchFacts UrlNotions UrlFacts.

Lemma encode_char_chars (c : ascii) :
  (N_of_ascii c <? 128)%N = true ->
  forall_chars is_encoded_char (encode_char c) = true.
Proof.
  destruct c as [[] [] [] [] [] [] [] []]; intros H; try discriminate H; reflexivity.
Qed.

Lemma decode_encode_char (c : ascii) (t : string) :
  (N_of_ascii c <? 128)%N = true ->
  decode (encode_char c +:+ t) = String c <$> decode t.
Proof.
  destruct c as [[] [] [] [] [] [] [] []]; intros H; try discriminate H; reflexivity.
Qed.

Lemma encode_chars (s : string) :
  is_ascii s = true -> forall_chars is_encoded_char (encode s) = true.
Proof.
  induction s as [|c s IH]; [reflexivity|]. cbn [is_ascii forall_chars encode].
  rewrite andb_true_iff. intros [Hc Hs].
  rewrite forall_chars_app, encode_char_chars by assumption. now apply IH.
Qed.

Lemma decode_encode (s : string) : is_ascii s = true -> decode (encode s) = Some s.
Proof.
  induction s as [|c s IH]; [reflexivity|]. cbn [is_ascii forall_chars encode].
  rewrite andb_true_iff. intros [Hc Hs].
  rewrite decode_encode_char by assumption. now rewrite (IH Hs).
Qed.

Lemma decode_ascii (s t : string) : decode s = Some t -> is_ascii t = true.
Proof.
  remember (String.length s) as n eqn:Hn. revert s t Hn.
  induction n as [n IH] using lt_wf_ind. intros s t Hn.
  destruct s as [|c s]; [intros [= <-]; reflexivity|].
  cbn [decode]. destruct (127 <? N_of_ascii c)%N eqn:Hc; [discriminate|].
  assert (Hc' : (N_of_ascii c <? 128)%N = true).
  { apply N.ltb_ge in Hc. apply N.ltb_lt. lia. }
  assert (Hstep : forall s' (d : ascii), String.length s' < n ->
            (N_of_ascii d <? 128)%N = true ->
            String d <$> decode s' = Some t -> is_ascii t = true).
  { intros s' d Hlt Hd Hdec. destruct (decode s') as [t'|] eqn:Ht'; [|discriminate].
    injection Hdec as <-. cbn [is_ascii forall_chars]. rewrite Hd.
    now apply (IH (String.length s') Hlt s' t' eq_refl). }
  destruct (Ascii.eqb c "+");
    [apply (Hstep s " "%char); [cbn [String.length] in Hn |- *; lia | reflexivity]|].
  destruct (Ascii.eqb c "%");
    [|apply (Hstep s c); [cbn [String.length] in Hn |- *; lia | assumption]].
  destruct s as [|h1 [|h2 r]];
    [apply (Hstep EmptyString c); [cbn [String.length] in Hn |- *; lia | assumption]
    |apply (Hstep (String h1 EmptyString) c); [cbn [String.length] in Hn |- *; lia | assumption] |].
  destruct (Json.hex_value h1) as [a|] eqn:Ha;
    [destruct (Json.hex_value h2) as [b|] eqn:Hb|];
    [|apply (Hstep (String h1 (String h2 r)) c); [cbn [String.length] in Hn |- *; lia | assumption]
     |apply (Hstep (String h1 (String h2 r)) c); [cbn [String.length] in Hn |- *; lia | assumption]].
  destruct (a <? 8)%N eqn:Ha8; [|discriminate].
  apply (Hstep r); [cbn [String.length] in Hn |- *; lia|].
  assert (Hb16 : (b < 16)%N).
  { unfold Json.hex_value in Hb.
    destruct h2 as [[] [] [] [] [] [] [] []]; cbn in Hb; try discriminate;
      injection Hb as <-; lia. }
  apply N.ltb_lt in Ha8. apply N.ltb_lt.
  rewrite N_ascii_embedding; lia.
Qed.

(** *** Splitting a serialized query *)

Lemma split_chars_acc (f : ascii -> bool) (a cur rest : string) :
  forall_chars (fun c => negb (f c)) a = true ->
  split_chars f cur (a +:+ rest) = split_chars f (cur +:+ a) rest.
Proof.
  revert cur. induction a as [|c a IH]; intros cur Ha.
  - now rewrite sapp_nil_l, sapp_nil_r.
  - cbn [forall_chars] in Ha. apply andb_true_iff in Ha as [Hc Ha].
    rewrite sapp_cons. cbn [split_chars]. apply negb_true_iff in Hc. rewrite Hc.
    rewrite IH by assumption. now rewrite sapp_assoc.
Qed.

Lemma split_chars_join (c : ascii) (pieces : list string) (p : string) :
  forallb (no_char c) (p :: pieces) = true ->
  split_chars (Ascii.eqb c) EmptyString (join (String c EmptyString) (p :: pieces))
  = p :: pieces.
Proof.
  assert (Hflip : forall s, no_char c s = true ->
            forall_chars (fun d => negb (Ascii.eqb c d)) s = true).
  { intros s. apply forall_chars_impl. intros d. now rewrite (Ascii.eqb_sym c d). }
  revert p. induction pieces as [|q pieces IH]; intros p Hall.
  - cbn [join]. cbn [forallb] in Hall. apply andb_true_iff in Hall as [Hp _].
    rewrite <- (sapp_nil_r p) at 1. rewrite split_chars_acc by now apply Hflip.
    reflexivity.
  - cbn [forallb] in Hall. apply andb_true_iff in Hall as [Hp Hall].
    rewrite join_cons2. rewrite split_chars_acc by now apply Hflip.
    rewrite sapp_cons, !sapp_nil_l. cbn [split_chars]. rewrite Ascii.eqb_refl.
    f_equal. now apply IH.
Qed.

Lemma no_char_encoded (c : ascii) (s : string) :
  is_encoded_char c = false ->
  forall_chars is_encoded_char s = true -> no_char c s = true.
Proof.
  intros Hc. apply forall_chars_impl. intros d Hd. apply negb_true_iff.
  destruct (Ascii.eqb_spec d c) as [->|]; [congruence | reflexivity].
Qed.

Lemma encoded_url_chars (s : string) :
  forall_chars is_encoded_char s = true -> forall_chars is_url_char s = true.
Proof.
  apply forall_chars_impl. intros d Hd. unfold is_encoded_char in Hd.
  do 5 (apply andb_true_iff in Hd as [Hd _]). exact Hd.
Qed.

Lemma serialize_pair_chars (kv : string * string) :
  is_ascii (fst kv) && is_ascii (snd kv) = true ->
  no_char "&" (serialize_pair kv) = true
  /\ forall_chars is_url_char (serialize_pair kv) = true
  /\ no_char "#" (serialize_pair kv) = true.
Proof.
  rewrite andb_true_iff. intros [Hk Hv]. unfold serialize_pair.
  pose proof (encode_chars _ Hk) as Hek. pose proof (encode_chars _ Hv) as Hev.
  unfold no_char. rewrite !forall_chars_app.
  pose proof (no_char_encoded "&" _ eq_refl Hek) as H1.
  pose proof (no_char_encoded "&" _ eq_refl Hev) as H2.
  pose proof (no_char_encoded "#" _ eq_refl Hek) as H3.
  pose proof (no_char_encoded "#" _ eq_refl Hev) as H4.
  unfold no_char in *.
  rewrite H1, H2, H3, H4, (encoded_url_chars _ Hek), (encoded_url_chars _ Hev).
  repeat split.
Qed.

Lemma parse_serialize_pair (kv : string * string) :
  is_ascii (fst kv) && is_ascii (snd kv) = true ->
  parse_pair (serialize_pair kv) = Some kv.
Proof.
  rewrite andb_true_iff. intros [Hk Hv]. destruct kv as [k v]. cbn [fst snd] in *.
  unfold parse_pair, serialize_pair. cbn [fst snd].
  rewrite sapp_cons, sapp_nil_l.
  rewrite cut_at_app by (apply (no_char_encoded "="); [reflexivity | now apply encode_chars]).
  cbn [default from_option id]. rewrite !decode_encode by assumption. reflexivity.
Qed.

Lemma serialize_pair_not_empty (kv : string * string) :
  serialize_pair kv <> EmptyString.
Proof.
  unfold serialize_pair. destruct (encode (fst kv)); [rewrite sapp_nil_l | rewrite sapp_cons];
    discriminate.
Qed.

Lemma parse_pairs_serialized (l : list (string * string)) :
  ascii_pairs l = true -> parse_pairs (map serialize_pair l) = Some l.
Proof.
  induction l as [|kv l IH]; [reflexivity|]. cbn [ascii_pairs forallb map parse_pairs].
  rewrite andb_true_iff. intros [Hkv Hl].
  pose proof (serialize_pair_not_empty kv) as Hne.
  destruct (serialize_pair kv) eqn:E; [congruence|]. rewrite <- E.
  rewrite parse_serialize_pair by assumption. cbn. rewrite (IH Hl). reflexivity.
Qed.

(** Parsing the serialization of a list of pairs gives the list back. *)
Theorem parse_serialize_query (l : list (string * string)) :
  ascii_pairs l = true -> parse_query (serialize_query l) = Some l.
Proof.
  intros Hl. unfold parse_query, serialize_query.
  destruct l as [|kv l]; [reflexivity|].
  cbn [map]. rewrite split_chars_join.
  - apply (parse_pairs_serialized (kv :: l) Hl).
  - change (forallb (no_char "&") (map serialize_pair (kv :: l)) = true).
    rewrite forallb_forall. intros x Hx. apply in_map_iff in Hx as (y & <- & Hy).
    unfold ascii_pairs in Hl. rewrite forallb_forall in Hl.
    now apply serialize_pair_chars, Hl.
Qed.

Lemma serialize_query_chars (l : list (string * string)) :
  ascii_pairs l = true ->
  forall_chars is_url_char (serialize_query l) = true
  /\ no_char "#" (serialize_query l) = true.
Proof.
  unfold serialize_query. induction l as [|kv [|kv' l] IH]; intros Hl.
  - split; reflexivity.
  - cbn [map join]. cbn [ascii_pairs forallb] in Hl. rewrite andb_true_r in Hl.
    now apply serialize_pair_chars in Hl.
  - cbn [ascii_pairs forallb] in Hl. apply andb_true_iff in Hl as [Hkv Hl].
    cbn [map]. rewrite join_cons2. unfold no_char in *. rewrite !forall_chars_app.
    apply serialize_pair_chars in Hkv as (_ & H1 & H2). unfold no_char in H2.
    rewrite H1, H2. cbn [forall_chars andb].
    destruct (IH Hl) as [H3 H4]. cbn [map] in H3, H4. rewrite H3, H4. split; reflexivity.
Qed.

Lemma parse_pairs_ascii (seqs : list string) (l : list (string * string)) :
  parse_pairs seqs = Some l -> ascii_pairs l = true.
Proof.
  revert l. induction seqs as [|seq seqs IH]; intros l; cbn [parse_pairs].
  - intros [= <-]. reflexivity.
  - destruct seq as [|c seq]; [apply IH|].
    unfold parse_pair. destruct (cut_at "=" (String c seq)) as [name value].
    destruct (decode name) as [n|] eqn:Hn; [|discriminate].
    destruct (decode (default EmptyString value)) as [v|] eqn:Hv; [|discriminate].
    cbn. destruct (parse_pairs seqs) as [l'|]; [|discriminate].
    intros [= <-]. cbn [ascii_pairs forallb fst snd].
    apply decode_ascii in Hn, Hv. rewrite Hn, Hv. now apply IH.
Qed.

Lemma searchParams_ascii (u : URL) : ascii_pairs (searchParams u) = true.
Proof.
  unfold searchParams. destruct (query u) as [q|]; [|reflexivity].
  unfold parse_query. destruct (parse_pairs _) as [l|] eqn:H; [|reflexivity].
  now apply parse_pairs_ascii in H.
Qed.

(** *** [searchParams.get] after [searchParams.set] *)

Lemma get_set_pairs (name value : string) (l : list (string * string)) :
  get name (set_pairs name value l) = Some value.
Proof.
  induction l as [|[k v] l IH]; cbn [set_pairs get].
  - now rewrite String.eqb_refl.
  - destruct (String.eqb k name) eqn:Hk; cbn [get]; now rewrite Hk.
Qed.

Lemma get_filter_other (name other : string) (l : list (string * string)) :
  name <> other ->
  get name (List.filter (fun kv => negb (String.eqb (fst kv) other)) l) = get name l.
Proof.
  intros Hne. induction l as [|[k v] l IH]; [reflexivity|].
  cbn [get List.filter fst].
  destruct (String.eqb_spec k other) as [->|Hk]; cbn [negb].
  - apply String.eqb_neq in Hne. rewrite (String.eqb_sym other name), Hne. exact IH.
  - cbn [get]. now rewrite IH.
Qed.

Lemma get_set_pairs_other (name other value : string) (l : list (string * string)) :
  name <> other -> get name (set_pairs other value l) = get name l.
Proof.
  intros Hne. induction l as [|[k v] l IH]; cbn [set_pairs get].
  - apply String.eqb_neq in Hne. now rewrite (String.eqb_sym other name), Hne.
  - destruct (String.eqb_spec k other) as [->|Hk]; cbn [get].
    + apply String.eqb_neq in Hne. rewrite (String.eqb_sym other name), Hne.
      apply get_filter_other. now apply String.eqb_neq in Hne.
    + now rewrite IH.
Qed.

Lemma set_pairs_ascii (name value : string) (l : list (string * string)) :
  is_ascii name = true -> is_ascii value = true ->
  ascii_pairs l = true -> ascii_pairs (set_pairs name value l) = true.
Proof.
  intros Hn Hv. induction l as [|[k v] l IH]; cbn [set_pairs ascii_pairs forallb fst snd].
  - now rewrite Hn, Hv.
  - rewrite !andb_true_iff. intros [[Hk Hv'] Hl].
    destruct (String.eqb k name); cbn [ascii_pairs forallb fst snd].
    + rewrite Hk, Hv. cbn [andb]. unfold ascii_pairs in Hl. rewrite forallb_forall in *.
      intros x Hx. apply Hl. now apply filter_In in Hx as [Hx _].
    + rewrite Hk, Hv'. cbn [andb]. now apply IH.
Qed.

End FormFacts.

(** ** Parsing the serialization of a URL *)
Module UrlRoundTrip.
Import JsString Url StringFacts SearchFacts UrlNotions UrlFacts FormFacts.

Lemma host_char_facts (c : ascii) :
  is_host_or_dot c = true ->
  is_url_char c = true
  /\ negb (Ascii.eqb c "/") = true /\ negb (Ascii.eqb c "?") = true
  /\ negb (Ascii.eqb c "#") = true /\ Ascii.eqb (toLowerChar c) c = true.
Proof.
  destruct c as [[] [] [] [] [] [] [] []]; intros H; try discriminate H; repeat split.
Qed.

Lemma split_chars_forall (f is_sep : ascii -> bool) (s cur : string) :
  forallb (forall_chars f) (split_chars is_sep cur s) = true ->
  forall_chars f cur = true /\ forall_chars (fun c => f c || is_sep c) s = true.
Proof.
  revert cur. induction s as [|c s IH]; intros cur; cbn [split_chars].
  - cbn [forallb]. rewrite andb_true_r. intros H. split; [assumption | reflexivity].
  - destruct (is_sep c) eqn:Hc.
    + cbn [forallb]. rewrite andb_true_iff. intros [Hcur Hrest].
      apply IH in Hrest as [_ Hrest]. split; [assumption|].
      cbn [forall_chars]. now rewrite Hc, orb_true_r.
    + intros H. apply IH in H as [Hcur Hs]. rewrite forall_chars_app in Hcur.
      cbn [forall_chars] in Hcur. rewrite andb_true_r in Hcur.
      apply andb_true_iff in Hcur as [Hcur Hfc]. split; [assumption|].
      cbn [forall_chars]. now rewrite Hfc, Hs.
Qed.

Lemma host_ok_chars (h : string) :
  host_ok h = true -> forall_chars is_host_or_dot h = true.
Proof.
  unfold host_ok. rewrite andb_true_iff. intros [H _].
  assert (H' : forallb (forall_chars is_host_char)
                 (split_chars (Ascii.eqb ".") EmptyString h) = true).
  { rewrite forallb_forall in *. intros x Hx. specialize (H x Hx).
    unfold label_ok in H. apply andb_true_iff in H as [H _].
    now apply andb_true_iff in H as [_ H]. }
  apply split_chars_forall in H' as [_ H'].
  eapply forall_chars_impl; [|exact H']. intros c Hc. unfold is_host_or_dot.
  now rewrite (Ascii.eqb_sym c ".").
Qed.

Lemma host_facts (h : string) :
  host_ok h = true ->
  forall_chars is_url_char h = true /\ no_char "/" h = true /\ no_char "?" h = true
  /\ no_char "#" h = true /\ toLowerCase h = h.
Proof.
  intros H. apply host_ok_chars in H.
  repeat split; [..| apply map_chars_id];
    (eapply forall_chars_impl; [|exact H]; intros c Hc; now apply host_char_facts in Hc).
Qed.

Lemma map_chars_app (f : ascii -> ascii) (a b : string) :
  map_chars f (a +:+ b) = map_chars f a +:+ map_chars f b.
Proof.
  induction a as [|c a IH]; [reflexivity|].
  rewrite sapp_cons. cbn [map_chars]. now rewrite sapp_cons, IH.
Qed.

Lemma strip_scheme_https (r : string) :
  strip_scheme ("https:" +:+ "//" +:+ r) = Some ("https:", r).
Proof.
  change ("https:" +:+ "//" +:+ r) with ("https://" +:+ r).
  unfold strip_scheme, toLowerCase. rewrite map_chars_app.
  change (map_chars toLowerChar "https://") with "https://".
  rewrite startsWith_app. change 8 with (String.length "https://").
  now rewrite drop_app_length.
Qed.

Lemma strip_scheme_http (r : string) :
  strip_scheme ("http:" +:+ "//" +:+ r) = Some ("http:", r).
Proof.
  change ("http:" +:+ "//" +:+ r) with ("http://" +:+ r).
  unfold strip_scheme, toLowerCase. rewrite map_chars_app.
  change (map_chars toLowerChar "http://") with "http://".
  replace (startsWith ("http://" +:+ map_chars toLowerChar r) "https://") with false
    by reflexivity.
  rewrite startsWith_app. change 7 with (String.length "http://").
  now rewrite drop_app_length.
Qed.

Lemma wf_protocol (u : URL) :
  wf u = true -> protocol u = "https:" \/ protocol u = "http:".
Proof.
  unfold wf. rewrite !andb_true_iff. intros [[[[H _] _] _] _].
  apply orb_true_iff in H as [H|H]; apply String.eqb_eq in H; auto.
Qed.

(** A URL that the parser built is parsed back from its serialization. *)
Theorem parse_href (u : URL) : wf u = true -> parse (href u) = Some u.
Proof.
  intros Hwf. pose proof (wf_protocol u Hwf) as Hproto.
  destruct u as [proto host path q frag]. unfold wf in Hwf. cbn [protocol hostname pathname query fragment] in *.
  rewrite !andb_true_iff in Hwf.
  destruct Hwf as [[[[_ Hhost] [[[[Hslash Hpc] Hpq] Hph] Hpok]] Hq] Hf].
  destruct (host_facts host Hhost) as (Hhc & Hhs & Hhq & Hhh & Hlow).
  set (qpart := match q with Some t => "?" +:+ t | None => EmptyString end).
  set (fpart := match frag with Some f => "#" +:+ f | None => EmptyString end).
  assert (Hqc : forall_chars is_url_char qpart = true /\ no_char "#" qpart = true
                /\ query_ok q = true).
  { unfold qpart. destruct q as [t|]; [|repeat split].
    rewrite !andb_true_iff in Hq. destruct Hq as [[H1 H2] H3].
    unfold no_char. rewrite !forall_chars_app. cbn [forall_chars andb].
    fold (no_char "#" t). now rewrite H1, H2. }
  destruct Hqc as (Hqc & Hqh & Hqok).
  assert (Hfc : forall_chars is_url_char fpart = true).
  { unfold fpart. destruct frag as [f|]; [|reflexivity].
    rewrite forall_chars_app. cbn [forall_chars andb]. exact Hf. }
  remember (proto +:+ "//") as front eqn:Hfr.
  assert (Hprc : forall_chars is_url_char front = true
                 /\ no_char "#" front = true /\ no_char "?" front = true).
  { rewrite Hfr. destruct Hproto as [-> | ->]; repeat split. }
  destruct Hprc as (Hprc & Hprh & Hprq).
  unfold parse, href. cbn [protocol hostname pathname query fragment].
  fold qpart fpart.
  replace (proto +:+ "//" +:+ host +:+ path +:+ qpart +:+ fpart)
    with ((front +:+ host +:+ path +:+ qpart) +:+ fpart)
    by (rewrite Hfr; now rewrite !sapp_assoc).
  rewrite !forall_chars_app, Hprc, Hhc, Hpc, Hqc, Hfc. cbn [andb].
  (* the fragment *)
  assert (Hfront : no_char "#" (front +:+ host +:+ path +:+ qpart) = true).
  { unfold no_char in *. now rewrite !forall_chars_app, Hprh, Hhh, Hph, Hqh. }
  assert (Hcut1 : cut_at "#" ((front +:+ host +:+ path +:+ qpart) +:+ fpart)
                  = (front +:+ host +:+ path +:+ qpart, frag)).
  { unfold fpart. destruct frag as [f|].
    - rewrite sapp_cons, sapp_nil_l. now apply cut_at_app.
    - rewrite sapp_nil_r. now apply cut_at_none. }
  rewrite Hcut1.
  (* the query *)
  assert (Hfront2 : no_char "?" (front +:+ host +:+ path) = true).
  { unfold no_char in *. now rewrite !forall_chars_app, Hprq, Hhq, Hpq. }
  assert (Hcut2 : cut_at "?" (front +:+ host +:+ path +:+ qpart)
                  = (front +:+ host +:+ path, q)).
  { replace (front +:+ host +:+ path +:+ qpart)
      with ((front +:+ host +:+ path) +:+ qpart) by now rewrite !sapp_assoc.
    unfold qpart. destruct q as [t|].
    - rewrite sapp_cons, sapp_nil_l. now apply cut_at_app.
    - rewrite sapp_nil_r. now apply cut_at_none. }
  rewrite Hcut2.
  (* the scheme, the host and the path *)
  assert (Hscheme : strip_scheme (front +:+ host +:+ path)
                    = Some (proto, host +:+ path)).
  { rewrite Hfr, sapp_assoc.
    destruct Hproto as [-> | ->]; [apply strip_scheme_https | apply strip_scheme_http]. }
  rewrite Hscheme.
  rewrite take_until_app; [|assumption | now left].
  rewrite Hlow, drop_app_length, Hhost, Hpok, Hqok. cbn [andb].
  destruct path as [|c path]; [discriminate Hslash | reflexivity].
Qed.

Lemma forall_chars_app_inv (f : ascii -> bool) (a b : string) :
  forall_chars f (a +:+ b) = true ->
  forall_chars f a = true /\ forall_chars f b = true.
Proof. rewrite forall_chars_app. apply andb_true_iff. Qed.

Lemma strip_scheme_spec (s proto rest : string) :
  strip_scheme s = Some (proto, rest) ->
  (proto = "https:" \/ proto = "http:") /\ exists n, rest = drop n s.
Proof.
  unfold strip_scheme.
  destruct (startsWith (toLowerCase s) "https://");
    [|destruct (startsWith (toLowerCase s) "http://")]; intros H; try discriminate H;
    injection H as <- Hr; (split; [tauto|]).
  - exists 8. symmetry. exact Hr.
  - exists 7. symmetry. exact Hr.
Qed.

Lemma no_char_drop (c : ascii) (n : nat) (s : string) :
  no_char c s = true -> no_char c (drop n s) = true.
Proof. apply forall_chars_drop. Qed.

(** The parser builds well-formed URLs only. *)
Theorem parse_wf (s : string) (u : URL) : parse s = Some u -> wf u = true.
Proof.
  unfold parse. destruct (forall_chars is_url_char s) eqn:Hs; [|discriminate].
  destruct (cut_at "#" s) as [s1 frag] eqn:Hcut1.
  destruct (cut_at "?" s1) as [s2 q] eqn:Hcut2.
  destruct (strip_scheme s2) as [[proto rest]|] eqn:Hscheme; [|discriminate].
  set (host := toLowerCase (take_until "/" rest)).
  set (path := drop (String.length host) rest).
  destruct (host_ok host && path_ok path && query_ok q) eqn:Hok; [|discriminate].
  intros [= <-]. rewrite !andb_true_iff in Hok. destruct Hok as [[Hhost Hpath] Hq].
  apply cut_at_spec in Hcut1 as [Hno1 Hs1]. apply cut_at_spec in Hcut2 as [Hno2 Hs2].
  apply strip_scheme_spec in Hscheme as [Hproto [n Hrest]].
  rewrite Hs1 in Hs. apply forall_chars_app_inv in Hs as [Hc1 Hcf].
  assert (Hno1' : no_char "#" s2 = true /\ forall_chars is_url_char s2 = true).
  { rewrite Hs2 in Hno1, Hc1. unfold no_char in Hno1.
    apply forall_chars_app_inv in Hno1 as [H _].
    now apply forall_chars_app_inv in Hc1 as [H' _]. }
  destruct Hno1' as [Hh2 Hc2].
  assert (Hrc : forall_chars is_url_char rest = true /\ no_char "?" rest = true
                /\ no_char "#" rest = true).
  { rewrite Hrest. repeat split;
      [now apply forall_chars_drop | now apply no_char_drop | now apply no_char_drop]. }
  destruct Hrc as (Hrc & Hrq & Hrh).
  assert (Hlen : String.length host = String.length (take_until "/" rest))
    by apply length_map_chars.
  assert (Hpc : forall_chars is_url_char path = true /\ no_char "?" path = true
                /\ no_char "#" path = true).
  { unfold path. repeat split;
      [now apply forall_chars_drop | now apply no_char_drop | now apply no_char_drop]. }
  destruct Hpc as (Hpc & Hpq & Hph).
  assert (Hstart : path = EmptyString \/ startsWith path "/" = true).
  { unfold path. rewrite Hlen. apply take_until_spec. }
  unfold wf. cbn [protocol hostname pathname query fragment].
  rewrite Hhost.
  assert (Hp : (String.eqb proto "https:" || String.eqb proto "http:") = true).
  { destruct Hproto as [-> | ->]; reflexivity. }
  rewrite Hp. cbn [andb].
  repeat (apply andb_true_iff; split).
  - destruct path as [|c p]; [reflexivity|]. destruct Hstart as [|H]; [discriminate | exact H].
  - destruct path as [|c p]; [reflexivity | exact Hpc].
  - destruct path as [|c p]; [reflexivity | exact Hpq].
  - destruct path as [|c p]; [reflexivity | exact Hph].
  - destruct path as [|c p]; [reflexivity | exact Hpath].
  - destruct q as [t|]; [|reflexivity].
    rewrite Hs2 in Hno1, Hc1. unfold no_char in Hno1.
    apply forall_chars_app_inv in Hno1 as [_ Hno1].
    apply forall_chars_app_inv in Hc1 as [_ Hc1].
    cbn [forall_chars] in Hno1, Hc1.
    apply andb_true_iff in Hno1 as [_ Hno1]. apply andb_true_iff in Hc1 as [_ Hc1].
    unfold no_char. now rewrite Hc1, Hno1, Hq.
  - destruct frag as [f|]; [|reflexivity].
    cbn [forall_chars] in Hcf. now apply andb_true_iff in Hcf as [_ Hcf].
Qed.

(** The pairs of a URL after [searchParams.set]. *)
Lemma searchParams_searchParams_set (name value : string) (u : URL) :
  is_ascii name = true -> is_ascii value = true ->
  searchParams (searchParams_set name value u)
  = set_pairs name value (searchParams u).
Proof.
  intros Hn Hv. unfold searchParams at 1. unfold searchParams_set. cbn [query].
  rewrite parse_serialize_query; [reflexivity|].
  apply set_pairs_ascii; [assumption..|]. apply searchParams_ascii.
Qed.

Lemma wf_searchParams_set (name value : string) (u : URL) :
  is_ascii name = true -> is_ascii value = true ->
  wf u = true -> wf (searchParams_set name value u) = true.
Proof.
  intros Hn Hv. unfold wf, searchParams_set.
  cbn [protocol hostname pathname query fragment].
  rewrite !andb_true_iff. intros [[[[Hp Hh] Hpath] _] Hf].
  assert (Hl : ascii_pairs (set_pairs name value (searchParams u)) = true).
  { apply set_pairs_ascii; [assumption..|]. apply searchParams_ascii. }
  destruct (serialize_query_chars _ Hl) as [H1 H2].
  repeat split; try assumption; try tauto.
  unfold query_ok.
  rewrite parse_serialize_query by assumption. apply bool_decide_eq_true_2. eauto.
Qed.

End UrlRoundTrip.

(** ** The runs of the loader *)
Module LoaderFacts.
Import JsString Json Url Runtime DataManager.
Import StringFacts SearchFacts UrlNotions UrlFacts FormFacts UrlRoundTrip LoaderNotions Examples.
Local Open Scope run_scope.

Lemma extends_refl (st : State) : extends st st.
Proof. split; [reflexivity | exists []; now rewrite app_nil_r]. Qed.

Lemma extends_trans (a b c : State) : extends a b -> extends b c -> extends a c.
Proof.
  intros [H1 [m1 H2]] [H3 [m2 H4]]. split; [congruence|].
  exists (m1 ++ m2). now rewrite H4, H2, app_assoc.
Qed.

Lemma quiet_ret {A} (a : A) : quiet (ret a).
Proof. intros st. exists (Returns a), st. split; [reflexivity | apply extends_refl]. Qed.

Lemma quiet_throw {A} (e : Json.error) : quiet (@throw A e).
Proof. intros st. exists (Throws e), st. split; [reflexivity | apply extends_refl]. Qed.

Lemma quiet_lift {A} (o : outcome A) : quiet (lift o).
Proof. intros st. exists o, st. split; [reflexivity | apply extends_refl]. Qed.

Lemma quiet_bind {A B} (m : M A) (k : A -> M B) :
  quiet m -> (forall a, quiet (k a)) -> quiet (bindM m k).
Proof.
  intros Hm Hk st. destruct (Hm st) as (r & st1 & Hr & He). unfold bindM. rewrite Hr.
  destruct r as [a|e].
  - destruct (Hk a st1) as (r2 & st2 & Hr2 & He2). exists r2, st2.
    split; [assumption | eapply extends_trans; eassumption].
  - exists (Throws e), st1. split; [reflexivity | assumption].
Qed.

Lemma quiet_try_catch {A} (m : M A) (handler : Json.error -> M A) :
  quiet m -> (forall e, quiet (handler e)) -> quiet (try_catch m handler).
Proof.
  intros Hm Hh st. destruct (Hm st) as (r & st1 & Hr & He). unfold try_catch. rewrite Hr.
  destruct r as [a|e].
  - exists (Returns a), st1. split; [reflexivity | assumption].
  - destruct (Hh e st1) as (r2 & st2 & Hr2 & He2). exists r2, st2.
    split; [assumption | eapply extends_trans; eassumption].
Qed.

Lemma quiet_console (l : level) (line : string) :
  is_retry_warning (l, line) = false -> quiet (console_write l line).
Proof.
  intros H st. eexists _, _. split; [reflexivity|]. split.
  - unfold retries. cbn [console]. rewrite List.filter_app, List.length_app. cbn [List.filter].
    rewrite H. cbn. lia.
  - cbn [requests]. exists []. now rewrite app_nil_r.
Qed.

Lemma quiet_fetch (w : World) (url : string) : quiet (fetch w url).
Proof.
  intros st. unfold fetch.
  destruct (network w (List.length (requests st)) url);
    eexists _, _; (split; [reflexivity|]); (split; [reflexivity | cbn [requests]; eauto]).
Qed.

Lemma quiet_json_body (r : Response) : quiet (json_body r).
Proof. unfold json_body. destruct (body r); [apply quiet_ret | apply quiet_throw]. Qed.

Lemma quiet_fetchPages (data : ApiResponse) (w : World) (urlObj : URL)
    (n : nat) (p : Z) (blockers : list json) :
  quiet (fetchPages data w urlObj n p blockers).
Proof.
  revert p blockers. induction n as [|n IH]; intros p blockers; cbn [fetchPages].
  - apply quiet_ret.
  - apply quiet_bind; [|intros b; apply IH].
    apply quiet_try_catch.
    + apply quiet_bind; [apply quiet_fetch|]. intros r.
      destruct (ok r); [|apply quiet_ret].
      apply quiet_bind; [apply quiet_json_body|]. intros pData.
      destruct (0 <? _)%nat; [apply quiet_ret|].
      destruct (first_list fallbackKeys pData) as [[key l]|]; [|apply quiet_ret].
      apply quiet_bind; [apply quiet_lift | intros; apply quiet_ret].
    + intros e. apply quiet_bind; [now apply quiet_console | intros; apply quiet_ret].
Qed.

Lemma quiet_extractRecords (w : World) (url : string) (urlObj : URL) :
  quiet (extractRecords w url urlObj).
Proof.
  unfold extractRecords.
  apply quiet_bind; [apply quiet_fetch|]. intros r.
  apply quiet_bind; [destruct (negb (ok r)); [apply quiet_throw | apply quiet_ret]|].
  intros _. apply quiet_bind; [apply quiet_json_body|]. intros data.
  apply quiet_bind.
  - destruct (_ =? 0)%nat; [|apply quiet_ret].
    destruct (first_list fallbackKeys data) as [[key l]|]; [|apply quiet_ret].
    apply quiet_bind; [now apply quiet_console | intros; apply quiet_lift].
  - intros blockers. apply quiet_bind; [|intros; apply quiet_ret].
    destruct (pagination_condition data urlObj); [|apply quiet_ret].
    apply quiet_bind; [now apply quiet_console | intros; apply quiet_fetchPages].
Qed.

(** The first request of the extraction is the URL itself. *)
Lemma extractRecords_requests (w : World) (url : string) (urlObj : URL)
    (st st' : State) (r : outcome (ApiResponse * list json)) :
  extractRecords w url urlObj st = Some (r, st') ->
  exists more, requests st' = requests st ++ url :: more.
Proof.
  unfold extractRecords. unfold bindM at 1.
  destruct (fetch w url st) as [[[resp|e] st1]|] eqn:Hf; [| |discriminate].
  - assert (H1 : requests st1 = requests st ++ [url]).
    { unfold fetch in Hf. destruct (network w _ url); inversion Hf; reflexivity. }
    match goal with |- ?m st1 = _ -> _ => assert (Hq : quiet m) end.
    { apply quiet_bind; [destruct (negb (ok resp)); [apply quiet_throw | apply quiet_ret]|].
      intros _. apply quiet_bind; [apply quiet_json_body|]. intros data.
      apply quiet_bind.
      - destruct (_ =? 0)%nat; [|apply quiet_ret].
        destruct (first_list fallbackKeys data) as [[key l]|]; [|apply quiet_ret].
        apply quiet_bind; [now apply quiet_console | intros; apply quiet_lift].
      - intros blockers. apply quiet_bind; [|intros; apply quiet_ret].
        destruct (pagination_condition data urlObj); [|apply quiet_ret].
        apply quiet_bind; [now apply quiet_console | intros; apply quiet_fetchPages]. }
    intros H. destruct (Hq st1) as (r' & st2 & Hr & _ & [more Hm]).
    rewrite Hr in H. injection H as <- <-. exists more.
    now rewrite Hm, H1, <- List.app_assoc.
  - intros [= <- <-]. exists [].
    unfold fetch in Hf. destruct (network w _ url); inversion Hf; reflexivity.
Qed.

Lemma retryUrl_parse (url : string) (urlObj : URL) :
  Url.parse url = Some urlObj ->
  Url.parse (retryUrl urlObj) = Some (retryUrlObj urlObj)
  /\ get "pageSize" (searchParams (retryUrlObj urlObj)) = Some "100"
  /\ get "page" (searchParams (retryUrlObj urlObj)) = Some "1"
  /\ hostname (retryUrlObj urlObj) = hostname urlObj
  /\ pathname (retryUrlObj urlObj) = pathname urlObj.
Proof.
  intros Hp. apply parse_wf in Hp. unfold retryUrl, retryUrlObj.
  repeat split.
  - apply parse_href. repeat apply wf_searchParams_set; auto.
  - rewrite !searchParams_searchParams_set by reflexivity.
    rewrite get_set_pairs_other by discriminate. apply get_set_pairs.
  - rewrite !searchParams_searchParams_set by reflexivity. apply get_set_pairs.
Qed.

Lemma loadDataset_body_no_retry (rec : string -> M Dataset) (w : World) (url : string)
    (st st1 : State) (urlObj : URL) (data : ApiResponse) (blockers : list json) :
  Url.parse url = Some urlObj ->
  extractRecords w url urlObj st = Some (Returns (data, blockers), st1) ->
  retry_condition blockers data urlObj = false ->
  loadDataset_body rec w url st
  = Some (Returns (dataset_of w url urlObj data blockers), st1).
Proof.
  intros Hp He Hr. unfold loadDataset_body, try_catch. rewrite Hp.
  unfold bindM at 1. rewrite He, Hr. reflexivity.
Qed.

Lemma loadDataset_body_retry (rec : string -> M Dataset) (w : World) (url : string)
    (st st1 : State) (urlObj : URL) (data : ApiResponse) (blockers : list json) :
  Url.parse url = Some urlObj ->
  extractRecords w url urlObj st = Some (Returns (data, blockers), st1) ->
  retry_condition blockers data urlObj = true ->
  loadDataset_body rec w url st
  = rethrown (rec (retryUrl urlObj) (logged warn retry_line st1)).
Proof.
  intros Hp He Hr. unfold loadDataset_body, try_catch. rewrite Hp.
  unfold bindM at 1. rewrite He, Hr.
  unfold bindM, console_write, rethrown, logged, retry_line, retryUrl.
  destruct (rec _ _) as [[[ds|e] st2]|]; reflexivity.
Qed.

Lemma loadDataset_body_throws (rec : string -> M Dataset) (w : World) (url : string)
    (st st1 : State) (urlObj : URL) (e : Json.error) :
  Url.parse url = Some urlObj ->
  extractRecords w url urlObj st = Some (Throws e, st1) ->
  loadDataset_body rec w url st
  = Some (Throws e, logged error "Error loading dataset:" st1).
Proof.
  intros Hp He. unfold loadDataset_body, try_catch. rewrite Hp.
  unfold bindM at 1. rewrite He. reflexivity.
Qed.

Lemma retry_condition_100 (blockers : list json) (data : ApiResponse) (urlObj : URL) :
  get "pageSize" (searchParams urlObj) = Some "100" ->
  retry_condition blockers data urlObj = false.
Proof.
  intros H. unfold retry_condition. rewrite bool_decide_eq_true_2 by assumption.
  cbn [negb]. now rewrite andb_false_r.
Qed.

Lemma extends_logged_error (st : State) (line : string) :
  extends st (logged error line st).
Proof.
  split.
  - unfold retries, logged. cbn [console].
    rewrite List.filter_app, List.length_app. cbn. lia.
  - exists []. cbn [logged requests]. now rewrite List.app_nil_r.
Qed.

Lemma extractRecords_extends (w : World) (url : string) (urlObj : URL)
    (st st1 : State) (r : outcome (ApiResponse * list json)) :
  extractRecords w url urlObj st = Some (r, st1) -> extends st st1.
Proof.
  intros He. destruct (quiet_extractRecords w url urlObj st) as (r' & st' & He' & Hx).
  rewrite He in He'. now injection He' as <- <-.
Qed.

(** A call whose URL asks for 100 records a page completes without calling
    itself, and what it returns bears that URL. *)
Lemma loadDataset_body_100 (w : World) (url : string) (st : State) (urlObj : URL) :
  Url.parse url = Some urlObj ->
  get "pageSize" (searchParams urlObj) = Some "100" ->
  exists r st',
    (forall rec, loadDataset_body rec w url st = Some (r, st'))
    /\ extends st st'
    /\ (exists more, requests st' = requests st ++ url :: more)
    /\ (forall ds, r = Returns ds -> DataManager.url ds = url)
    /\ (forall data blockers st1,
          extractRecords w url urlObj st = Some (Returns (data, blockers), st1) ->
          r = Returns (dataset_of w url urlObj data blockers) /\ st' = st1).
Proof.
  intros Hp H100.
  destruct (quiet_extractRecords w url urlObj st) as ([[data blockers]|e] & st1 & He & Hx).
  - exists (Returns (dataset_of w url urlObj data blockers)), st1.
    split; [|split; [assumption | split; [now apply extractRecords_requests in He|split]]].
    + intros rec. apply (loadDataset_body_no_retry _ _ _ _ _ _ _ _ Hp He).
      now apply retry_condition_100.
    + intros ds [= <-]. reflexivity.
    + intros d b s Hd. rewrite He in Hd. injection Hd as <- <- <-. split; reflexivity.
  - exists (Throws e), (logged error "Error loading dataset:" st1).
    split; [intros rec; now apply (loadDataset_body_throws _ _ _ _ _ urlObj)|].
    split; [eapply extends_trans; [eassumption | apply extends_logged_error]|].
    split; [|split; [discriminate|]].
    + apply extractRecords_requests in He as [more Hm]. exists more. exact Hm.
    + intros d b s Hd. rewrite He in Hd. discriminate.
Qed.

Lemma retries_logged_warn (st : State) :
  retries (logged warn retry_line st) = retries st + 1.
Proof.
  unfold retries, logged. cbn [console].
  rewrite List.filter_app, List.length_app. reflexivity.
Qed.

Lemma retry_condition_true (data : ApiResponse) (urlObj : URL) (pg : Pagination) :
  isPublicApi urlObj = true ->
  get "pageSize" (searchParams urlObj) <> Some "100" ->
  pagination data = Some pg -> (0 < totalCount pg)%Z ->
  retry_condition [] data urlObj = true.
Proof.
  intros Hapi Hsize Hpg Hcount. unfold retry_condition. rewrite Hpg, Hapi.
  rewrite bool_decide_eq_false_2 by assumption.
  apply Z.ltb_lt in Hcount. now rewrite Hcount.
Qed.

Lemma retryUrl_differs (url : string) (urlObj : URL) :
  Url.parse url = Some urlObj ->
  get "pageSize" (searchParams urlObj) <> Some "100" ->
  retryUrl urlObj <> url.
Proof.
  intros Hp Hsize Heq. destruct (retryUrl_parse url urlObj Hp) as (Hp' & H100 & _).
  rewrite Heq, Hp in Hp'. injection Hp' as Hu. rewrite <- Hu in H100. contradiction.
Qed.

(** The run of a load that retries: the recursive call completes without
    calling itself, whatever function it is given to call. *)
Lemma retry_run (w : World) (url : string) (st st1 : State)
    (urlObj : URL) (data : ApiResponse) (pg : Pagination) :
  Url.parse url = Some urlObj ->
  isPublicApi urlObj = true ->
  get "pageSize" (searchParams urlObj) <> Some "100" ->
  extractRecords w url urlObj st = Some (Returns (data, []), st1) ->
  pagination data = Some pg -> (0 < totalCount pg)%Z ->
  exists r st2 more,
    (forall rec, loadDataset_body rec w (retryUrl urlObj) (logged warn retry_line st1)
                 = Some (r, st2))
    /\ (forall depth, loadDataset (S (S depth)) w url st = rethrown (Some (r, st2)))
    /\ retries st2 = retries st + 1
    /\ requests st2 = requests st1 ++ retryUrl urlObj :: more
    /\ (forall ds, r = Returns ds -> DataManager.url ds = retryUrl urlObj)
    /\ (forall data2 blockers2 st',
          extractRecords w (retryUrl urlObj) (retryUrlObj urlObj)
            (logged warn retry_line st1) = Some (Returns (data2, blockers2), st') ->
          r = Returns (dataset_of w (retryUrl urlObj) (retryUrlObj urlObj) data2 blockers2)
          /\ st2 = st').
Proof.
  intros Hp Hapi Hsize He Hpg Hcount.
  destruct (retryUrl_parse url urlObj Hp) as (Hp' & H100 & _).
  destruct (loadDataset_body_100 w (retryUrl urlObj) (logged warn retry_line st1)
              (retryUrlObj urlObj) Hp' H100)
    as (r & st2 & Hbody & [Hret _] & [more Hreq] & Hurl & Hdet).
  exists r, st2, more.
  split; [exact Hbody|]. split; [|split; [|split; [exact Hreq|split; [exact Hurl|exact Hdet]]]].
  - intros depth. cbn [loadDataset].
    rewrite (loadDataset_body_retry _ w url st st1 urlObj data [] Hp He)
      by now apply (retry_condition_true data urlObj pg).
    now rewrite Hbody.
  - rewrite Hret, retries_logged_warn.
    apply extractRecords_extends in He as [He _]. now rewrite He.
Qed.

(** Two nested calls are enough for every load. *)
Lemma loadDataset_total (w : World) (url : string) (st : State) (depth : nat) :
  exists r st', loadDataset (S (S depth)) w url st = Some (r, st').
Proof.
  cbn [loadDataset].
  destruct (Url.parse url) as [urlObj|] eqn:Hp.
  - destruct (quiet_extractRecords w url urlObj st) as ([[data blockers]|e] & st1 & He & _).
    + destruct (retry_condition blockers data urlObj) eqn:Hr.
      * rewrite (loadDataset_body_retry _ w url st st1 urlObj data blockers Hp He Hr).
        destruct (retryUrl_parse url urlObj Hp) as (Hp' & H100 & _).
        destruct (loadDataset_body_100 w (retryUrl urlObj) (logged warn retry_line st1)
                    (retryUrlObj urlObj) Hp' H100) as (r & st2 & Hbody & _).
        destruct depth; cbn [loadDataset]; rewrite Hbody; destruct r; cbn [rethrown]; eauto.
      * rewrite (loadDataset_body_no_retry _ w url st st1 urlObj data blockers Hp He Hr).
        eauto.
    + rewrite (loadDataset_body_throws _ w url st st1 urlObj e Hp He). eauto.
  - unfold loadDataset_body, try_catch. rewrite Hp. cbn. eauto.
Qed.

(** *** Conversion to a string *)

Lemma json_nested_ind (P : json -> Prop) :
  P JNull -> (forall b, P (JBool b)) -> (forall z, P (JNum z)) -> (forall s, P (JStr s)) ->
  (forall items, Forall P items -> P (JArr items)) ->
  (forall fields, Forall (fun member => P (snd member)) fields -> P (JObj fields)) ->
  forall v, P v.
Proof.
  intros Hn Hb Hz Hs Ha Ho. fix IH 1.
  intros [|b|z|s|items|fields]; [exact Hn | apply Hb | apply Hz | apply Hs | |].
  - apply Ha. induction items as [|x l IHl]; constructor; [apply IH | exact IHl].
  - apply Ho. induction fields as [|[k x] l IHl]; constructor; [apply IH | exact IHl].
Qed.

Lemma own_toString (fields : list (string * json)) :
  existsb (fun member => String.eqb (fst member) "toString") fields
  = match lookup_field "toString" fields with Some _ => true | None => false end.
Proof.
  induction fields as [|[k v] l IH]; [reflexivity|]. cbn [existsb lookup_field fst].
  destruct (String.eqb k "toString"); [reflexivity | exact IH].
Qed.

(** [toString] returns on the values that are [printable], and throws a
    [TypeError] on the others. *)
Lemma toString_spec (v : json) :
  if printable v then exists s, toString v = Returns s
  else toString v = Throws TypeError.
Proof.
  induction v as [|b|z|s|items IH|fields _] using json_nested_ind;
    try (cbn; eauto; fail).
  - destruct b; cbn; eauto.
  - cbn [printable toString].
    match goal with |- context [Json.bind ?p _] => set (parts := p) end.
    assert (Hparts : if forallb printable items then exists l, parts = Returns l
                     else parts = Throws TypeError).
    { subst parts. induction IH as [|x l Hx _ IHl]; cbn [forallb fold_right]; [eauto|].
      assert (Hconv : if printable x
                      then exists s, match x with
                                     | JNull => Returns EmptyString
                                     | _ => toString x
                                     end = Returns s
                      else match x with
                           | JNull => Returns EmptyString
                           | _ => toString x
                           end = Throws TypeError).
      { destruct x; try exact Hx. cbn. eauto. }
      destruct (printable x); cbn [andb].
      - destruct Hconv as [s ->]. cbn [Json.bind].
        destruct (forallb printable l).
        + destruct IHl as [l' ->]. cbn [Json.bind]. eauto.
        + rewrite IHl. reflexivity.
      - rewrite Hconv. reflexivity. }
    destruct (forallb printable items).
    + destruct Hparts as [l ->]. cbn [Json.bind]. eauto.
    + rewrite Hparts. reflexivity.
  - cbn [printable toString]. rewrite own_toString.
    destruct (lookup_field "toString" fields); cbn [negb]; eauto.
Qed.

(** *** The records built from the items of a list *)

Lemma extractItem_throws (data : ApiResponse) (w : World) (index : nat) (item : json) :
  extractable item = false -> extractItem data w index item = Throws TypeError.
Proof.
  unfold extractable, extractItem. destruct item as [|b|z|s|l|fs]; try discriminate.
  - reflexivity.
  - cbn [field]. intros H. apply orb_false_iff in H as [H Hp].
    apply orb_false_iff in H as [Hc Ht]. apply negb_false_iff in Ht.
    rewrite Hc, Ht. pose proof (toString_spec (default JNull (lookup_field "Type" fs))) as Hs.
    rewrite Hp in Hs. rewrite Hs. reflexivity.
Qed.

Lemma extractItem_returns (data : ApiResponse) (w : World) (index : nat) (item : json) :
  extractable item = true -> exists record, extractItem data w index item = Returns record.
Proof.
  unfold extractable, extractItem. destruct item as [|b|z|s|l|fs]; try discriminate;
    try (intros _; cbn; eauto; fail).
  cbn [field]. intros H.
  destruct (truthy (lookup_field "content" fs)); [cbn [Json.bind]; eauto|].
  destruct (truthy (lookup_field "Type" fs)); [|cbn [Json.bind]; eauto].
  cbn [orb negb] in H. pose proof (toString_spec (default JNull (lookup_field "Type" fs))) as Hs.
  rewrite H in Hs. destruct Hs as [text ->]. cbn [Json.bind]. eauto.
Qed.

Lemma extractFrom_length (data : ApiResponse) (w : World) (items : list json) (index : nat) :
  Forall (fun item => extractable item = true) items ->
  exists l, extractFrom data w index items = Returns l /\ List.length l = List.length items.
Proof.
  intros H. revert index. induction H as [|item items Hitem _ IH]; intros index.
  - exists []. split; reflexivity.
  - destruct (IH (S index)) as (l & Hl & Hlen). cbn [extractFrom]. rewrite Hl.
    destruct (extractItem_returns data w index item Hitem) as [record ->].
    cbn [Json.bind]. eexists. split; [reflexivity | cbn [List.length]; now rewrite Hlen].
Qed.

(** One item that is not [extractable] makes the whole list fail. *)
Lemma extractFrom_throws (data : ApiResponse) (w : World) (items : list json) (index : nat) :
  Exists (fun item => extractable item = false) items ->
  extractFrom data w index items = Throws TypeError.
Proof.
  intros H. revert index. induction H as [item items Hitem|item items _ IH]; intros index;
    cbn [extractFrom].
  - now rewrite (extractItem_throws data w index item Hitem).
  - destruct (extractable item) eqn:E.
    + destruct (extractItem_returns data w index item E) as [record ->].
      cbn [Json.bind]. now rewrite IH.
    + now rewrite (extractItem_throws data w index item E).
Qed.

Lemma first_list_auditTable (data : ApiResponse) (item : json) (items : list json) :
  lookup_field "auditTable" (members data) = Some (JArr (item :: items)) ->
  first_list fallbackKeys data = Some ("auditTable", item :: items).
Proof. intros H. cbn [fallbackKeys first_list]. now rewrite H. Qed.

Lemma extractRecords_auditTable (w : World) (url : string) (st : State)
    (urlObj : URL) (resp : Response) (data : ApiResponse) (items : list json) :
  network w (List.length (requests st)) url = Responded resp ->
  ok resp = true -> body resp = Some data ->
  (Runtime.blockers data = None \/ Runtime.blockers data = Some []) ->
  lookup_field "auditTable" (members data) = Some (JArr items) ->
  items <> [] ->
  pagination_condition data urlObj = false ->
  extractRecords w url urlObj st
  = match extractFromList data w items with
    | Returns l =>
        Some (Returns (data, l),
              logged log ("Mapping " +:+ of_nat (List.length items)
                            +:+ " items from 'auditTable' since blockers is empty.")
                     {| requests := requests st ++ [url]; console := console st |})
    | Throws e =>
        Some (Throws e,
              logged log ("Mapping " +:+ of_nat (List.length items)
                            +:+ " items from 'auditTable' since blockers is empty.")
                     {| requests := requests st ++ [url]; console := console st |})
    end.
Proof.
  intros Hnet Hok Hbody Hb Htable Hne Hpg.
  destruct items as [|item items]; [congruence|].
  unfold extractRecords, bindM, fetch. rewrite Hnet, Hok. cbn [negb ret].
  unfold json_body. rewrite Hbody. cbn [ret].
  assert (Hd : default [] (Runtime.blockers data) = []) by (destruct Hb as [-> | ->]; reflexivity).
  rewrite Hd. cbn [List.length Nat.eqb].
  rewrite (first_list_auditTable _ _ _ Htable).
  unfold console_write, lift.
  destruct (extractFromList data w (item :: items)) as [l|e]; [|reflexivity].
  rewrite Hpg. reflexivity.
Qed.

Lemma retry_condition_records (blockers : list json) (data : ApiResponse) (urlObj : URL) :
  blockers <> [] -> retry_condition blockers data urlObj = false.
Proof. intros H. destruct blockers; [congruence | reflexivity]. Qed.

Lemma deriveName_report (data : ApiResponse) (urlObj : URL) :
  (audit_name data = None \/ audit_name data = Some EmptyString) ->
  List.last (split_chars (Ascii.eqb "/") EmptyString (pathname urlObj)) EmptyString
  = "my_site_audit_2024-05-01.json" ->
  deriveName data urlObj (Some "2024-05-01") = "My Site Audit (2024-05-01)".
Proof.
  intros Hname Hlast. unfold deriveName.
  assert (Hd : default EmptyString (audit_name data) = EmptyString)
    by (destruct Hname as [-> | ->]; reflexivity).
  rewrite Hd. cbn -[strip_extension split_chars List.last replace join map List.filter titleCase includes].
  rewrite Hlast. vm_compute. reflexivity.
Qed.

Lemma services_loadDataset_rejects (w : World) (url : string) (st : State)
    (parsedUrl : URL) (resp : Response) (data : ApiResponse) (pg : Pagination) :
  Url.parse url = Some parsedUrl ->
  network w (List.length (requests st)) url = Responded resp ->
  ok resp = true -> body resp = Some data ->
  (Runtime.blockers data = None \/ Runtime.blockers data = Some []) ->
  pagination data = Some pg -> (0 < totalCount pg)%Z ->
  exists st',
    ServicesDataManager.loadDataset w url st
    = Some (Throws (Error page_size_message), st').
Proof.
  intros Hp Hnet Hok Hbody Hb Hpg Hcount.
  unfold ServicesDataManager.loadDataset, try_catch. rewrite Hp.
  apply Z.ltb_lt in Hcount.
  assert (Hcond : (match Runtime.blockers data with Some (_ :: _) => false | _ => true end
                   && match pagination data with
                      | Some pg => (0 <? totalCount pg)%Z
                      | None => false
                      end) = true).
  { rewrite Hpg, Hcount. destruct Hb as [-> | ->]; reflexivity. }
  unfold bindM at 1.
  destruct (get "pageSize" (searchParams parsedUrl)) as [text|];
    [destruct (JsString.truthy text && _)|];
    cbn [ret console_write];
    unfold bindM, fetch; cbn [requests]; rewrite Hnet, Hok; cbn [negb ret];
    unfold json_body; rewrite Hbody; cbn [ret]; rewrite Hcond;
    cbn; eexists; reflexivity.
Qed.

End LoaderFacts.

(** ** The parts of a message *)
Module PartFacts.
Import JsString ViolationParser.
Import StringFacts SearchFacts SplitFacts Notions RuleNotions ParserFacts ParserNotions.

Lemma sapp_inj_length (a b x y : string) :
  a +:+ x = b +:+ y -> String.length a = String.length b -> a = b /\ x = y.
Proof.
  revert b. induction a as [|c a IH]; intros [|d b] H Hl; try discriminate.
  - split; [reflexivity | exact H].
  - rewrite !sapp_cons in H. injection H as -> H. cbn [String.length] in Hl.
    destruct (IH b H) as [-> ->]; [lia | split; reflexivity].
Qed.

Lemma drop_nil (n : nat) : drop n EmptyString = EmptyString.
Proof. destruct n; reflexivity. Qed.

Lemma not_occurs_longer (sep cur : string) :
  sep <> EmptyString ->
  (forall a b, cur = a +:+ sep +:+ b -> String.length cur <= String.length a) ->
  includes cur sep = false.
Proof.
  intros Hsep H. apply includes_false_iff. intros (a & b & E).
  specialize (H a b E). rewrite E, !slength_app in H.
  destruct sep; [congruence|]. cbn [String.length] in H. lia.
Qed.

(** No part that [split] returns contains the separator. *)
Lemma split_go_parts (sep : string) (s : string) (skip : nat) (cur : string) :
  sep <> EmptyString ->
  (forall a b, cur +:+ drop skip s = a +:+ sep +:+ b ->
               String.length cur <= String.length a) ->
  Forall (fun p => includes p sep = false) (split_go sep skip cur s).
Proof.
  intros Hsep. revert skip cur. induction s as [|c s IH]; intros skip cur H.
  - cbn [split_go]. constructor; [|constructor].
    apply not_occurs_longer; [assumption|]. intros a b E. apply (H a b).
    now rewrite drop_nil, sapp_nil_r.
  - destruct skip as [|k].
    + cbn [split_go]. cbn [drop] in H. destruct (startsWith (String c s) sep) eqn:E.
      * constructor.
        -- apply not_occurs_longer; [assumption|]. intros a b Ecur.
           apply (H a (b +:+ String c s)). rewrite Ecur, !sapp_assoc. reflexivity.
        -- apply IH. intros a b _. cbn. lia.
      * apply IH. cbn [drop]. intros a b Eab.
        assert (Eab' : cur +:+ String c s = a +:+ sep +:+ b).
        { rewrite <- Eab, sapp_assoc. reflexivity. }
        pose proof (H a b Eab') as Hle. rewrite slength_app. cbn [String.length].
        destruct (Nat.eq_dec (String.length cur) (String.length a)) as [Heq|]; [|lia].
        destruct (sapp_inj_length _ _ _ _ Eab' Heq) as [_ Es].
        rewrite Es, startsWith_app in E. discriminate.
    + cbn [split_go]. apply IH. exact H.
Qed.

Lemma split_parts (s sep : string) :
  sep <> EmptyString -> Forall (fun p => includes p sep = false) (split s sep).
Proof.
  intros Hsep. apply split_go_parts; [assumption|]. intros a b _. cbn. lia.
Qed.

(** *** The help link *)

Lemma help_url_at_Some (s m0 m1 : string) :
  help_url_at s = Some (m0, m1) ->
  m0 = help_label +:+ m1
  /\ (startsWith m1 "http://" || startsWith m1 "https://") = true
  /\ no_ws m1 = true
  /\ startsWith s m0 = true.
Proof.
  unfold help_url_at. cbv zeta. fold help_label.
  destruct (startsWith s help_label) eqn:El; [|discriminate].
  apply startsWith_inv in El. remember (drop (String.length help_label) s) as r eqn:Hr.
  assert (Hscheme : forall sc, startsWith r sc = true -> no_ws sc = true ->
             match take_while (fun c => negb (is_ws c)) (drop (String.length sc) r) with
             | EmptyString => None
             | tok => Some (help_label +:+ sc +:+ tok, sc +:+ tok)
             end = Some (m0, m1) ->
             m0 = help_label +:+ m1 /\ startsWith m1 sc = true
             /\ no_ws m1 = true /\ startsWith s m0 = true).
  { intros sc Hsc Hws Htok. apply startsWith_inv in Hsc.
    destruct (take_while_spec (fun c => negb (is_ws c)) (drop (String.length sc) r))
      as [Hsplit Hall].
    destruct (take_while _ (drop (String.length sc) r)) as [|t tok] eqn:Et; [discriminate|].
    injection Htok as <- <-. split; [reflexivity|]. split; [apply startsWith_app|].
    split.
    - unfold no_ws in *. rewrite UrlFacts.forall_chars_app, Hws. exact Hall.
    - rewrite El at 1. rewrite Hsc at 1. rewrite Hsplit at 1.
      rewrite <- !sapp_assoc. apply startsWith_app. }
  destruct (startsWith r "https://") eqn:E1.
  - intros H. destruct (Hscheme "https://" E1 eq_refl H) as (? & -> & ? & ?).
    rewrite orb_true_r. auto.
  - destruct (startsWith r "http://") eqn:E2; [|discriminate].
    intros H. destruct (Hscheme "http://" E2 eq_refl H) as (? & -> & ? & ?). auto.
Qed.

Lemma match_help_url_Some (s m0 m1 : string) :
  match_help_url s = Some (m0, m1) ->
  exists a t, s = a +:+ t /\ help_url_at t = Some (m0, m1).
Proof.
  induction s as [|c s IH]; cbn [match_help_url];
    destruct (help_url_at _) as [m|] eqn:E.
  - intros [= ->]. exists EmptyString, EmptyString. auto.
  - discriminate.
  - intros [= ->]. exists EmptyString, (String c s). auto.
  - intros H. destruct (IH H) as (a & t & -> & Ht). exists (String c a), t. auto.
Qed.

Lemma match_help_url_None (s : string) :
  match_help_url s = None -> forall a t, s = a +:+ t -> help_url_at t = None.
Proof.
  induction s as [|c s IH]; cbn [match_help_url];
    destruct (help_url_at _) as [m|] eqn:E; try discriminate; intros H a t Es.
  - destruct a; [|discriminate]. now rewrite sapp_nil_l in Es; subst t.
  - destruct a as [|d a].
    + rewrite sapp_nil_l in Es. now subst t.
    + rewrite sapp_cons in Es. injection Es as _ Es. now apply (IH H a t).
Qed.

Lemma help_url_at_link (scheme : string) (c : ascii) (b : string) :
  scheme = "http://" \/ scheme = "https://" -> is_ws c = false ->
  help_url_at (help_label +:+ scheme +:+ String c b) <> None.
Proof.
  intros Hs Hc. unfold help_url_at. cbv zeta. fold help_label.
  rewrite startsWith_app, drop_app_length.
  destruct Hs as [-> | ->].
  - replace (startsWith ("http://" +:+ String c b) "https://") with false
      by (vm_compute; reflexivity).
    rewrite startsWith_app, drop_app_length. cbn [take_while]. rewrite Hc. discriminate.
  - rewrite startsWith_app, drop_app_length. cbn [take_while]. rewrite Hc. discriminate.
Qed.

Lemma extractHelpUrl_spec (text : string) :
  match (extractHelpUrl text).1 with
  | Some u =>
      (startsWith u "http://" || startsWith u "https://") = true
      /\ no_ws u = true
      /\ occurs_in (help_label +:+ u) text
  | None =>
      forall scheme c, scheme = "http://" \/ scheme = "https://" ->
        is_ws c = false ->
        ~ occurs_in (help_label +:+ scheme +:+ String c EmptyString) text
  end.
Proof.
  unfold extractHelpUrl. destruct (match_help_url text) as [[m0 m1]|] eqn:E; cbn [fst].
  - destruct (match_help_url_Some _ _ _ E) as (a & t & -> & Ht).
    destruct (help_url_at_Some _ _ _ Ht) as (-> & Hs & Hws & Hst).
    split; [exact Hs|]. split; [exact Hws|].
    apply startsWith_iff in Hst as (r & ->). now exists a, r.
  - intros scheme c Hs Hc (a & b & Eab).
    apply (help_url_at_link scheme c b Hs Hc).
    apply (match_help_url_None _ E a). rewrite Eab, !sapp_assoc. reflexivity.
Qed.

(** *** Trimmed texts *)

Lemma trimStart_head (s : string) (c : ascii) (t : string) :
  trimStart s = String c t -> is_ws c = false.
Proof.
  induction s as [|d s IH]; [discriminate|]. cbn [trimStart].
  destruct (is_ws d) eqn:E; [exact IH|]. now intros [= <- _].
Qed.

Lemma trimEnd_cons (c : ascii) (s : string) :
  is_ws c = false -> exists t, trimEnd (String c s) = String c t.
Proof.
  intros Hc. cbn [trimEnd]. destruct (trimEnd s); rewrite ?Hc; eauto.
Qed.

Lemma trim_cons (c : ascii) (s : string) :
  is_ws c = false -> exists t, trim (String c s) = String c t.
Proof.
  intros Hc. unfold trim. cbn [trimStart]. rewrite Hc. now apply trimEnd_cons.
Qed.

Lemma trim_head (s : string) (c : ascii) (t : string) :
  trim s = String c t -> is_ws c = false.
Proof.
  unfold trim. destruct (trimStart s) as [|d x] eqn:E; [discriminate|].
  pose proof (trimStart_head _ _ _ E) as Hd.
  destruct (trimEnd_cons d x Hd) as (t' & ->). now intros [= <- _].
Qed.

Lemma stripped_head (part : string) (c : ascii) (t : string) :
  stripped part = String c t -> is_ws c = false.
Proof.
  unfold stripped. cbv zeta. destruct (startsWith (trim part) "violation: ");
    apply trim_head.
Qed.

Lemma cleanPart_unquoted (part : string) :
  quoted part = false -> cleanPart part = stripped part.
Proof.
  unfold quoted, cleanPart, stripped. cbv zeta. intros ->. reflexivity.
Qed.

(** The text in which the rule is looked for begins with no white space,
    unless the part is wrapped in quotes and has no help link. *)
Lemma text_head (part : string) (c : ascii) (t : string) :
  quoted part = false \/ (extractHelpUrl (cleanPart part)).1 <> None ->
  (extractHelpUrl (cleanPart part)).2 = String c t -> is_ws c = false.
Proof.
  unfold extractHelpUrl.
  destruct (match_help_url (cleanPart part)) as [[m0 m1]|]; cbn [fst snd].
  - intros _. apply trim_head.
  - intros [Hq | Hn]; [|congruence]. rewrite (cleanPart_unquoted _ Hq).
    apply stripped_head.
Qed.

Lemma titles_not_empty (key title : string) :
  In (key, title) FRIENDLY_TITLES -> title <> EmptyString.
Proof.
  unfold FRIENDLY_TITLES. cbn [In].
  intros H; repeat (destruct H as [[= _ <-] | H]; [discriminate|]); destruct H.
Qed.

Lemma resolves_rule_not_empty (text rule rest : string) :
  resolves text rule rest ->
  (forall c t, text = String c t -> is_ws c = false) ->
  rule <> EmptyString.
Proof.
  intros H Hhead. destruct H as [tag tail (_ & Htag & _) | key title _ Hk | prefix _ _ Hp | ].
  - exact Htag.
  - destruct Hk as (before & after & E & _). apply (titles_not_empty key).
    rewrite E. apply in_or_app. right. left. reflexivity.
  - destruct Hp as ((tail & E) & _ & _ & Hlen & _).
    destruct prefix as [|c p]; [cbn in Hlen; lia|].
    rewrite sapp_cons in E. destruct (trim_cons c p (Hhead _ _ E)) as (t & ->).
    discriminate.
  - discriminate.
Qed.

Lemma parsePart_rule_not_empty (index : nat) (part : string) :
  quoted part = false \/ helpUrl (parsePart index part) <> None ->
  rule (parsePart index part) <> EmptyString.
Proof.
  destruct (parsePart_fields index part) as (_ & _ & -> & -> & _). intros H.
  apply (resolves_rule_not_empty _ _ _ (resolveRule_resolves _)).
  intros c t. now apply text_head.
Qed.

Lemma Forall_parseMessages (P : ParsedViolation -> Prop) (rawMessage : string) :
  (forall index part, raw (parsePart index part) = part -> P (parsePart index part)) ->
  Forall P (parseMessages rawMessage).
Proof.
  intros H. destruct rawMessage as [|c s]; [constructor|].
  rewrite parseMessages_nonempty by discriminate.
  apply Forall_forall. intros v Hv.
  apply elem_of_lookup_imap in Hv as (i & x & -> & _).
  apply H. now destruct (parsePart_fields i x) as (_ & ? & _).
Qed.

(** *** The distinct rules of a message *)

Lemma elem_of_distinct (l : list string) (x : string) : x ∈ distinct l <-> x ∈ l.
Proof.
  induction l as [|y l IH]; cbn [distinct]; [reflexivity|].
  rewrite !elem_of_cons, list_elem_of_filter, IH.
  destruct (decide (x = y)) as [->|Hxy]; [split; auto|].
  split; [intros [? | [_ ?]]; auto | intros [? | ?]; auto].
Qed.

Lemma NoDup_distinct (l : list string) : NoDup (distinct l).
Proof.
  induction l as [|y l IH]; cbn [distinct]; [constructor|].
  apply NoDup_cons. split.
  - rewrite list_elem_of_filter. intros [Hy _]. now apply Hy.
  - now apply NoDup_filter.
Qed.

Lemma sublist_distinct (l : list string) : sublist (distinct l) l.
Proof.
  induction l as [|y l IH]; cbn [distinct]; [constructor|].
  apply sublist_skip. etransitivity; [apply sublist_filter | exact IH].
Qed.

Lemma filter_none (P : string -> Prop) `{forall x, Decision (P x)} (l : list string) :
  Forall (fun y => ~ P y) l -> filter P l = [].
Proof.
  induction 1 as [|y l Hy _ IH]; [reflexivity|]. now rewrite filter_cons_False.
Qed.

Lemma distinct_same (r : string) (l : list string) :
  l <> [] -> Forall (fun x => x = r) l -> distinct l = [r].
Proof.
  intros Hne Hall. destruct l as [|x l]; [congruence|].
  apply Forall_cons in Hall as [-> Hl]. cbn [distinct]. f_equal.
  apply filter_none. apply Forall_forall. intros y Hy.
  apply (proj1 (elem_of_distinct _ _)) in Hy. rewrite Forall_forall in Hl. intros Hneq.
  apply Hneq, Hl. exact Hy.
Qed.

(** Filtering keeps the order of what it keeps. *)
Lemma filter_order (P : string -> Prop) `{!forall x, Decision (P x)}
    (l : list string) (i j : nat) (x y : string) :
  filter P l !! i = Some x -> filter P l !! j = Some y -> i < j ->
  exists i' j', i' < j' /\ l !! i' = Some x /\ l !! j' = Some y.
Proof.
  revert i j. induction l as [|b l IH]; intros i j Hi Hj Hlt; [discriminate|].
  rewrite filter_cons in Hi, Hj. destruct (decide (P b)) as [Hb|Hb].
  - destruct i as [|i].
    + injection Hi as ->. destruct j as [|j]; [lia|]. cbn in Hj.
      assert (Hy : y ∈ l).
      { apply (list_elem_of_lookup_2 _ _ _) in Hj.
        apply (proj1 (list_elem_of_filter _ _ _)) in Hj. tauto. }
      apply list_elem_of_lookup_1 in Hy as (k & Hk).
      exists 0, (S k). split; [lia|]. split; [reflexivity | exact Hk].
    + destruct j as [|j]; [lia|]. cbn in Hi, Hj.
      destruct (IH i j Hi Hj ltac:(lia)) as (i' & j' & Hlt' & Hi' & Hj').
      exists (S i'), (S j'). split; [lia|]. split; assumption.
  - destruct (IH i j Hi Hj Hlt) as (i' & j' & Hlt' & Hi' & Hj').
    exists (S i'), (S j'). split; [lia|]. split; assumption.
Qed.

(** [distinct] keeps the values in the order of their first occurrences: a
    value that stands before another one in [distinct l] occurs in [l] before
    every occurrence of the other. *)
Lemma distinct_order (l : list string) (i j : nat) (x y : string) :
  distinct l !! i = Some x -> distinct l !! j = Some y -> i < j ->
  exists k, l !! k = Some x /\ y ∉ firstn (S k) l.
Proof.
  revert i j. induction l as [|a l IH]; intros i j Hi Hj Hlt; [discriminate|].
  cbn [distinct] in Hi, Hj.
  destruct j as [|j]; [lia|]. cbn in Hj.
  assert (Hya : y <> a).
  { apply (list_elem_of_lookup_2 _ _ _) in Hj.
    apply (proj1 (list_elem_of_filter _ _ _)) in Hj. tauto. }
  destruct i as [|i].
  - injection Hi as ->. exists 0. split; [reflexivity|]. cbn [firstn].
    intros Hin. apply list_elem_of_singleton in Hin. contradiction.
  - cbn in Hi.
    destruct (filter_order _ _ _ _ _ _ Hi Hj ltac:(lia)) as (i' & j' & Hlt' & Hi' & Hj').
    destruct (IH i' j' Hi' Hj' Hlt') as (k & Hk & Hno).
    exists (S k). split; [exact Hk|]. cbn [firstn]. intros Hin.
    apply elem_of_cons in Hin as [Hin|Hin]; [contradiction | now apply Hno].
Qed.

End PartFacts.

(** ** Sets of ids *)
Module IdFacts.
Import JsString Json DataManager.
Import StringFacts JsonFacts StoreNotions StoreFacts IdNotions.

Lemma filter_filter_same {A} (f : A -> bool) (l : list A) :
  List.filter f (List.filter f l) = List.filter f l.
Proof.
  induction l as [|x l IH]; [reflexivity|]. cbn [List.filter].
  destruct (f x) eqn:E; [cbn [List.filter]; rewrite E, IH|]; auto.
Qed.

Lemma filter_all {A} (f : A -> bool) (l : list A) :
  (forall x, x ∈ l -> f x = true) -> List.filter f l = l.
Proof.
  induction l as [|x l IH]; intros H; [reflexivity|]. cbn [List.filter].
  rewrite (H x) by (left). f_equal. apply IH. intros y Hy. apply H. now right.
Qed.

Lemma elem_of_filter_bool {A} (f : A -> bool) (l : list A) (x : A) :
  x ∈ List.filter f l <-> x ∈ l /\ f x = true.
Proof.
  rewrite !list_elem_of_In. apply filter_In.
Qed.

Lemma eqb_other (x id : string) : negb (String.eqb x id) = true <-> x <> id.
Proof.
  rewrite negb_true_iff. destruct (String.eqb_spec x id); split; congruence.
Qed.

(** *** [toggleIgnoreId] *)

Lemma toggled_elem (id : string) (ids : list string) : id ∈ toggled id ids <-> id ∉ ids.
Proof.
  unfold toggled. case_bool_decide as Hin.
  - rewrite elem_of_filter_bool, eqb_other. split; [intros [_ Hne]|intros Hn]; tauto.
  - rewrite elem_of_app, list_elem_of_singleton. tauto.
Qed.

Lemma toggled_others (id : string) (ids : list string) :
  List.filter (fun x => negb (String.eqb x id)) (toggled id ids)
  = List.filter (fun x => negb (String.eqb x id)) ids.
Proof.
  unfold toggled. case_bool_decide as Hin.
  - apply filter_filter_same.
  - rewrite List.filter_app. cbn [List.filter]. rewrite String.eqb_refl.
    apply List.app_nil_r.
Qed.

Lemma toggled_back (id : string) (ids : list string) :
  id ∉ ids -> toggled id (toggled id ids) = ids.
Proof.
  intros Hn. unfold toggled at 2. rewrite bool_decide_eq_false_2 by assumption.
  unfold toggled. rewrite bool_decide_eq_true_2.
  - rewrite List.filter_app. cbn [List.filter]. rewrite String.eqb_refl.
    rewrite List.app_nil_r. apply filter_all. intros x Hx. apply eqb_other. congruence.
  - rewrite elem_of_app, list_elem_of_singleton. auto.
Qed.

(** *** [Set] operations on ids *)

Lemma fold_set_add (ids current : list string) :
  fold_left (fun s x => set_add x s) (map JStr ids) (map JStr current)
  = map JStr (added_all ids current).
Proof.
  unfold added_all. revert current. induction ids as [|x ids IH]; intros current.
  - reflexivity.
  - cbn [map fold_left]. rewrite set_add_ids. apply IH.
Qed.

Lemma set_from_ids (stored : list string) :
  set_from (map JStr stored) = map JStr (added_all stored []).
Proof. apply (fold_set_add stored []). Qed.

Lemma fold_bulk (shouldIgnore : bool) (ids current : list string) :
  fold_left (fun current id =>
               if shouldIgnore then set_add (JStr id) current
               else set_delete (JStr id) current) ids (map JStr current)
  = map JStr (if shouldIgnore then added_all ids current else deleted_all ids current).
Proof.
  unfold added_all, deleted_all. revert current.
  induction ids as [|x ids IH]; intros current.
  - destruct shouldIgnore; reflexivity.
  - cbn [fold_left]. destruct shouldIgnore.
    + rewrite set_add_ids. apply IH.
    + rewrite set_delete_ids. apply IH.
Qed.

(** [bulkIgnoreIds] on a store that holds ids. *)
Lemma bulkIgnoreIds_fold (ids : list string) (shouldIgnore : bool)
    (ls : gmap string string) (stored : list string) :
  getIgnoredIds ls = Returns (JArr (map JStr stored)) ->
  let newIds := if shouldIgnore then added_all ids (added_all stored [])
                else deleted_all ids (added_all stored []) in
  bulkIgnoreIds ids shouldIgnore ls
  = Returns (map JStr newIds, <[STORAGE_KEY := stringify (JArr (map JStr newIds))]> ls).
Proof.
  intros Hget. cbv zeta. unfold bulkIgnoreIds. rewrite Hget. cbn [Json.bind].
  rewrite set_from_ids, fold_bulk. reflexivity.
Qed.

Lemma added_all_fresh (ids current : list string) :
  NoDup ids -> (forall x, x ∈ ids -> x ∉ current) -> added_all ids current = current ++ ids.
Proof.
  unfold added_all. revert current. induction ids as [|x ids IH]; intros current Hnd Hdis.
  - cbn. now rewrite List.app_nil_r.
  - apply NoDup_cons in Hnd as [Hx Hnd]. cbn [fold_left]. unfold added at 2.
    rewrite bool_decide_eq_false_2 by (apply Hdis; left).
    rewrite IH; [now rewrite <- List.app_assoc | assumption |].
    intros y Hy. rewrite elem_of_app, list_elem_of_singleton.
    intros [Hc | ->]; [|contradiction]. apply (Hdis y); [now right | assumption].
Qed.

Lemma added_all_nodup (stored : list string) : NoDup stored -> added_all stored [] = stored.
Proof.
  intros H. rewrite added_all_fresh; [reflexivity | assumption |].
  intros x _. apply not_elem_of_nil.
Qed.


Lemma added_all_elem (ids current : list string) (x : string) :
  x ∈ added_all ids current <-> x ∈ current \/ x ∈ ids.
Proof.
  unfold added_all. revert current. induction ids as [|y ids IH]; intros current.
  - cbn [fold_left]. rewrite elem_of_nil. tauto.
  - cbn [fold_left]. rewrite IH, elem_of_cons. unfold added. case_bool_decide as Hy.
    + split; [tauto|]. intros [? | [-> | ?]]; auto.
    + rewrite elem_of_app, list_elem_of_singleton. tauto.
Qed.

Lemma NoDup_added_all (ids current : list string) :
  NoDup current -> NoDup (added_all ids current).
Proof.
  unfold added_all. revert current. induction ids as [|y ids IH]; intros current H.
  - exact H.
  - cbn [fold_left]. apply IH. now apply NoDup_added.
Qed.

Lemma deleted_all_without (ids current : list string) :
  deleted_all ids current = without ids current.
Proof.
  unfold deleted_all, without. revert current.
  induction ids as [|y ids IH]; intros current.
  - cbn [fold_left]. symmetry. apply filter_all. intros x _.
    rewrite bool_decide_eq_false_2; [reflexivity | apply not_elem_of_nil].
  - cbn [fold_left]. rewrite IH. clear IH.
    induction current as [|x current IHc]; [reflexivity|]. cbn [List.filter].
    destruct (String.eqb_spec y x) as [->|Hyx]; cbn [negb].
    + rewrite (bool_decide_eq_true_2 (x ∈ x :: ids)) by (left). cbn [negb]. exact IHc.
    + cbn [List.filter]. rewrite IHc.
      assert (Hd : bool_decide (x ∈ ids) = bool_decide (x ∈ y :: ids)).
      { apply bool_decide_ext. rewrite elem_of_cons. split; [tauto|].
        intros [-> | ?]; [contradiction | assumption]. }
      now rewrite Hd.
Qed.

Lemma without_elem (ids current : list string) (x : string) :
  x ∈ without ids current <-> x ∈ current /\ x ∉ ids.
Proof.
  unfold without. rewrite elem_of_filter_bool, negb_true_iff, bool_decide_eq_false.
  reflexivity.
Qed.

Lemma NoDup_without (ids current : list string) :
  NoDup current -> NoDup (without ids current).
Proof. apply NoDup_filter_bool. Qed.

Lemma without_without (ids current : list string) :
  without ids (without ids current) = without ids current.
Proof. apply filter_filter_same. Qed.

Lemma added_all_present (ids current : list string) :
  (forall x, x ∈ ids -> x ∈ current) -> added_all ids current = current.
Proof.
  unfold added_all. induction ids as [|y ids IH]; intros H; [reflexivity|].
  cbn [fold_left]. unfold added at 2. rewrite bool_decide_eq_true_2 by (apply H; left).
  apply IH. intros x Hx. apply H. now right.
Qed.

End IdFacts.

(** ** The runs of a load *)
Module LoadFacts.
Import JsString Json Url Runtime DataManager.
Import StringFacts SearchFacts UrlNotions UrlFacts FormFacts UrlRoundTrip.
Import LoaderNotions Examples LoaderFacts LoadNotions.
Local Open Scope run_scope.

(** *** Strings that are no URL *)

Lemma toLowerChar_colon (c : ascii) :
  negb (Ascii.eqb c ":") = true -> negb (Ascii.eqb (toLowerChar c) ":") = true.
Proof.
  destruct c as [[] [] [] [] [] [] [] []]; intros H; try exact H; reflexivity.
Qed.

Lemma no_colon_lower (s : string) :
  no_char ":" s = true -> no_char ":" (toLowerCase s) = true.
Proof.
  unfold no_char, toLowerCase. induction s as [|c s IH]; [reflexivity|].
  cbn [forall_chars map_chars]. intros H. apply andb_true_iff in H as [Hc Hs].
  rewrite (toLowerChar_colon c Hc), (IH Hs). reflexivity.
Qed.

Lemma strip_scheme_no_colon (s : string) : no_char ":" s = true -> strip_scheme s = None.
Proof.
  intros H. apply no_colon_lower in H. unfold strip_scheme.
  assert (Hno : forall p, no_char ":" p = false -> startsWith (toLowerCase s) p = false).
  { intros p Hp. destruct (startsWith (toLowerCase s) p) eqn:E; [|reflexivity].
    apply startsWith_iff in E as (r & E). rewrite E in H. unfold no_char in *.
    rewrite forall_chars_app, Hp in H. discriminate. }
  rewrite !Hno by reflexivity. reflexivity.
Qed.

(** A string without a colon has no scheme: [new URL] throws. *)
Lemma parse_no_colon (s : string) : no_char ":" s = true -> Url.parse s = None.
Proof.
  intros H. unfold Url.parse. destruct (forall_chars is_url_char s); [|reflexivity].
  destruct (cut_at "#" s) as [s1 frag] eqn:E1.
  destruct (cut_at "?" s1) as [s2 q] eqn:E2.
  apply cut_at_spec in E1 as [_ E1]. apply cut_at_spec in E2 as [_ E2].
  rewrite E1 in H. unfold no_char in H. apply forall_chars_app_inv in H as [H _].
  rewrite E2 in H. apply forall_chars_app_inv in H as [H _].
  now rewrite (strip_scheme_no_colon s2 H).
Qed.

(** *** The first request *)

Lemma fetch_asked (w : World) (url : string) (st : State) :
  fetch w url st
  = Some (match network w (List.length (requests st)) url with
          | NetworkError => Throws TypeError
          | Responded r => Returns r
          end, asked url st).
Proof. unfold fetch, asked. destruct (network w _ url); reflexivity. Qed.

Lemma extractRecords_network_error (w : World) (url : string) (urlObj : URL) (st : State) :
  network w (List.length (requests st)) url = NetworkError ->
  extractRecords w url urlObj st = Some (Throws TypeError, asked url st).
Proof.
  intros H. unfold extractRecords. unfold bindM at 1. now rewrite fetch_asked, H.
Qed.

Lemma extractRecords_http_error (w : World) (url : string) (urlObj : URL) (st : State)
    (resp : Response) :
  network w (List.length (requests st)) url = Responded resp ->
  ok resp = false ->
  extractRecords w url urlObj st
  = Some (Throws (Error (fetch_error_message resp)), asked url st).
Proof.
  intros H Hok. unfold extractRecords. unfold bindM at 1. rewrite fetch_asked, H.
  unfold bindM at 1. rewrite Hok. reflexivity.
Qed.

Lemma extractRecords_no_body (w : World) (url : string) (urlObj : URL) (st : State)
    (resp : Response) :
  network w (List.length (requests st)) url = Responded resp ->
  ok resp = true -> body resp = None ->
  extractRecords w url urlObj st = Some (Throws SyntaxError, asked url st).
Proof.
  intros H Hok Hb. unfold extractRecords. unfold bindM at 1. rewrite fetch_asked, H.
  unfold bindM at 1. rewrite Hok. cbn [negb ret]. unfold bindM at 1, json_body.
  rewrite Hb. reflexivity.
Qed.

(** *** The pages *)

Lemma retries_asked (url : string) (st : State) : retries (asked url st) = retries st.
Proof. reflexivity. Qed.

Lemma retries_logged_error (line : string) (st : State) :
  retries (logged error line st) = retries st.
Proof.
  unfold retries, logged. cbn [console]. rewrite List.filter_app, List.length_app.
  cbn. lia.
Qed.

(** One turn of the loop over the pages: the page is requested, and whatever
    the answer, the loop goes on with the records it had or with more. *)
Lemma page_turn (data : ApiResponse) (w : World) (urlObj : URL) (p : Z)
    (blockers : list json) (st : State) :
  exists more st1,
    try_catch
      (pResponse <~ fetch w (pageUrl urlObj p) ;;
       if ok pResponse then
         pData <~ json_body pResponse ;;
         if (0 <? List.length (default [] (Runtime.blockers pData)))%nat
         then ret (blockers ++ default [] (Runtime.blockers pData))
         else
           match first_list fallbackKeys pData with
           | Some (_, potentialList) =>
               extracted <~ lift (extractFromList data w potentialList) ;;
               ret (blockers ++ extracted)
           | None => ret blockers
           end
       else ret blockers)
      (fun err =>
         console_write error ("Failed to fetch page " +:+ of_Z p +:+ ":") ;;
         ret blockers) st
    = Some (Returns (blockers ++ more), st1)
    /\ requests st1 = requests st ++ [pageUrl urlObj p]
    /\ retries st1 = retries st
    /\ (forall records,
          page_answered w urlObj (List.length (requests st)) p records ->
          more = records).
Proof.
  unfold try_catch. unfold bindM at 1. rewrite fetch_asked.
  assert (Hfail : forall e : Json.error,
             exists more st1,
               (console_write error ("Failed to fetch page " +:+ of_Z p +:+ ":") ;;
                ret blockers) (asked (pageUrl urlObj p) st)
               = Some (Returns (blockers ++ more), st1)
               /\ requests st1 = requests st ++ [pageUrl urlObj p]
               /\ retries st1 = retries st /\ more = []).
  { intros _. exists [], (logged error ("Failed to fetch page " +:+ of_Z p +:+ ":")
                           (asked (pageUrl urlObj p) st)).
    rewrite List.app_nil_r. split; [reflexivity|]. split; [reflexivity|].
    split; [now rewrite retries_logged_error | reflexivity]. }
  assert (Hkeep : exists more st1,
             Some (Returns blockers, asked (pageUrl urlObj p) st)
             = Some (Returns (blockers ++ more), st1)
             /\ requests st1 = requests st ++ [pageUrl urlObj p]
             /\ retries st1 = retries st /\ more = []).
  { exists [], (asked (pageUrl urlObj p) st). rewrite List.app_nil_r. auto. }
  destruct (network w (List.length (requests st)) (pageUrl urlObj p)) as [|r] eqn:Hn.
  { destruct (Hfail TypeError) as (more & st1 & H1 & H2 & H3 & ->).
    exists [], st1. repeat split; auto.
    intros records (resp & d & Hr & _). congruence. }
  destruct (ok r) eqn:Hok.
  2:{ destruct Hkeep as (more & st1 & H1 & H2 & H3 & ->).
      exists [], st1. cbn [ret]. repeat split; auto.
      intros records (resp & d & Hr & Hok' & _). congruence. }
  unfold bindM at 1, json_body. destruct (body r) as [pData|] eqn:Hb.
  2:{ destruct (Hfail SyntaxError) as (more & st1 & H1 & H2 & H3 & ->).
      exists [], st1. cbn [throw]. repeat split; auto.
      intros records (resp & d & Hr & _ & Hb' & _). congruence. }
  cbn [ret]. cbv zeta.
  destruct (Runtime.blockers pData) as [[|b bs]|] eqn:Hbl; cbn [default List.length Nat.ltb Nat.leb].
  - destruct (first_list fallbackKeys pData) as [[key l]|].
    + unfold bindM, lift, ret.
      destruct (extractFromList data w l) as [extracted|e].
      * exists extracted, (asked (pageUrl urlObj p) st). repeat split; auto.
        intros records (resp & d & Hr & _ & Hb' & Hbl' & Hne). congruence.
      * destruct (Hfail e) as (more & st1 & H1 & H2 & H3 & ->).
        exists [], st1. repeat split; auto.
        intros records (resp & d & Hr & _ & Hb' & Hbl' & Hne). congruence.
    + destruct Hkeep as (more & st1 & H1 & H2 & H3 & ->).
      exists [], st1. repeat split; auto.
      intros records (resp & d & Hr & _ & Hb' & Hbl' & Hne). congruence.
  - exists (b :: bs), (asked (pageUrl urlObj p) st). repeat split; auto.
    intros records (resp & d & Hr & _ & Hb' & Hbl' & Hne). congruence.
  - destruct (first_list fallbackKeys pData) as [[key l]|].
    + unfold bindM, lift, ret.
      destruct (extractFromList data w l) as [extracted|e].
      * exists extracted, (asked (pageUrl urlObj p) st). repeat split; auto.
        intros records (resp & d & Hr & _ & Hb' & Hbl' & Hne). congruence.
      * destruct (Hfail e) as (more & st1 & H1 & H2 & H3 & ->).
        exists [], st1. repeat split; auto.
        intros records (resp & d & Hr & _ & Hb' & Hbl' & Hne). congruence.
    + destruct Hkeep as (more & st1 & H1 & H2 & H3 & ->).
      exists [], st1. repeat split; auto.
      intros records (resp & d & Hr & _ & Hb' & Hbl' & Hne). congruence.
Qed.

(** The loop over the pages requests each page once, in order, and never
    throws. *)
Lemma fetchPages_run (data : ApiResponse) (w : World) (urlObj : URL)
    (n : nat) (p : Z) (blockers : list json) (st : State) :
  exists more st',
    fetchPages data w urlObj n p blockers st = Some (Returns (blockers ++ more), st')
    /\ requests st' = requests st ++ map (pageUrl urlObj) (pages_from p n)
    /\ retries st' = retries st
    /\ (forall pages,
          List.length pages = n ->
          pages_answered w urlObj (List.length (requests st)) p pages ->
          more = concat pages).
Proof.
  revert p blockers st. induction n as [|n IH]; intros p blockers st.
  - exists [], st. cbn [fetchPages pages_from map]. rewrite !List.app_nil_r.
    split; [reflexivity|]. split; [reflexivity|]. split; [reflexivity|].
    intros [|? ?] Hl _; [reflexivity | discriminate].
  - cbn [fetchPages]. unfold bindM at 1. fold (pageUrl urlObj p).
    destruct (page_turn data w urlObj p blockers st) as (m1 & st1 & -> & Hr1 & Ht1 & Hp1).
    destruct (IH (p + 1)%Z (blockers ++ m1) st1) as (m2 & st2 & -> & Hr2 & Ht2 & Hp2).
    exists (m1 ++ m2), st2. rewrite List.app_assoc. split; [reflexivity|].
    split; [|split; [congruence|]].
    + rewrite Hr2, Hr1, <- List.app_assoc. reflexivity.
    + intros [|records rest] Hl; [discriminate|]. cbn [pages_answered concat].
      intros [Ha Hrest]. rewrite (Hp1 records Ha). f_equal.
      apply Hp2; [now injection Hl|].
      rewrite Hr1, List.length_app. cbn [List.length].
      now replace (List.length (requests st) + 1) with (S (List.length (requests st))) by lia.
Qed.

(** The extraction when the first response has records and counts more than
    one page. *)
Lemma extractRecords_paged (w : World) (url : string) (st : State) (urlObj : URL)
    (resp : Response) (data : ApiResponse) (pg : Pagination) (first : list json) :
  network w (List.length (requests st)) url = Responded resp ->
  ok resp = true -> body resp = Some data ->
  Runtime.blockers data = Some first -> first <> [] ->
  pagination data = Some pg ->
  isPublicApi urlObj = true -> (1 < totalPages pg)%Z -> page pg = 1%Z ->
  exists more st',
    extractRecords w url urlObj st = Some (Returns (data, first ++ more), st')
    /\ requests st' = requests st ++ url :: map (pageUrl urlObj) (later_pages (totalPages pg))
    /\ retries st' = retries st
    /\ (forall pages,
          List.length pages = Z.to_nat (totalPages pg - 1) ->
          pages_answered w urlObj (S (List.length (requests st))) 2 pages ->
          more = concat pages).
Proof.
  intros Hn Hok Hb Hbl Hne Hpg Hapi Htot Hpage.
  unfold extractRecords. unfold bindM at 1. rewrite fetch_asked, Hn.
  unfold bindM at 1. rewrite Hok. cbn [negb ret]. unfold bindM at 1, json_body.
  rewrite Hb. cbn [ret]. cbv zeta. rewrite Hbl.
  destruct first as [|b bs]; [congruence|].
  cbn [default Datatypes.id List.length Nat.eqb]. unfold bindM at 1. cbn [ret].
  unfold pagination_condition. rewrite Hpg, Hapi.
  rewrite (proj2 (Z.ltb_lt _ _) Htot), Hpage. cbn [andb Z.eqb Pos.eqb].
  unfold bindM at 1.
  set (st0 := {| requests := requests (asked url st);
                 console := console (asked url st)
                            ++ [(log, "Detected multi-page API response ("
                                        +:+ of_Z (totalPages pg)
                                        +:+ " pages). Fetching all pages...")] |}).
  destruct (fetchPages_run data w urlObj (Z.to_nat (totalPages pg - 1)) 2 (b :: bs) st0)
    as (more & st' & Hf & Hr & Ht & Hp).
  exists more, st'. unfold bindM at 1, console_write. fold st0. rewrite Hf. cbn [ret].
  split; [reflexivity|]. split; [|split].
  - rewrite Hr. unfold st0, asked, later_pages. cbn [requests].
    now rewrite <- List.app_assoc.
  - rewrite Ht. unfold retries, st0, asked. cbn [console].
    rewrite List.filter_app, List.length_app. cbn. lia.
  - intros pages Hl Hans. apply Hp; [assumption|].
    unfold st0, asked. cbn [requests]. rewrite List.length_app. cbn [List.length].
    now replace (List.length (requests st) + 1) with (S (List.length (requests st))) by lia.
Qed.

(** *** The dataset that a load returns *)

Lemma rethrown_Returns (x : option (outcome Dataset * State)) (ds : Dataset) (st : State) :
  rethrown x = Some (Returns ds, st) -> x = Some (Returns ds, st).
Proof. destruct x as [[[d|e] s]|]; cbn [rethrown]; congruence. Qed.

Lemma loadDataset_body_invalid (rec : string -> M Dataset) (w : World) (url : string)
    (st : State) :
  Url.parse url = None ->
  loadDataset_body rec w url st
  = Some (Throws (Error "The provided URL is not valid."),
          logged error "Error loading dataset:" (logged error "Invalid URL provided:" st)).
Proof. intros Hp. unfold loadDataset_body, try_catch. rewrite Hp. reflexivity. Qed.

(** A call that does not call itself returns the dataset built from its own
    URL. *)
Lemma loadDataset_body_Returns (rec : string -> M Dataset) (w : World) (url : string)
    (st st' : State) (ds : Dataset) :
  loadDataset_body rec w url st = Some (Returns ds, st') ->
  exists urlObj data blockers st1,
    Url.parse url = Some urlObj
    /\ extractRecords w url urlObj st = Some (Returns (data, blockers), st1)
    /\ (retry_condition blockers data urlObj = false
        /\ ds = dataset_of w url urlObj data blockers /\ st' = st1
        \/ retry_condition blockers data urlObj = true
           /\ rec (retryUrl urlObj) (logged warn retry_line st1) = Some (Returns ds, st')).
Proof.
  intros H. destruct (Url.parse url) as [urlObj|] eqn:Hp.
  2:{ rewrite (loadDataset_body_invalid rec w url st Hp) in H. discriminate. }
  destruct (quiet_extractRecords w url urlObj st) as ([[data blockers]|e] & st1 & He & _).
  2:{ rewrite (loadDataset_body_throws rec w url st st1 urlObj e Hp He) in H.
      discriminate. }
  exists urlObj, data, blockers, st1. split; [reflexivity|]. split; [exact He|].
  destruct (retry_condition blockers data urlObj) eqn:Hr.
  - right. split; [reflexivity|].
    rewrite (loadDataset_body_retry rec w url st st1 urlObj data blockers Hp He Hr) in H.
    now apply rethrown_Returns.
  - left. rewrite (loadDataset_body_no_retry rec w url st st1 urlObj data blockers Hp He Hr) in H.
    injection H as <- <-. auto.
Qed.

(** The dataset that a load returns is built by the call itself or by the
    call on the retry URL. *)
Lemma loadDataset_Returns (depth : nat) (w : World) (url : string) (st st' : State)
    (ds : Dataset) :
  loadDataset depth w url st = Some (Returns ds, st') ->
  exists url' urlObj' data blockers,
    ds = dataset_of w url' urlObj' data blockers
    /\ Url.parse url' = Some urlObj'
    /\ (url' = url
        \/ exists urlObj, Url.parse url = Some urlObj /\ url' = retryUrl urlObj).
Proof.
  destruct depth as [|depth]; [discriminate|]. cbn [loadDataset]. intros H.
  apply loadDataset_body_Returns in H
    as (urlObj & data & blockers & st1 & Hp & He & [(Hr & -> & ->) | (Hr & Hrec)]).
  - exists url, urlObj, data, blockers. auto.
  - destruct depth as [|depth]; [discriminate|]. cbn [loadDataset] in Hrec.
    destruct (retryUrl_parse url urlObj Hp) as (Hp' & H100 & _).
    apply loadDataset_body_Returns in Hrec
      as (urlObj2 & data2 & blockers2 & st2 & Hp2 & He2 & [(Hr2 & -> & ->) | (Hr2 & _)]).
    + exists (retryUrl urlObj), urlObj2, data2, blockers2.
      split; [reflexivity|]. split; [assumption|]. right. eauto.
    + rewrite Hp' in Hp2. injection Hp2 as <-.
      rewrite (retry_condition_100 _ _ _ H100) in Hr2. discriminate.
Qed.

(** *** The name of a dataset *)

Lemma deriveName_dated (data : ApiResponse) (urlObj : URL) (extractedDate : option string) :
  exists base, base <> EmptyString /\ deriveName data urlObj extractedDate = dated base extractedDate.
Proof.
  unfold deriveName. cbv zeta.
  match goal with
  | |- context [if negb (JsString.truthy ?x) then "Untitled Audit" else ?x] =>
      generalize x; intros base
  end.
  exists (if negb (JsString.truthy base) then "Untitled Audit" else base). split.
  - destruct base; discriminate.
  - unfold dated. destruct extractedDate as [d|]; [|reflexivity].
    now destruct (includes _ d).
Qed.

Lemma dated_not_empty (base : string) (extractedDate : option string) :
  base <> EmptyString -> dated base extractedDate <> EmptyString.
Proof.
  intros H. unfold dated. destruct extractedDate as [d|]; [|assumption].
  destruct (includes base d); [assumption|].
  destruct base; [congruence | discriminate].
Qed.

Lemma dated_includes (base d : string) : includes (dated base (Some d)) d = true.
Proof.
  unfold dated. destruct (includes base d) eqn:E; [assumption|].
  apply includes_iff. exists (base +:+ " ("), ")". now rewrite !sapp_assoc.
Qed.

Lemma deriveName_human (data : ApiResponse) (urlObj : URL) (extractedDate : option string)
    (name : string) :
  audit_name data = Some name ->
  name <> EmptyString -> name <> "Untitled Audit" -> is_slug name = false ->
  deriveName data urlObj extractedDate = dated name extractedDate.
Proof.
  intros Hn Hne Hu Hs. unfold deriveName. cbv zeta. rewrite Hn.
  change (default EmptyString (Some name)) with name.
  fold (is_slug name). rewrite Hs.
  assert (Ht : JsString.truthy name = true) by (destruct name; [congruence | reflexivity]).
  rewrite Ht. rewrite (proj2 (String.eqb_neq _ _) Hu). cbn [negb orb].
  rewrite Ht. cbn [negb]. unfold dated. destruct extractedDate as [d|]; [|reflexivity].
  now destruct (includes name d).
Qed.

Lemma deriveName_slug (data : ApiResponse) (urlObj : URL) (extractedDate : option string)
    (name : string) :
  audit_name data = Some name -> is_slug name = true ->
  file_stem urlObj <> EmptyString ->
  deriveName data urlObj extractedDate = deriveName (unnamed data) urlObj extractedDate.
Proof.
  intros Hn Hs Hstem. unfold deriveName. cbv zeta. rewrite Hn.
  cbn [audit_name unnamed].
  change (default EmptyString (Some name)) with name.
  change (default EmptyString None) with EmptyString.
  fold (is_slug name). rewrite Hs. fold (file_stem urlObj).
  replace (includes EmptyString "_" || includes EmptyString "-" && negb (includes EmptyString " "))
    with false by reflexivity.
  rewrite !orb_true_r. cbn [JsString.truthy negb orb].
  destruct (file_stem urlObj) as [|c s] eqn:E; [congruence|]. reflexivity.
Qed.

(** *** The records built from the items of a list *)

Lemma extractItem_record (data : ApiResponse) (w : World) (index : nat) (item : json) :
  extractable item = true ->
  exists fields,
    extractItem data w index item = Returns (JObj fields)
    /\ map fst fields = record_keys
    /\ isArray (lookup_field "messages" fields) = true
    /\ truthy (lookup_field "id" fields) = true
    /\ (truthy (field item "id") = false ->
        lookup_field "id" fields = Some (JStr (fallback_id w index)))
    /\ (truthy (field item "id") = true -> lookup_field "id" fields = field item "id").
Proof.
  intros Hx. destruct (extractItem_returns data w index item Hx) as [record E].
  unfold extractItem in *.
  destruct item as [|b|z|s|l|fs]; [discriminate| | | | |];
    match type of E with
    | Json.bind ?c _ = _ => destruct c as [content|e]; [|discriminate]
    end;
    cbn [Json.bind] in *;
    (eexists; split; [reflexivity|]; split; [reflexivity|]);
    cbn [lookup_field String.eqb Ascii.eqb Bool.eqb fst snd];
    unfold or_else, fallback_id.
  1-4: cbn [field truthy isArray default]; repeat split; auto; discriminate.
  cbn [field]. split; [|split; [|split]].
  - destruct (isArray (lookup_field "messages" fs)) eqn:E'.
    + destruct (lookup_field "messages" fs) as [[]|]; try discriminate. reflexivity.
    + reflexivity.
  - destruct (truthy (lookup_field "id" fs)) eqn:E'.
    + destruct (lookup_field "id" fs) as [v|]; [exact E' | discriminate].
    + reflexivity.
  - intros ->. reflexivity.
  - intros E'. rewrite E'. now destruct (lookup_field "id" fs).
Qed.

Lemma extractFrom_records (data : ApiResponse) (w : World) (items : list json) (index : nat) :
  Forall (fun item => extractable item = true) items ->
  exists records,
    extractFrom data w index items = Returns records
    /\ List.length records = List.length items
    /\ forall i item record,
         items !! i = Some item -> records !! i = Some record ->
         extractItem data w (index + i) item = Returns record.
Proof.
  intros H. revert index. induction H as [|item items Hi _ IH]; intros index.
  - exists []. repeat split. intros i item record Hl. now rewrite lookup_nil in Hl.
  - destruct (extractItem_record data w index item Hi) as (fields & E & _).
    destruct (IH (S index)) as (records & Er & Hl & Hrec).
    exists (JObj fields :: records). cbn [extractFrom]. rewrite E, Er. cbn [Json.bind].
    split; [reflexivity|]. split; [cbn [List.length]; congruence|].
    intros [|i] it rc; cbn [lookup list_lookup].
    + intros [= <-] [= <-]. now rewrite Nat.add_0_r.
    + intros H1 H2. replace (index + S i) with (S index + i) by lia. now apply Hrec.
Qed.

Lemma sapp_inv_head (a x y : string) : a +:+ x = a +:+ y -> x = y.
Proof. induction a as [|c a IH]; [auto|]. rewrite !sapp_cons. intros [= H]. auto. Qed.

Lemma sapp_inv_tail (x y b : string) : x +:+ b = y +:+ b -> x = y.
Proof.
  intros H. assert (Hl : String.length x = String.length y).
  { apply (f_equal String.length) in H. rewrite !slength_app in H. lia. }
  revert y H Hl. induction x as [|c x IH]; intros [|d y] H Hl; try discriminate.
  - reflexivity.
  - rewrite !sapp_cons in H. injection H as -> H. f_equal. apply IH; [assumption|].
    cbn in Hl. lia.
Qed.

Lemma fallback_id_inj (w : World) (i j : nat) : fallback_id w i = fallback_id w j -> i = j.
Proof.
  unfold fallback_id. intros H. apply sapp_inv_head in H.
  apply sapp_inv_tail in H. now apply (inj pretty) in H.
Qed.

(** *** The older loader *)

Lemma services_loadDataset_run (w : World) (url : string) (st : State) (parsedUrl : URL) :
  Url.parse url = Some parsedUrl ->
  exists st0,
    requests st0 = requests st
    /\ ServicesDataManager.loadDataset w url st
       = match network w (List.length (requests st)) url with
         | NetworkError =>
             Some (Throws TypeError, logged error "Error loading dataset:" (asked url st0))
         | Responded resp =>
             if ok resp then
               match body resp with
               | None =>
                   Some (Throws SyntaxError,
                         logged error "Error loading dataset:" (asked url st0))
               | Some data =>
                   if has_records data
                   then Some (Returns {| ServicesDataManager.id :=
                                           match randomUUID w with
                                           | Some uuid => uuid
                                           | None => "ds_" +:+ of_Z (now w) +:+ "_"
                                                       +:+ substring (random36 w) 2 9
                                           end;
                                         ServicesDataManager.url := url;
                                         ServicesDataManager.name := services_name data;
                                         ServicesDataManager.dataset_blockers :=
                                           default [] (Runtime.blockers data);
                                         ServicesDataManager.timestamp := now w |},
                              asked url st0)
                   else Some (Throws (Error page_size_message),
                              logged error "Error loading dataset:"
                                (logged warn "API returned 0 blockers despite a positive totalCount. This often happens with pageSize > 100." (asked url st0)))
               end
             else Some (Throws (Error (fetch_error_message resp)),
                        logged error "Error loading dataset:" (asked url st0))
         end.
Proof.
  intros Hp. unfold ServicesDataManager.loadDataset, try_catch. rewrite Hp.
  unfold bindM at 1.
  match goal with
  | |- context [match ?m st with _ => _ end] =>
      assert (Hw : exists st0, m st = Some (Returns tt, st0) /\ requests st0 = requests st)
  end.
  { destruct (get "pageSize" (searchParams parsedUrl)) as [text|];
      [destruct (JsString.truthy text && _)|]; eexists; split; reflexivity. }
  destruct Hw as (st0 & -> & Hreq). exists st0. split; [exact Hreq|].
  unfold bindM at 1. rewrite fetch_asked, Hreq.
  destruct (network w (List.length (requests st)) url) as [|resp]; [reflexivity|].
  unfold bindM at 1. destruct (ok resp); cbn [negb ret throw]; [|reflexivity].
  unfold bindM at 1, json_body. destruct (body resp) as [data|]; [|reflexivity].
  cbn [ret]. unfold has_records, services_name.
  destruct (Runtime.blockers data) as [[|b bs]|]; cbn [andb negb];
    try reflexivity;
    destruct (pagination data) as [pg|]; try reflexivity;
    destruct (0 <? totalCount pg)%Z; reflexivity.
Qed.

End LoadFacts.

Module PageFacts.
Import JsString Json Url Runtime DataManager.
Import StringFacts SearchFacts UrlNotions UrlFacts FormFacts UrlRoundTrip.
Import LoaderNotions Examples LoaderFacts LoadNotions LoadFacts FailureNotions.
Local Open Scope run_scope.

Lemma extractRecords_first_failure (w : World) (url : string) (urlObj : URL) (st : State)
    (e : Json.error) :
  first_failure w url st = Some e ->
  extractRecords w url urlObj st = Some (Throws e, asked url st).
Proof.
  unfold first_failure.
  destruct (network w (List.length (requests st)) url) as [|resp] eqn:Hn.
  - intros [= <-]. now apply extractRecords_network_error.
  - destruct (ok resp) eqn:Hok.
    + destruct (body resp) eqn:Hb; [discriminate|]. intros [= <-].
      now apply (extractRecords_no_body w url urlObj st resp).
    + intros [= <-]. now apply extractRecords_http_error.
Qed.

Lemma length_pages_from (p : Z) (n : nat) : List.length (pages_from p n) = n.
Proof. revert p. induction n as [|n IH]; intros p; cbn; [reflexivity | now rewrite IH]. Qed.

Lemma pages_from_range (p : Z) (n : nat) (q : Z) :
  q ∈ pages_from p n <-> (p <= q < p + Z.of_nat n)%Z.
Proof.
  revert p. induction n as [|n IH]; intros p; cbn [pages_from].
  - rewrite elem_of_nil. lia.
  - rewrite elem_of_cons, IH. lia.
Qed.

End PageFacts.

(** ** Sorted arrays *)
Module SortFacts.
Import JsData.

Lemma insert_ext {A} (cmp cmp' : A -> A -> Z) (x : A) (l : list A) :
  (forall a b, cmp a b = cmp' a b) -> insert cmp x l = insert cmp' x l.
Proof.
  intros H. induction l as [|y l IH]; [reflexivity|]. cbn [insert].
  now rewrite H, IH.
Qed.

Lemma sort_ext {A} (cmp cmp' : A -> A -> Z) (l : list A) :
  (forall a b, cmp a b = cmp' a b) -> sort cmp l = sort cmp' l.
Proof.
  intros H. unfold sort. induction l as [|x l IH]; [reflexivity|]. cbn [fold_right].
  rewrite IH. now apply insert_ext.
Qed.

Lemma insert_perm {A} (cmp : A -> A -> Z) (x : A) (l : list A) :
  insert cmp x l ≡ₚ x :: l.
Proof.
  induction l as [|y l IH]; [reflexivity|]. cbn [insert].
  destruct (cmp x y <=? 0)%Z; [reflexivity|]. rewrite IH. apply perm_swap.
Qed.

Lemma sort_perm {A} (cmp : A -> A -> Z) (l : list A) : sort cmp l ≡ₚ l.
Proof.
  unfold sort. induction l as [|x l IH]; [reflexivity|]. cbn [fold_right].
  now rewrite insert_perm, IH.
Qed.

Lemma insert_sorted {A} (g : A -> Z) (x : A) (l : list A) :
  StronglySorted (fun a b => (g a <= g b)%Z) l ->
  StronglySorted (fun a b => (g a <= g b)%Z) (insert (fun a b => g a - g b)%Z x l).
Proof.
  induction 1 as [|y l Hs IH Hy]; cbn [insert].
  - repeat constructor.
  - destruct (Z.leb_spec (g x - g y) 0) as [Hle|Hgt].
    + constructor; [constructor; assumption|]. constructor; [lia|].
      eapply Forall_impl; [exact Hy|]. cbn. intros z Hz. lia.
    + constructor; [exact IH|]. rewrite insert_perm. constructor; [lia | exact Hy].
Qed.

Lemma sort_sorted {A} (g : A -> Z) (l : list A) :
  StronglySorted (fun a b => (g a <= g b)%Z) (sort (fun a b => g a - g b)%Z l).
Proof.
  unfold sort. induction l as [|x l IH]; [constructor|]. cbn [fold_right].
  now apply insert_sorted.
Qed.

(** The sort is stable: the elements of one key keep their order. *)
Lemma insert_stable {A} (g : A -> Z) (v : Z) (x : A) (l : list A) :
  List.filter (fun a => (g a =? v)%Z) (insert (fun a b => g a - g b)%Z x l)
  = List.filter (fun a => (g a =? v)%Z) (x :: l).
Proof.
  induction l as [|y l IH]; [reflexivity|]. cbn [insert].
  destruct (Z.leb_spec (g x - g y) 0) as [Hle|Hgt]; [reflexivity|].
  cbn [List.filter] in *. rewrite IH.
  destruct (Z.eqb_spec (g x) v) as [Hx|Hx]; [|reflexivity].
  destruct (Z.eqb_spec (g y) v) as [Hy|Hy]; [lia | reflexivity].
Qed.

Lemma sort_stable {A} (g : A -> Z) (v : Z) (l : list A) :
  List.filter (fun a => (g a =? v)%Z) (sort (fun a b => g a - g b)%Z l)
  = List.filter (fun a => (g a =? v)%Z) l.
Proof.
  unfold sort. induction l as [|x l IH]; [reflexivity|]. cbn [fold_right].
  rewrite insert_stable. cbn [List.filter]. now rewrite IH.
Qed.

(** Sorting by decreasing [f]. *)
Lemma sort_decreasing {A} (f : A -> Z) (l : list A) :
  StronglySorted (fun a b => (f b <= f a)%Z) (sort (fun a b => f b - f a)%Z l).
Proof.
  rewrite (sort_ext _ (fun a b => (- f a) - (- f b))%Z) by (intros; lia).
  eapply StronglySorted_ind with (P := StronglySorted (fun a b => (f b <= f a)%Z));
    [constructor | | apply (sort_sorted (fun a => (- f a)%Z))].
  intros a l' _ IH Ha. constructor; [exact IH|].
  eapply Forall_impl; [exact Ha|]. cbn. intros; lia.
Qed.

Lemma sort_decreasing_stable {A} (f : A -> Z) (v : Z) (l : list A) :
  List.filter (fun a => (f a =? v)%Z) (sort (fun a b => f b - f a)%Z l)
  = List.filter (fun a => (f a =? v)%Z) l.
Proof.
  rewrite (sort_ext _ (fun a b => (- f a) - (- f b))%Z) by (intros; lia).
  pose proof (sort_stable (fun a => (- f a)%Z) (- v) l) as H.
  rewrite (List.filter_ext (fun a => (f a =? v)%Z) (fun a => (- f a =? - v)%Z)).
  - rewrite H. apply List.filter_ext. intros a.
    destruct (Z.eqb_spec (- f a) (- v)), (Z.eqb_spec (f a) v); auto; lia.
  - intros a. destruct (Z.eqb_spec (- f a) (- v)), (Z.eqb_spec (f a) v); auto; lia.
Qed.

Lemma filter_complement {A} (f : A -> bool) (l : list A) :
  List.filter f l ++ List.filter (fun x => negb (f x)) l ≡ₚ l.
Proof.
  induction l as [|x l IH]; [reflexivity|]. cbn [List.filter].
  destruct (f x); cbn [negb app].
  - now rewrite IH.
  - rewrite <- Permutation_middle. now rewrite IH.
Qed.

Lemma filter_partition_length {A} (f : A -> bool) (l : list A) :
  List.length (List.filter f l) + List.length (List.filter (fun x => negb (f x)) l)
  = List.length l.
Proof. rewrite <- List.length_app. apply Permutation_length, filter_complement. Qed.

(** In a list sorted by decreasing [f], the first [n] elements dominate the
    others. *)
Lemma firstn_dominates {A} (f : A -> Z) (n : nat) (l : list A) (a b : A) :
  StronglySorted (fun a b => (f b <= f a)%Z) l ->
  a ∈ firstn n l -> b ∈ skipn n l -> (f b <= f a)%Z.
Proof.
  intros Hs. revert n. induction Hs as [|x l Hs IH Hx]; intros n Ha Hb.
  - rewrite firstn_nil in Ha. now apply elem_of_nil in Ha.
  - destruct n as [|n]; [now apply elem_of_nil in Ha|]. cbn [firstn skipn] in Ha, Hb.
    apply elem_of_cons in Ha as [-> | Ha].
    + rewrite Forall_forall in Hx. apply Hx. eapply elem_of_sublist; [exact Hb|].
      apply sublist_drop.
    + now apply (IH n).
Qed.

Lemma firstn_sorted {A} (R : A -> A -> Prop) (n : nat) (l : list A) :
  StronglySorted R l -> StronglySorted R (firstn n l).
Proof.
  intros Hs. revert n. induction Hs as [|x l Hs IH Hx]; intros [|n]; cbn [firstn];
    try constructor; [apply IH|].
  rewrite Forall_forall in *. intros y Hy. apply Hx.
  eapply elem_of_sublist; [exact Hy | apply sublist_take].
Qed.

End SortFacts.

(** ** Objects used as maps *)
Module ObjectFacts.
Import JsString Json JsData.
Import StoreNotions IdNotions IdFacts SortFacts.

Lemma own_None {V} (o : list (string * V)) (k : string) :
  own o k = None <-> k ∉ map fst o.
Proof.
  induction o as [|[k' v] o IH]; cbn [own map fst].
  - split; [intros _; apply not_elem_of_nil | reflexivity].
  - rewrite not_elem_of_cons. destruct (String.eqb_spec k' k) as [->|Hne].
    + split; [discriminate | intros [? _]; congruence].
    + rewrite IH. split; [intros ?; split; congruence | tauto].
Qed.

Lemma own_Some_key {V} (o : list (string * V)) (k : string) (v : V) :
  own o k = Some v -> k ∈ map fst o.
Proof.
  intros H. destruct (decide (k ∈ map fst o)) as [|Hn]; [assumption|].
  apply own_None in Hn. congruence.
Qed.

Lemma own_Some_elem {V} (o : list (string * V)) (k : string) (v : V) :
  own o k = Some v -> (k, v) ∈ o.
Proof.
  induction o as [|[k' w] o IH]; cbn [own]; [discriminate|].
  destruct (String.eqb_spec k' k) as [->|Hne].
  - intros [= ->]. left.
  - intros H. right. auto.
Qed.

Lemma own_elem {V} (o : list (string * V)) (k : string) (v : V) :
  NoDup (map fst o) -> (k, v) ∈ o -> own o k = Some v.
Proof.
  induction o as [|[k' w] o IH]; cbn [own map fst]; intros Hnd Hin.
  - now apply elem_of_nil in Hin.
  - apply NoDup_cons in Hnd as [Hk Hnd]. apply elem_of_cons in Hin as [[= -> ->] | Hin].
    + now rewrite String.eqb_refl.
    + destruct (String.eqb_spec k' k) as [->|Hne]; [|auto].
      destruct Hk. apply list_elem_of_fmap. exists (k, v). auto.
Qed.

Lemma own_set {V} (k : string) (v : V) (o : list (string * V)) (k' : string) :
  own (set k v o) k' = if String.eqb k k' then Some v else own o k'.
Proof.
  induction o as [|[k0 w] o IH]; cbn [set own].
  - reflexivity.
  - destruct (String.eqb_spec k0 k) as [->|Hne]; cbn [own].
    + destruct (String.eqb_spec k k'); reflexivity.
    + rewrite IH. destruct (String.eqb_spec k0 k') as [->|]; [|reflexivity].
      destruct (String.eqb_spec k k'); [congruence | reflexivity].
Qed.

Lemma keys_set {V} (k : string) (v w : V) (o : list (string * V)) :
  own o k = Some w -> map fst (set k v o) = map fst o.
Proof.
  induction o as [|[k0 x] o IH]; cbn [set own map fst]; [discriminate|].
  destruct (String.eqb_spec k0 k) as [->|Hne]; cbn [map fst]; [reflexivity|].
  intros H. now rewrite IH.
Qed.

Lemma set_new {V} (k : string) (v : V) (o : list (string * V)) :
  own o k = None -> set k v o = o ++ [(k, v)].
Proof.
  induction o as [|[k0 x] o IH]; cbn [set own app]; [reflexivity|].
  destruct (String.eqb_spec k0 k) as [->|Hne]; [discriminate|].
  intros H. now rewrite IH.
Qed.

Lemma own_app_new {V} (o : list (string * V)) (k : string) (v : V) (k' : string) :
  own o k = None ->
  own (o ++ [(k, v)]) k' = if String.eqb k k' then Some v else own o k'.
Proof. intros H. rewrite <- (set_new k v o H). apply own_set. Qed.

(** [Object.keys] gives every own key once. *)
Lemma keys_perm {V} (o : list (string * V)) : keys o ≡ₚ map fst o.
Proof. unfold keys. cbv zeta. rewrite sort_perm. apply filter_complement. Qed.

Lemma omap_step {A B} (f : A -> option B) (x : A) (l : list A) :
  omap f (x :: l) = match f x with Some y => y :: omap f l | None => omap f l end.
Proof. reflexivity. Qed.

Lemma omap_own_skip {V} (o : list (string * V)) (k : string) (v : V) (l : list string) :
  k ∉ l ->
  omap (fun k' => (fun v' => (k', v')) <$> own ((k, v) :: o) k') l
  = omap (fun k' => (fun v' => (k', v')) <$> own o k') l.
Proof.
  induction l as [|x l IH]; [reflexivity|]. rewrite not_elem_of_cons. intros [Hx Hl].
  rewrite !omap_step, (IH Hl). cbn [own].
  destruct (String.eqb_spec k x); [congruence | reflexivity].
Qed.

Lemma omap_own {V} (o : list (string * V)) :
  NoDup (map fst o) -> omap (fun k => (fun v => (k, v)) <$> own o k) (map fst o) = o.
Proof.
  induction o as [|[k v] o IH]; [reflexivity|]. cbn [map fst]. intros Hnd.
  apply NoDup_cons in Hnd as [Hk Hnd]. rewrite omap_step.
  rewrite (omap_own_skip o k v _ Hk), (IH Hnd).
  cbn [own]. now rewrite String.eqb_refl.
Qed.

(** [Object.entries] gives every own property once. *)
Lemma entries_perm {V} (o : list (string * V)) : NoDup (map fst o) -> entries o ≡ₚ o.
Proof.
  intros Hnd. unfold entries. rewrite (omap_Permutation _ _ _ (keys_perm o)).
  now rewrite omap_own.
Qed.

End ObjectFacts.

(** ** Sets of strings *)
Module SetFacts.
Import JsString Json JsData.
Import StoreNotions StoreFacts IdNotions IdFacts.

Lemma has_decide (s : list string) (x : string) : has s x = bool_decide (x ∈ s).
Proof.
  unfold has. induction s as [|y s IH]; cbn [existsb].
  - now rewrite bool_decide_eq_false_2 by apply not_elem_of_nil.
  - rewrite IH. destruct (String.eqb_spec x y) as [->|Hne]; cbn [orb].
    + now rewrite bool_decide_eq_true_2 by left.
    + apply bool_decide_ext. rewrite elem_of_cons. tauto.
Qed.

Lemma has_true (s : list string) (x : string) : has s x = true <-> x ∈ s.
Proof. rewrite has_decide. apply bool_decide_eq_true. Qed.

Lemma has_false (s : list string) (x : string) : has s x = false <-> x ∉ s.
Proof. rewrite has_decide. apply bool_decide_eq_false. Qed.

Lemma add_added (x : string) (s : list string) : add x s = added x s.
Proof. unfold add, added. now rewrite has_decide. Qed.

Lemma from_added_all (l : list string) : from l = added_all l [].
Proof.
  unfold from, added_all. generalize (@nil string).
  induction l as [|x l IH]; intros acc; [reflexivity|]. cbn [fold_left].
  now rewrite add_added, IH.
Qed.

Lemma elem_of_from (l : list string) (x : string) : x ∈ from l <-> x ∈ l.
Proof. rewrite from_added_all, added_all_elem, elem_of_nil. tauto. Qed.

Lemma NoDup_from (l : list string) : NoDup (from l).
Proof. rewrite from_added_all. apply NoDup_added_all. constructor. Qed.

Lemma from_snoc (l : list string) (x : string) : from (l ++ [x]) = add x (from l).
Proof. unfold from. now rewrite fold_left_app. Qed.

Lemma length_from_le (l : list string) : List.length (from l) <= List.length l.
Proof.
  apply submseteq_length, NoDup_submseteq; [apply NoDup_from|].
  intros x. apply elem_of_from.
Qed.

Lemma from_nil (l : list string) : from l = [] <-> l = [].
Proof.
  split; [|intros ->; reflexivity]. intros H. destruct l as [|x l]; [reflexivity|].
  assert (Hx : x ∈ from (x :: l)) by (apply elem_of_from; left).
  rewrite H in Hx. now apply elem_of_nil in Hx.
Qed.

Lemma elem_of_add (x y : string) (s : list string) : y ∈ add x s <-> y = x \/ y ∈ s.
Proof.
  unfold add. destruct (has s x) eqn:E.
  - apply has_true in E. split; [tauto | intros [-> | ?]; assumption].
  - rewrite elem_of_app, list_elem_of_singleton. tauto.
Qed.

Lemma elem_of_delete (x y : string) (s : list string) : y ∈ delete x s <-> y <> x /\ y ∈ s.
Proof. unfold delete. rewrite elem_of_filter_bool, eqb_other. tauto. Qed.

Lemma NoDup_add (x : string) (s : list string) : NoDup s -> NoDup (add x s).
Proof. rewrite add_added. apply NoDup_added. Qed.

Lemma NoDup_delete (x : string) (s : list string) : NoDup s -> NoDup (delete x s).
Proof. apply NoDup_filter_bool. Qed.

End SetFacts.

(** ** Groups and counts *)
Module GroupFacts.
Import JsString Json JsData View TableSection ChartSection.
Import StoreNotions StoreFacts IdNotions IdFacts SortFacts ObjectFacts SetFacts ViewNotions.

Lemma with_key_app {A} (key_of : A -> string) (key : string) (l l' : list A) :
  with_key key_of key (l ++ l') = with_key key_of key l ++ with_key key_of key l'.
Proof. apply List.filter_app. Qed.

Lemma with_key_nil {A} (key_of : A -> string) (key : string) (l : list A) :
  key ∉ map key_of l -> with_key key_of key l = [].
Proof.
  induction l as [|x l IH]; [reflexivity|]. cbn [map]. rewrite not_elem_of_cons.
  intros [Hx Hl]. unfold with_key. cbn [List.filter].
  destruct (String.eqb_spec (key_of x) key); [congruence | now apply IH].
Qed.

Lemma with_key_elem {A} (key_of : A -> string) (key : string) (l : list A) (x : A) :
  x ∈ with_key key_of key l <-> x ∈ l /\ key_of x = key.
Proof.
  unfold with_key. rewrite elem_of_filter_bool.
  destruct (String.eqb_spec (key_of x) key); intuition congruence.
Qed.

Lemma with_key_not_nil {A} (key_of : A -> string) (key : string) (l : list A) :
  key ∈ map key_of l -> with_key key_of key l <> [].
Proof.
  intros Hk E. apply list_elem_of_fmap in Hk as (x & -> & Hx).
  assert (H : x ∈ with_key key_of (key_of x) l) by now apply with_key_elem.
  rewrite E in H. now apply elem_of_nil in H.
Qed.

Lemma list_sum_step (x : nat) (l : list nat) : list_sum (x :: l) = x + list_sum l.
Proof. reflexivity. Qed.

Lemma sum_set (k : string) (v items : list Blocker) (o : list (string * list Blocker)) :
  own o k = Some items ->
  list_sum (map size_of (set k v o)) + List.length items
  = list_sum (map size_of o) + List.length v.
Proof.
  induction o as [|[k0 w] o IH]; cbn [own set]; [discriminate|].
  destruct (String.eqb_spec k0 k) as [->|Hne].
  - intros [= ->]. cbn [map]. rewrite !list_sum_step.
    change (size_of (k, v)) with (List.length v).
    change (size_of (k, items)) with (List.length items). lia.
  - intros H. cbn [map]. rewrite !list_sum_step. specialize (IH H). lia.
Qed.

Lemma group_loop_Throws (key_of : Blocker -> string) (items : list Blocker) (e : error) :
  group_loop key_of items (Throws e) = Throws e.
Proof. unfold group_loop. induction items as [|x l IH]; [reflexivity | exact IH]. Qed.

Lemma group_loop_cons (key_of : Blocker -> string) (item : Blocker) (items : list Blocker)
    (groups : list (string * list Blocker)) :
  group_loop key_of (item :: items) (Returns groups)
  = group_loop key_of items (push_item groups (key_of item) item).
Proof. reflexivity. Qed.

(** One turn of the loop keeps the groups in step with the items. *)
Lemma push_item_grouping (key_of : Blocker -> string) (groups : list (string * list Blocker))
    (done : list Blocker) (item : Blocker) :
  grouping key_of groups done ->
  is_inherited (key_of item) = false ->
  exists groups', push_item groups (key_of item) item = Returns groups'
                  /\ grouping key_of groups' (done ++ [item]).
Proof.
  intros (Hkeys & Hown & Hsum) Hplain. unfold push_item.
  destruct (own groups (key_of item)) as [items|] eqn:E.
  - eexists. split; [reflexivity|].
    pose proof (own_Some_key _ _ _ E) as Hin.
    assert (Hk : map fst (set (key_of item) (items ++ [item]) groups)
                 = from (map key_of (done ++ [item]))).
    { rewrite (keys_set _ _ _ _ E), map_app. cbn [map]. rewrite from_snoc.
      unfold add. rewrite <- Hkeys. now rewrite (proj2 (has_true _ _) Hin). }
    split; [exact Hk|]. split.
    + intros key Hkey. rewrite own_set, with_key_app.
      rewrite (keys_set _ _ _ _ E) in Hkey.
      unfold with_key at 2. cbn [List.filter].
      destruct (String.eqb_spec (key_of item) key) as [<-|Hne].
      * rewrite (Hown _ Hin) in E. now injection E as <-.
      * now rewrite (Hown _ Hkey), app_nil_r.
    + pose proof (sum_set _ (items ++ [item]) _ _ E) as H.
      rewrite !List.length_app in *. cbn [List.length] in *. lia.
  - rewrite Hplain. eexists. split; [reflexivity|].
    pose proof (proj1 (own_None _ _) E) as Hnot.
    split; [|split].
    + rewrite !map_app. cbn [map fst]. rewrite from_snoc. unfold add.
      rewrite <- Hkeys. now rewrite (proj2 (has_false _ _) Hnot).
    + intros key Hkey. rewrite (own_app_new _ _ _ _ E), with_key_app.
      unfold with_key at 2. cbn [List.filter].
      destruct (String.eqb_spec (key_of item) key) as [<-|Hne].
      * rewrite with_key_nil; [reflexivity|].
        rewrite Hkeys in Hnot. intros H. apply Hnot. now apply elem_of_from.
      * rewrite map_app in Hkey. cbn [map fst] in Hkey.
        apply elem_of_app in Hkey as [Hkey | Hkey].
        -- now rewrite (Hown _ Hkey), app_nil_r.
        -- apply list_elem_of_singleton in Hkey. congruence.
    + rewrite map_app, list_sum_app, List.length_app. cbn. lia.
Qed.

Lemma group_loop_grouping (key_of : Blocker -> string) (items done : list Blocker)
    (groups : list (string * list Blocker)) :
  grouping key_of groups done ->
  plain_keys key_of items ->
  exists groups', group_loop key_of items (Returns groups) = Returns groups'
                  /\ grouping key_of groups' (done ++ items).
Proof.
  revert done groups. induction items as [|item items IH]; intros done groups Hg Hp.
  - exists groups. rewrite app_nil_r. now split.
  - apply Forall_cons in Hp as [Hitem Hp].
    destruct (push_item_grouping key_of groups done item Hg Hitem) as (g1 & E1 & Hg1).
    destruct (IH _ _ Hg1 Hp) as (g2 & E2 & Hg2).
    exists g2. rewrite group_loop_cons, E1, E2. split; [reflexivity|].
    now rewrite <- app_assoc in Hg2.
Qed.

Lemma grouping_nil (key_of : Blocker -> string) : grouping key_of [] [].
Proof.
  split; [reflexivity|]. split; [|reflexivity].
  intros key H. now apply elem_of_nil in H.
Qed.

(** A key that objects inherit, met by the loop, is no key of a group yet. *)
Lemma push_item_inherited (key_of : Blocker -> string) (groups : list (string * list Blocker))
    (done : list Blocker) (item : Blocker) :
  grouping key_of groups done ->
  plain_keys key_of done ->
  is_inherited (key_of item) = true ->
  push_item groups (key_of item) item = Throws TypeError.
Proof.
  intros (Hkeys & _) Hp Hi. unfold push_item.
  destruct (own groups (key_of item)) as [items|] eqn:E; [|now rewrite Hi].
  apply own_Some_key in E. rewrite Hkeys in E. apply (proj1 (elem_of_from _ _)) in E.
  apply list_elem_of_fmap in E as (x & Hx & Hin).
  unfold plain_keys in Hp. rewrite Forall_forall in Hp. specialize (Hp _ Hin).
  congruence.
Qed.

Lemma group_loop_inherited (key_of : Blocker -> string) (items done : list Blocker)
    (groups : list (string * list Blocker)) :
  grouping key_of groups done ->
  plain_keys key_of done ->
  ~ plain_keys key_of items ->
  group_loop key_of items (Returns groups) = Throws TypeError.
Proof.
  revert done groups. induction items as [|item items IH]; intros done groups Hg Hd Hn.
  - destruct Hn. constructor.
  - rewrite group_loop_cons. destruct (is_inherited (key_of item)) eqn:Hi.
    + rewrite (push_item_inherited key_of groups done item Hg Hd Hi).
      apply group_loop_Throws.
    + destruct (push_item_grouping key_of groups done item Hg Hi) as (g1 & E1 & Hg1).
      rewrite E1. apply (IH (done ++ [item])); [exact Hg1 | |].
      * apply Forall_app. split; [exact Hd | now constructor].
      * intros Hp. apply Hn. now constructor.
Qed.

(** What [grouping] says of each group. *)
Lemma grouping_groups (key_of : Blocker -> string) (groups : list (string * list Blocker))
    (data : list Blocker) :
  grouping key_of groups data ->
  NoDup (map fst groups)
  /\ forall key items, (key, items) ∈ groups <->
                       key ∈ map key_of data /\ items = with_key key_of key data.
Proof.
  intros (Hkeys & Hown & _).
  assert (Hnd : NoDup (map fst groups)) by (rewrite Hkeys; apply NoDup_from).
  split; [exact Hnd|]. intros key items. split.
  - intros Hin. assert (Hk : key ∈ map fst groups).
    { apply list_elem_of_fmap. now exists (key, items). }
    split; [rewrite Hkeys in Hk; now apply (proj1 (elem_of_from _ _)) in Hk|].
    apply (own_elem _ _ _ Hnd) in Hin. rewrite (Hown _ Hk) in Hin. congruence.
  - intros [Hk ->]. apply own_Some_elem, Hown. rewrite Hkeys. now apply elem_of_from.
Qed.

(** *** The counts of the charts are the sizes of the groups *)

Lemma own_tally (groups : list (string * list Blocker)) (k : string) :
  own (tally groups) k = (fun items => Z.of_nat (List.length items)) <$> own groups k.
Proof.
  unfold tally. induction groups as [|[k0 w] o IH]; [reflexivity|]. cbn [map own fst].
  destruct (String.eqb k0 k); [reflexivity | exact IH].
Qed.

Lemma tally_set (k : string) (v : list Blocker) (groups : list (string * list Blocker)) :
  tally (set k v groups) = set k (Z.of_nat (List.length v)) (tally groups).
Proof.
  unfold tally. induction groups as [|[k0 w] o IH]; [reflexivity|]. cbn [map set fst].
  destruct (String.eqb k0 k); cbn [map set fst]; [reflexivity|]. now rewrite IH.
Qed.

Lemma count_loop_None (key_of : Blocker -> string) (items : list Blocker) :
  count_loop key_of items None = None.
Proof. unfold count_loop. induction items as [|x l IH]; [reflexivity | exact IH]. Qed.

Lemma count_key_tally (groups : list (string * list Blocker)) (key : string) (item : Blocker) :
  is_inherited key = false ->
  exists groups', push_item groups key item = Returns groups'
                  /\ count_key (Some (tally groups)) key = Some (tally groups').
Proof.
  intros Hp. unfold push_item, count_key. cbn [mbind option_bind]. rewrite Hp, own_tally.
  destruct (own groups key) as [items|] eqn:E; cbn [fmap option_fmap option_map default].
  - eexists. split; [reflexivity|]. rewrite tally_set, List.length_app. cbn [List.length].
    do 2 f_equal. unfold Datatypes.id. lia.
  - eexists. split; [reflexivity|]. rewrite set_new.
    + unfold tally. now rewrite map_app.
    + rewrite own_tally, E. reflexivity.
Qed.

Lemma count_loop_tally (key_of : Blocker -> string) (items : list Blocker)
    (groups : list (string * list Blocker)) :
  plain_keys key_of items ->
  exists groups', group_loop key_of items (Returns groups) = Returns groups'
                  /\ count_loop key_of items (Some (tally groups)) = Some (tally groups').
Proof.
  revert groups. induction items as [|item items IH]; intros groups Hp.
  - now exists groups.
  - apply Forall_cons in Hp as [Hitem Hp].
    destruct (count_key_tally groups (key_of item) item Hitem) as (g1 & E1 & C1).
    destruct (IH g1 Hp) as (g2 & E2 & C2). exists g2.
    rewrite group_loop_cons, E1, E2. split; [reflexivity|].
    unfold count_loop in *. cbn [fold_left]. now rewrite C1.
Qed.

(** The counts of a chart over [data]. *)
Lemma count_loop_counts (key_of : Blocker -> string) (data : list Blocker) :
  plain_keys key_of data ->
  exists grouped,
    count_loop key_of data (Some []) = Some grouped
    /\ NoDup (map fst grouped)
    /\ map fst grouped = from (map key_of data)
    /\ forall key n, (key, n) ∈ grouped <->
                     key ∈ map key_of data /\ n = occurrences key_of key data.
Proof.
  intros Hp. destruct (count_loop_tally key_of data [] Hp) as (groups & E & C).
  destruct (group_loop_grouping key_of data [] [] (grouping_nil key_of) Hp)
    as (groups' & E' & Hg).
  rewrite E in E'. injection E' as <-. cbn [app] in Hg.
  destruct (grouping_groups _ _ _ Hg) as [Hnd Hel].
  assert (Hfst : map fst (tally groups) = map fst groups).
  { unfold tally. rewrite map_map. reflexivity. }
  exists (tally groups). split; [exact C|]. rewrite Hfst.
  split; [exact Hnd|]. split; [apply Hg|].
  intros key n. unfold tally. rewrite list_elem_of_fmap. split.
  - intros ([k items] & [= -> ->] & Hin). apply Hel in Hin as [Hk ->]. now split.
  - intros [Hk ->]. exists (key, with_key key_of key data). split; [reflexivity|].
    now apply Hel.
Qed.

End GroupFacts.

(** ** The rows of the dashboard *)
Module ViewFacts.
Import JsString Json JsData View.
Import StringFacts StoreNotions StoreFacts IdNotions IdFacts SortFacts ObjectFacts SetFacts.
Import ViewNotions GroupFacts.

Lemma includes_id_ids (ids : list string) (x : string) :
  includes_id (map JStr ids) x = bool_decide (x ∈ ids).
Proof. apply existsb_same_value. Qed.

Lemma elem_of_toggled (id x : string) (ids : list string) :
  x ∈ toggled id ids <-> (x = id /\ id ∉ ids) \/ (x <> id /\ x ∈ ids).
Proof.
  destruct (String.eqb_spec x id) as [->|Hne].
  - rewrite toggled_elem. tauto.
  - assert (H : x ∈ toggled id ids <-> x ∈ ids).
    { pose proof (toggled_others id ids) as E.
      assert (Hx : forall l, x ∈ List.filter (fun y => negb (String.eqb y id)) l <-> x ∈ l).
      { intros l. rewrite elem_of_filter_bool, eqb_other. tauto. }
      rewrite <- (Hx (toggled id ids)), E. apply Hx. }
    tauto.
Qed.

Lemma includes_id_toggled (id x : string) (ids : list string) :
  includes_id (map JStr (toggled id ids)) x
  = if String.eqb x id then negb (includes_id (map JStr ids) id)
    else includes_id (map JStr ids) x.
Proof.
  rewrite !includes_id_ids.
  destruct (String.eqb_spec x id) as [->|Hne].
  - destruct (decide (id ∈ ids)) as [Hin|Hin].
    + rewrite (bool_decide_eq_true_2 _ Hin). apply bool_decide_eq_false_2.
      rewrite toggled_elem. tauto.
    + rewrite (bool_decide_eq_false_2 _ Hin). apply bool_decide_eq_true_2.
      now rewrite toggled_elem.
  - apply bool_decide_ext. rewrite elem_of_toggled. tauto.
Qed.

Lemma includes_id_bulk (ids stored : list string) (shouldIgnore : bool) (x : string) :
  includes_id
    (map JStr (if shouldIgnore then added_all ids (added_all stored [])
               else deleted_all ids (added_all stored []))) x
  = if has ids x then shouldIgnore else includes_id (map JStr stored) x.
Proof.
  rewrite !includes_id_ids, has_decide.
  assert (Hst : forall y, y ∈ added_all stored [] <-> y ∈ stored).
  { intros y. rewrite added_all_elem, elem_of_nil. tauto. }
  destruct (decide (x ∈ ids)) as [Hx|Hx];
    [rewrite (bool_decide_eq_true_2 (x ∈ ids) Hx)
    |rewrite (bool_decide_eq_false_2 (x ∈ ids) Hx)]; destruct shouldIgnore.
  - apply bool_decide_eq_true_2. rewrite added_all_elem. now right.
  - rewrite deleted_all_without. apply bool_decide_eq_false_2.
    rewrite without_elem. tauto.
  - apply bool_decide_ext. rewrite added_all_elem, Hst. tauto.
  - rewrite deleted_all_without. apply bool_decide_ext.
    rewrite without_elem, Hst. tauto.
Qed.

(** [toLowerCase] changes nothing in a text in lower case. *)
Lemma toLowerUnit_idem (c : ascii) : toLowerUnit (toLowerUnit c) = toLowerUnit c.
Proof. destruct c as [[] [] [] [] [] [] [] []]; reflexivity. Qed.

Lemma lowerCase_idem (s : string) : lowerCase (lowerCase s) = lowerCase s.
Proof.
  unfold lowerCase. induction s as [|c s IH]; [reflexivity|]. cbn [map_chars].
  now rewrite toLowerUnit_idem, IH.
Qed.

Lemma includes_empty (s : string) : includes s EmptyString = true.
Proof. unfold includes. destruct s; reflexivity. Qed.

Lemma matches_empty (item : Blocker) : matches EmptyString item = true.
Proof. unfold matches. cbn [lowerCase map_chars]. now rewrite includes_empty. Qed.

Lemma shorten_length (n : nat) (s : string) : String.length (shorten n s) <= n + 3.
Proof.
  unfold shorten. destruct (Nat.ltb_spec n (String.length s)) as [Hlt|Hge]; [|lia].
  rewrite slength_app. unfold substring. cbn [String.length Nat.min Nat.max].
  rewrite Nat.sub_0_r. assert (E : drop 0 s = s) by now destruct s. rewrite E.
  rewrite SearchFacts.length_take_le; lia.
Qed.

Lemma shorten_short (n : nat) (s : string) : String.length s <= n -> shorten n s = s.
Proof.
  intros H. unfold shorten. now destruct (Nat.ltb_spec n (String.length s)); [lia|].
Qed.

Lemma filter_flat_map {A B} (p : B -> bool) (f : A -> list B) (l : list A) :
  List.filter p (flat_map f l) = flat_map (fun x => List.filter p (f x)) l.
Proof.
  induction l as [|x l IH]; [reflexivity|]. cbn [flat_map].
  now rewrite List.filter_app, IH.
Qed.

Lemma filter_map_comm {A B} (p : B -> bool) (f : A -> B) (l : list A) :
  List.filter p (map f l) = map f (List.filter (fun x => p (f x)) l).
Proof.
  induction l as [|x l IH]; [reflexivity|]. cbn [map List.filter].
  destruct (p (f x)); cbn [map]; now rewrite IH.
Qed.

(** The distinct values of two lists are at most those of each. *)
Lemma length_from_app (l l' : list string) :
  List.length (from (l ++ l')) <= List.length (from l) + List.length (from l').
Proof.
  rewrite <- List.length_app. apply submseteq_length, NoDup_submseteq; [apply NoDup_from|].
  intros x. rewrite elem_of_from, !elem_of_app, !elem_of_from. tauto.
Qed.

Lemma length_from_mono (l l' : list string) :
  (forall x, x ∈ l -> x ∈ l') -> List.length (from l) <= List.length (from l').
Proof.
  intros H. apply submseteq_length, NoDup_submseteq; [apply NoDup_from|].
  intros x. rewrite !elem_of_from. apply H.
Qed.

Lemma filter_filter_comm {A} (p q : A -> bool) (l : list A) :
  List.filter p (List.filter q l) = List.filter (fun x => q x && p x) l.
Proof.
  induction l as [|x l IH]; [reflexivity|]. cbn [List.filter].
  destruct (q x); cbn [List.filter andb]; [destruct (p x)|]; now rewrite IH.
Qed.

Lemma sublist_filter {A} (p : A -> bool) (l : list A) : sublist (List.filter p l) l.
Proof.
  induction l as [|x l IH]; [constructor|]. cbn [List.filter].
  destruct (p x); now constructor.
Qed.

End ViewFacts.

(** ** The table and the charts *)
Module TableFacts.
Import JsString Json JsData View TableSection ChartSection.
Import StringFacts StoreNotions StoreFacts IdNotions IdFacts SortFacts ObjectFacts SetFacts.
Import ViewNotions GroupFacts ViewFacts.

Lemma filteredData_filter (data : list Blocker) (ignoredIds : list json)
    (showIgnored : bool) (search : string) :
  filteredData data ignoredIds showIgnored search
  = List.filter (fun item => Bool.eqb (includes_id ignoredIds (id item)) showIgnored
                             && matches search item) data.
Proof.
  unfold filteredData. apply List.filter_ext. intros item. cbv zeta. unfold matches.
  now destruct showIgnored, (includes_id ignoredIds (id item)).
Qed.

Lemma views_perm (data : list Blocker) (ignoredIds : list json) (search : string) :
  filteredData data ignoredIds false search ++ filteredData data ignoredIds true search
  ≡ₚ List.filter (matches search) data.
Proof.
  rewrite !filteredData_filter. induction data as [|x l IH]; [reflexivity|].
  cbn [List.filter].
  destruct (includes_id ignoredIds (id x)), (matches search x); cbn [Bool.eqb andb app];
    try exact IH.
  - rewrite <- Permutation_middle. now rewrite IH.
  - now rewrite IH.
Qed.

Lemma groupedData_loop (groupingMode : GroupingMode) (filtered : list Blocker) :
  groupingMode <> by_none ->
  groupedData groupingMode filtered
  = group_loop (group_key groupingMode) filtered (Returns []).
Proof. destruct groupingMode; [reflexivity | reflexivity | congruence]. Qed.

(** The groups of [groupedData] when it returns. *)
Lemma groupedData_grouping (groupingMode : GroupingMode) (filtered : list Blocker)
    (groups : list (string * list Blocker)) :
  groupingMode <> by_none ->
  groupedData groupingMode filtered = Returns groups ->
  grouping (group_key groupingMode) groups filtered.
Proof.
  intros Hm H. rewrite (groupedData_loop _ _ Hm) in H.
  destruct (decide (plain_keys (group_key groupingMode) filtered)) as [Hp|Hp].
  - destruct (group_loop_grouping _ filtered [] [] (grouping_nil _) Hp) as (g & E & Hg).
    rewrite E in H. now injection H as <-.
  - rewrite (group_loop_inherited _ filtered [] [] (grouping_nil _)) in H;
      [discriminate | constructor | exact Hp].
Qed.

(** Rows of which one has the URL [constructor]. *)
Example groupedData_inherited_key :
  groupedData by_url ViewExample.odd_rows = Throws TypeError
  /\ groupedData by_message ViewExample.odd_rows
     = Returns [("Images must have alternate text",
                 [ViewExample.row "1" "https://a.example/" "Images must have alternate text";
                  ViewExample.row "3" "https://a.example/" "Images must have alternate text"]);
                ("Links must have discernible text",
                 [ViewExample.row "2" "https://b.example/Page"
                                  "Links must have discernible text"]);
                ("Frames need a title",
                 [ViewExample.row "4" "constructor" "Frames need a title"])].
Proof. split; reflexivity. Qed.

Lemma group_size_own (groups : list (string * list Blocker)) (key : string)
    (items : list Blocker) :
  own groups key = Some items -> group_size groups key = Z.of_nat (List.length items).
Proof. intros H. unfold group_size. now rewrite H. Qed.

(** *** The rows of the groups *)

Lemma concat_set (k : string) (items : list Blocker) (item : Blocker)
    (o : list (string * list Blocker)) :
  own o k = Some items ->
  concat (map snd (set k (items ++ [item]) o)) ≡ₚ item :: concat (map snd o).
Proof.
  induction o as [|[k0 w] o IH]; cbn [own set]; [discriminate|].
  destruct (String.eqb_spec k0 k) as [->|Hne].
  - intros [= ->]. cbn [map snd concat]. rewrite <- app_assoc. cbn [app].
    symmetry. apply Permutation_middle.
  - intros H. cbn [map snd concat]. rewrite (IH H). symmetry. apply Permutation_middle.
Qed.

Lemma group_loop_perm (key_of : Blocker -> string) (items : list Blocker)
    (groups groups' : list (string * list Blocker)) :
  group_loop key_of items (Returns groups) = Returns groups' ->
  concat (map snd groups') ≡ₚ concat (map snd groups) ++ items.
Proof.
  revert groups. induction items as [|item items IH]; intros groups H.
  - injection H as <-. now rewrite app_nil_r.
  - rewrite group_loop_cons in H. unfold push_item in H.
    destruct (own groups (key_of item)) as [found|] eqn:E.
    + apply IH in H. rewrite H, (concat_set _ _ _ _ E). cbn [app].
      apply Permutation_middle.
    + destruct (is_inherited (key_of item)).
      * rewrite group_loop_Throws in H. discriminate.
      * apply IH in H. rewrite H, map_app, concat_app. cbn [map snd concat].
        rewrite app_nil_r, <- app_assoc. reflexivity.
Qed.

(** The groups hold every row once. *)
Lemma groupedData_perm (groupingMode : GroupingMode) (filtered : list Blocker)
    (groups : list (string * list Blocker)) :
  groupedData groupingMode filtered = Returns groups ->
  concat (map snd groups) ≡ₚ filtered.
Proof.
  intros H. destruct groupingMode.
  - apply (group_loop_perm _ _ [] _ H).
  - apply (group_loop_perm _ _ [] _ H).
  - injection H as <-. cbn [map snd concat]. now rewrite app_nil_r.
Qed.

Lemma shown_skip (o : list (string * list Blocker)) (k : string) (v : list Blocker)
    (l : list string) :
  k ∉ l ->
  flat_map (fun key => default [] (own ((k, v) :: o) key)) l
  = flat_map (fun key => default [] (own o key)) l.
Proof.
  induction l as [|x l IH]; [reflexivity|]. rewrite not_elem_of_cons. intros [Hx Hl].
  cbn [flat_map]. rewrite (IH Hl). cbn [own].
  destruct (String.eqb_spec k x); [congruence | reflexivity].
Qed.

(** The rows under the keys of the groups are the rows of the groups. *)
Lemma shown_groups (o : list (string * list Blocker)) :
  NoDup (map fst o) ->
  flat_map (fun key => default [] (own o key)) (map fst o) = concat (map snd o).
Proof.
  induction o as [|[k v] o IH]; [reflexivity|]. cbn [map fst snd]. intros Hnd.
  apply NoDup_cons in Hnd as [Hk Hnd]. cbn [flat_map concat].
  rewrite (shown_skip o k v _ Hk), (IH Hnd). cbn [own]. now rewrite String.eqb_refl.
Qed.

(** *** The selection *)

Lemma fold_select_elem (b : bool) (ids s : list string) (x : string) :
  x ∈ fold_left (fun next id => if b then delete id next else add id next) ids s
  <-> if b then x ∈ s /\ x ∉ ids else x ∈ s \/ x ∈ ids.
Proof.
  revert s. induction ids as [|y ids IH]; intros s; cbn [fold_left].
  - destruct b; rewrite elem_of_nil; tauto.
  - rewrite IH. destruct b.
    + rewrite elem_of_delete, not_elem_of_cons. tauto.
    + rewrite elem_of_add, elem_of_cons. tauto.
Qed.

Lemma fold_select_NoDup (b : bool) (ids s : list string) :
  NoDup s -> NoDup (fold_left (fun next id => if b then delete id next else add id next) ids s).
Proof.
  revert s. induction ids as [|y ids IH]; intros s Hs; cbn [fold_left]; [exact Hs|].
  apply IH. destruct b; [now apply NoDup_delete | now apply NoDup_add].
Qed.

(** *** The ten first bars *)

Lemma top_bars {A} (score : A -> Z) (l : list A) :
  let bars := slice0 10 (sort (fun a b => score b - score a)%Z l) in
  sublist bars (sort (fun a b => score b - score a)%Z l)
  /\ (forall x, x ∈ bars -> x ∈ l)
  /\ List.length bars = Nat.min 10 (List.length l)
  /\ StronglySorted (fun a b => (score b <= score a)%Z) bars
  /\ forall x, x ∈ l -> x ∉ bars -> Forall (fun bar => (score x <= score bar)%Z) bars.
Proof.
  cbv zeta. unfold slice0.
  set (sorted := sort (fun a b => (score b - score a)%Z) l).
  assert (Hperm : sorted ≡ₚ l) by apply sort_perm.
  assert (Hs : StronglySorted (fun a b => (score b <= score a)%Z) sorted)
    by apply sort_decreasing.
  split; [apply sublist_take|]. split; [|split; [|split]].
  - intros x Hx. rewrite <- Hperm. eapply elem_of_sublist; [exact Hx | apply sublist_take].
  - rewrite length_take. now rewrite (Permutation_length Hperm).
  - now apply firstn_sorted.
  - intros x Hx Hn. rewrite <- Hperm in Hx.
    rewrite <- (take_drop 10 sorted) in Hx. apply elem_of_app in Hx as [Hx | Hx]; [tauto|].
    apply Forall_forall. intros bar Hbar.
    now apply (firstn_dominates score 10 sorted bar x Hs).
Qed.

Lemma NoDup_sublist_keys {A} (key : A -> string) (bars l all : list A) :
  sublist bars l -> l ≡ₚ all -> NoDup (map key all) -> NoDup (map key bars).
Proof.
  intros Hsub Hperm Hnd. apply (sublist_NoDup (map key bars) (map key l)).
  - now rewrite Hperm.
  - now apply fmap_sublist.
Qed.

Lemma or_text_truthy (o : option string) (d : string) :
  d <> EmptyString -> or_text o d <> EmptyString.
Proof. intros Hd. unfold or_text. destruct o as [[|c s]|]; cbn; congruence. Qed.

End TableFacts.

(** ** The charts *)
Module ChartFacts.
Import JsString Json JsData View TableSection ChartSection.
Import StringFacts StoreNotions StoreFacts IdNotions IdFacts SortFacts ObjectFacts SetFacts.
Import ViewNotions GroupFacts ViewFacts TableFacts ChartNotions.

Lemma chart_rule_header (item : Blocker) :
  chart_rule item = header_rule (group_key by_message item).
Proof. reflexivity. Qed.

Lemma length_filter_perm {A} (p : A -> bool) (l l' : list A) :
  l ≡ₚ l' -> List.length (List.filter p l) = List.length (List.filter p l').
Proof.
  induction 1 as [|x l l' _ IH|x y l|l1 l2 l3 _ IH1 _ IH2]; cbn [List.filter].
  - reflexivity.
  - destruct (p x); cbn [List.length]; now rewrite IH.
  - destruct (p x), (p y); reflexivity.
  - now rewrite IH1.
Qed.

Lemma filter_true {A} (p : A -> bool) (l : list A) :
  Forall (fun x => p x = true) l -> List.filter p l = l.
Proof.
  induction 1 as [|x l Hx _ IH]; [reflexivity|]. cbn [List.filter]. now rewrite Hx, IH.
Qed.

Lemma filter_false {A} (p : A -> bool) (l : list A) :
  Forall (fun x => p x = false) l -> List.filter p l = [].
Proof.
  induction 1 as [|x l Hx _ IH]; [reflexivity|]. cbn [List.filter]. now rewrite Hx, IH.
Qed.

(** The records of a rule are the rows of the groups of that rule. *)
Lemma rule_rows (rule : string) (groups : list (string * list Blocker)) :
  Forall (fun group => Forall (fun item => chart_rule item = header_rule (fst group))
                              (snd group)) groups ->
  List.length (with_key chart_rule rule (concat (map snd groups)))
  = rows_of_rule rule groups.
Proof.
  unfold rows_of_rule, with_key.
  induction 1 as [|[key items] groups Hg _ IH]; [reflexivity|].
  cbn [map snd concat List.filter fst]. rewrite List.filter_app, List.length_app, IH.
  cbn [snd fst] in Hg.
  destruct (String.eqb_spec (header_rule key) rule) as [E|E].
  - cbn [map]. rewrite list_sum_step. f_equal. unfold size_of. cbn [snd]. f_equal.
    apply filter_true. eapply Forall_impl; [exact Hg|]. cbn. intros item ->.
    rewrite E. apply String.eqb_refl.
  - rewrite filter_false; [reflexivity|].
    eapply Forall_impl; [exact Hg|]. cbn. intros item ->.
    now apply String.eqb_neq.
Qed.

(** *** The rows of the chart that compares *)

Lemma fold_assign (count_of : Dataset -> Z) (datasets : list Dataset)
    (row : list (string * ChartSectionCompared.cell)) :
  NoDup (map ds_id datasets) ->
  Forall (fun ds => ds_id ds <> "__proto__") datasets ->
  let row' := fold_left (fun row ds =>
                           ChartSectionCompared.assign
                             (ds_id ds) (ChartSectionCompared.Count (count_of ds)) row)
                        datasets row in
  Forall (fun ds => own row' (ds_id ds) = Some (ChartSectionCompared.Count (count_of ds)))
         datasets
  /\ forall key, key ∉ map ds_id datasets -> own row' key = own row key.
Proof.
  cbv zeta. revert row. induction datasets as [|d l IH]; intros row Hnd Hp.
  - split; [constructor | reflexivity].
  - cbn [map] in Hnd. apply NoDup_cons in Hnd as [Hd Hnd]. apply Forall_cons in Hp as [Hd' Hp].
    cbn [fold_left]. unfold ChartSectionCompared.assign at 2 4.
    rewrite (proj2 (String.eqb_neq _ _) Hd').
    destruct (IH (set (ds_id d) (ChartSectionCompared.Count (count_of d)) row) Hnd Hp)
      as [Hall Hother].
    split.
    + constructor; [|exact Hall]. rewrite (Hother _ Hd), own_set.
      now rewrite String.eqb_refl.
    + intros key Hkey. cbn [map] in Hkey. apply not_elem_of_cons in Hkey as [Hne Hkey].
      rewrite (Hother _ Hkey), own_set.
      destruct (String.eqb_spec (ds_id d) key); [congruence | reflexivity].
Qed.

Lemma url_key_url (item : Blocker) (u : string) :
  u <> "Unknown URL" -> url_key item = u -> url item = u.
Proof.
  unfold url_key, or_text. destruct (url item) as [|c s]; cbn [JsString.truthy]; congruence.
Qed.

Lemma url_url_key (item : Blocker) (u : string) :
  u <> EmptyString -> url item = u -> url_key item = u.
Proof.
  unfold url_key, or_text. destruct (url item) as [|c s]; cbn [JsString.truthy]; congruence.
Qed.

Lemma length_filter_le {A} (p q : A -> bool) (l : list A) :
  (forall x, p x = true -> q x = true) ->
  List.length (List.filter p l) <= List.length (List.filter q l).
Proof.
  intros H. induction l as [|x l IH]; [reflexivity|]. cbn [List.filter].
  destruct (p x) eqn:E.
  - rewrite (H _ E). cbn [List.length]. lia.
  - destruct (q x); cbn [List.length]; lia.
Qed.

Lemma records_at_all (u : string) (datasets : list Dataset) :
  records_at u datasets = List.length (with_key View.url u (Dashboard.allBlockers datasets)).
Proof.
  unfold records_at, with_key, Dashboard.allBlockers.
  now rewrite filter_flat_map, length_flat_map.
Qed.

End ChartFacts.


(* ===================================================================== *)
(** * Part IV: the properties of the specification                        *)
(* ===================================================================== *)

(** ** The ignore-state store *)
Module StoreClaims.
Import JsString Json DataManager.
Import StringFacts JsonNotions JsonGrammar JsonFacts GrammarFacts StoreNotions StoreFacts.

(** C1, as stated, does not hold: when the stored text is not valid JSON
    (here the text [undefined]), [JSON.parse] throws a [SyntaxError] and
    [getIgnoredIds], which has no [try], throws it to its caller instead of
    returning the empty sequence. *)
Lemma getIgnoredIds_throws_on_corrupt_store :
  let localStorage : gmap string string := {[ STORAGE_KEY := "undefined" ]} in
  Json.parse "undefined" = Throws SyntaxError
  /\ getIgnoredIds localStorage = Throws SyntaxError
  /\ getIgnoredIds localStorage <> Returns (JArr []).
Proof.
  cbv zeta. unfold getIgnoredIds. rewrite lookup_singleton_eq.
  split; [vm_compute; reflexivity|]. split; [vm_compute; reflexivity | discriminate].
Qed.

(** C1, amended.  For every state of the store, [getIgnoredIds] returns the
    empty sequence when the stored value is absent or is the empty string, and
    it returns the sequence of ids that was persisted when the stored text is
    the JSON text of that sequence, which is what the store writes.  When the
    stored text is not empty and is no JSON text, the call throws a
    [SyntaxError] to its caller; it returns a value only when the stored text
    is a JSON text. *)
Theorem getIgnoredIds_reads_store (localStorage : gmap string string) :
  (localStorage !! STORAGE_KEY = None \/ localStorage !! STORAGE_KEY = Some EmptyString ->
   getIgnoredIds localStorage = Returns (JArr []))
  /\ (forall ids : list string,
        localStorage !! STORAGE_KEY = Some (stringify (JArr (map JStr ids))) ->
        getIgnoredIds localStorage = Returns (JArr (map JStr ids)))
  /\ (forall text : string,
        localStorage !! STORAGE_KEY = Some text -> text <> EmptyString ->
        (~ json_text text -> getIgnoredIds localStorage = Throws SyntaxError)
        /\ (forall v, getIgnoredIds localStorage = Returns v -> json_text text)).
Proof.
  unfold getIgnoredIds. split; [|split].
  - intros [-> | ->]; reflexivity.
  - intros ids ->. rewrite stringify_ids_truthy. apply parse_stringify_ids.
  - intros text -> Hne. destruct text as [|c text]; [congruence|].
    cbn [JsString.truthy]. split; [apply parse_not_json | apply parse_json_text].
Qed.

Lemma getIgnoredIds_reads_store_witness :
  getIgnoredIds (∅ : gmap string string) = Returns (JArr [])
  /\ getIgnoredIds
       ({[ STORAGE_KEY := stringify (JArr (map JStr ["a"; "b"])) ]} : gmap string string)
     = Returns (JArr (map JStr ["a"; "b"]))
  /\ getIgnoredIds ({[ STORAGE_KEY := " corrupt" ]} : gmap string string)
     = Throws SyntaxError.
Proof.
  split; [|split].
  - apply (proj1 (getIgnoredIds_reads_store ∅)). left. apply lookup_empty.
  - apply (proj1 (proj2 (getIgnoredIds_reads_store _))). apply lookup_singleton_eq.
  - apply (proj2 (proj2 (getIgnoredIds_reads_store _)) " corrupt");
      [apply lookup_singleton_eq | discriminate | now apply not_json_text].
Defined.

(** C10.  When the stored sequence of ids has no duplicate, the sequence that
    [toggleIgnoreId] returns has none, and it is the sequence persisted (what
    [getIgnoredIds] reads afterwards).  Whatever the stored sequence of ids,
    duplicates or not, the sequence that [bulkIgnoreIds] returns has no
    duplicate, and it is the sequence persisted. *)
Theorem store_keeps_ids_distinct :
  (forall (localStorage : gmap string string) (ids : list string) (id : string),
      getIgnoredIds localStorage = Returns (JArr (map JStr ids)) ->
      NoDup ids ->
      exists (newIds : list string) (localStorage' : gmap string string),
        toggleIgnoreId id localStorage = Returns (map JStr newIds, localStorage')
        /\ NoDup newIds
        /\ getIgnoredIds localStorage' = Returns (JArr (map JStr newIds)))
  /\ (forall (localStorage : gmap string string) (stored ids : list string)
             (shouldIgnore : bool),
        getIgnoredIds localStorage = Returns (JArr (map JStr stored)) ->
        exists (newIds : list string) (localStorage' : gmap string string),
          bulkIgnoreIds ids shouldIgnore localStorage
          = Returns (map JStr newIds, localStorage')
          /\ NoDup newIds
          /\ getIgnoredIds localStorage' = Returns (JArr (map JStr newIds))).
Proof.
  split.
  - intros ls ids id Hget Hnd.
    exists (toggled id ids),
      (<[STORAGE_KEY := stringify (JArr (map JStr (toggled id ids)))]> ls).
    split; [now apply toggleIgnoreId_ids|].
    split; [now apply NoDup_toggled | apply getIgnoredIds_after_write].
  - intros ls stored ids flag Hget.
    destruct (bulkIgnoreIds_ids ids flag ls stored Hget) as (newIds & Hb & Hnd).
    eexists _, _. split; [exact Hb|]. split; [exact Hnd | apply getIgnoredIds_after_write].
Qed.

Lemma store_keeps_ids_distinct_witness :
  (exists (newIds : list string) (localStorage' : gmap string string),
      toggleIgnoreId "b" (<[STORAGE_KEY := stringify (JArr (map JStr ["a"; "b"; "c"]))]> ∅)
      = Returns (map JStr newIds, localStorage')
      /\ NoDup newIds
      /\ getIgnoredIds localStorage' = Returns (JArr (map JStr newIds)))
  /\ (exists (newIds : list string) (localStorage' : gmap string string),
        bulkIgnoreIds ["c"; "d"; "c"] true
          (<[STORAGE_KEY := stringify (JArr (map JStr ["a"; "a"; "b"]))]> ∅)
        = Returns (map JStr newIds, localStorage')
        /\ NoDup newIds
        /\ getIgnoredIds localStorage' = Returns (JArr (map JStr newIds))).
Proof.
  split.
  - apply (proj1 store_keeps_ids_distinct _ ["a"; "b"; "c"]).
    + apply getIgnoredIds_after_write.
    + apply (bool_decide_unpack _). vm_compute. exact I.
  - apply (proj2 store_keeps_ids_distinct _ ["a"; "a"; "b"]).
    apply getIgnoredIds_after_write.
Defined.

End StoreClaims.

(** ** The violation message parser *)
Module ParserClaims.
Import JsString ViolationParser.
Import StringFacts SearchFacts SplitFacts Notions RuleNotions ParserFacts.

(** C4.  [parseMessages] returns the empty sequence for the empty string.
    For every other raw message, with [n] occurrences of the separator
    [" | "] counted as the string libraries count them (from left to right,
    each search resuming after the occurrence just met: [n] is the number of
    all the occurrences unless two of them overlap, which takes the text
    [" | | "]), it returns exactly [n + 1] entries, in input order: the entry
    at position [i] has the id [viol-i], and the raw parts of the entries
    joined by the separator are the raw message. *)
Theorem parseMessages_count (rawMessage : string) :
  parseMessages EmptyString = []
  /\ (rawMessage <> EmptyString ->
      List.length (parseMessages rawMessage)
      = disjoint_occurrences " | " rawMessage + 1
      /\ join " | " (map raw (parseMessages rawMessage)) = rawMessage
      /\ map id (parseMessages rawMessage)
         = map (fun i => "viol-" +:+ of_nat i)
               (seq 0 (List.length (parseMessages rawMessage)))
      /\ (includes rawMessage " | | " = false ->
          disjoint_occurrences " | " rawMessage = occurrences " | " rawMessage)).
Proof.
  split; [reflexivity|]. intros Hne. split; [|split; [|split]].
  - rewrite parseMessages_nonempty by assumption. rewrite length_imap.
    apply length_split_go.
  - rewrite raw_parseMessages by assumption. now apply join_split.
  - apply id_parseMessages.
  - intros Hno. now apply (scan_occurrences_all (String.length rawMessage)).
Qed.

Lemma parseMessages_count_witness :
  List.length (parseMessages "[a] one | two: 2 | three.")
  = disjoint_occurrences " | " "[a] one | two: 2 | three." + 1
  /\ join " | " (map raw (parseMessages "[a] one | two: 2 | three."))
     = "[a] one | two: 2 | three."
  /\ map id (parseMessages "[a] one | two: 2 | three.")
     = map (fun i => "viol-" +:+ of_nat i)
           (seq 0 (List.length (parseMessages "[a] one | two: 2 | three.")))
  /\ (includes "[a] one | two: 2 | three." " | | " = false ->
      disjoint_occurrences " | " "[a] one | two: 2 | three."
      = occurrences " | " "[a] one | two: 2 | three.").
Proof.
  apply (proj2 (parseMessages_count "[a] one | two: 2 | three.")). discriminate.
Defined.

(** Two occurrences of the separator that share a space are one occurrence
    for [split]: the second is not met. *)
Example parseMessages_shared_space :
  occurrences " | " "a | | b" = 2
  /\ disjoint_occurrences " | " "a | | b" = 1
  /\ map raw (parseMessages "a | | b") = ["a"; "| b"].
Proof. repeat split. Qed.



(** C8.  For the message
    [[foo-bar] Some description. More information: https://example.com/x],
    [parseMessages] returns a single entry with the rule [foo-bar], the
    description [Some description], without its trailing period, and the help
    link [https://example.com/x]; the whole match, the label and the link,
    is removed from the text of the description. *)
Theorem parseMessages_help_link_example :
  parseMessages "[foo-bar] Some description. More information: https://example.com/x"
  = [ {| id := "viol-0";
         rule := "foo-bar";
         description := "Some description";
         helpUrl := Some "https://example.com/x";
         raw := "[foo-bar] Some description. More information: https://example.com/x" |} ]
  /\ match_help_url "[foo-bar] Some description. More information: https://example.com/x"
     = Some ("More information: https://example.com/x", "https://example.com/x")
  /\ extractHelpUrl
       (cleanPart "[foo-bar] Some description. More information: https://example.com/x")
     = (Some "https://example.com/x", "[foo-bar] Some description.").
Proof. repeat split. Qed.

End ParserClaims.

(** ** The dataset loader *)
Module LoaderClaims.
Import JsString Json Url Runtime DataManager.
Import StringFacts SearchFacts UrlNotions UrlFacts FormFacts UrlRoundTrip.
Import LoaderNotions Examples LoaderFacts.

(** C2.  Take a load whose first response reports [totalCount > 0], whose
    records, once every fallback and the automatic pagination are done, are
    none, whose URL is one of the public API and whose [pageSize] parameter is
    not [100].  Then [loadDataset] calls itself on the URL rewritten with
    [pageSize=100] and [page=1]; that call completes without calling itself,
    whatever it is given to call, so that two nested calls are enough; and the
    run makes exactly one retry more than were made before it, the request of
    the retry URL following those of the first call. *)
Theorem loadDataset_retries_once (w : World) (url : string) (st st1 : State)
    (urlObj : URL) (data : ApiResponse) (pg : Pagination) (depth : nat) :
  Url.parse url = Some urlObj ->
  isPublicApi urlObj = true ->
  get "pageSize" (searchParams urlObj) <> Some "100" ->
  extractRecords w url urlObj st = Some (Returns (data, []), st1) ->
  pagination data = Some pg ->
  (0 < totalCount pg)%Z ->
  exists (r : outcome Dataset) (st2 : State) (more : list string),
    Url.parse (retryUrl urlObj) = Some (retryUrlObj urlObj)
    /\ get "pageSize" (searchParams (retryUrlObj urlObj)) = Some "100"
    /\ get "page" (searchParams (retryUrlObj urlObj)) = Some "1"
    /\ (forall rec,
          loadDataset_body rec w (retryUrl urlObj) (logged warn retry_line st1)
          = Some (r, st2))
    /\ loadDataset (S (S depth)) w url st = rethrown (Some (r, st2))
    /\ retries st2 = retries st + 1
    /\ requests st2 = requests st1 ++ retryUrl urlObj :: more.
Proof.
  intros Hp Hapi Hsize He Hpg Hcount.
  destruct (retryUrl_parse url urlObj Hp) as (Hp' & H100 & H1 & _).
  destruct (retry_run w url st st1 urlObj data pg Hp Hapi Hsize He Hpg Hcount)
    as (r & st2 & more & Hbody & Hload & Hret & Hreq & _).
  exists r, st2, more. repeat split; auto.
Qed.

Lemma loadDataset_retries_once_witness :
  exists (r : outcome Dataset) (st2 : State) (more : list string),
    Url.parse (retryUrl api_urlObj) = Some (retryUrlObj api_urlObj)
    /\ get "pageSize" (searchParams (retryUrlObj api_urlObj)) = Some "100"
    /\ get "page" (searchParams (retryUrlObj api_urlObj)) = Some "1"
    /\ (forall rec,
          loadDataset_body rec silent_api (retryUrl api_urlObj)
            (logged warn retry_line (requested api_url))
          = Some (r, st2))
    /\ loadDataset 2 silent_api api_url initial = rethrown (Some (r, st2))
    /\ retries st2 = retries initial + 1
    /\ requests st2 = requests (requested api_url) ++ retryUrl api_urlObj :: more.
Proof.
  apply (loadDataset_retries_once silent_api api_url initial (requested api_url)
           api_urlObj empty_page seven_records 0).
  - vm_compute. reflexivity.
  - vm_compute. reflexivity.
  - vm_compute. discriminate.
  - vm_compute. reflexivity.
  - reflexivity.
  - reflexivity.
Defined.

(** C9.  When the page-size retry triggers, the load completes, and the
    dataset it returns, if it returns one, has for its [url] the URL of the
    retry, whose parameters are [pageSize=100] and [page=1], and not the URL
    that the caller gave. *)
Theorem loadDataset_returns_retry_url (w : World) (url : string) (st st1 : State)
    (urlObj : URL) (data : ApiResponse) (pg : Pagination) (depth : nat) :
  Url.parse url = Some urlObj ->
  isPublicApi urlObj = true ->
  get "pageSize" (searchParams urlObj) <> Some "100" ->
  extractRecords w url urlObj st = Some (Returns (data, []), st1) ->
  pagination data = Some pg ->
  (0 < totalCount pg)%Z ->
  exists (r : outcome Dataset) (st3 : State),
    loadDataset (S (S depth)) w url st = Some (r, st3)
    /\ forall ds : Dataset,
         r = Returns ds ->
         DataManager.url ds = retryUrl urlObj
         /\ DataManager.url ds <> url
         /\ (exists u, Url.parse (DataManager.url ds) = Some u
                       /\ get "pageSize" (searchParams u) = Some "100"
                       /\ get "page" (searchParams u) = Some "1").
Proof.
  intros Hp Hapi Hsize He Hpg Hcount.
  destruct (retryUrl_parse url urlObj Hp) as (Hp' & H100 & H1 & _).
  destruct (retry_run w url st st1 urlObj data pg Hp Hapi Hsize He Hpg Hcount)
    as (r & st2 & more & _ & Hload & _ & _ & Hurl & _).
  specialize (Hload depth).
  destruct r as [ds|e]; cbn [rethrown] in Hload.
  - exists (Returns ds), st2. split; [exact Hload|]. intros ds' [= <-].
    rewrite (Hurl ds eq_refl). split; [reflexivity|].
    split; [now apply (retryUrl_differs url urlObj) | eauto].
  - eexists _, _. split; [exact Hload | discriminate].
Qed.

Lemma loadDataset_returns_retry_url_witness :
  exists (r : outcome Dataset) (st3 : State),
    loadDataset 2 silent_api api_url initial = Some (r, st3)
    /\ forall ds : Dataset,
         r = Returns ds ->
         DataManager.url ds = retryUrl api_urlObj
         /\ DataManager.url ds <> api_url
         /\ (exists u, Url.parse (DataManager.url ds) = Some u
                       /\ get "pageSize" (searchParams u) = Some "100"
                       /\ get "page" (searchParams u) = Some "1").
Proof.
  apply (loadDataset_returns_retry_url silent_api api_url initial (requested api_url)
           api_urlObj empty_page seven_records 0).
  - vm_compute. reflexivity.
  - vm_compute. reflexivity.
  - vm_compute. discriminate.
  - vm_compute. reflexivity.
  - reflexivity.
  - reflexivity.
Defined.

(** C3, as stated, does not hold: against an API that reports seven records
    and delivers none at any page size, [loadDataset] retries with
    [pageSize=100], gets no record again, and resolves to a dataset without
    records; it does not reject. *)
Lemma loadDataset_resolves_empty_after_retry :
  exists (ds : Dataset) (st : State),
    loadDataset 2 silent_api api_url initial = Some (Returns ds, st)
    /\ dataset_blockers ds = []
    /\ DataManager.url ds = "https://api.equalifyapp.com/public/audits?pageSize=100&page=1"
    /\ requests st
       = [api_url; "https://api.equalifyapp.com/public/audits?pageSize=100&page=1"]
    /\ retries st = 1.
Proof. eexists _, _. split; [vm_compute; reflexivity | repeat split]. Qed.

(** C3, amended.  When the first response reports [totalCount > 0] and no
    record could be extracted, neither by the first call nor by the
    [pageSize=100] retry, the [loadDataset] that retries resolves to a dataset
    with no record, whose [url] is the retry URL: it does not reject.  The
    message that suggests to reduce the page size is that of the
    [loadDataset] of [src/services/DataManager.ts], which never retries: it
    rejects with it as soon as a response reports [totalCount > 0] and has no
    blockers. *)
Theorem loadDataset_after_empty_retry :
  (forall (w : World) (url : string) (st st1 st2 : State) (urlObj : URL)
          (data data2 : ApiResponse) (pg : Pagination) (depth : nat),
      Url.parse url = Some urlObj ->
      isPublicApi urlObj = true ->
      get "pageSize" (searchParams urlObj) <> Some "100" ->
      extractRecords w url urlObj st = Some (Returns (data, []), st1) ->
      pagination data = Some pg ->
      (0 < totalCount pg)%Z ->
      extractRecords w (retryUrl urlObj) (retryUrlObj urlObj) (logged warn retry_line st1)
      = Some (Returns (data2, []), st2) ->
      exists ds : Dataset,
        loadDataset (S (S depth)) w url st = Some (Returns ds, st2)
        /\ dataset_blockers ds = []
        /\ DataManager.url ds = retryUrl urlObj)
  /\ (forall (w : World) (url : string) (st : State) (parsedUrl : URL)
             (resp : Response) (data : ApiResponse) (pg : Pagination),
        Url.parse url = Some parsedUrl ->
        network w (List.length (requests st)) url = Responded resp ->
        ok resp = true ->
        body resp = Some data ->
        (Runtime.blockers data = None \/ Runtime.blockers data = Some []) ->
        pagination data = Some pg ->
        (0 < totalCount pg)%Z ->
        exists st',
          ServicesDataManager.loadDataset w url st
          = Some (Throws (Error page_size_message), st')).
Proof.
  split.
  - intros w url st st1 st2 urlObj data data2 pg depth Hp Hapi Hsize He Hpg Hcount He2.
    destruct (retry_run w url st st1 urlObj data pg Hp Hapi Hsize He Hpg Hcount)
      as (r & st2' & more & _ & Hload & _ & _ & _ & Hdet).
    destruct (Hdet data2 [] st2 He2) as [-> ->].
    eexists. split; [apply Hload | split; reflexivity].
  - apply services_loadDataset_rejects.
Qed.

Lemma loadDataset_after_empty_retry_witness :
  (exists ds : Dataset,
      loadDataset 2 silent_api api_url initial
      = Some (Returns ds,
              {| requests := [api_url; retryUrl api_urlObj];
                 console := [(warn, retry_line)] |})
      /\ dataset_blockers ds = []
      /\ DataManager.url ds = retryUrl api_urlObj)
  /\ (exists st',
        ServicesDataManager.loadDataset silent_api api_url initial
        = Some (Throws (Error page_size_message), st')).
Proof.
  split.
  - apply (proj1 loadDataset_after_empty_retry silent_api api_url initial
             (requested api_url) _ api_urlObj empty_page empty_page seven_records 0).
    + vm_compute. reflexivity.
    + vm_compute. reflexivity.
    + vm_compute. discriminate.
    + vm_compute. reflexivity.
    + reflexivity.
    + reflexivity.
    + vm_compute. reflexivity.
  - apply (proj2 loadDataset_after_empty_retry silent_api api_url initial api_urlObj
             {| status := 200; statusText := "OK"; body := Some empty_page |} empty_page
             seven_records).
    + vm_compute. reflexivity.
    + reflexivity.
    + reflexivity.
    + reflexivity.
    + right. reflexivity.
    + reflexivity.
    + reflexivity.
Defined.

(** C5, as stated, does not hold: a response whose [blockers] array is empty
    and whose [auditTable] is the non-empty array [[null]], which triggers
    neither the pagination nor the retry, makes [extractFromList] read a
    property of [null]; the [TypeError] is rethrown and [loadDataset] rejects
    instead of returning a dataset with one record. *)
Lemma loadDataset_rejects_null_item :
  let w := browser (fun _ _ => answer (table_page [JNull])) in
  Runtime.blockers (table_page [JNull]) = Some []
  /\ lookup_field "auditTable" (members (table_page [JNull])) = Some (JArr [JNull])
  /\ pagination_condition (table_page [JNull]) report_urlObj = false
  /\ exists st, loadDataset 2 w report_url initial = Some (Throws TypeError, st).
Proof. cbv zeta. repeat split. eexists. vm_compute. reflexivity. Qed.

(** C5, amended.  Take a response whose [blockers] array is empty or absent
    and whose [auditTable] is a non-empty array, and which does not trigger
    the automatic pagination.  When [extractFromList] can make a record of
    every item of [auditTable] (no item is [null], and no item is given the
    content [Type: ...] from a [Type] that cannot be converted to a string),
    [loadDataset] returns a dataset whose number of records is the length of
    [auditTable], without any retry, whatever the other fallback keys
    ([audit_table], [results], [data], [items], [records]) hold.  When it
    cannot, for one item at least, [loadDataset] rejects with a [TypeError]
    after this one request, without any retry. *)
Theorem loadDataset_auditTable_fallback (w : World) (url : string) (st : State)
    (urlObj : URL) (resp : Response) (data : ApiResponse) (items : list json)
    (depth : nat) :
  Url.parse url = Some urlObj ->
  network w (List.length (requests st)) url = Responded resp ->
  ok resp = true ->
  body resp = Some data ->
  (Runtime.blockers data = None \/ Runtime.blockers data = Some []) ->
  lookup_field "auditTable" (members data) = Some (JArr items) ->
  items <> [] ->
  pagination_condition data urlObj = false ->
  (Forall (fun item => extractable item = true) items ->
   exists (ds : Dataset) (st' : State),
     loadDataset (S depth) w url st = Some (Returns ds, st')
     /\ List.length (dataset_blockers ds) = List.length items
     /\ retries st' = retries st)
  /\ (Exists (fun item => extractable item = false) items ->
      exists st' : State,
        loadDataset (S depth) w url st = Some (Throws TypeError, st')
        /\ requests st' = requests st ++ [url]
        /\ retries st' = retries st).
Proof.
  intros Hp Hnet Hok Hbody Hb Htable Hne Hpg.
  pose proof (extractRecords_auditTable w url st urlObj resp data items
                Hnet Hok Hbody Hb Htable Hne Hpg) as He.
  unfold extractFromList in He. split.
  - intros Hitems.
    destruct (extractFrom_length data w items 0 Hitems) as (l & Hl & Hlen).
    rewrite Hl in He. exists (dataset_of w url urlObj data l). eexists.
    split; [|split; [exact Hlen|]].
    + cbn [loadDataset].
      apply (loadDataset_body_no_retry _ w url st _ urlObj data l Hp He).
      apply retry_condition_records. destruct l; [|discriminate].
      destruct items; [congruence | discriminate].
    + now apply extractRecords_extends in He as [He _].
  - intros Hitems. rewrite (extractFrom_throws data w items 0 Hitems) in He.
    eexists. split; [|split].
    + cbn [loadDataset]. apply (loadDataset_body_throws _ w url st _ urlObj _ Hp He).
    + reflexivity.
    + apply extractRecords_extends in He as [He _].
      destruct (extends_logged_error
                  (logged log ("Mapping " +:+ of_nat (List.length items)
                                 +:+ " items from 'auditTable' since blockers is empty.")
                          {| requests := requests st ++ [url]; console := console st |})
                  "Error loading dataset:") as [Hr _].
      now rewrite Hr.
Qed.

Lemma loadDataset_auditTable_fallback_witness :
  (exists (ds : Dataset) (st' : State),
      loadDataset 1 (browser (fun _ _ => answer (table_page sample_items))) report_url initial
      = Some (Returns ds, st')
      /\ List.length (dataset_blockers ds) = List.length sample_items
      /\ retries st' = retries initial)
  /\ (exists st' : State,
        loadDataset 1 (browser (fun _ _ => answer (table_page [odd_item]))) report_url initial
        = Some (Throws TypeError, st')
        /\ requests st' = requests initial ++ [report_url]
        /\ retries st' = retries initial).
Proof.
  split.
  - apply (proj1 (loadDataset_auditTable_fallback
                    (browser (fun _ _ => answer (table_page sample_items))) report_url
                    initial report_urlObj
                    {| status := 200; statusText := "OK";
                       body := Some (table_page sample_items) |}
                    (table_page sample_items) sample_items 0
                    ltac:(vm_compute; reflexivity) eq_refl eq_refl eq_refl
                    (or_intror eq_refl) eq_refl ltac:(discriminate) eq_refl)).
    repeat constructor.
  - apply (proj2 (loadDataset_auditTable_fallback
                    (browser (fun _ _ => answer (table_page [odd_item]))) report_url
                    initial report_urlObj
                    {| status := 200; statusText := "OK";
                       body := Some (table_page [odd_item]) |}
                    (table_page [odd_item]) [odd_item] 0
                    ltac:(vm_compute; reflexivity) eq_refl eq_refl eq_refl
                    (or_intror eq_refl) eq_refl ltac:(discriminate) eq_refl)).
    repeat constructor.
Defined.

(** C7.  For a load of a URL whose last path segment is
    [my_site_audit_2024-05-01.json] and whose first date is [2024-05-01], when
    the response carries no [audit_name] and the load does not retry,
    [loadDataset] returns a dataset named [My Site Audit (2024-05-01)]: the
    last path segment without its extension and without the date, split on
    [-] and [_] with the empty tokens dropped and each token in title case,
    and the date appended between parentheses. *)
Theorem loadDataset_names_report (w : World) (url : string) (st st1 : State)
    (urlObj : URL) (data : ApiResponse) (blockers : list json) (depth : nat) :
  Url.parse url = Some urlObj ->
  List.last (split_chars (Ascii.eqb "/") EmptyString (pathname urlObj)) EmptyString
  = "my_site_audit_2024-05-01.json" ->
  match_date url = Some "2024-05-01" ->
  extractRecords w url urlObj st = Some (Returns (data, blockers), st1) ->
  (audit_name data = None \/ audit_name data = Some EmptyString) ->
  retry_condition blockers data urlObj = false ->
  exists ds : Dataset,
    loadDataset (S depth) w url st = Some (Returns ds, st1)
    /\ name ds = "My Site Audit (2024-05-01)"
    /\ DataManager.url ds = url
    /\ dataset_blockers ds = blockers.
Proof.
  intros Hp Hlast Hdate He Hname Hr.
  exists (dataset_of w url urlObj data blockers). split; [|split; [|split; reflexivity]].
  - cbn [loadDataset]. now apply loadDataset_body_no_retry.
  - unfold dataset_of. cbn [name]. rewrite Hdate. now apply deriveName_report.
Qed.

Lemma loadDataset_names_report_witness :
  exists ds : Dataset,
    loadDataset 1 (browser (fun _ _ => answer unnamed_page)) report_url initial
    = Some (Returns ds, requested report_url)
    /\ name ds = "My Site Audit (2024-05-01)"
    /\ DataManager.url ds = report_url
    /\ dataset_blockers ds = default [] (Runtime.blockers unnamed_page).
Proof.
  apply (loadDataset_names_report (browser (fun _ _ => answer unnamed_page)) report_url
           initial (requested report_url) report_urlObj unnamed_page
           (default [] (Runtime.blockers unnamed_page)) 0).
  - vm_compute. reflexivity.
  - vm_compute. reflexivity.
  - vm_compute. reflexivity.
  - vm_compute. reflexivity.
  - left. reflexivity.
  - reflexivity.
Defined.

End LoaderClaims.

(* ===================================================================== *)
(** * Part V: further properties of the code                             *)
(* ===================================================================== *)

(** ** The violation message parser *)
Module ParserProperties.
Import JsString ViolationParser.
Import StringFacts SearchFacts SplitFacts Notions RuleNotions ParserFacts.
Import ParserNotions PartFacts.

(** X1.  No entry that [parseMessages] returns has the separator [" | "] in
    its raw part: the message is cut at every separator that [split] meets,
    and nothing of a separator is left in a part. *)
Theorem parseMessages_parts_without_separator (rawMessage : string) :
  Forall (fun v => includes (raw v) " | " = false) (parseMessages rawMessage).
Proof.
  destruct rawMessage as [|c s]; [constructor|].
  apply Forall_map with (f := raw) (P := fun p => includes p " | " = false).
  rewrite raw_parseMessages by discriminate. apply split_parts. discriminate.
Qed.

(** X2.  The help link of an entry, when it has one, begins with [http://] or
    [https://], has no white space, and stands in the text of the part right
    after the label [More information: ].  An entry has no help link only if
    its text has nowhere the label followed by [http://] or [https://] and a
    character that is not white space. *)
Theorem parseMessages_help_link (rawMessage : string) :
  Forall (fun v =>
            match helpUrl v with
            | Some u =>
                (startsWith u "http://" || startsWith u "https://") = true
                /\ no_ws u = true
                /\ occurs_in (help_label +:+ u) (cleanPart (raw v))
            | None =>
                forall scheme c, scheme = "http://" \/ scheme = "https://" ->
                  is_ws c = false ->
                  ~ occurs_in (help_label +:+ scheme +:+ String c EmptyString)
                              (cleanPart (raw v))
            end) (parseMessages rawMessage).
Proof.
  apply Forall_parseMessages. intros index part ->.
  destruct (parsePart_fields index part) as (_ & _ & -> & _).
  apply extractHelpUrl_spec.
Qed.

(** X3.  The rule of an entry is never the empty string when the part is not
    wrapped in double quotes, or has a help link.  A part in quotes can have
    an empty rule: in the quoted text [    : x] the prefix before the colon is
    four spaces, which the fallback heuristic accepts and trims to nothing. *)
Theorem parseMessages_rule_not_empty (rawMessage : string) :
  Forall (fun v => quoted (raw v) = false \/ helpUrl v <> None -> rule v <> EmptyString)
         (parseMessages rawMessage)
  /\ map rule (parseMessages blank_prefix_message) = [EmptyString].
Proof.
  split; [|reflexivity].
  apply Forall_parseMessages. intros index part Hraw. rewrite Hraw.
  apply parsePart_rule_not_empty.
Qed.

(** X4.  [getGroupTitle] joins with [", "] the rules of the entries of the
    message, each rule once, in the order of their first occurrences in the
    message: a rule that stands before another one in the title occurs in the
    message before every occurrence of the other.  The title is the empty
    string for the empty message, and the rule itself when every entry has the
    same rule. *)
Theorem getGroupTitle_distinct_rules (messages : string) :
  exists rules,
    getGroupTitle messages = join ", " rules
    /\ NoDup rules
    /\ (forall r, r ∈ rules <-> exists v, v ∈ parseMessages messages /\ rule v = r)
    /\ sublist rules (map rule (parseMessages messages))
    /\ (forall i j x y,
          rules !! i = Some x -> rules !! j = Some y -> i < j ->
          exists k, map rule (parseMessages messages) !! k = Some x
                    /\ y ∉ firstn (S k) (map rule (parseMessages messages)))
    /\ (messages = EmptyString -> getGroupTitle messages = EmptyString)
    /\ (forall r, messages <> EmptyString ->
                  Forall (fun v => rule v = r) (parseMessages messages) ->
                  getGroupTitle messages = r).
Proof.
  exists (distinct (map rule (parseMessages messages))).
  split; [reflexivity|]. split; [apply NoDup_distinct|].
  split; [|split; [apply sublist_distinct|split; [apply distinct_order|split]]].
  - intros r. rewrite elem_of_distinct, list_elem_of_fmap.
    split; [intros (v & -> & Hv) | intros (v & Hv & <-)]; eauto.
  - intros ->. reflexivity.
  - intros r Hne Hall. unfold getGroupTitle.
    rewrite (distinct_same r); [reflexivity| |].
    + rewrite parseMessages_nonempty by assumption. intros E.
      apply (f_equal (@List.length _)) in E. rewrite length_map, length_imap in E.
      pose proof (length_split_go " | " messages 0 EmptyString) as Hl.
      unfold split in E. rewrite E in Hl. cbn in Hl. lia.
    + now apply Forall_map.
Qed.

End ParserProperties.

(** ** The ignore-state store *)
Module StoreProperties.
Import JsString Json DataManager.
Import StringFacts JsonFacts StoreNotions StoreFacts IdNotions IdFacts.

(** X5.  On a store that holds the ids [ids], [toggleIgnoreId id] changes the
    membership of [id] and of no other id, and keeps the other ids in their
    order; when [id] was not stored, a second [toggleIgnoreId id] returns and
    persists the sequence [ids] itself. *)
Theorem toggleIgnoreId_flips (localStorage : gmap string string)
    (ids : list string) (id : string) :
  getIgnoredIds localStorage = Returns (JArr (map JStr ids)) ->
  exists (newIds : list string) (localStorage' : gmap string string),
    toggleIgnoreId id localStorage = Returns (map JStr newIds, localStorage')
    /\ (id ∈ newIds <-> id ∉ ids)
    /\ List.filter (fun x => negb (String.eqb x id)) newIds
       = List.filter (fun x => negb (String.eqb x id)) ids
    /\ (id ∉ ids ->
        exists localStorage'' : gmap string string,
          toggleIgnoreId id localStorage' = Returns (map JStr ids, localStorage'')
          /\ getIgnoredIds localStorage'' = Returns (JArr (map JStr ids))).
Proof.
  intros Hget. eexists _, _. split; [apply (toggleIgnoreId_ids id _ ids Hget)|].
  split; [apply toggled_elem|]. split; [apply toggled_others|].
  intros Hn. eexists. split.
  - rewrite (toggleIgnoreId_ids id _ (toggled id ids))
      by apply getIgnoredIds_after_write.
    rewrite (toggled_back id ids Hn). reflexivity.
  - apply getIgnoredIds_after_write.
Qed.

Lemma toggleIgnoreId_flips_witness :
  exists (newIds : list string) (localStorage' : gmap string string),
    toggleIgnoreId "b" (<[STORAGE_KEY := stringify (JArr (map JStr ["a"; "c"]))]> ∅)
    = Returns (map JStr newIds, localStorage')
    /\ ("b" ∈ newIds <-> "b" ∉ ["a"; "c"])
    /\ List.filter (fun x => negb (String.eqb x "b")) newIds
       = List.filter (fun x => negb (String.eqb x "b")) ["a"; "c"]
    /\ ("b" ∉ ["a"; "c"] ->
        exists localStorage'' : gmap string string,
          toggleIgnoreId "b" localStorage' = Returns (map JStr ["a"; "c"], localStorage'')
          /\ getIgnoredIds localStorage'' = Returns (JArr (map JStr ["a"; "c"]))).
Proof.
  apply (toggleIgnoreId_flips _ ["a"; "c"] "b"). apply getIgnoredIds_after_write.
Defined.



(** X7.  On a store that holds ids, with or without duplicates,
    [bulkIgnoreIds ids true] returns the stored ids and those of [ids], and
    [bulkIgnoreIds ids false] the stored ids that are not in [ids]; a second
    call with the same arguments returns the same sequence and leaves the
    store as the first call left it; and restoring the ids just ignored
    returns the stored ids that are not in [ids]. *)
Theorem bulkIgnoreIds_twice (localStorage : gmap string string)
    (stored ids : list string) (shouldIgnore : bool) :
  getIgnoredIds localStorage = Returns (JArr (map JStr stored)) ->
  exists (newIds : list string) (localStorage' : gmap string string),
    bulkIgnoreIds ids shouldIgnore localStorage = Returns (map JStr newIds, localStorage')
    /\ (forall x, x ∈ newIds <->
                  if shouldIgnore then x ∈ stored \/ x ∈ ids else x ∈ stored /\ x ∉ ids)
    /\ bulkIgnoreIds ids shouldIgnore localStorage' = Returns (map JStr newIds, localStorage')
    /\ (shouldIgnore = true ->
        exists (back : list string) (localStorage'' : gmap string string),
          bulkIgnoreIds ids false localStorage' = Returns (map JStr back, localStorage'')
          /\ forall x, x ∈ back <-> x ∈ stored /\ x ∉ ids).
Proof.
  intros Hget. eexists _, _.
  split; [apply (bulkIgnoreIds_fold ids shouldIgnore _ stored Hget)|].
  assert (Hnd : NoDup (added_all stored [])) by (apply NoDup_added_all; constructor).
  assert (Hst : forall x, x ∈ added_all stored [] <-> x ∈ stored).
  { intros x. rewrite added_all_elem, elem_of_nil. tauto. }
  split; [|split].
  - intros x. destruct shouldIgnore.
    + now rewrite added_all_elem, Hst.
    + now rewrite deleted_all_without, without_elem, Hst.
  - rewrite (bulkIgnoreIds_fold ids shouldIgnore _ _ (getIgnoredIds_after_write _ _)).
    rewrite insert_insert_eq.
    assert (E : (if shouldIgnore
                 then added_all ids
                        (added_all (if shouldIgnore
                                    then added_all ids (added_all stored [])
                                    else deleted_all ids (added_all stored [])) [])
                 else deleted_all ids
                        (added_all (if shouldIgnore
                                    then added_all ids (added_all stored [])
                                    else deleted_all ids (added_all stored [])) []))
                = (if shouldIgnore then added_all ids (added_all stored [])
                   else deleted_all ids (added_all stored []))).
    { destruct shouldIgnore.
      - rewrite (added_all_nodup (added_all ids _)) by now apply NoDup_added_all.
        apply added_all_present. intros x Hx. apply added_all_elem. now right.
      - rewrite !deleted_all_without.
        rewrite (added_all_nodup (without ids _)) by now apply NoDup_without.
        apply without_without. }
    rewrite E. reflexivity.
  - intros ->. eexists _, _.
    split; [apply (bulkIgnoreIds_fold ids false _ _ (getIgnoredIds_after_write _ _))|].
    intros x. cbv zeta. rewrite deleted_all_without, without_elem.
    rewrite (added_all_nodup (added_all ids _)) by now apply NoDup_added_all.
    rewrite added_all_elem, Hst. tauto.
Qed.

Lemma bulkIgnoreIds_twice_witness :
  exists (newIds : list string) (localStorage' : gmap string string),
    bulkIgnoreIds ["c"; "a"] true
      (<[STORAGE_KEY := stringify (JArr (map JStr ["a"; "b"; "a"]))]> ∅)
    = Returns (map JStr newIds, localStorage')
    /\ (forall x, x ∈ newIds <-> x ∈ ["a"; "b"; "a"] \/ x ∈ ["c"; "a"])
    /\ bulkIgnoreIds ["c"; "a"] true localStorage' = Returns (map JStr newIds, localStorage')
    /\ (true = true ->
        exists (back : list string) (localStorage'' : gmap string string),
          bulkIgnoreIds ["c"; "a"] false localStorage'
          = Returns (map JStr back, localStorage'')
          /\ forall x, x ∈ back <-> x ∈ ["a"; "b"; "a"] /\ x ∉ ["c"; "a"]).
Proof.
  apply (bulkIgnoreIds_twice _ ["a"; "b"; "a"] ["c"; "a"] true).
  apply getIgnoredIds_after_write.
Defined.

(** X8.  On a store that holds a sequence of ids without duplicates,
    [toggleIgnoreId id] does what [bulkIgnoreIds] does with [id] alone: it
    returns and persists the same sequence as [bulkIgnoreIds [id] false] when
    [id] is stored, as [bulkIgnoreIds [id] true] when it is not. *)
Theorem toggleIgnoreId_as_bulk (localStorage : gmap string string)
    (stored : list string) (id : string) :
  getIgnoredIds localStorage = Returns (JArr (map JStr stored)) ->
  NoDup stored ->
  toggleIgnoreId id localStorage
  = bulkIgnoreIds [id] (negb (bool_decide (id ∈ stored))) localStorage.
Proof.
  intros Hget Hnd. rewrite (toggleIgnoreId_ids id _ stored Hget).
  rewrite (bulkIgnoreIds_fold [id] _ _ stored Hget). cbv zeta.
  rewrite (added_all_nodup stored Hnd). unfold toggled.
  case_bool_decide as Hin; cbn [negb].
  - unfold deleted_all. cbn [fold_left].
    assert (E : List.filter (fun x => negb (String.eqb x id)) stored
                = List.filter (fun y => negb (String.eqb id y)) stored).
    { apply List.filter_ext. intros x. now rewrite String.eqb_sym. }
    now rewrite E.
  - unfold added_all. cbn [fold_left]. unfold added.
    now rewrite bool_decide_eq_false_2.
Qed.

Lemma toggleIgnoreId_as_bulk_witness :
  toggleIgnoreId "b" (<[STORAGE_KEY := stringify (JArr (map JStr ["a"; "b"]))]> ∅)
  = bulkIgnoreIds ["b"] (negb (bool_decide ("b" ∈ ["a"; "b"])))
      (<[STORAGE_KEY := stringify (JArr (map JStr ["a"; "b"]))]> ∅).
Proof.
  apply (toggleIgnoreId_as_bulk _ ["a"; "b"] "b").
  - apply getIgnoredIds_after_write.
  - apply (bool_decide_unpack _). vm_compute. exact I.
Defined.

End StoreProperties.

(** ** The dataset loader *)
Module LoaderProperties.
Import JsString Json Url Runtime DataManager.
Import StringFacts SearchFacts UrlNotions UrlFacts FormFacts UrlRoundTrip.
Import LoaderNotions Examples LoaderFacts.
Import LoadNotions PagedExample LoadFacts FailureNotions PageFacts.

(** X9.  A string without a colon is no URL: both loaders reject it with the
    error [The provided URL is not valid.], after the two error lines on the
    console and without any request. *)
Theorem loadDataset_invalid_url (w : World) (url : string) (st : State) (depth : nat) :
  no_char ":" url = true ->
  loadDataset (S depth) w url st
  = Some (Throws (Error "The provided URL is not valid."),
          {| requests := requests st;
             console := console st ++ [(error, "Invalid URL provided:");
                                       (error, "Error loading dataset:")] |})
  /\ ServicesDataManager.loadDataset w url st
     = Some (Throws (Error "The provided URL is not valid."),
             {| requests := requests st;
                console := console st ++ [(error, "Invalid URL provided:");
                                          (error, "Error loading dataset:")] |}).
Proof.
  intros H. apply parse_no_colon in H. split.
  - cbn [loadDataset]. rewrite (loadDataset_body_invalid _ w url st H).
    unfold logged. cbn [requests console]. now rewrite <- List.app_assoc.
  - unfold ServicesDataManager.loadDataset, try_catch. rewrite H.
    unfold Runtime.bindM, console_write, throw. cbn [requests console].
    now rewrite <- List.app_assoc.
Qed.

Lemma loadDataset_invalid_url_witness :
  loadDataset 1 silent_api "example.com/report.json" initial
  = Some (Throws (Error "The provided URL is not valid."),
          {| requests := requests initial;
             console := console initial ++ [(error, "Invalid URL provided:");
                                            (error, "Error loading dataset:")] |})
  /\ ServicesDataManager.loadDataset silent_api "example.com/report.json" initial
     = Some (Throws (Error "The provided URL is not valid."),
             {| requests := requests initial;
                console := console initial ++ [(error, "Invalid URL provided:");
                                               (error, "Error loading dataset:")] |}).
Proof.
  apply (loadDataset_invalid_url silent_api "example.com/report.json" initial 0).
  reflexivity.
Defined.

(** X10.  When the first request fails, because the network fails, or the
    status of the response is not one of success, or its body is no JSON,
    both loaders reject with that very error (a [TypeError], the error
    [Failed to fetch data: <statusText> (<status>)], a [SyntaxError]) after
    this one request: there is no retry and no other request. *)
Theorem loadDataset_first_request_fails (w : World) (url : string) (st : State)
    (urlObj : URL) (e : Json.error) (depth : nat) :
  Url.parse url = Some urlObj ->
  first_failure w url st = Some e ->
  loadDataset (S depth) w url st
  = Some (Throws e, logged error "Error loading dataset:" (asked url st))
  /\ exists st',
       ServicesDataManager.loadDataset w url st = Some (Throws e, st')
       /\ requests st' = requests st ++ [url].
Proof.
  intros Hp Hf. split.
  - cbn [loadDataset]. apply (loadDataset_body_throws _ w url st _ urlObj e Hp).
    now apply extractRecords_first_failure.
  - destruct (services_loadDataset_run w url st urlObj Hp) as (st0 & Hreq & ->).
    unfold first_failure in Hf.
    destruct (network w (List.length (requests st)) url) as [|resp].
    + injection Hf as <-. eexists. split; [reflexivity|].
      cbn [logged asked requests]. now rewrite Hreq.
    + destruct (ok resp).
      * destruct (body resp); [discriminate|]. injection Hf as <-.
        eexists. split; [reflexivity|]. cbn [logged asked requests]. now rewrite Hreq.
      * injection Hf as <-. eexists. split; [reflexivity|].
        cbn [logged asked requests]. now rewrite Hreq.
Qed.

Lemma loadDataset_first_request_fails_witness :
  loadDataset 1 (failing not_found) report_url initial
  = Some (Throws (Error (fetch_error_message not_found)),
          logged error "Error loading dataset:" (asked report_url initial))
  /\ exists st',
       ServicesDataManager.loadDataset (failing not_found) report_url initial
       = Some (Throws (Error (fetch_error_message not_found)), st')
       /\ requests st' = requests initial ++ [report_url].
Proof.
  apply (loadDataset_first_request_fails (failing not_found) report_url initial
           report_urlObj _ 0).
  - vm_compute. reflexivity.
  - reflexivity.
Defined.

(** X11.  When the first response of a public API URL has records, counts
    [totalPages > 1] pages and is the page 1, the load requests the URL, then
    each of the pages 2, ..., [totalPages] once, in this order, at the URL
    rewritten with [page=p]: [totalPages] requests in all.  Whatever the pages
    answer, the load resolves, without a page-size retry, to a dataset whose
    records begin with those of the first response. *)
Theorem loadDataset_requests_every_page (w : World) (url : string) (st : State)
    (urlObj : URL) (resp : Response) (data : ApiResponse) (pg : Pagination)
    (first : list json) (depth : nat) :
  Url.parse url = Some urlObj ->
  network w (List.length (requests st)) url = Responded resp ->
  ok resp = true ->
  body resp = Some data ->
  Runtime.blockers data = Some first ->
  first <> [] ->
  pagination data = Some pg ->
  isPublicApi urlObj = true ->
  (1 < totalPages pg)%Z ->
  page pg = 1%Z ->
  exists (ds : Dataset) (st' : State) (more : list json),
    loadDataset (S depth) w url st = Some (Returns ds, st')
    /\ requests st'
       = requests st ++ url :: map (pageUrl urlObj) (later_pages (totalPages pg))
    /\ (forall p, p ∈ later_pages (totalPages pg) <-> (2 <= p <= totalPages pg)%Z)
    /\ List.length (requests st') = List.length (requests st) + Z.to_nat (totalPages pg)
    /\ retries st' = retries st
    /\ dataset_blockers ds = first ++ more.
Proof.
  intros Hp Hn Hok Hb Hbl Hne Hpg Hapi Htot Hpage.
  destruct (extractRecords_paged w url st urlObj resp data pg first
              Hn Hok Hb Hbl Hne Hpg Hapi Htot Hpage) as (more & st' & He & Hr & Ht & _).
  exists (dataset_of w url urlObj data (first ++ more)), st', more.
  split; [|split; [exact Hr|split; [|split; [|split; [exact Ht | reflexivity]]]]].
  - cbn [loadDataset]. apply (loadDataset_body_no_retry _ w url st st' urlObj data _ Hp He).
    apply retry_condition_records. destruct first; [congruence | discriminate].
  - intros p. unfold later_pages. rewrite pages_from_range. lia.
  - rewrite Hr, List.length_app. cbn [List.length]. rewrite length_map.
    unfold later_pages. rewrite length_pages_from. lia.
Qed.

Lemma loadDataset_requests_every_page_witness :
  exists (ds : Dataset) (st' : State) (more : list json),
    loadDataset 1 paged_api paged_url initial = Some (Returns ds, st')
    /\ requests st'
       = requests initial ++ paged_url :: map (pageUrl paged_urlObj) (later_pages 3)
    /\ (forall p, p ∈ later_pages 3 <-> (2 <= p <= 3)%Z)
    /\ List.length (requests st') = List.length (requests initial) + Z.to_nat 3
    /\ retries st' = retries initial
    /\ dataset_blockers ds = [record "b0"] ++ more.
Proof.
  apply (loadDataset_requests_every_page paged_api paged_url initial paged_urlObj
           {| status := 200; statusText := "OK"; body := Some (page_of 0) |}
           (page_of 0)
           {| totalPages := 3; pageSize := 1; page := 1; totalCount := 3 |}
           [record "b0"] 0).
  - vm_compute. reflexivity.
  - reflexivity.
  - reflexivity.
  - reflexivity.
  - reflexivity.
  - discriminate.
  - reflexivity.
  - vm_compute. reflexivity.
  - reflexivity.
  - reflexivity.
Defined.

(** X12.  In such a load, when every page from 2 to [totalPages] answers with
    success and with records in [blockers], the records of the dataset are
    those of the first response followed by those of the pages, in the order
    of the pages: none is lost, and their number is the sum. *)
Theorem loadDataset_concatenates_pages (w : World) (url : string) (st : State)
    (urlObj : URL) (resp : Response) (data : ApiResponse) (pg : Pagination)
    (first : list json) (pages : list (list json)) (depth : nat) :
  Url.parse url = Some urlObj ->
  network w (List.length (requests st)) url = Responded resp ->
  ok resp = true ->
  body resp = Some data ->
  Runtime.blockers data = Some first ->
  first <> [] ->
  pagination data = Some pg ->
  isPublicApi urlObj = true ->
  (1 < totalPages pg)%Z ->
  page pg = 1%Z ->
  List.length pages = Z.to_nat (totalPages pg - 1) ->
  pages_answered w urlObj (S (List.length (requests st))) 2 pages ->
  exists (ds : Dataset) (st' : State),
    loadDataset (S depth) w url st = Some (Returns ds, st')
    /\ dataset_blockers ds = first ++ concat pages
    /\ List.length (dataset_blockers ds)
       = List.length first + list_sum (map (@List.length json) pages).
Proof.
  intros Hp Hn Hok Hb Hbl Hne Hpg Hapi Htot Hpage Hlen Hans.
  destruct (extractRecords_paged w url st urlObj resp data pg first
              Hn Hok Hb Hbl Hne Hpg Hapi Htot Hpage) as (more & st' & He & _ & _ & Hmore).
  rewrite (Hmore pages Hlen Hans) in He.
  exists (dataset_of w url urlObj data (first ++ concat pages)), st'.
  split; [|split; [reflexivity|]].
  - cbn [loadDataset]. apply (loadDataset_body_no_retry _ w url st st' urlObj data _ Hp He).
    apply retry_condition_records. destruct first; [congruence | discriminate].
  - cbn [dataset_of dataset_blockers]. now rewrite List.length_app, length_concat.
Qed.

Lemma loadDataset_concatenates_pages_witness :
  exists (ds : Dataset) (st' : State),
    loadDataset 1 paged_api paged_url initial = Some (Returns ds, st')
    /\ dataset_blockers ds = [record "b0"] ++ concat [[record "b1"]; [record "b2"]]
    /\ List.length (dataset_blockers ds)
       = List.length [record "b0"]
         + list_sum (map (@List.length json) [[record "b1"]; [record "b2"]]).
Proof.
  apply (loadDataset_concatenates_pages paged_api paged_url initial paged_urlObj
           {| status := 200; statusText := "OK"; body := Some (page_of 0) |}
           (page_of 0)
           {| totalPages := 3; pageSize := 1; page := 1; totalCount := 3 |}
           [record "b0"] [[record "b1"]; [record "b2"]] 0).
  - vm_compute. reflexivity.
  - reflexivity.
  - reflexivity.
  - reflexivity.
  - reflexivity.
  - discriminate.
  - reflexivity.
  - vm_compute. reflexivity.
  - reflexivity.
  - reflexivity.
  - reflexivity.
  - split; [|split; [|exact I]].
    + exists {| status := 200; statusText := "OK"; body := Some (page_of 1) |}, (page_of 1).
      repeat split; discriminate.
    + exists {| status := 200; statusText := "OK"; body := Some (page_of 2) |}, (page_of 2).
      repeat split; discriminate.
Defined.

(** X13.  Every dataset that [loadDataset] returns has a name that is not
    empty and that contains the first date of its [url], when this has one;
    its [timestamp] is the time of the load and its [id] the identifier taken
    from the browser; its [url] is a valid URL, the one given or the one of
    the page-size retry. *)
Theorem loadDataset_dataset_invariants (w : World) (url : string) (st st' : State)
    (ds : Dataset) (depth : nat) :
  loadDataset depth w url st = Some (Returns ds, st') ->
  name ds <> EmptyString
  /\ (forall d, match_date (DataManager.url ds) = Some d -> includes (name ds) d = true)
  /\ timestamp ds = now w
  /\ id ds = local_id w
  /\ (exists u, Url.parse (DataManager.url ds) = Some u)
  /\ (DataManager.url ds = url
      \/ exists urlObj, Url.parse url = Some urlObj /\ DataManager.url ds = retryUrl urlObj).
Proof.
  intros H. apply loadDataset_Returns in H
    as (url' & urlObj' & data & blockers & -> & Hp & Hurl).
  cbn [dataset_of name DataManager.url timestamp id].
  destruct (deriveName_dated data urlObj' (match_date url')) as (base & Hb & ->).
  split; [now apply dated_not_empty|]. split.
  { intros d ->. apply dated_includes. }
  split; [reflexivity|]. split; [reflexivity|]. split; [eauto | exact Hurl].
Qed.

Lemma loadDataset_dataset_invariants_witness :
  let ds := dataset_of (browser (fun _ _ => answer unnamed_page)) report_url report_urlObj
              unnamed_page (default [] (Runtime.blockers unnamed_page)) in
  name ds <> EmptyString
  /\ (forall d, match_date (DataManager.url ds) = Some d -> includes (name ds) d = true)
  /\ timestamp ds = now (browser (fun _ _ => answer unnamed_page))
  /\ id ds = local_id (browser (fun _ _ => answer unnamed_page))
  /\ (exists u, Url.parse (DataManager.url ds) = Some u)
  /\ (DataManager.url ds = report_url
      \/ exists urlObj, Url.parse report_url = Some urlObj
                        /\ DataManager.url ds = retryUrl urlObj).
Proof.
  apply (loadDataset_dataset_invariants (browser (fun _ _ => answer unnamed_page))
           report_url initial (requested report_url) _ 1).
  vm_compute. reflexivity.
Defined.

(** X14.  When the response carries an [audit_name] that is not empty, is not
    [Untitled Audit] and does not look like a file name (it has no [_], and
    no [-] unless it has a space), a load that does not retry names the
    dataset with it, as it is, followed by the first date of the URL between
    parentheses when the URL has a date that the name has not. *)
Theorem loadDataset_keeps_audit_name (w : World) (url : string) (st st1 : State)
    (urlObj : URL) (data : ApiResponse) (blockers : list json) (auditName : string)
    (depth : nat) :
  Url.parse url = Some urlObj ->
  extractRecords w url urlObj st = Some (Returns (data, blockers), st1) ->
  retry_condition blockers data urlObj = false ->
  audit_name data = Some auditName ->
  auditName <> EmptyString ->
  auditName <> "Untitled Audit" ->
  is_slug auditName = false ->
  exists ds : Dataset,
    loadDataset (S depth) w url st = Some (Returns ds, st1)
    /\ name ds = dated auditName (match_date url).
Proof.
  intros Hp He Hr Hn Hne Hu Hs. exists (dataset_of w url urlObj data blockers).
  split; [cbn [loadDataset]; now apply loadDataset_body_no_retry|].
  cbn [dataset_of name]. now apply deriveName_human.
Qed.

Lemma loadDataset_keeps_audit_name_witness :
  exists ds : Dataset,
    loadDataset 1 (browser (fun _ _ => answer (named_page "Spring audit - home page")))
      report_url initial
    = Some (Returns ds, requested report_url)
    /\ name ds = dated "Spring audit - home page" (match_date report_url).
Proof.
  apply (loadDataset_keeps_audit_name
           (browser (fun _ _ => answer (named_page "Spring audit - home page")))
           report_url initial (requested report_url) report_urlObj
           (named_page "Spring audit - home page") [record "b-1"]
           "Spring audit - home page" 0).
  - vm_compute. reflexivity.
  - vm_compute. reflexivity.
  - reflexivity.
  - reflexivity.
  - discriminate.
  - discriminate.
  - reflexivity.
Defined.

(** X15.  When the [audit_name] of the response looks like a file name (it
    has a [_], or a [-] and no space) and the last segment of the path of the
    URL, without its extension, is not empty, the name of the dataset is
    derived from the URL alone: it is the name that the same response
    without [audit_name] gets. *)
Theorem loadDataset_slug_name (w : World) (url : string) (st st1 : State)
    (urlObj : URL) (data : ApiResponse) (blockers : list json) (auditName : string)
    (depth : nat) :
  Url.parse url = Some urlObj ->
  extractRecords w url urlObj st = Some (Returns (data, blockers), st1) ->
  retry_condition blockers data urlObj = false ->
  audit_name data = Some auditName ->
  is_slug auditName = true ->
  file_stem urlObj <> EmptyString ->
  exists ds : Dataset,
    loadDataset (S depth) w url st = Some (Returns ds, st1)
    /\ name ds = deriveName (unnamed data) urlObj (match_date url).
Proof.
  intros Hp He Hr Hn Hs Hstem. exists (dataset_of w url urlObj data blockers).
  split; [cbn [loadDataset]; now apply loadDataset_body_no_retry|].
  cbn [dataset_of name]. now apply (deriveName_slug data urlObj _ auditName).
Qed.

Lemma loadDataset_slug_name_witness :
  exists ds : Dataset,
    loadDataset 1 (browser (fun _ _ => answer (named_page "audit_export_v2")))
      report_url initial
    = Some (Returns ds, requested report_url)
    /\ name ds
       = deriveName (unnamed (named_page "audit_export_v2")) report_urlObj
           (match_date report_url).
Proof.
  apply (loadDataset_slug_name
           (browser (fun _ _ => answer (named_page "audit_export_v2")))
           report_url initial (requested report_url) report_urlObj
           (named_page "audit_export_v2") [record "b-1"] "audit_export_v2" 0).
  - vm_compute. reflexivity.
  - vm_compute. reflexivity.
  - reflexivity.
  - reflexivity.
  - reflexivity.
  - vm_compute. discriminate.
Defined.

(** X16.  [extractFromList] makes a record of an item unless the item is
    [null], or is given the content [Type: ...] from a [Type] that cannot be
    converted to a string (an object with a member named [toString], or an
    array that holds one).  From a list of items of which it can make
    records, it builds one record per item, in order.  Each record is an
    object with the keys [id], [url], [messages], [created_at], [content],
    [categories], [tags], in this order; its [messages] is an array; its [id]
    is that of the item when the item has one that is truthy, and
    [res_<index>_<time>] otherwise, so that two items without id never get
    the same id.  From a list with an item of which it cannot make a record,
    it throws a [TypeError]. *)
Theorem extractFromList_records (data : ApiResponse) (w : World) (items : list json) :
  (Forall (fun item => extractable item = true) items ->
   exists records : list json,
     extractFromList data w items = Returns records
     /\ List.length records = List.length items
     /\ (forall i item record,
           items !! i = Some item -> records !! i = Some record ->
           exists fields,
             record = JObj fields
             /\ map fst fields = record_keys
             /\ isArray (lookup_field "messages" fields) = true
             /\ (truthy (field item "id") = true ->
                 lookup_field "id" fields = field item "id")
             /\ (truthy (field item "id") = false ->
                 lookup_field "id" fields = Some (JStr (fallback_id w i))))
     /\ (forall i j item item' record record',
           items !! i = Some item -> records !! i = Some record ->
           items !! j = Some item' -> records !! j = Some record' ->
           truthy (field item "id") = false -> truthy (field item' "id") = false ->
           i <> j -> field record "id" <> field record' "id"))
  /\ (Exists (fun item => extractable item = false) items ->
      extractFromList data w items = Throws TypeError).
Proof.
  split; [|apply extractFrom_throws].
  intros H. destruct (extractFrom_records data w items 0 H) as (records & E & Hl & Hrec).
  exists records. split; [exact E|]. split; [exact Hl|].
  assert (Hfields : forall i item record,
             items !! i = Some item -> records !! i = Some record ->
             exists fields,
               record = JObj fields
               /\ map fst fields = record_keys
               /\ isArray (lookup_field "messages" fields) = true
               /\ (truthy (field item "id") = true ->
                   lookup_field "id" fields = field item "id")
               /\ (truthy (field item "id") = false ->
                   lookup_field "id" fields = Some (JStr (fallback_id w i)))).
  { intros i item record Hi Hr. specialize (Hrec i item record Hi Hr).
    cbn [Nat.add] in Hrec.
    assert (Hitem : extractable item = true).
    { rewrite Forall_forall in H. apply H. eapply list_elem_of_lookup_2. eassumption. }
    destruct (extractItem_record data w i item Hitem)
      as (fields & E' & Hk & Hm & _ & Hf & Ht).
    rewrite E' in Hrec. injection Hrec as <-. exists fields. auto. }
  split; [exact Hfields|].
  intros i j item item' record record' Hi Hr Hj Hr' Hn Hn' Hij.
  destruct (Hfields i item record Hi Hr) as (f & -> & _ & _ & _ & Hid).
  destruct (Hfields j item' record' Hj Hr') as (f' & -> & _ & _ & _ & Hid').
  cbn [field]. rewrite (Hid Hn), (Hid' Hn'). intros Heq.
  apply Hij, (fallback_id_inj w). congruence.
Qed.

Lemma extractFromList_records_witness :
  (exists records : list json,
      extractFromList (table_page sample_items) silent_api sample_items = Returns records
      /\ List.length records = List.length sample_items
      /\ (forall i item record,
            sample_items !! i = Some item -> records !! i = Some record ->
            exists fields,
              record = JObj fields
              /\ map fst fields = record_keys
              /\ isArray (lookup_field "messages" fields) = true
              /\ (truthy (field item "id") = true ->
                  lookup_field "id" fields = field item "id")
              /\ (truthy (field item "id") = false ->
                  lookup_field "id" fields = Some (JStr (fallback_id silent_api i))))
      /\ (forall i j item item' record record',
            sample_items !! i = Some item -> records !! i = Some record ->
            sample_items !! j = Some item' -> records !! j = Some record' ->
            truthy (field item "id") = false -> truthy (field item' "id") = false ->
            i <> j -> field record "id" <> field record' "id"))
  /\ extractFromList (table_page sample_items) silent_api (sample_items ++ [odd_item])
     = Throws TypeError.
Proof.
  split.
  - apply (proj1 (extractFromList_records (table_page sample_items) silent_api
                    sample_items)).
    repeat constructor.
  - apply (proj2 (extractFromList_records (table_page sample_items) silent_api
                    (sample_items ++ [odd_item]))).
    apply Exists_app. right. constructor. reflexivity.
Defined.

(** X17.  The loader of [src/services/DataManager.ts], given a valid URL whose
    response has a status of success and a JSON body, makes this one request
    and no other.  It resolves exactly when the response has records in
    [blockers] or does not count a positive [totalCount]: the dataset has the
    URL given, the [blockers] of the response and its [audit_name], or
    [Untitled Audit] when this is missing or empty.  Otherwise it rejects with
    the message about the page size. *)
Theorem services_loadDataset_outcome (w : World) (url : string) (st : State)
    (parsedUrl : URL) (resp : Response) (data : ApiResponse) :
  Url.parse url = Some parsedUrl ->
  network w (List.length (requests st)) url = Responded resp ->
  ok resp = true ->
  body resp = Some data ->
  exists (r : outcome ServicesDataManager.Dataset) (st' : State),
    ServicesDataManager.loadDataset w url st = Some (r, st')
    /\ requests st' = requests st ++ [url]
    /\ (has_records data = true ->
        r = Returns {| ServicesDataManager.id := local_id w;
                       ServicesDataManager.url := url;
                       ServicesDataManager.name := services_name data;
                       ServicesDataManager.dataset_blockers :=
                         default [] (Runtime.blockers data);
                       ServicesDataManager.timestamp := now w |})
    /\ (has_records data = false -> r = Throws (Error page_size_message)).
Proof.
  intros Hp Hn Hok Hb.
  destruct (services_loadDataset_run w url st parsedUrl Hp) as (st0 & Hreq & ->).
  rewrite Hn, Hok, Hb. destruct (has_records data); eexists _, _;
    (split; [reflexivity|]);
    (split; [cbn [logged asked requests]; now rewrite Hreq|]);
    split; intros Hx; first [discriminate Hx | reflexivity].
Qed.

Lemma services_loadDataset_outcome_witness :
  exists (r : outcome ServicesDataManager.Dataset) (st' : State),
    ServicesDataManager.loadDataset (browser (fun _ _ => answer unnamed_page))
      report_url initial = Some (r, st')
    /\ requests st' = requests initial ++ [report_url]
    /\ (has_records unnamed_page = true ->
        r = Returns {| ServicesDataManager.id :=
                         local_id (browser (fun _ _ => answer unnamed_page));
                       ServicesDataManager.url := report_url;
                       ServicesDataManager.name := services_name unnamed_page;
                       ServicesDataManager.dataset_blockers :=
                         default [] (Runtime.blockers unnamed_page);
                       ServicesDataManager.timestamp :=
                         now (browser (fun _ _ => answer unnamed_page)) |})
    /\ (has_records unnamed_page = false -> r = Throws (Error page_size_message)).
Proof.
  apply (services_loadDataset_outcome (browser (fun _ _ => answer unnamed_page))
           report_url initial report_urlObj
           {| status := 200; statusText := "OK"; body := Some unnamed_page |} unnamed_page).
  - vm_compute. reflexivity.
  - reflexivity.
  - reflexivity.
  - reflexivity.
Defined.

End LoaderProperties.

(** * The components of the dashboard *)
Module ViewProperties.
Import JsString Json DataManager JsData View.
Import StringFacts JsonFacts StoreNotions StoreFacts IdNotions IdFacts.
Import SortFacts ObjectFacts SetFacts ViewNotions GroupFacts ViewFacts TableFacts ViewExample.

(** X18.  The numbers in the header of the dashboard agree: the records that
    are active and those that are ignored are together all the records of the
    datasets, and the number of distinct URLs is at most the number of
    records, and zero only when there is no record. *)
Theorem dashboard_counts (datasets : list Dataset) (ignoredIds : list json) :
  List.length (Dashboard.activeData (Dashboard.allBlockers datasets) ignoredIds)
  + Dashboard.datasetIgnoredCount (Dashboard.allBlockers datasets) ignoredIds
  = List.length (Dashboard.allBlockers datasets)
  /\ List.length (Dashboard.allBlockers datasets)
     = list_sum (map (fun d => List.length (blockers d)) datasets)
  /\ Dashboard.totalUniqueUrls (Dashboard.allBlockers datasets)
     <= List.length (Dashboard.allBlockers datasets)
  /\ (Dashboard.totalUniqueUrls (Dashboard.allBlockers datasets) = 0
      <-> Dashboard.allBlockers datasets = []).
Proof.
  unfold Dashboard.activeData, Dashboard.datasetIgnoredCount, Dashboard.totalUniqueUrls.
  split; [|split; [|split]].
  - rewrite Nat.add_comm.
    apply (filter_partition_length (fun d => includes_id ignoredIds (id d))).
  - apply length_flat_map.
  - etransitivity; [apply length_from_le|]. now rewrite length_map.
  - rewrite length_zero_iff_nil, from_nil. split.
    + apply map_eq_nil.
    + now intros ->.
Qed.

(** X19.  The cards of the overview add up to the dashboard: the active
    counts of the datasets sum to the number of active records, the two
    revisions of the dashboard keep the same active records, and the distinct
    URLs of all datasets are at least those of each dataset and at most the
    sum over the datasets. *)
Theorem overview_cards_add_up (datasets : list Dataset) (ignoredIds : list json) :
  list_sum (map (fun ds => Overview.activeCount (Overview.getDatasetStats ignoredIds ds))
                datasets)
  = List.length (DashboardTagged.activeData (DashboardTagged.allBlockers datasets)
                                            ignoredIds)
  /\ map DashboardTagged.blocker
         (DashboardTagged.activeData (DashboardTagged.allBlockers datasets) ignoredIds)
     = Dashboard.activeData (Dashboard.allBlockers datasets) ignoredIds
  /\ Dashboard.totalUniqueUrls (Dashboard.allBlockers datasets)
     <= list_sum (map (fun ds => Overview.uniqueUrlCount
                                   (Overview.getDatasetStats ignoredIds ds)) datasets)
  /\ Forall (fun ds =>
               Overview.uniqueUrlCount (Overview.getDatasetStats ignoredIds ds)
               <= Dashboard.totalUniqueUrls (Dashboard.allBlockers datasets)
               /\ Overview.activeCount (Overview.getDatasetStats ignoredIds ds)
                  <= List.length (blockers ds))
            datasets.
Proof.
  assert (Hmap : map DashboardTagged.blocker
                   (DashboardTagged.activeData (DashboardTagged.allBlockers datasets)
                                               ignoredIds)
                 = Dashboard.activeData (Dashboard.allBlockers datasets) ignoredIds).
  { unfold DashboardTagged.activeData, DashboardTagged.allBlockers,
      Dashboard.activeData, Dashboard.allBlockers.
    induction datasets as [|d l IH]; [reflexivity|]. cbn [flat_map].
    rewrite !List.filter_app, map_app, IH. f_equal.
    rewrite <- (filter_map_comm (fun b => negb (includes_id ignoredIds (id b)))
                  DashboardTagged.blocker).
    rewrite map_map. cbn [DashboardTagged.blocker]. now rewrite map_id. }
  split; [|split; [exact Hmap|split]].
  - rewrite <- (length_map DashboardTagged.blocker), Hmap.
    unfold Dashboard.activeData, Dashboard.allBlockers.
    rewrite filter_flat_map, length_flat_map. reflexivity.
  - unfold Dashboard.totalUniqueUrls, Dashboard.allBlockers.
    clear Hmap. induction datasets as [|d l IH]; [reflexivity|]. cbn [flat_map map].
    rewrite map_app, list_sum_step.
    etransitivity; [apply length_from_app|]. apply Nat.add_le_mono_l, IH.
  - apply Forall_forall. intros ds Hds. cbn [Overview.getDatasetStats
      Overview.uniqueUrlCount Overview.activeCount]. split.
    + unfold Dashboard.totalUniqueUrls. apply length_from_mono. intros x Hx.
      apply list_elem_of_fmap in Hx as (b & -> & Hb). apply list_elem_of_fmap.
      exists b. split; [reflexivity|]. unfold Dashboard.allBlockers.
      apply list_elem_of_In, in_flat_map. exists ds.
      split; now apply list_elem_of_In.
    + apply submseteq_length, sublist_submseteq, sublist_filter.
Qed.

(** X20.  The button of a row: on a store that holds the ids [ids],
    [handleToggleIgnore id] makes the records of that id active when the id
    was ignored and hides them when it was not, and changes no other record. *)
Theorem handleToggleIgnore_rows (localStorage : gmap string string) (ids : list string)
    (id : string) (data : list Blocker) :
  getIgnoredIds localStorage = Returns (JArr (map JStr ids)) ->
  exists (newIds : list string) (localStorage' : gmap string string),
    Dashboard.handleToggleIgnore id localStorage = Returns (map JStr newIds, localStorage')
    /\ Dashboard.activeData data (map JStr newIds)
       = List.filter (fun d => if String.eqb (View.id d) id
                               then bool_decide (id ∈ ids)
                               else negb (bool_decide (View.id d ∈ ids))) data
    /\ (id ∉ ids ->
        Dashboard.activeData data (map JStr newIds)
        = List.filter (fun d => negb (String.eqb (View.id d) id))
                      (Dashboard.activeData data (map JStr ids)))
    /\ (id ∈ ids ->
        Dashboard.activeData data (map JStr ids)
        = List.filter (fun d => negb (String.eqb (View.id d) id))
                      (Dashboard.activeData data (map JStr newIds))).
Proof.
  intros Hget. exists (toggled id ids). eexists.
  split; [apply (toggleIgnoreId_ids id _ ids Hget)|].
  unfold Dashboard.activeData. split; [|split].
  - apply List.filter_ext. intros d. rewrite includes_id_toggled, !includes_id_ids.
    destruct (String.eqb (View.id d) id); [apply negb_involutive | reflexivity].
  - intros Hn. rewrite filter_filter_comm. apply List.filter_ext. intros d.
    rewrite includes_id_toggled, !includes_id_ids.
    destruct (String.eqb_spec (View.id d) id) as [->|Hne]; cbn [negb].
    + now rewrite (bool_decide_eq_false_2 _ Hn).
    + now rewrite andb_true_r.
  - intros Hin. rewrite filter_filter_comm. apply List.filter_ext. intros d.
    rewrite includes_id_toggled, !includes_id_ids.
    destruct (String.eqb_spec (View.id d) id) as [->|Hne]; cbn [negb].
    + now rewrite (bool_decide_eq_true_2 _ Hin).
    + now rewrite andb_true_r.
Qed.

Lemma handleToggleIgnore_rows_witness :
  exists (newIds : list string) (localStorage' : gmap string string),
    Dashboard.handleToggleIgnore "3"
      (<[STORAGE_KEY := stringify (JArr (map JStr ["1"]))]> ∅)
    = Returns (map JStr newIds, localStorage')
    /\ Dashboard.activeData rows (map JStr newIds)
       = List.filter (fun d => if String.eqb (View.id d) "3"
                               then bool_decide ("3" ∈ ["1"])
                               else negb (bool_decide (View.id d ∈ ["1"]))) rows
    /\ ("3" ∉ ["1"] ->
        Dashboard.activeData rows (map JStr newIds)
        = List.filter (fun d => negb (String.eqb (View.id d) "3"))
                      (Dashboard.activeData rows (map JStr ["1"])))
    /\ ("3" ∈ ["1"] ->
        Dashboard.activeData rows (map JStr ["1"])
        = List.filter (fun d => negb (String.eqb (View.id d) "3"))
                      (Dashboard.activeData rows (map JStr newIds))).
Proof.
  apply (handleToggleIgnore_rows _ ["1"] "3" rows). apply getIgnoredIds_after_write.
Defined.

(** X21.  The two views of the table: without a search the view of the
    active records is [activeData] of the dashboard; a search keeps, in
    order, the rows of the view whose URL or first message contains it,
    whatever the case of the letters; every row of a view is ignored or not
    as the view says; and the two views share out the rows of [data] that
    match. *)
Theorem filteredData_views (data : list Blocker) (ignoredIds : list json)
    (showIgnored : bool) (search : string) :
  TableSection.filteredData data ignoredIds false EmptyString
  = Dashboard.activeData data ignoredIds
  /\ TableSection.filteredData data ignoredIds showIgnored search
     = List.filter (matches search)
                   (TableSection.filteredData data ignoredIds showIgnored EmptyString)
  /\ TableSection.filteredData data ignoredIds showIgnored (lowerCase search)
     = TableSection.filteredData data ignoredIds showIgnored search
  /\ Forall (fun item => includes_id ignoredIds (id item) = showIgnored)
            (TableSection.filteredData data ignoredIds showIgnored search)
  /\ sublist (TableSection.filteredData data ignoredIds showIgnored search) data
  /\ TableSection.filteredData data ignoredIds false search
     ++ TableSection.filteredData data ignoredIds true search
     ≡ₚ List.filter (matches search) data.
Proof.
  split; [|split; [|split; [|split; [|split]]]].
  - rewrite filteredData_filter. apply List.filter_ext. intros item.
    rewrite matches_empty. now destruct (includes_id ignoredIds (id item)).
  - rewrite !filteredData_filter, filter_filter_comm. apply List.filter_ext. intros item.
    rewrite matches_empty. now rewrite andb_true_r.
  - rewrite !filteredData_filter. apply List.filter_ext. intros item.
    unfold matches. now rewrite lowerCase_idem.
  - rewrite filteredData_filter. apply Forall_forall. intros item Hitem.
    apply elem_of_filter_bool in Hitem as [_ H]. apply andb_true_iff in H as [H _].
    now apply Bool.eqb_prop in H.
  - rewrite filteredData_filter. apply sublist_filter.
  - apply views_perm.
Qed.

(** X22.  The groups of the table by message or by URL.  When no key is the
    name of a property that objects inherit, there is one group for each key,
    in the order in which the keys come first; a group holds the rows of its
    key in their order, none is empty, and together they hold as many rows as
    the view.  With such a key among the rows the grouping throws a
    [TypeError]. *)
Theorem groupedData_groups (groupingMode : TableSection.GroupingMode)
    (filteredData : list Blocker) :
  groupingMode <> TableSection.by_none ->
  (plain_keys (TableSection.group_key groupingMode) filteredData ->
   exists groups : list (string * list Blocker),
     TableSection.groupedData groupingMode filteredData = Returns groups
     /\ map fst groups = from (map (TableSection.group_key groupingMode) filteredData)
     /\ (forall key items,
            (key, items) ∈ groups <->
            key ∈ map (TableSection.group_key groupingMode) filteredData
            /\ items = with_key (TableSection.group_key groupingMode) key filteredData)
     /\ Forall (fun group => snd group <> []) groups
     /\ list_sum (map size_of groups) = List.length filteredData)
  /\ (~ plain_keys (TableSection.group_key groupingMode) filteredData ->
      TableSection.groupedData groupingMode filteredData = Throws TypeError).
Proof.
  intros Hm. rewrite (groupedData_loop _ _ Hm). split.
  - intros Hp.
    destruct (group_loop_grouping _ filteredData [] [] (grouping_nil _) Hp)
      as (groups & E & Hg).
    cbn [app] in Hg. exists groups. split; [exact E|].
    destruct (grouping_groups _ _ _ Hg) as [_ Hel].
    split; [apply Hg|]. split; [exact Hel|]. split; [|apply Hg].
    apply Forall_forall. intros [key items] Hin. cbn [snd].
    apply Hel in Hin as [Hk ->]. now apply with_key_not_nil.
  - intros Hp. apply (group_loop_inherited _ filteredData [] [] (grouping_nil _));
      [constructor | exact Hp].
Qed.

Lemma groupedData_groups_witness :
  TableSection.by_url <> TableSection.by_none
  /\ (plain_keys (TableSection.group_key TableSection.by_url) rows ->
      exists groups : list (string * list Blocker),
        TableSection.groupedData TableSection.by_url rows = Returns groups
        /\ map fst groups = from (map (TableSection.group_key TableSection.by_url) rows)
        /\ (forall key items,
               (key, items) ∈ groups <->
               key ∈ map (TableSection.group_key TableSection.by_url) rows
               /\ items = with_key (TableSection.group_key TableSection.by_url) key rows)
        /\ Forall (fun group => snd group <> []) groups
        /\ list_sum (map size_of groups) = List.length rows)
  /\ (~ plain_keys (TableSection.group_key TableSection.by_url) rows ->
      TableSection.groupedData TableSection.by_url rows = Throws TypeError).
Proof.
  assert (H : TableSection.by_url <> TableSection.by_none) by discriminate.
  split; [exact H|]. apply (groupedData_groups TableSection.by_url rows H).
Defined.

(** X23.  The order of the groups in the table.  [sortedGroupKeys] lists each
    group of [groupedData] once.  By message or by URL the groups come by
    decreasing number of rows, groups of the same size in the order of
    [Object.keys], and the size of a group is the number of rows of the view
    under its key, which is at least one.  Without grouping there is the one
    group [All Items].  In each mode the groups listed hold together every
    row of the view once. *)
Theorem sortedGroupKeys_order (groupingMode : TableSection.GroupingMode)
    (filteredData : list Blocker) (groups : list (string * list Blocker)) :
  TableSection.groupedData groupingMode filteredData = Returns groups ->
  TableSection.sortedGroupKeys groupingMode groups ≡ₚ map fst groups
  /\ NoDup (TableSection.sortedGroupKeys groupingMode groups)
  /\ flat_map (fun key => default [] (own groups key))
              (TableSection.sortedGroupKeys groupingMode groups)
     ≡ₚ filteredData
  /\ (groupingMode <> TableSection.by_none ->
      StronglySorted (fun a b => (TableSection.group_size groups b
                                  <= TableSection.group_size groups a)%Z)
                     (TableSection.sortedGroupKeys groupingMode groups)
      /\ (forall n : Z,
             List.filter (fun key => (TableSection.group_size groups key =? n)%Z)
                         (TableSection.sortedGroupKeys groupingMode groups)
             = List.filter (fun key => (TableSection.group_size groups key =? n)%Z)
                           (keys groups))
      /\ Forall (fun key =>
                   TableSection.group_size groups key
                   = occurrences (TableSection.group_key groupingMode) key filteredData
                   /\ (0 < TableSection.group_size groups key)%Z)
                (TableSection.sortedGroupKeys groupingMode groups))
  /\ (groupingMode = TableSection.by_none ->
      TableSection.sortedGroupKeys groupingMode groups = ["All Items"]).
Proof.
  intros H.
  assert (Hperm : TableSection.sortedGroupKeys groupingMode groups ≡ₚ map fst groups).
  { unfold TableSection.sortedGroupKeys. cbv zeta.
    destruct groupingMode; rewrite ?sort_perm; apply keys_perm. }
  assert (Hnd : NoDup (map fst groups)).
  { destruct groupingMode.
    - apply (grouping_groups (TableSection.group_key TableSection.by_message) groups
               filteredData).
      apply groupedData_grouping; [discriminate | exact H].
    - apply (grouping_groups (TableSection.group_key TableSection.by_url) groups
               filteredData).
      apply groupedData_grouping; [discriminate | exact H].
    - injection H as <-. cbn [map fst]. apply NoDup_singleton. }
  split; [exact Hperm|]. split; [now rewrite Hperm|]. split; [|split].
  - etransitivity; [apply Permutation_flat_map, Hperm|].
    rewrite (shown_groups groups Hnd). apply (groupedData_perm _ _ _ H).
  - intros Hm. pose proof (groupedData_grouping _ _ _ Hm H) as Hg.
    assert (E : TableSection.sortedGroupKeys groupingMode groups
                = sort (fun a b => (TableSection.group_size groups b
                                    - TableSection.group_size groups a)%Z) (keys groups)).
    { now destruct groupingMode. }
    split; [rewrite E; apply sort_decreasing|].
    split; [intros n; rewrite E; apply sort_decreasing_stable|].
    apply Forall_forall. intros key Hkey. rewrite Hperm in Hkey.
    destruct Hg as (Hkeys & Hown & _).
    rewrite (group_size_own _ _ _ (Hown _ Hkey)). split; [reflexivity|].
    rewrite Hkeys in Hkey. apply (proj1 (elem_of_from _ _)) in Hkey.
    pose proof (with_key_not_nil _ _ _ Hkey) as Hne.
    destruct (with_key _ key filteredData); [congruence | cbn [List.length]; lia].
  - intros ->. injection H as <-. reflexivity.
Qed.

Lemma sortedGroupKeys_order_witness :
  exists groups : list (string * list Blocker),
    TableSection.groupedData TableSection.by_url rows = Returns groups
    /\ TableSection.sortedGroupKeys TableSection.by_url groups
       = ["https://a.example/"; "https://b.example/Page"]
    /\ TableSection.sortedGroupKeys TableSection.by_url groups ≡ₚ map fst groups
    /\ NoDup (TableSection.sortedGroupKeys TableSection.by_url groups)
    /\ flat_map (fun key => default [] (own groups key))
                (TableSection.sortedGroupKeys TableSection.by_url groups)
       ≡ₚ rows
    /\ (TableSection.by_url <> TableSection.by_none ->
        StronglySorted (fun a b => (TableSection.group_size groups b
                                    <= TableSection.group_size groups a)%Z)
                       (TableSection.sortedGroupKeys TableSection.by_url groups)
        /\ (forall n : Z,
               List.filter (fun key => (TableSection.group_size groups key =? n)%Z)
                           (TableSection.sortedGroupKeys TableSection.by_url groups)
               = List.filter (fun key => (TableSection.group_size groups key =? n)%Z)
                             (keys groups))
        /\ Forall (fun key =>
                     TableSection.group_size groups key
                     = occurrences (TableSection.group_key TableSection.by_url) key rows
                     /\ (0 < TableSection.group_size groups key)%Z)
                  (TableSection.sortedGroupKeys TableSection.by_url groups))
    /\ (TableSection.by_url = TableSection.by_none ->
        TableSection.sortedGroupKeys TableSection.by_url groups = ["All Items"]).
Proof.
  eexists. split; [reflexivity|]. split; [reflexivity|].
  apply (sortedGroupKeys_order TableSection.by_url rows _ eq_refl).
Defined.

(** X24.  The box of a group.  For a group shown in the table,
    [handleSelectGroup] leaves the rows of the other groups as they are;
    when every row of the group was selected it deselects them all, otherwise
    it selects them all; on a group of one row it does what [handleSelectRow]
    does for that row. *)
Theorem handleSelectGroup_selects (groupedData : list (string * list Blocker))
    (key : string) (items : list Blocker) (selectedIds : list string) :
  own groupedData key = Some items ->
  exists next : list string,
    TableSection.handleSelectGroup groupedData key selectedIds = Returns next
    /\ (forall id, id ∉ map View.id items -> (id ∈ next <-> id ∈ selectedIds))
    /\ (if forallb (has selectedIds) (map View.id items)
        then forall id, id ∈ map View.id items -> id ∉ next
        else forall id, id ∈ map View.id items -> id ∈ next)
    /\ (NoDup selectedIds -> NoDup next)
    /\ (forall item, items = [item] ->
                     next = TableSection.handleSelectRow (View.id item) selectedIds).
Proof.
  intros Hown. unfold TableSection.handleSelectGroup. rewrite Hown. cbv zeta.
  change (forallb (has selectedIds) (map View.id items))
    with (forallb (fun id => has selectedIds id) (map View.id items)).
  set (b := forallb (fun id => has selectedIds id) (map View.id items)).
  pose proof (fold_select_elem b (map View.id items) selectedIds) as Hel.
  eexists. split; [reflexivity|]. split; [|split; [|split]].
  - intros id Hid. rewrite (Hel id). destruct b; tauto.
  - destruct b; intros id Hid; rewrite (Hel id); tauto.
  - apply (fold_select_NoDup b).
  - intros item ->. subst b. clear Hel. cbn [map forallb fold_left].
    unfold TableSection.handleSelectRow.
    cbv zeta. rewrite andb_true_r. reflexivity.
Qed.

Lemma handleSelectGroup_selects_witness :
  exists next : list string,
    TableSection.handleSelectGroup
      [("https://a.example/", [row "1" "https://a.example/" "m"; row "3" "https://a.example/" "m"])]
      "https://a.example/" ["3"; "2"]
    = Returns next
    /\ next = ["3"; "2"; "1"]
    /\ (forall id,
           id ∉ map View.id [row "1" "https://a.example/" "m"; row "3" "https://a.example/" "m"] ->
           (id ∈ next <-> id ∈ ["3"; "2"]))
    /\ (if forallb (has ["3"; "2"])
             (map View.id [row "1" "https://a.example/" "m"; row "3" "https://a.example/" "m"])
        then forall id,
            id ∈ map View.id [row "1" "https://a.example/" "m"; row "3" "https://a.example/" "m"] ->
            id ∉ next
        else forall id,
            id ∈ map View.id [row "1" "https://a.example/" "m"; row "3" "https://a.example/" "m"] ->
            id ∈ next)
    /\ (NoDup ["3"; "2"] -> NoDup next)
    /\ (forall item,
           [row "1" "https://a.example/" "m"; row "3" "https://a.example/" "m"] = [item] ->
           next = TableSection.handleSelectRow (View.id item) ["3"; "2"]).
Proof.
  destruct (handleSelectGroup_selects
              [("https://a.example/",
                [row "1" "https://a.example/" "m"; row "3" "https://a.example/" "m"])]
              "https://a.example/"
              [row "1" "https://a.example/" "m"; row "3" "https://a.example/" "m"]
              ["3"; "2"] eq_refl) as (next & E & H).
  exists next. split; [exact E|]. split; [|exact H].
  vm_compute in E. now injection E as <-.
Defined.

(** X25.  The bulk action of the table: on a store that holds ids, it takes
    the rows whose id is selected out of the view that is shown and keeps the
    other rows of the view in place, puts every selected row of [data] that
    matches the search into the other view, and empties the selection. *)
Theorem handleBulkAction_view (localStorage : gmap string string) (stored : list string)
    (data : list Blocker) (selectedIds : list string) (showIgnored : bool)
    (search : string) :
  getIgnoredIds localStorage = Returns (JArr (map JStr stored)) ->
  exists (newIds : list string) (localStorage' : gmap string string),
    TableSection.handleBulkAction selectedIds showIgnored localStorage
    = Returns (map JStr newIds, localStorage', [])
    /\ getIgnoredIds localStorage' = Returns (JArr (map JStr newIds))
    /\ TableSection.filteredData data (map JStr newIds) showIgnored search
       = List.filter (fun item => negb (has selectedIds (id item)))
                     (TableSection.filteredData data (map JStr stored) showIgnored search)
    /\ (forall item,
           item ∈ data -> has selectedIds (id item) = true ->
           matches search item = true ->
           item ∈ TableSection.filteredData data (map JStr newIds) (negb showIgnored)
                                            search).
Proof.
  intros Hget. unfold TableSection.handleBulkAction, Dashboard.handleBulkIgnore.
  rewrite (bulkIgnoreIds_fold selectedIds (negb showIgnored) _ stored Hget).
  cbn [Json.bind]. eexists _, _. split; [reflexivity|].
  split; [apply getIgnoredIds_after_write|]. split.
  - rewrite !filteredData_filter, filter_filter_comm. apply List.filter_ext. intros item.
    rewrite includes_id_bulk.
    destruct (has selectedIds (id item)), showIgnored,
      (includes_id (map JStr stored) (id item)), (matches search item); reflexivity.
  - intros item Hin Hsel Hm. rewrite filteredData_filter. apply elem_of_filter_bool.
    split; [exact Hin|]. rewrite includes_id_bulk, Hsel, Hm.
    now destruct showIgnored.
Qed.

Lemma handleBulkAction_view_witness :
  exists (newIds : list string) (localStorage' : gmap string string),
    TableSection.handleBulkAction ["1"; "3"] false
      (<[STORAGE_KEY := stringify (JArr (map JStr ["2"]))]> ∅)
    = Returns (map JStr newIds, localStorage', [])
    /\ getIgnoredIds localStorage' = Returns (JArr (map JStr newIds))
    /\ TableSection.filteredData rows (map JStr newIds) false "IMAGES"
       = List.filter (fun item => negb (has ["1"; "3"] (id item)))
                     (TableSection.filteredData rows (map JStr ["2"]) false "IMAGES")
    /\ (forall item,
           item ∈ rows -> has ["1"; "3"] (id item) = true ->
           matches "IMAGES" item = true ->
           item ∈ TableSection.filteredData rows (map JStr newIds) (negb false) "IMAGES").
Proof.
  apply (handleBulkAction_view _ ["2"] rows ["1"; "3"] false "IMAGES").
  apply getIgnoredIds_after_write.
Defined.

(** X26.  The chart of the datasets has one point for each dataset, in the
    order of their timestamps and, for equal timestamps, in the order of the
    dashboard; a point counts the records of its dataset, so the points add
    up to all records; and a label has at most 23 characters. *)
Theorem timeChartData_points (datasets : list Dataset) :
  exists sorted : list Dataset,
    sorted ≡ₚ datasets
    /\ StronglySorted (fun a b => (timestamp a <= timestamp b)%Z) sorted
    /\ (forall t : Z, List.filter (fun d => (timestamp d =? t)%Z) sorted
                      = List.filter (fun d => (timestamp d =? t)%Z) datasets)
    /\ map ChartSection.point_count (ChartSection.timeChartData datasets)
       = map (fun d => List.length (blockers d)) sorted
    /\ map ChartSection.label (ChartSection.timeChartData datasets)
       = map (fun d => shorten 20 (name d)) sorted
    /\ Forall (fun point => String.length (ChartSection.label point) <= 23
                            /\ ChartSection.point_name point <> EmptyString)
              (ChartSection.timeChartData datasets)
    /\ list_sum (map ChartSection.point_count (ChartSection.timeChartData datasets))
       = List.length (Dashboard.allBlockers datasets).
Proof.
  exists (sort (fun a b => (timestamp a - timestamp b)%Z) datasets).
  split; [apply sort_perm|]. split; [apply (sort_sorted timestamp)|].
  split; [intros t; apply (sort_stable timestamp)|].
  unfold ChartSection.timeChartData. cbv zeta. rewrite !map_map. cbn [ChartSection.point_count
    ChartSection.label]. split; [reflexivity|]. split; [reflexivity|]. split.
  - apply Forall_forall. intros point Hp. apply list_elem_of_fmap in Hp as (d & -> & _).
    cbn [ChartSection.label ChartSection.point_name]. split.
    + apply (shorten_length 20).
    + now apply or_text_truthy.
  - unfold Dashboard.allBlockers. rewrite length_flat_map.
    apply Permutation_list_sum, Permutation_map, sort_perm.
Qed.

(** X27.  The chart of the URLs, when no URL is the name of a property that
    objects inherit: at most ten bars, one URL each and no URL twice; the
    count of a bar is the number of records of that URL; the bars come by
    decreasing count; and a URL without a bar has no more records than any
    URL with one. *)
Theorem urlChartData_top (aggregatedData : list Blocker) :
  plain_keys url_key aggregatedData ->
  exists bars : list (string * Z),
    ChartSection.urlChartData aggregatedData = Some bars
    /\ List.length bars
       = Nat.min 10 (List.length (from (map url_key aggregatedData)))
    /\ NoDup (map fst bars)
    /\ Forall (fun bar => fst bar ∈ map url_key aggregatedData
                          /\ snd bar = occurrences url_key (fst bar) aggregatedData)
              bars
    /\ StronglySorted (fun a b => (snd b <= snd a)%Z) bars
    /\ (forall key, key ∈ map url_key aggregatedData -> key ∉ map fst bars ->
                    Forall (fun bar => (occurrences url_key key aggregatedData
                                        <= snd bar)%Z) bars).
Proof.
  intros Hp. destruct (count_loop_counts url_key aggregatedData Hp)
    as (grouped & E & Hnd & Hkeys & Hel).
  assert (Eu : ChartSection.urlChartData aggregatedData
               = (grouped ← count_loop url_key aggregatedData (Some []);
                  Some (slice0 10 (sort (fun a b => snd b - snd a)%Z (entries grouped)))))
    by reflexivity.
  rewrite Eu, E. cbn [mbind option_bind]. eexists. split; [reflexivity|].
  pose proof (entries_perm grouped Hnd) as Hperm.
  destruct (top_bars snd (entries grouped)) as (Hsub & Hin & Hlen & Hsorted & Hdom).
  split; [|split; [|split; [|split]]].
  - rewrite Hlen, (Permutation_length Hperm), <- Hkeys. now rewrite length_map.
  - apply (NoDup_sublist_keys fst _ _ grouped Hsub); [|exact Hnd].
    now rewrite sort_perm.
  - apply Forall_forall. intros [key n] Hbar. cbn [fst snd].
    apply Hin in Hbar. rewrite Hperm in Hbar. now apply Hel.
  - exact Hsorted.
  - intros key Hkey Hnot.
    assert (Hk : (key, occurrences url_key key aggregatedData) ∈ entries grouped).
    { rewrite Hperm. now apply Hel. }
    apply (Hdom _ Hk). intros Hbar. apply Hnot. apply list_elem_of_fmap.
    now exists (key, occurrences url_key key aggregatedData).
Qed.

Lemma urlChartData_top_witness :
  exists bars : list (string * Z),
    ChartSection.urlChartData rows = Some bars
    /\ List.length bars = Nat.min 10 (List.length (from (map url_key rows)))
    /\ NoDup (map fst bars)
    /\ Forall (fun bar => fst bar ∈ map url_key rows
                          /\ snd bar = occurrences url_key (fst bar) rows)
              bars
    /\ StronglySorted (fun a b => (snd b <= snd a)%Z) bars
    /\ (forall key, key ∈ map url_key rows -> key ∉ map fst bars ->
                    Forall (fun bar => (occurrences url_key key rows <= snd bar)%Z) bars).
Proof.
  apply (urlChartData_top rows). repeat constructor.
Defined.

(** X28.  The chart of the messages, when no rule is the name of a property
    that objects inherit: at most ten bars, one rule each and no rule twice;
    the rule of a record is the rule that [parseMessages] gives to the first
    part of its first message, or [Unknown Issue]; the count of a bar is the
    number of records of its rule; the bars come by decreasing count; the
    name shown is the rule cut after 50 characters; and a rule without a bar
    has no more records than any rule with one. *)
Theorem messageChartData_top (aggregatedData : list Blocker) :
  plain_keys ChartSection.chart_rule aggregatedData ->
  exists bars : list ChartSection.Bar,
    ChartSection.messageChartData aggregatedData = Some bars
    /\ List.length bars
       = Nat.min 10 (List.length (from (map ChartSection.chart_rule aggregatedData)))
    /\ NoDup (map ChartSection.fullName bars)
    /\ Forall (fun bar =>
                 ChartSection.fullName bar ∈ map ChartSection.chart_rule aggregatedData
                 /\ ChartSection.fullName bar <> EmptyString
                 /\ ChartSection.count bar
                    = occurrences ChartSection.chart_rule (ChartSection.fullName bar)
                                  aggregatedData
                 /\ ChartSection.bar_name bar = shorten 50 (ChartSection.fullName bar)
                 /\ String.length (ChartSection.bar_name bar) <= 53)
              bars
    /\ StronglySorted (fun a b => (ChartSection.count b <= ChartSection.count a)%Z) bars
    /\ (forall rule, rule ∈ map ChartSection.chart_rule aggregatedData ->
                     rule ∉ map ChartSection.fullName bars ->
                     Forall (fun bar => (occurrences ChartSection.chart_rule rule
                                                     aggregatedData
                                         <= ChartSection.count bar)%Z) bars).
Proof.
  intros Hp. destruct (count_loop_counts ChartSection.chart_rule aggregatedData Hp)
    as (grouped & E & Hnd & Hkeys & Hel).
  set (bar_of := fun e : string * Z =>
                   {| ChartSection.bar_name := shorten 50 (fst e);
                      ChartSection.fullName := fst e;
                      ChartSection.count := snd e |}).
  assert (Em : ChartSection.messageChartData aggregatedData
               = (grouped ← count_loop ChartSection.chart_rule aggregatedData (Some []);
                  Some (slice0 10 (sort (fun a b => ChartSection.count b
                                                    - ChartSection.count a)%Z
                                        (map bar_of (entries grouped))))))
    by reflexivity.
  rewrite Em, E. cbn [mbind option_bind]. eexists. split; [reflexivity|].
  pose proof (entries_perm grouped Hnd) as Hperm.
  destruct (top_bars ChartSection.count (map bar_of (entries grouped)))
    as (Hsub & Hin & Hlen & Hsorted & Hdom).
  assert (Hbars : map bar_of (entries grouped) ≡ₚ map bar_of grouped)
    by now apply Permutation_map.
  assert (Hfull : map ChartSection.fullName (map bar_of grouped) = map fst grouped)
    by (rewrite map_map; reflexivity).
  split; [|split; [|split; [|split]]].
  - rewrite Hlen, (Permutation_length Hbars), length_map, <- Hkeys.
    now rewrite length_map.
  - apply (NoDup_sublist_keys ChartSection.fullName _ _ (map bar_of grouped) Hsub).
    + now rewrite sort_perm.
    + now rewrite Hfull.
  - apply Forall_forall. intros bar Hbar. apply Hin in Hbar. rewrite Hbars in Hbar.
    apply list_elem_of_fmap in Hbar as ([key n] & -> & Hkn).
    cbn [bar_of ChartSection.fullName ChartSection.count ChartSection.bar_name fst snd].
    apply Hel in Hkn as [Hk ->]. split; [exact Hk|]. split.
    + apply list_elem_of_fmap in Hk as (item & -> & _).
      unfold ChartSection.chart_rule. cbv zeta. now apply or_text_truthy.
    + split; [reflexivity|]. split; [reflexivity | apply (shorten_length 50)].
  - exact Hsorted.
  - intros rule Hrule Hnot.
    assert (Hk : bar_of (rule, occurrences ChartSection.chart_rule rule aggregatedData)
                 ∈ map bar_of (entries grouped)).
    { rewrite Hbars. apply list_elem_of_fmap. eexists. split; [reflexivity|].
      now apply Hel. }
    apply (Hdom _ Hk). intros Hbar. apply Hnot. apply list_elem_of_fmap.
    eexists. split; [|exact Hbar]. reflexivity.
Qed.

Lemma messageChartData_top_witness :
  exists bars : list ChartSection.Bar,
    ChartSection.messageChartData rows = Some bars
    /\ List.length bars
       = Nat.min 10 (List.length (from (map ChartSection.chart_rule rows)))
    /\ NoDup (map ChartSection.fullName bars)
    /\ Forall (fun bar =>
                 ChartSection.fullName bar ∈ map ChartSection.chart_rule rows
                 /\ ChartSection.fullName bar <> EmptyString
                 /\ ChartSection.count bar
                    = occurrences ChartSection.chart_rule (ChartSection.fullName bar) rows
                 /\ ChartSection.bar_name bar = shorten 50 (ChartSection.fullName bar)
                 /\ String.length (ChartSection.bar_name bar) <= 53)
              bars
    /\ StronglySorted (fun a b => (ChartSection.count b <= ChartSection.count a)%Z) bars
    /\ (forall rule, rule ∈ map ChartSection.chart_rule rows ->
                     rule ∉ map ChartSection.fullName bars ->
                     Forall (fun bar => (occurrences ChartSection.chart_rule rule rows
                                         <= ChartSection.count bar)%Z) bars).
Proof.
  apply (messageChartData_top rows). apply (bool_decide_unpack _). vm_compute. exact I.
Defined.

End ViewProperties.

Module ChartProperties.
Import JsString Json DataManager JsData View.
Import StringFacts JsonFacts StoreNotions StoreFacts IdNotions IdFacts.
Import SortFacts ObjectFacts SetFacts ViewNotions GroupFacts ViewFacts TableFacts ViewExample.
Import ChartNotions ChartFacts.

(** X29.  The chart of the messages and the table by message agree.  When no
    message and no rule is the name of a property that objects inherit, the
    rows of a group of the table are all counted under the rule of the title
    of the group, and the count of a bar is the number of rows of the groups
    whose title has the rule of the bar; and when the chart has fewer than
    ten bars, the rule of every group has its bar. *)
Theorem messageChartData_counts_groups (data : list Blocker) :
  plain_keys (TableSection.group_key TableSection.by_message) data ->
  plain_keys ChartSection.chart_rule data ->
  exists (groups : list (string * list Blocker)) (bars : list ChartSection.Bar),
    TableSection.groupedData TableSection.by_message data = Returns groups
    /\ ChartSection.messageChartData data = Some bars
    /\ Forall (fun group =>
                 Forall (fun item => ChartSection.chart_rule item = header_rule (fst group))
                        (snd group))
              groups
    /\ Forall (fun bar =>
                 ChartSection.count bar
                 = Z.of_nat (rows_of_rule (ChartSection.fullName bar) groups))
              bars
    /\ Forall (fun group =>
                 List.length bars < 10 ->
                 header_rule (fst group) ∈ map ChartSection.fullName bars)
              groups.
Proof.
  intros Hkeys Hrules.
  destruct (group_loop_grouping _ data [] [] (grouping_nil _) Hkeys) as (groups & Eg & Hg).
  cbn [app] in Hg. destruct (grouping_groups _ _ _ Hg) as [Hnd Hel].
  destruct (count_loop_counts ChartSection.chart_rule data Hrules)
    as (grouped & E & Hndc & Hkc & Helc).
  set (bar_of := fun e : string * Z =>
                   {| ChartSection.bar_name := shorten 50 (fst e);
                      ChartSection.fullName := fst e;
                      ChartSection.count := snd e |}).
  assert (Em : ChartSection.messageChartData data
               = (grouped ← count_loop ChartSection.chart_rule data (Some []);
                  Some (slice0 10 (sort (fun a b => ChartSection.count b
                                                    - ChartSection.count a)%Z
                                        (map bar_of (entries grouped))))))
    by reflexivity.
  assert (Egd : TableSection.groupedData TableSection.by_message data = Returns groups)
    by exact Eg.
  exists groups. eexists. split; [exact Egd|]. rewrite Em, E. cbn [mbind option_bind].
  split; [reflexivity|].
  assert (Hsame : Forall (fun group =>
                            Forall (fun item => ChartSection.chart_rule item
                                                = header_rule (fst group)) (snd group))
                         groups).
  { apply Forall_forall. intros [key items] Hin. cbn [fst snd].
    apply Hel in Hin as [_ ->]. apply Forall_forall. intros item Hitem.
    apply with_key_elem in Hitem as [_ <-]. apply chart_rule_header. }
  pose proof (entries_perm grouped Hndc) as Hperm.
  destruct (top_bars ChartSection.count (map bar_of (entries grouped)))
    as (Hsub & Hin & Hlen & _ & _).
  assert (Hcount : forall rule, occurrences ChartSection.chart_rule rule data
                                = Z.of_nat (rows_of_rule rule groups)).
  { intros rule. unfold occurrences. f_equal. rewrite <- (rule_rows rule groups Hsame).
    unfold with_key. apply length_filter_perm. symmetry.
    apply (groupedData_perm _ _ _ Egd). }
  split; [exact Hsame|]. split.
  - apply Forall_forall. intros bar Hbar. apply Hin in Hbar.
    apply list_elem_of_fmap in Hbar as ([key n] & -> & Hkn).
    cbn [bar_of ChartSection.fullName ChartSection.count fst snd].
    rewrite Hperm in Hkn. apply Helc in Hkn as [_ ->]. apply Hcount.
  - apply Forall_forall. intros [key items] Hgroup Hfew. cbn [fst].
    apply Hel in Hgroup as [Hkey ->].
    apply list_elem_of_fmap in Hkey as (item & -> & Hitem).
    rewrite <- chart_rule_header.
    assert (Hall : slice0 10 (sort (fun a b => (ChartSection.count b
                                                 - ChartSection.count a)%Z)
                                   (map bar_of (entries grouped)))
                   = sort (fun a b => (ChartSection.count b - ChartSection.count a)%Z)
                          (map bar_of (entries grouped))).
    { unfold slice0. apply firstn_all2.
      rewrite (Permutation_length (sort_perm _ _)). rewrite Hlen in Hfew. lia. }
    rewrite Hall, sort_perm, map_map. cbn [bar_of ChartSection.fullName].
    apply list_elem_of_fmap.
    exists (ChartSection.chart_rule item,
            occurrences ChartSection.chart_rule (ChartSection.chart_rule item) data).
    split; [reflexivity|]. rewrite Hperm. apply Helc. split; [|reflexivity].
    apply list_elem_of_fmap. now exists item.
Qed.

Lemma messageChartData_counts_groups_witness :
  exists (groups : list (string * list Blocker)) (bars : list ChartSection.Bar),
    TableSection.groupedData TableSection.by_message rows = Returns groups
    /\ ChartSection.messageChartData rows = Some bars
    /\ Forall (fun group =>
                 Forall (fun item => ChartSection.chart_rule item = header_rule (fst group))
                        (snd group))
              groups
    /\ Forall (fun bar =>
                 ChartSection.count bar
                 = Z.of_nat (rows_of_rule (ChartSection.fullName bar) groups))
              bars
    /\ Forall (fun group =>
                 List.length bars < 10 ->
                 header_rule (fst group) ∈ map ChartSection.fullName bars)
              groups.
Proof.
  apply (messageChartData_counts_groups rows).
  - repeat constructor.
  - apply (bool_decide_unpack _). vm_compute. exact I.
Defined.

(** X30.  The chart that compares the datasets.  When no URL is the name of
    a property that objects inherit, and the ids of the datasets are distinct
    and none is [name], [displayName] or [__proto__], the chart has one row
    for each bar of the chart of the URLs, in the same order; a row holds,
    for each dataset, the number of all records of the dataset at the URL of
    the row.  On the dashboard, where the URLs are ranked by the active
    records only, the count of a URL is at most the sum of its row, and equal
    to it when no id is ignored. *)
Theorem urlChartData_by_dataset (aggregatedData : list Blocker) (datasets : list Dataset) :
  plain_keys url_key aggregatedData ->
  NoDup (map ds_id datasets) ->
  Forall (fun ds => ds_id ds ∉ row_labels) datasets ->
  exists (rows : list (list (string * ChartSectionCompared.cell)))
         (bars : list (string * Z)),
    ChartSectionCompared.urlChartData aggregatedData datasets = Some rows
    /\ ChartSection.urlChartData aggregatedData = Some bars
    /\ Forall2 (fun row bar =>
                  own row "name" = Some (ChartSectionCompared.Text (fst bar))
                  /\ own row "displayName"
                     = Some (ChartSectionCompared.Text
                               (ChartSectionCompared.displayName (fst bar)))
                  /\ Forall (fun ds =>
                               own row (ds_id ds)
                               = Some (ChartSectionCompared.Count
                                         (occurrences View.url (fst bar) (blockers ds))))
                            datasets)
               rows bars
    /\ (forall ignoredIds : list json,
           aggregatedData
           = Dashboard.activeData (Dashboard.allBlockers datasets) ignoredIds ->
           Forall (fun bar =>
                     fst bar <> "Unknown URL" ->
                     (snd bar <= Z.of_nat (records_at (fst bar) datasets))%Z
                     /\ (ignoredIds = [] ->
                         snd bar = Z.of_nat (records_at (fst bar) datasets)))
                  bars).
Proof.
  intros Hp Hnd Hids.
  destruct (count_loop_counts url_key aggregatedData Hp)
    as (grouped & E & Hndc & Hkc & Helc).
  set (bars := slice0 10 (sort (fun a b => (snd b - snd a)%Z) (entries grouped))).
  assert (Eu : ChartSection.urlChartData aggregatedData
               = (grouped ← count_loop url_key aggregatedData (Some []);
                  Some (slice0 10 (sort (fun a b => snd b - snd a)%Z (entries grouped)))))
    by reflexivity.
  assert (Et : ChartSectionCompared.topUrls aggregatedData
               = (grouped ← count_loop url_key aggregatedData (Some []);
                  Some (map fst (slice0 10 (sort (fun a b => snd b - snd a)%Z
                                                 (entries grouped))))))
    by reflexivity.
  unfold ChartSectionCompared.urlChartData. rewrite Et, Eu, E. cbn [mbind option_bind].
  fold bars. eexists. exists bars. split; [reflexivity|]. split; [reflexivity|].
  assert (Hproto : Forall (fun ds => ds_id ds <> "__proto__") datasets).
  { eapply Forall_impl; [exact Hids|]. cbn. intros ds Hds Heq. apply Hds.
    rewrite Heq. apply (bool_decide_unpack _). vm_compute. exact I. }
  assert (Hlabel : forall key, key = "name" \/ key = "displayName" ->
                               key ∉ map ds_id datasets).
  { intros key Hkey Hin. apply list_elem_of_fmap in Hin as (ds & -> & Hds).
    rewrite Forall_forall in Hids. apply (Hids _ Hds). unfold row_labels.
    destruct Hkey as [-> | ->]; apply (bool_decide_unpack _); vm_compute; exact I. }
  split.
  - rewrite map_map. apply Forall2_fmap_l, Forall_Forall2_diag, Forall_forall.
    intros bar _. cbn [compose].
    destruct (fold_assign
                (fun ds => occurrences View.url (fst bar) (blockers ds)) datasets
                [("name", ChartSectionCompared.Text (fst bar));
                 ("displayName",
                  ChartSectionCompared.Text (ChartSectionCompared.displayName (fst bar)))]
                Hnd Hproto) as [Hall Hother].
    split; [|split].
    + exact (Hother "name" (Hlabel _ (or_introl eq_refl))).
    + exact (Hother "displayName" (Hlabel _ (or_intror eq_refl))).
    + exact Hall.
  - intros ignoredIds Hagg. apply Forall_forall. intros [u n] Hbar Hu. cbn [fst snd] in *.
    destruct (top_bars snd (entries grouped)) as (_ & Hin & _).
    apply Hin in Hbar. rewrite (entries_perm grouped Hndc) in Hbar.
    apply Helc in Hbar as [Hkey ->]. rewrite records_at_all. unfold occurrences.
    assert (Hne : u <> EmptyString).
    { apply list_elem_of_fmap in Hkey as (item & -> & _).
      now apply or_text_truthy. }
    split.
    + apply inj_le. rewrite Hagg. unfold with_key, Dashboard.activeData.
      rewrite filter_filter_comm. apply length_filter_le. intros item Hitem.
      apply andb_true_iff in Hitem as [_ Hitem]. apply String.eqb_eq in Hitem.
      apply String.eqb_eq. now apply url_key_url.
    + intros ->. f_equal. rewrite Hagg. unfold with_key, Dashboard.activeData.
      rewrite filter_filter_comm. f_equal. apply List.filter_ext. intros item.
      cbn [includes_id existsb negb andb].
      destruct (String.eqb_spec (View.url item) u) as [Hurl|Hurl].
      * apply String.eqb_eq. now apply url_url_key.
      * apply String.eqb_neq. intros Hk. apply Hurl. now apply url_key_url.
Qed.

Lemma urlChartData_by_dataset_witness :
  exists (rows' : list (list (string * ChartSectionCompared.cell)))
         (bars : list (string * Z)),
    ChartSectionCompared.urlChartData (Dashboard.allBlockers reports) reports = Some rows'
    /\ ChartSection.urlChartData (Dashboard.allBlockers reports) = Some bars
    /\ Forall2 (fun row bar =>
                  own row "name" = Some (ChartSectionCompared.Text (fst bar))
                  /\ own row "displayName"
                     = Some (ChartSectionCompared.Text
                               (ChartSectionCompared.displayName (fst bar)))
                  /\ Forall (fun ds =>
                               own row (ds_id ds)
                               = Some (ChartSectionCompared.Count
                                         (occurrences View.url (fst bar) (blockers ds))))
                            reports)
               rows' bars
    /\ (forall ignoredIds : list json,
           Dashboard.allBlockers reports
           = Dashboard.activeData (Dashboard.allBlockers reports) ignoredIds ->
           Forall (fun bar =>
                     fst bar <> "Unknown URL" ->
                     (snd bar <= Z.of_nat (records_at (fst bar) reports))%Z
                     /\ (ignoredIds = [] ->
                         snd bar = Z.of_nat (records_at (fst bar) reports)))
                  bars).
Proof.
  apply (urlChartData_by_dataset (Dashboard.allBlockers reports) reports).
  - apply (bool_decide_unpack _). vm_compute. exact I.
  - apply (bool_decide_unpack _). vm_compute. exact I.
  - apply (bool_decide_unpack _). vm_compute. exact I.
Defined.

End ChartProperties.
